(** * run_squad_zh: document windowing, span alignment and prediction
      aggregation

    A shallow embedding of the data-preparation and post-processing
    functions of [examples/run_squad_zh.py]:

    - [read_squad_examples]            (module [Loader]; on records whose
                                        keys may be absent, module [Json]),
    - the sliding-window loop of
      [convert_examples_to_features]   (module [Windows]),
    - [_check_is_max_context]          (module [MaxContext]),
    - [_improve_answer_span]           (module [SpanAligner]),
    - [convert_examples_to_features]   (module [Builder]),
    - [write_predictions]              (module [Aggregator]),
    - [get_final_text]                 (module [TextProjection]),
    - [warmup_linear]                  (module [Schedule]).

    Python integers are [Z]; Python floats are the rationals they denote,
    the arithmetic of [_check_is_max_context] and [write_predictions]
    rounded to binary64 (module [Float64]); Python strings are lists of code points; dictionaries keyed by token
    position are [gmap Z _], an [OrderedDict] is an association list in
    insertion order; exceptions are values of [exn] carried by the [res]
    type. *)

From Stdlib Require Import ZArith QArith Qpower Qround Lia String Ascii.
From stdpp Require Import base list gmap.

Local Open Scope Z_scope.

(** ** Python values and built-ins used by the script *)

Module Py.

(** A Python [str]: the sequence of its code points. *)
Definition str : Type := list N.

(** A string literal. *)
Definition lit (s : string) : str :=
  List.map N_of_ascii (list_ascii_of_string s).

(** [len(l)] *)
Definition len {A} (l : list A) : Z := Z.of_nat (List.length l).

(** The exceptions the modelled code can raise. *)
Inductive exn : Type :=
| ValueError
| IndexError
| KeyError
| TypeError
| AttributeError
| AssertionError.

(** Outcome of a computation that may raise. *)
Inductive res (A : Type) : Type :=
| Ok (a : A)
| Raise (e : exn).
Arguments Ok {A} a.
Arguments Raise {A} e.

Definition bind {A B} (m : res A) (k : A -> res B) : res B :=
  match m with
  | Ok a => k a
  | Raise e => Raise e
  end.

Notation "'letr' x ':=' m 'in' k" := (bind m (fun x => k))
  (at level 10, x name, m at level 100, k at level 200).

(** Reading a field that holds [None] where an [int] or [str] is needed. *)
Definition require {A} (o : option A) : res A :=
  match o with
  | Some a => Ok a
  | None => Raise TypeError
  end.

(** [assert c] *)
Definition assert (c : bool) : res unit :=
  if c then Ok tt else Raise AssertionError.

(** A [for] loop threading a state through a body that may raise. *)
Fixpoint for_fold {S A} (body : S -> A -> res S) (l : list A) (st : S)
    : res S :=
  match l with
  | [] => Ok st
  | x :: rest => letr st' := body st x in for_fold body rest st'
  end.

(** A [for] loop over [l] whose body may raise, collecting results. *)
Fixpoint for_each {A B} (body : A -> res (list B)) (l : list A)
    : res (list B) :=
  match l with
  | [] => Ok []
  | x :: rest =>
      letr ys := body x in
      letr zs := for_each body rest in
      Ok (ys ++ zs)
  end.

(** [l[i]] on a list: negative indices count from the end, anything out of
    range raises [IndexError]. *)
Definition index {A} (l : list A) (i : Z) : res A :=
  let i' := if i <? 0 then i + len l else i in
  if i' <? 0 then Raise IndexError
  else match l !! Z.to_nat i' with
       | Some a => Ok a
       | None => Raise IndexError
       end.

(** Normalisation of a slice bound, as [slice.indices] does. *)
Definition clamp (n i : Z) : Z :=
  let i' := if i <? 0 then i + n else i in
  if i' <? 0 then 0 else if i' >? n then n else i'.

(** [l[lo:hi]] *)
Definition slice {A} (l : list A) (lo hi : Z) : list A :=
  let lo' := clamp (len l) lo in
  let hi' := clamp (len l) hi in
  take (Z.to_nat (hi' - lo')) (drop (Z.to_nat lo') l).

(** [sep.join(l)] *)
Fixpoint join (sep : str) (l : list str) : str :=
  match l with
  | [] => []
  | [x] => x
  | x :: rest => x ++ sep ++ join sep rest
  end.

Definition space : str := [32%N].

(** [range(a, b)] *)
Definition range (a b : Z) : list Z :=
  List.map (fun i => a + Z.of_nat i) (seq 0 (Z.to_nat (b - a))).

(** [range(a, b, -1)] *)
Definition range_down (a b : Z) : list Z :=
  List.map (fun i => a - Z.of_nat i) (seq 0 (Z.to_nat (a - b))).

(** [enumerate(l)] *)
Definition enumerate {A} (l : list A) : list (nat * A) :=
  combine (seq 0 (List.length l)) l.

(** [c.isspace()] *)
Definition isspace (c : N) : bool :=
  ((9 <=? c) && (c <=? 13) || (28 <=? c) && (c <=? 32)
   || (c =? 133) || (c =? 160) || (c =? 5760)
   || (8192 <=? c) && (c <=? 8202) || (c =? 8232) || (c =? 8233)
   || (c =? 8239) || (c =? 8287) || (c =? 12288))%N%bool.

Fixpoint is_prefix (p s : str) : bool :=
  match p, s with
  | [], _ => true
  | _ :: _, [] => false
  | a :: p', b :: s' => (N.eqb a b && is_prefix p' s')%bool
  end.

Fixpoint replace_from (old new : str) (skip : nat) (s : str) : str :=
  match s with
  | [] => []
  | c :: rest =>
      match skip with
      | S k => replace_from old new k rest
      | O =>
          if is_prefix old s
          then new ++ replace_from old new (List.length old - 1) rest
          else c :: replace_from old new 0 rest
      end
  end.

(** [s.replace(old, new)] for a non-empty [old]. *)
Definition replace (old new s : str) : str := replace_from old new 0 s.

Fixpoint lstrip (s : str) : str :=
  match s with
  | [] => []
  | c :: rest => if isspace c then lstrip rest else s
  end.

(** [s.strip()] *)
Definition strip (s : str) : str :=
  List.rev (lstrip (List.rev (lstrip s))).

Fixpoint split_from (cur : str) (s : str) : list str :=
  match s with
  | [] => match cur with [] => [] | _ => [cur] end
  | c :: rest =>
      if isspace c then
        match cur with
        | [] => split_from [] rest
        | _ => cur :: split_from [] rest
        end
      else split_from (cur ++ [c]) rest
  end.

(** [s.split()] *)
Definition split (s : str) : list str := split_from [] s.

End Py.

Import Py.

(** ** Python floats *)

(** A finite Python [float] is modelled by its exact value, a rational
    number; every arithmetic result is rounded to the nearest binary64
    number (53 significant bits, last bit not below [2^-1074], ties to
    the even significand).  Comparisons of floats, and of a float with an
    [int], compare the exact values, as Python does.  Infinities and
    NaN have no value here: the model covers computations that stay
    below [2^1024] in magnitude. *)
Module Float64.

(** [floor(log2(n / d))] *)
Definition log2_floor (n d : positive) : Z :=
  let k := Z.log2 (Z.pos n) - Z.log2 (Z.pos d) in
  if Z.pos d * 2 ^ Z.max 0 k <=? Z.pos n * 2 ^ Z.max 0 (- k)
  then k else k - 1.

(** The integer nearest to [a / b] for a positive [b]; of two nearest
    ones, the even one. *)
Definition nearest_even (a b : Z) : Z :=
  let f := a / b in
  match Z.compare (2 * (a mod b)) b with
  | Lt => f
  | Gt => f + 1
  | Eq => if Z.even f then f else f + 1
  end.

(** The binary64 number nearest to [n / d]: the significand is the
    nearest integer to [(n / d) / 2^e], where [2^e] is the weight of the
    last of 53 bits, or [2^-1074] for a subnormal number. *)
Definition round_pos (n d : positive) : Q :=
  let e := Z.max (-1074) (log2_floor n d - 52) in
  let m := nearest_even (Z.pos n * 2 ^ Z.max 0 (- e))
             (Z.pos d * 2 ^ Z.max 0 e) in
  Qred (if 0 <=? e then inject_Z (m * 2 ^ e)
        else m # Z.to_pos (2 ^ (- e))).

Definition round64 (q : Q) : Q :=
  match Qnum q with
  | Z0 => 0%Q
  | Z.pos n => round_pos n (Qden q)
  | Z.neg n => (- round_pos n (Qden q))%Q
  end.

(** [x + y], [x - y], [x * y] and [x / y] on floats; a zero divisor,
    where Python raises [ZeroDivisionError], gives 0. *)
Definition add (x y : Q) : Q := round64 (x + y).
Definition sub (x y : Q) : Q := round64 (x - y).
Definition mul (x y : Q) : Q := round64 (x * y).
Definition div (x y : Q) : Q := round64 (x / y).

(** [float(z)] for an [int], as in [z + x] and [x * z]. *)
Definition of_int (z : Z) : Q := round64 (inject_Z z).

(** The literal [0.01]. *)
Definition c001 : Q := round64 (1 # 100).

End Float64.

(** ** Document spans *)

Module DocSpan.
(** [collections.namedtuple("DocSpan", ["start", "length"])] *)
Record t : Type := mk { start : Z; length : Z }.

(** Index of the last document subword of the span. *)
Definition last (s : t) : Z := start s + length s - 1.

(** [position] lies in the slice of the span. *)
Definition covers (s : t) (position : Z) : bool :=
  negb (position <? start s) && negb (position >? last s).

(** Number of document positions two spans have in common. *)
Definition overlap (a b : t) : Z :=
  Z.max 0 (Z.min (last a) (last b) - Z.max (start a) (start b) + 1).
End DocSpan.

#[global] Instance DocSpan_eq_dec : EqDecision DocSpan.t.
Proof. solve_decision. Defined.

(** ** The sliding-window loop (lines 369-378) *)

Module Windows.

(** What one evaluation of the loop test and body does. *)
Inductive step : Type :=
| Exit                                        (* the [while] test fails *)
| Break (span : DocSpan.t)                    (* span appended, [break] *)
| Continue (span : DocSpan.t) (start_offset : Z).  (* span appended, next *)

Section Loop.
(** [n] is [len(all_doc_tokens)]. *)
Variables (n max_tokens_for_doc doc_stride : Z).

Definition window_step (start_offset : Z) : step :=
  if start_offset <? n then
    let length := n - start_offset in
    let length :=
      if length >? max_tokens_for_doc then max_tokens_for_doc else length in
    let span := DocSpan.mk start_offset length in
    if start_offset + length =? n then Break span
    else Continue span (start_offset + Z.min length doc_stride)
  else Exit.

(** The [while] loop, run for at most [fuel] evaluations of its test;
    [None] when the fuel does not suffice. *)
Fixpoint window_loop (fuel : nat) (start_offset : Z)
    (doc_spans : list DocSpan.t) : option (list DocSpan.t) :=
  match fuel with
  | O => None
  | S fuel' =>
      match window_step start_offset with
      | Exit => Some doc_spans
      | Break span => Some (doc_spans ++ [span])
      | Continue span start_offset' =>
          window_loop fuel' start_offset' (doc_spans ++ [span])
      end
  end.

(** [doc_spans = []; start_offset = 0; while ...] *)
Definition doc_spans_loop (fuel : nat) : option (list DocSpan.t) :=
  window_loop fuel 0 [].

(** Fuel that suffices whenever the loop makes progress. *)
Definition enough_fuel : nat := S (Z.to_nat n).

(** The spans a finished run appends from [start_offset = s] on: the
    three ways one round can go. *)
Inductive chain : Z -> list DocSpan.t -> Prop :=
| chain_exit s : n <= s -> chain s []
| chain_break s :
    s < n -> n - s <= max_tokens_for_doc ->
    chain s [DocSpan.mk s (n - s)]
| chain_cont s rest :
    s < n -> max_tokens_for_doc < n - s ->
    chain (s + Z.min max_tokens_for_doc doc_stride) rest ->
    chain s (DocSpan.mk s max_tokens_for_doc :: rest).
End Loop.

End Windows.

(** ** The max-context resolver (lines 525-559) *)

Module MaxContext.

(** [min(num_left_context, num_right_context) + 0.01 * doc_span.length]:
    the product of the float [0.01] and the length, then the sum with the
    smaller context, both in binary64. *)
Definition score (doc_span : DocSpan.t) (position : Z) : Q :=
  let end_ := DocSpan.start doc_span + DocSpan.length doc_span - 1 in
  let num_left_context := position - DocSpan.start doc_span in
  let num_right_context := end_ - position in
  Float64.add
    (Float64.of_int (Z.min num_left_context num_right_context))
    (Float64.mul Float64.c001 (Float64.of_int (DocSpan.length doc_span))).

(** [score > best_score] *)
Definition Qgtb (x y : Q) : bool := negb (Qle_bool x y).

(** The loop state: [(best_score, best_span_index)]. *)
Definition best : Type := (option Q * option nat)%type.

Definition visit (position : Z) (b : best) (span_index : nat)
    (doc_span : DocSpan.t) : best :=
  let end_ := DocSpan.start doc_span + DocSpan.length doc_span - 1 in
  if position <? DocSpan.start doc_span then b
  else if position >? end_ then b
  else
    let score := score doc_span position in
    match fst b with
    | None => (Some score, Some span_index)
    | Some best_score =>
        if Qgtb score best_score then (Some score, Some span_index) else b
    end.

(** [for (span_index, doc_span) in enumerate(doc_spans)], from index
    [span_index] on. *)
Fixpoint scan (position : Z) (doc_spans : list DocSpan.t)
    (span_index : nat) (b : best) : best :=
  match doc_spans with
  | [] => b
  | doc_span :: rest =>
      scan position rest (S span_index) (visit position b span_index doc_span)
  end.

Definition _check_is_max_context (doc_spans : list DocSpan.t)
    (cur_span_index : nat) (position : Z) : bool :=
  match snd (scan position doc_spans 0%nat (None, None)) with
  | Some best_span_index => Nat.eqb cur_span_index best_span_index
  | None => false
  end.

(** The integers stay well inside the range in which Python converts an
    [int] to a [float]; beyond it the conversion raises
    [OverflowError]. *)
Definition within_float_range (doc_spans : list DocSpan.t) (position : Z)
    : Prop :=
  Z.abs position < 2 ^ 1000
  /\ List.Forall (fun doc_span =>
                    Z.abs (DocSpan.start doc_span) < 2 ^ 1000
                    /\ Z.abs (DocSpan.length doc_span) < 2 ^ 1000)
       doc_spans.

(** Span [i] covers [position] and attains the largest score among the
    covering spans, no earlier covering span attaining it. *)
Definition first_max (doc_spans : list DocSpan.t) (position : Z) (i : nat)
    : Prop :=
  exists s, doc_spans !! i = Some s
    /\ DocSpan.covers s position = true
    /\ (forall (k : nat) s', doc_spans !! k = Some s' ->
          DocSpan.covers s' position = true ->
          (score s' position <= score s position)%Q)
    /\ (forall (k : nat) s', (k < i)%nat -> doc_spans !! k = Some s' ->
          DocSpan.covers s' position = true ->
          (score s' position < score s position)%Q).

(** Span [i] covers [position] and its score is strictly larger than that
    of every other covering span. *)
Definition strict_max (doc_spans : list DocSpan.t) (position : Z) (i : nat)
    : Prop :=
  exists s, doc_spans !! i = Some s
    /\ DocSpan.covers s position = true
    /\ (forall (k : nat) s', k <> i -> doc_spans !! k = Some s' ->
          DocSpan.covers s' position = true ->
          (score s' position < score s position)%Q).

(** What the loop state says about the spans visited so far. *)
Definition summarises (position : Z) (visited : list DocSpan.t) (b : best)
    : Prop :=
  match b with
  | (None, None) =>
      forall (k : nat) s', visited !! k = Some s' ->
        DocSpan.covers s' position = false
  | (Some best_score, Some best_span_index) =>
      first_max visited position best_span_index
      /\ exists s, visited !! best_span_index = Some s
                   /\ best_score = score s position
  | _ => False
  end.

End MaxContext.

(** ** The tokenizer collaborator *)

(** [tokenizer.tokenize] and the vocabulary behind
    [tokenizer.convert_tokens_to_ids]; both belong to the
    [pytorch_pretrained_bert] package and are taken as given. *)
Record Tokenizer : Type := {
  tokenize : str -> list str;
  vocab : str -> Z
}.

Definition convert_tokens_to_ids (tokenizer : Tokenizer)
    (tokens : list str) : list Z :=
  List.map (vocab tokenizer) tokens.

(** ** The span aligner (lines 488-522) *)

Module SpanAligner.

(** A [for] loop whose body may [return]: the first value returned. *)
Fixpoint first_return {A B} (body : A -> option B) (l : list A) : option B :=
  match l with
  | [] => None
  | x :: rest =>
      match body x with
      | Some r => Some r
      | None => first_return body rest
      end
  end.

(** [" ".join(doc_tokens[new_start:(new_end + 1)])] *)
Definition text_span (doc_tokens : list str) (new_start new_end : Z) : str :=
  join space (slice doc_tokens new_start (new_end + 1)).

(** [for new_end in range(input_end, new_start - 1, -1)] *)
Definition inner_loop (doc_tokens : list str) (tok_answer_text : str)
    (input_end new_start : Z) : option (Z * Z) :=
  first_return (fun new_end =>
    if decide (text_span doc_tokens new_start new_end = tok_answer_text)
    then Some (new_start, new_end) else None)
    (range_down input_end (new_start - 1)).

(** [for new_start in range(input_start, input_end + 1)] *)
Definition search (doc_tokens : list str) (tok_answer_text : str)
    (input_start input_end : Z) : option (Z * Z) :=
  first_return (inner_loop doc_tokens tok_answer_text input_end)
    (range input_start (input_end + 1)).

Definition _improve_answer_span (doc_tokens : list str)
    (input_start input_end : Z) (tokenizer : Tokenizer)
    (orig_answer_text : str) : Z * Z :=
  let tok_answer_text := join space (tokenize tokenizer orig_answer_text) in
  match search doc_tokens tok_answer_text input_start input_end with
  | Some r => r
  | None => (input_start, input_end)
  end.

End SpanAligner.

(** ** Examples and the document loader (lines 118-297) *)

Module SquadExample.
Record t : Type := mk {
  qas_id : str;
  question_text : str;
  doc_tokens : list str;
  orig_answer_text : option str;
  start_position : option Z;
  end_position : option Z;
  is_impossible : bool
}.
End SquadExample.

Module Loader.

(** One element of [qa["answers"]], in a file that gives every answer
    its ["answer_end"] and every question its ["is_impossible"]; the
    records of module [Json] are those in which the two keys may be
    missing. *)
Record Answer : Type := {
  text : str;
  answer_start : Z;
  answer_end : Z
}.

(** One element of [paragraph["qas"]]; [qa_is_impossible] is only read for
    version "v2.0" files. *)
Record QA : Type := {
  id : str;
  question : str;
  answers : list Answer;
  qa_is_impossible : bool
}.

Record Paragraph : Type := {
  context : str;
  qas : list QA
}.

Record Entry : Type := { paragraphs : list Paragraph }.

Record Source : Type := {
  version : str;
  data : list Entry
}.

Definition is_whitespace (c : N) : bool :=
  (N.eqb c 32 || N.eqb c 9 || N.eqb c 13 || N.eqb c 10 || N.eqb c 8239)%bool.

(** [doc_tokens[-1] += c] *)
Definition extend_last (doc_tokens : list str) (c : N) : list str :=
  match List.rev doc_tokens with
  | [] => doc_tokens
  | w :: front => List.rev front ++ [w ++ [c]]
  end.

(** State of the segmentation loop:
    [(doc_tokens, char_to_word_offset, prev_is_whitespace)]. *)
Definition seg_state : Type := (list str * list Z * bool)%type.

Definition seg_step (st : seg_state) (c : N) : seg_state :=
  let '(doc_tokens, char_to_word_offset, prev_is_whitespace) := st in
  let '(doc_tokens, prev_is_whitespace) :=
    if is_whitespace c then (doc_tokens, true)
    else
      ((if prev_is_whitespace then doc_tokens ++ [[c]]
        else extend_last doc_tokens c), false) in
  (doc_tokens, char_to_word_offset ++ [len doc_tokens - 1],
   prev_is_whitespace).

Definition segment (paragraph_text : str) : seg_state :=
  fold_left seg_step paragraph_text ([], [], true).

Definition doc_tokens_of (paragraph_text : str) : list str :=
  fst (fst (segment paragraph_text)).

Definition char_to_word_offset_of (paragraph_text : str) : list Z :=
  snd (fst (segment paragraph_text)).

Definition v2 : str := lit "v2.0".

(** The start position the specification describes: the answer's
    [answer_start] read as a character offset and sent through
    [char_to_word_offset]. *)
Definition start_by_char_offset (paragraph_text : str) (answer : Answer)
    : res Z :=
  index (char_to_word_offset_of paragraph_text) (answer_start answer).

(** The body of [for qa in paragraph["qas"]]. *)
Definition read_qa (is_training : bool) (version : str)
    (doc_tokens : list str) (qa : QA) : res SquadExample.t :=
  let qas_id := id qa in
  let question_text := question qa in
  letr gold :=
    if is_training then
      let is_impossible :=
        if decide (version = v2) then qa_is_impossible qa else false in
      if (negb (len (answers qa) =? 1) && negb is_impossible)%bool then
        Raise ValueError
      else if negb is_impossible then
        letr answer := index (answers qa) 0 in
        Ok (Some (text answer), Some (answer_start answer),
            Some (answer_end answer), is_impossible)
      else
        Ok (Some [], Some (-1), Some (-1), is_impossible)
    else Ok (None, None, None, false) in
  let '(orig_answer_text, start_position, end_position, is_impossible) :=
    gold in
  Ok (SquadExample.mk qas_id question_text doc_tokens orig_answer_text
        start_position end_position is_impossible).

Definition read_paragraph (is_training : bool) (version : str)
    (paragraph : Paragraph) : res (list SquadExample.t) :=
  let doc_tokens := doc_tokens_of (context paragraph) in
  for_each (fun qa =>
    letr example := read_qa is_training version doc_tokens qa in
    Ok [example]) (qas paragraph).

Definition read_squad_examples (source : Source) (is_training : bool)
    : res (list SquadExample.t) :=
  for_each (fun entry =>
    for_each (read_paragraph is_training (version source))
      (paragraphs entry)) (data source).

End Loader.

(** ** Features and the window builder (lines 91-116, 300-485) *)

Module InputFeatures.
Record t : Type := mk {
  unique_id : Z;
  example_index : Z;
  doc_span_index : Z;
  tokens : list str;
  token_to_orig_map : gmap Z Z;
  token_is_max_context : gmap Z bool;
  input_ids : list Z;
  input_mask : list Z;
  segment_ids : list Z;
  start_position : option Z;
  end_position : option Z;
  is_impossible : bool
}.
End InputFeatures.

Module Builder.

Definition CLS : str := lit "[CLS]".
Definition SEP : str := lit "[SEP]".

(** State of the re-tokenisation loop:
    [(tok_to_orig_index, orig_to_tok_index, all_doc_tokens)]. *)
Definition retok_state : Type := (list Z * list Z * list str)%type.

Definition retok_step (tokenizer : Tokenizer) (st : retok_state)
    (it : nat * str) : retok_state :=
  let '(tok_to_orig_index, orig_to_tok_index, all_doc_tokens) := st in
  let '(i, token) := it in
  let orig_to_tok_index := orig_to_tok_index ++ [len all_doc_tokens] in
  let sub_tokens := tokenize tokenizer token in
  fold_left (fun (acc : retok_state) sub_token =>
               let '(tok_to_orig_index, orig_to_tok_index, all_doc_tokens) :=
                 acc in
               (tok_to_orig_index ++ [Z.of_nat i], orig_to_tok_index,
                all_doc_tokens ++ [sub_token]))
    sub_tokens (tok_to_orig_index, orig_to_tok_index, all_doc_tokens).

Definition retokenize (tokenizer : Tokenizer) (doc_tokens : list str)
    : retok_state :=
  fold_left (retok_step tokenizer) (enumerate doc_tokens) ([], [], []).

(** Lines 345-358: the gold word span in subword coordinates. *)
Definition project_gold (tokenizer : Tokenizer) (is_training : bool)
    (example : SquadExample.t) (orig_to_tok_index : list Z)
    (all_doc_tokens : list str) : res (option Z * option Z) :=
  if (is_training && SquadExample.is_impossible example)%bool then
    Ok (Some (-1), Some (-1))
  else if (is_training && negb (SquadExample.is_impossible example))%bool then
    letr start_position := require (SquadExample.start_position example) in
    letr tok_start_position := index orig_to_tok_index start_position in
    letr end_position := require (SquadExample.end_position example) in
    letr tok_end_position :=
      if end_position <? len (SquadExample.doc_tokens example) - 1 then
        letr next := index orig_to_tok_index (end_position + 1) in
        Ok (next - 1)
      else Ok (len all_doc_tokens - 1) in
    letr orig_answer_text := require (SquadExample.orig_answer_text example) in
    let '(tok_start_position, tok_end_position) :=
      SpanAligner._improve_answer_span all_doc_tokens tok_start_position
        tok_end_position tokenizer orig_answer_text in
    Ok (Some tok_start_position, Some tok_end_position)
  else Ok (None, None).

(** State of the loop over the document slice of one window:
    [(tokens, token_to_orig_map, token_is_max_context, segment_ids)]. *)
Definition slice_state : Type :=
  (list str * gmap Z Z * gmap Z bool * list Z)%type.

Definition slice_step (doc_spans : list DocSpan.t) (doc_span_index : nat)
    (doc_span : DocSpan.t) (tok_to_orig_index : list Z)
    (all_doc_tokens : list str) (st : slice_state) (i : Z)
    : res slice_state :=
  let '(tokens, token_to_orig_map, token_is_max_context, segment_ids) := st in
  let split_token_index := DocSpan.start doc_span + i in
  letr orig := index tok_to_orig_index split_token_index in
  let token_to_orig_map := <[len tokens := orig]> token_to_orig_map in
  let is_max_context :=
    MaxContext._check_is_max_context doc_spans doc_span_index
      split_token_index in
  let token_is_max_context :=
    <[len tokens := is_max_context]> token_is_max_context in
  letr token := index all_doc_tokens split_token_index in
  Ok (tokens ++ [token], token_to_orig_map, token_is_max_context,
      segment_ids ++ [1]).

(** Lines 421-443: the gold positions inside one window. *)
Definition gold_positions (is_training : bool) (example : SquadExample.t)
    (query_tokens : list str) (doc_span : DocSpan.t)
    (tok_start_position tok_end_position : option Z)
    : res (option Z * option Z) :=
  letr answerable :=
    if (is_training && negb (SquadExample.is_impossible example))%bool then
      letr ex_start := require (SquadExample.start_position example) in
      letr ex_end := require (SquadExample.end_position example) in
      let doc_start := DocSpan.start doc_span in
      let doc_end := DocSpan.start doc_span + DocSpan.length doc_span - 1 in
      let out_of_span :=
        ((ex_start <? doc_start) || (ex_end <? doc_start)
         || (ex_start >? doc_end) || (ex_end >? doc_end))%bool in
      if out_of_span then Ok (Some 0, Some 0)
      else
        let doc_offset := len query_tokens + 2 in
        letr tok_start_position := require tok_start_position in
        letr tok_end_position := require tok_end_position in
        Ok (Some (tok_start_position - doc_start + doc_offset),
            Some (tok_end_position - doc_start + doc_offset))
    else Ok (None, None) in
  if (is_training && SquadExample.is_impossible example)%bool then
    Ok (Some 0, Some 0)
  else Ok answerable.

(** The body of [for (doc_span_index, doc_span) in enumerate(doc_spans)]. *)
Definition build_window (tokenizer : Tokenizer) (max_seq_length : Z)
    (is_training : bool) (example_index : Z) (example : SquadExample.t)
    (query_tokens : list str) (tok_to_orig_index : list Z)
    (all_doc_tokens : list str)
    (tok_start_position tok_end_position : option Z)
    (doc_spans : list DocSpan.t) (unique_id : Z)
    (doc_span_index : nat) (doc_span : DocSpan.t) : res InputFeatures.t :=
  let tokens := [CLS] ++ query_tokens ++ [SEP] in
  let segment_ids := [0] ++ List.map (fun _ => 0) query_tokens ++ [0] in
  letr st :=
    for_fold (slice_step doc_spans doc_span_index doc_span tok_to_orig_index
                all_doc_tokens)
      (range 0 (DocSpan.length doc_span))
      (tokens, ∅, ∅, segment_ids) in
  let '(tokens, token_to_orig_map, token_is_max_context, segment_ids) := st in
  let tokens := tokens ++ [SEP] in
  let segment_ids := segment_ids ++ [1] in
  let input_ids := convert_tokens_to_ids tokenizer tokens in
  let input_mask := List.map (fun _ => 1) input_ids in
  let padding :=
    List.repeat 0 (Z.to_nat (max_seq_length - len input_ids)) in
  let input_ids := input_ids ++ padding in
  let input_mask := input_mask ++ padding in
  let segment_ids := segment_ids ++ padding in
  letr _ := assert (len input_ids =? max_seq_length) in
  letr _ := assert (len input_mask =? max_seq_length) in
  letr _ := assert (len segment_ids =? max_seq_length) in
  letr gold :=
    gold_positions is_training example query_tokens doc_span
      tok_start_position tok_end_position in
  Ok (InputFeatures.mk unique_id example_index (Z.of_nat doc_span_index)
        tokens token_to_orig_map token_is_max_context input_ids input_mask
        segment_ids (fst gold) (snd gold)
        (SquadExample.is_impossible example)).

(** [unique_id] grows by one per window. *)
Fixpoint build_windows (build : Z -> nat -> DocSpan.t -> res InputFeatures.t)
    (unique_id : Z) (spans : list (nat * DocSpan.t))
    : res (list InputFeatures.t) :=
  match spans with
  | [] => Ok []
  | (doc_span_index, doc_span) :: rest =>
      letr feature := build unique_id doc_span_index doc_span in
      letr features := build_windows build (unique_id + 1) rest in
      Ok (feature :: features)
  end.

Definition truncate_query (tokenizer : Tokenizer) (max_query_length : Z)
    (example : SquadExample.t) : list str :=
  let query_tokens := tokenize tokenizer (SquadExample.question_text example) in
  if len query_tokens >? max_query_length
  then slice query_tokens 0 max_query_length
  else query_tokens.

(** The body of [for (example_index, example) in enumerate(examples)];
    [None] when the window loop does not finish within [fuel] rounds. *)
Definition convert_example (fuel : nat) (tokenizer : Tokenizer)
    (max_seq_length doc_stride max_query_length : Z) (is_training : bool)
    (unique_id : Z) (example_index : Z) (example : SquadExample.t)
    : option (res (list InputFeatures.t)) :=
  let query_tokens := truncate_query tokenizer max_query_length example in
  let '(tok_to_orig_index, orig_to_tok_index, all_doc_tokens) :=
    retokenize tokenizer (SquadExample.doc_tokens example) in
  match project_gold tokenizer is_training example orig_to_tok_index
          all_doc_tokens with
  | Raise e => Some (Raise e)
  | Ok (tok_start_position, tok_end_position) =>
      let max_tokens_for_doc := max_seq_length - len query_tokens - 3 in
      match Windows.doc_spans_loop (len all_doc_tokens) max_tokens_for_doc
              doc_stride fuel with
      | None => None
      | Some doc_spans =>
          Some (build_windows
                  (build_window tokenizer max_seq_length is_training
                     example_index example query_tokens tok_to_orig_index
                     all_doc_tokens tok_start_position tok_end_position
                     doc_spans)
                  unique_id (enumerate doc_spans))
      end
  end.

(** The quantities [convert_example] computes on the way, by name. *)
Definition max_tokens_for_doc_of (tokenizer : Tokenizer)
    (max_seq_length max_query_length : Z) (example : SquadExample.t) : Z :=
  max_seq_length - len (truncate_query tokenizer max_query_length example)
  - 3.

Definition all_doc_tokens_of (tokenizer : Tokenizer)
    (example : SquadExample.t) : list str :=
  snd (retokenize tokenizer (SquadExample.doc_tokens example)).

Definition tok_positions_of (tokenizer : Tokenizer) (is_training : bool)
    (example : SquadExample.t) : res (option Z * option Z) :=
  let rt := retokenize tokenizer (SquadExample.doc_tokens example) in
  project_gold tokenizer is_training example (snd (fst rt)) (snd rt).

(** The three padded sequences of a feature all have [max_seq_length]
    entries. *)
Definition fixed_length (max_seq_length : Z) (feature : InputFeatures.t)
    : Prop :=
  len (InputFeatures.input_ids feature) = max_seq_length
  /\ len (InputFeatures.input_mask feature) = max_seq_length
  /\ len (InputFeatures.segment_ids feature) = max_seq_length.

Fixpoint convert_examples (fuel : nat) (tokenizer : Tokenizer)
    (max_seq_length doc_stride max_query_length : Z) (is_training : bool)
    (unique_id : Z) (example_index : nat) (examples : list SquadExample.t)
    : option (res (list InputFeatures.t)) :=
  match examples with
  | [] => Some (Ok [])
  | example :: rest =>
      match convert_example fuel tokenizer max_seq_length doc_stride
              max_query_length is_training unique_id
              (Z.of_nat example_index) example with
      | None => None
      | Some (Raise e) => Some (Raise e)
      | Some (Ok features) =>
          match convert_examples fuel tokenizer max_seq_length doc_stride
                  max_query_length is_training (unique_id + len features)
                  (S example_index) rest with
          | None => None
          | Some (Raise e) => Some (Raise e)
          | Some (Ok more) => Some (Ok (features ++ more))
          end
      end
  end.

Definition convert_examples_to_features (fuel : nat)
    (examples : list SquadExample.t) (tokenizer : Tokenizer)
    (max_seq_length doc_stride max_query_length : Z) (is_training : bool)
    : option (res (list InputFeatures.t)) :=
  convert_examples fuel tokenizer max_seq_length doc_stride max_query_length
    is_training 1000000000 0%nat examples.

End Builder.

(** ** Prediction aggregation (lines 562-836, 935-976) *)

Module RawResult.
(** Scores are floats, each held as the rational number it denotes. *)
Record t : Type := mk {
  unique_id : Z;
  start_logits : list Q;
  end_logits : list Q
}.
End RawResult.

Module PrelimPrediction.
Record t : Type := mk {
  feature_index : Z;
  start_index : Z;
  end_index : Z;
  start_logit : Q;
  end_logit : Q
}.
End PrelimPrediction.

Module NbestPrediction.
Record t : Type := mk {
  text : str;
  start_logit : Q;
  end_logit : Q
}.
End NbestPrediction.

Module Aggregator.

(** [x > y] and [x < y] on scores. *)
Definition Qgtb (x y : Q) : bool := negb (Qle_bool x y).
Definition Qltb (x y : Q) : bool := negb (Qle_bool y x).

(** [sorted(l, key=key, reverse=True)]: stable, largest key first. *)
Fixpoint insert_desc {A} (key : A -> Q) (x : A) (l : list A) : list A :=
  match l with
  | [] => [x]
  | y :: ys =>
      if Qgtb (key y) (key x) then y :: insert_desc key x ys
      else x :: y :: ys
  end.

Definition sorted_desc {A} (key : A -> Q) (l : list A) : list A :=
  fold_right (insert_desc key) [] l.

Definition _get_best_indexes (logits : list Q) (n_best_size : Z) : list Z :=
  let index_and_score := sorted_desc snd (enumerate logits) in
  List.map (fun it : nat * Q => Z.of_nat (fst it))
    (take (Z.to_nat n_best_size) index_and_score).

(** The chain of [continue] tests of lines 662-676: [true] when the pair
    is thrown out. *)
Definition discarded (feature : InputFeatures.t) (max_answer_length : Z)
    (start_index end_index : Z) : bool :=
  if start_index >=? len (InputFeatures.tokens feature) then true
  else if end_index >=? len (InputFeatures.tokens feature) then true
  else if negb (bool_decide
                  (is_Some (InputFeatures.token_to_orig_map feature
                              !! start_index))) then true
  else if negb (bool_decide
                  (is_Some (InputFeatures.token_to_orig_map feature
                              !! end_index))) then true
  else if negb (default false
                  (InputFeatures.token_is_max_context feature
                     !! start_index)) then true
  else if end_index <? start_index then true
  else
    let length := end_index - start_index + 1 in
    if length >? max_answer_length then true
    else false.

(** Lines 657-683: the candidates of one feature, appended to
    [prelim_predictions]. *)
Definition candidates (feature_index : Z) (feature : InputFeatures.t)
    (result : RawResult.t) (max_answer_length : Z)
    (start_indexes end_indexes : list Z)
    (prelim_predictions : list PrelimPrediction.t)
    : res (list PrelimPrediction.t) :=
  for_fold (fun prelim_predictions start_index =>
    for_fold (fun prelim_predictions end_index =>
      if discarded feature max_answer_length start_index end_index
      then Ok prelim_predictions
      else
        letr start_logit := index (RawResult.start_logits result) start_index in
        letr end_logit := index (RawResult.end_logits result) end_index in
        Ok (prelim_predictions ++
              [PrelimPrediction.mk feature_index start_index end_index
                 start_logit end_logit]))
      end_indexes prelim_predictions)
    start_indexes prelim_predictions.

(** What one round of the inner loop appends when both indexes are
    positions of the score arrays. *)
Definition candidate_of (feature_index : Z) (feature : InputFeatures.t)
    (result : RawResult.t) (max_answer_length : Z)
    (start_index end_index : Z) : list PrelimPrediction.t :=
  if discarded feature max_answer_length start_index end_index then []
  else
    match index (RawResult.start_logits result) start_index,
          index (RawResult.end_logits result) end_index with
    | Ok start_logit, Ok end_logit =>
        [PrelimPrediction.mk feature_index start_index end_index
           start_logit end_logit]
    | _, _ => []
    end.

(** [(score_null, min_null_feature_index, null_start_logit,
      null_end_logit)] *)
Definition null_state : Type := (Q * Z * Q * Q)%type.

Definition null_init : null_state := (1000000%Q, 0, 0%Q, 0%Q).

(** What is written for one example: the entry of [all_predictions], the
    entry of [all_nbest_json] and, in version-2 mode, the entry of
    [scores_diff_json]. *)
Inductive prediction : Type :=
| Scored (text : str) (start_logit end_logit : Q)
| Text (text : str).

Record nbest_entry : Type := {
  nb_text : str;
  nb_probability : Q;
  nb_start_logit : Q;
  nb_end_logit : Q
}.

Record output : Type := {
  out_prediction : prediction;
  out_nbest_json : list nbest_entry;
  out_score_diff : option Q
}.

(** [d[key] = value] on an [OrderedDict]: a new key goes to the end, a
    key already there keeps its place and gets the new value. *)
Fixpoint dict_set {V} (d : list (str * V)) (key : str) (value : V)
    : list (str * V) :=
  match d with
  | [] => [(key, value)]
  | (k, v) :: rest =>
      if decide (k = key) then (key, value) :: rest
      else (k, v) :: dict_set rest key value
  end.

Section Aggregate.
(** [math.exp], a function from floats to floats, and [get_final_text]
    (which runs the package's [BasicTokenizer]) are taken as given. *)
Variable exp : Q -> Q.
Variable get_final_text : str -> str -> bool -> str.

Definition _compute_softmax (scores : list Q) : list Q :=
  match scores with
  | [] => []
  | _ =>
      let max_score :=
        fold_left (fun (max_score : option Q) score =>
                     match max_score with
                     | None => Some score
                     | Some m => if Qgtb score m then Some score else Some m
                     end) scores None in
      let max_score := default 0%Q max_score in
      let exp_scores :=
        List.map (fun score => exp (Float64.sub score max_score)) scores in
      let total_sum := fold_left Float64.add exp_scores 0%Q in
      List.map (fun score => Float64.div score total_sum) exp_scores
  end.

Variables (n_best_size max_answer_length : Z).
Variables (do_lower_case is_version2 : bool).
Variable null_score_diff_threshold : Q.

(** The body of [for (feature_index, feature) in enumerate(features)]. *)
Definition feature_step (unique_id_to_result : gmap Z RawResult.t)
    (st : list PrelimPrediction.t * null_state)
    (it : nat * InputFeatures.t)
    : res (list PrelimPrediction.t * null_state) :=
  let '(prelim_predictions, null) := st in
  let '(feature_index, feature) := it in
  letr result :=
    match unique_id_to_result !! InputFeatures.unique_id feature with
    | Some r => Ok r
    | None => Raise KeyError
    end in
  let start_indexes :=
    _get_best_indexes (RawResult.start_logits result) n_best_size in
  let end_indexes :=
    _get_best_indexes (RawResult.end_logits result) n_best_size in
  letr null :=
    if is_version2 then
      letr s0 := index (RawResult.start_logits result) 0 in
      letr e0 := index (RawResult.end_logits result) 0 in
      let feature_null_score := Float64.add s0 e0 in
      let '(score_null, _, _, _) := null in
      if Qltb feature_null_score score_null
      then Ok (feature_null_score, Z.of_nat feature_index, s0, e0)
      else Ok null
    else Ok null in
  letr prelim_predictions :=
    candidates (Z.of_nat feature_index) feature result max_answer_length
      start_indexes end_indexes prelim_predictions in
  Ok (prelim_predictions, null).

(** Lines 708-730: the text of one prediction. *)
Definition final_text_of (example : SquadExample.t)
    (feature : InputFeatures.t) (pred : PrelimPrediction.t) : res str :=
  let tok_tokens :=
    slice (InputFeatures.tokens feature) (PrelimPrediction.start_index pred)
      (PrelimPrediction.end_index pred + 1) in
  letr orig_doc_start :=
    match InputFeatures.token_to_orig_map feature
            !! PrelimPrediction.start_index pred with
    | Some v => Ok v
    | None => Raise KeyError
    end in
  letr orig_doc_end :=
    match InputFeatures.token_to_orig_map feature
            !! PrelimPrediction.end_index pred with
    | Some v => Ok v
    | None => Raise KeyError
    end in
  let orig_tokens :=
    slice (SquadExample.doc_tokens example) orig_doc_start
      (orig_doc_end + 1) in
  let tok_text := join space tok_tokens in
  let tok_text := replace (lit " ##") [] tok_text in
  let tok_text := replace (lit "##") [] tok_text in
  let tok_text := strip tok_text in
  let tok_text := join space (split tok_text) in
  let orig_text := join space orig_tokens in
  Ok (get_final_text tok_text orig_text do_lower_case).

(** Lines 702-736: [for pred in prelim_predictions], with its [break];
    the state is [(seen_predictions, nbest)]. *)
Fixpoint nbest_loop (example : SquadExample.t)
    (features : list InputFeatures.t) (preds : list PrelimPrediction.t)
    (seen_predictions : gmap str bool) (nbest : list NbestPrediction.t)
    : res (gmap str bool * list NbestPrediction.t) :=
  match preds with
  | [] => Ok (seen_predictions, nbest)
  | pred :: rest =>
      if len nbest >=? n_best_size then Ok (seen_predictions, nbest)
      else
        letr feature := index features (PrelimPrediction.feature_index pred) in
        let entry final_text :=
          NbestPrediction.mk final_text (PrelimPrediction.start_logit pred)
            (PrelimPrediction.end_logit pred) in
        if PrelimPrediction.start_index pred >? 0 then
          letr final_text := final_text_of example feature pred in
          if bool_decide (is_Some (seen_predictions !! final_text)) then
            nbest_loop example features rest seen_predictions nbest
          else
            nbest_loop example features rest
              (<[final_text := true]> seen_predictions)
              (nbest ++ [entry final_text])
        else
          let final_text : str := [] in
          nbest_loop example features rest
            (<[final_text := true]> seen_predictions)
            (nbest ++ [entry final_text])
  end.

(** [if not best_non_null_entry: if entry.text: ...] over [nbest]. *)
Definition best_non_null (nbest : list NbestPrediction.t)
    : option NbestPrediction.t :=
  fold_left (fun best entry =>
               match best with
               | Some b => Some b
               | None =>
                   match NbestPrediction.text entry with
                   | [] => None
                   | _ => Some entry
                   end
               end) nbest None.

(** The body of [for (example_index, example) in enumerate(all_examples)]
    given the features of the example. *)
Definition aggregate_example (unique_id_to_result : gmap Z RawResult.t)
    (example : SquadExample.t) (features : list InputFeatures.t)
    : res output :=
  letr st :=
    for_fold (feature_step unique_id_to_result)
      (enumerate features) ([], null_init) in
  let '(prelim_predictions,
        (score_null, min_null_feature_index, null_start_logit,
         null_end_logit)) := st in
  let prelim_predictions :=
    if is_version2 then
      prelim_predictions ++
        [PrelimPrediction.mk min_null_feature_index 0 0 null_start_logit
           null_end_logit]
    else prelim_predictions in
  let prelim_predictions :=
    sorted_desc (fun x => Float64.add (PrelimPrediction.start_logit x)
                            (PrelimPrediction.end_logit x))
      prelim_predictions in
  letr st := nbest_loop example features prelim_predictions ∅ [] in
  let '(seen_predictions, nbest) := st in
  let nbest :=
    if is_version2 then
      if bool_decide (is_Some (seen_predictions !! ([] : str))) then nbest
      else nbest ++ [NbestPrediction.mk [] null_start_logit null_end_logit]
    else nbest in
  let nbest :=
    match nbest with
    | [] => nbest ++ [NbestPrediction.mk (lit "empty") 0%Q 0%Q]
    | _ => nbest
    end in
  letr _ := assert (len nbest >=? 1) in
  let total_scores :=
    List.map (fun entry => Float64.add (NbestPrediction.start_logit entry)
                             (NbestPrediction.end_logit entry)) nbest in
  let best_non_null_entry := best_non_null nbest in
  let probs := _compute_softmax total_scores in
  letr nbest_json :=
    for_each (fun it : nat * NbestPrediction.t =>
      letr p := index probs (Z.of_nat (fst it)) in
      Ok [ {| nb_text := NbestPrediction.text (snd it);
              nb_probability := p;
              nb_start_logit := NbestPrediction.start_logit (snd it);
              nb_end_logit := NbestPrediction.end_logit (snd it) |} ])
      (enumerate nbest) in
  letr _ := assert (len nbest_json >=? 1) in
  if negb is_version2 then
    letr top := index nbest_json 0 in
    Ok {| out_prediction :=
            Scored (nb_text top) (nb_start_logit top) (nb_end_logit top);
          out_nbest_json := nbest_json;
          out_score_diff := None |}
  else
    match best_non_null_entry with
    | None => Raise AttributeError
    | Some best_non_null_entry =>
        let score_diff :=
          Float64.sub
            (Float64.sub score_null
               (NbestPrediction.start_logit best_non_null_entry))
            (NbestPrediction.end_logit best_non_null_entry) in
        Ok {| out_prediction :=
                if Qgtb score_diff null_score_diff_threshold then Text []
                else Text (NbestPrediction.text best_non_null_entry);
              out_nbest_json := nbest_json;
              out_score_diff := Some score_diff |}
    end.

(** [example_index_to_features[example_index]] *)
Definition features_of (all_features : list InputFeatures.t)
    (example_index : Z) : list InputFeatures.t :=
  List.filter (fun feature =>
                 InputFeatures.example_index feature =? example_index)
    all_features.

(** [unique_id_to_result], later results overriding earlier ones. *)
Definition index_results (all_results : list RawResult.t)
    : gmap Z RawResult.t :=
  fold_left (fun m result => <[RawResult.unique_id result := result]> m)
    all_results ∅.

(** The three [OrderedDict]s of [write_predictions], which receive their
    entries together under the same key: their items in order. *)
Definition write_predictions (all_examples : list SquadExample.t)
    (all_features : list InputFeatures.t) (all_results : list RawResult.t)
    : res (list (str * output)) :=
  let unique_id_to_result := index_results all_results in
  for_fold (fun (written : list (str * output))
                (it : nat * SquadExample.t) =>
    let features := features_of all_features (Z.of_nat (fst it)) in
    letr out := aggregate_example unique_id_to_result (snd it) features in
    Ok (dict_set written (SquadExample.qas_id (snd it)) out))
    (enumerate all_examples) [].
End Aggregate.

End Aggregator.

(** ** Concrete inputs used below *)

Module Samples.

(** A tokenizer that makes every character a token of its own, as the
    BERT tokenizer does with CJK text; every token has id 100. *)
Definition char_tokenizer : Tokenizer :=
  {| tokenize := fun s => List.map (fun c => [c]) s;
     vocab := fun _ => 100 |}.

(** A paragraph of three words with one question whose record gives the
    answer as word 2. *)
Definition answer_ef : Loader.Answer :=
  {| Loader.text := lit "ef"; Loader.answer_start := 2;
     Loader.answer_end := 2 |}.

Definition qa_ef : Loader.QA :=
  {| Loader.id := lit "q1"; Loader.question := lit "which";
     Loader.answers := [answer_ef]; Loader.qa_is_impossible := false |}.

Definition paragraph_ab_cd_ef : Loader.Paragraph :=
  {| Loader.context := lit "ab cd ef"; Loader.qas := [qa_ef] |}.

(** The two-word document [U+5317 U+4EAC] [U+5927 U+5B66] with the
    one-character question [U+54EA]; the second word is the answer. *)
Definition example_two_words : SquadExample.t :=
  SquadExample.mk (lit "q1") [21738%N]
    [[21271%N; 20140%N]; [22823%N; 23398%N]]
    (Some [22823%N; 23398%N]) (Some 1) (Some 1) false.

(** One window [[CLS] q [SEP] a [SEP]] whose only document token is at
    position 3, and scores that peak at position 0. *)
Definition feature_a : InputFeatures.t :=
  InputFeatures.mk 1000000000 0 0
    [lit "[CLS]"; lit "q"; lit "[SEP]"; lit "a"; lit "[SEP]"]
    {[ 3 := 0 ]} {[ 3 := true ]}
    [100; 100; 100; 100; 100; 0] [1; 1; 1; 1; 1; 0] [0; 0; 0; 1; 1; 0]
    None None false.

Definition result_a : RawResult.t :=
  RawResult.mk 1000000000 [5; 0; 0; 0; 0; 0]%Q [5; 0; 0; 0; 0; 0]%Q.

Definition example_a : SquadExample.t :=
  SquadExample.mk (lit "q1") (lit "q") [lit "a"] None None None false.

(** Scores for the same window that peak at its document token. *)
Definition result_peak3 : RawResult.t :=
  RawResult.mk 1000000000 [0; 0; 0; 5; 0; 0]%Q [0; 0; 0; 5; 0; 0]%Q.

(** An example whose paragraph is empty: it has no window at all. *)
Definition example_empty : SquadExample.t :=
  SquadExample.mk (lit "q2") (lit "q") [] None None None false.

End Samples.

(** ** Facts the loops keep, stated as predicates *)

Module Invariants.

Definition non_whitespace (c : N) : bool := negb (Loader.is_whitespace c).

(** What the segmentation loop has established after reading [seen]:
    the words are the maximal runs of non-whitespace characters read so
    far, there is one offset per character, and every word is the offset
    of one of its characters. *)
Definition segmented (seen : str) (st : Loader.seg_state) : Prop :=
  let '(doc_tokens, char_to_word_offset, prev_is_whitespace) := st in
  List.concat doc_tokens = List.filter non_whitespace seen
  /\ List.Forall (fun w => w <> [] /\ forallb non_whitespace w = true)
       doc_tokens
  /\ List.Forall2 (fun c o => -1 <= o < len doc_tokens
                              /\ (non_whitespace c = true -> 0 <= o))
       seen char_to_word_offset
  /\ (forall w, 0 <= w < len doc_tokens -> In w char_to_word_offset)
  /\ (prev_is_whitespace = false -> doc_tokens <> []).

End Invariants.

Module Corpus.

(** All questions of a corpus file with their paragraphs, in file order. *)
Definition questions (source : Loader.Source)
    : list (Loader.Paragraph * Loader.QA) :=
  List.flat_map (fun entry =>
    List.flat_map (fun paragraph =>
      List.map (fun qa => (paragraph, qa)) (Loader.qas paragraph))
      (Loader.paragraphs entry)) (Loader.data source).

(** The example built for a question at prediction time. *)
Definition unlabelled (pq : Loader.Paragraph * Loader.QA) : SquadExample.t :=
  SquadExample.mk (Loader.id (snd pq)) (Loader.question (snd pq))
    (Loader.doc_tokens_of (Loader.context (fst pq))) None None None false.

End Corpus.

Module Retok.

(** The word index of every subword, for the words [l] numbered from
    [k]. *)
Fixpoint owners (tokenizer : Tokenizer) (k : nat) (l : list str) : list Z :=
  match l with
  | [] => []
  | w :: rest =>
      List.repeat (Z.of_nat k) (List.length (tokenize tokenizer w))
      ++ owners tokenizer (Datatypes.S k) rest
  end.

(** The stream position at which each word of [l] starts, when [n]
    subwords precede the first. *)
Fixpoint offsets (tokenizer : Tokenizer) (n : Z) (l : list str) : list Z :=
  match l with
  | [] => []
  | w :: rest => n :: offsets tokenizer (n + len (tokenize tokenizer w)) rest
  end.

(** The subwords of all words, in order. *)
Definition stream (tokenizer : Tokenizer) (l : list str) : list str :=
  List.flat_map (tokenize tokenizer) l.

End Retok.

Module Layout.

(** [all_doc_tokens[start : start + length]] for a span inside the
    stream. *)
Definition doc_slice (all_doc_tokens : list str) (sp : DocSpan.t)
    : list str :=
  take (Z.to_nat (DocSpan.length sp))
    (drop (Z.to_nat (DocSpan.start sp)) all_doc_tokens).

(** The token sequence of a window. *)
Definition window_tokens (query_tokens all_doc_tokens : list str)
    (sp : DocSpan.t) : list str :=
  [Builder.CLS] ++ query_tokens ++ [Builder.SEP]
  ++ doc_slice all_doc_tokens sp ++ [Builder.SEP].

(** Window position of the first document token. *)
Definition doc_offset (query_tokens : list str) : Z := len query_tokens + 2.

(** [p] is the window position of a document token of the span. *)
Definition doc_position (query_tokens : list str) (sp : DocSpan.t) (p : Z)
    : Prop :=
  doc_offset query_tokens <= p
  < doc_offset query_tokens + DocSpan.length sp.

End Layout.

Module MoreSamples.

(** The subword stream and owner map of [Samples.example_two_words] under
    [Samples.char_tokenizer], and its three windows for a budget of 2 and
    a stride of 1. *)
Definition stream4 : list str :=
  [[21271%N]; [20140%N]; [22823%N]; [23398%N]].

Definition owners4 : list Z := [0; 0; 1; 1].

Definition spans3 : list DocSpan.t :=
  [DocSpan.mk 0 2; DocSpan.mk 1 2; DocSpan.mk 2 2].

(** A document that says the same word twice, its only window, and
    scores under which three spans survive the filters: the first word,
    both words, the second word. *)
Definition example_a_a : SquadExample.t :=
  SquadExample.mk (lit "q3") (lit "q") [lit "a"; lit "a"] None None None
    false.

Definition feature_a_a : InputFeatures.t :=
  InputFeatures.mk 1000000000 0 0
    [lit "[CLS]"; lit "q"; lit "[SEP]"; lit "a"; lit "a"; lit "[SEP]"]
    {[ 3 := 0; 4 := 1 ]} {[ 3 := true; 4 := true ]}
    [100; 100; 100; 100; 100; 100] [1; 1; 1; 1; 1; 1] [0; 0; 0; 1; 1; 1]
    None None false.

Definition result_a_a : RawResult.t :=
  RawResult.mk 1000000000 [0; 0; 0; 5; 4; 0]%Q [0; 0; 0; 5; 4; 0]%Q.

(** A stand-in for [math.exp] in examples: [2 ** floor(x)], flushed to
    zero below the smallest float. *)
Definition exp2 (x : Q) : Q :=
  if Qfloor x <? -1074 then 0%Q else (2 ^ Qfloor x)%Q.

End MoreSamples.

Module Ranking.

(** The order [sorted(..., reverse=True)] puts indexed scores in: larger
    score first and, among equal scores, smaller index first. *)
Definition outranks (x y : nat * Q) : Prop :=
  (snd y < snd x)%Q \/ ((snd y == snd x)%Q /\ (fst x < fst y)%nat).

(** The same order on positions of a score array. *)
Definition before (logits : list Q) (i j : Z) : Prop :=
  exists si sj,
    index logits i = Ok si /\ index logits j = Ok sj
    /\ 0 <= i /\ 0 <= j
    /\ ((sj < si)%Q \/ ((sj == si)%Q /\ i < j)).

End Ranking.

Module Nbest.

(** A preliminary prediction whose feature and whose two positions can be
    looked up again when its text is built. *)
Definition resolvable (features : list InputFeatures.t)
    (p : PrelimPrediction.t) : Prop :=
  exists feature,
    index features (PrelimPrediction.feature_index p) = Ok feature
    /\ is_Some (InputFeatures.token_to_orig_map feature
                  !! PrelimPrediction.start_index p)
    /\ is_Some (InputFeatures.token_to_orig_map feature
                  !! PrelimPrediction.end_index p).

(** The texts of the n-best entries so far are pairwise different and all
    recorded in [seen_predictions]. *)
Definition deduplicated (seen_predictions : gmap str bool)
    (nbest : list NbestPrediction.t) : Prop :=
  List.NoDup (List.map NbestPrediction.text nbest)
  /\ forall entry, In entry nbest ->
       is_Some (seen_predictions !! NbestPrediction.text entry).

End Nbest.

(** ** Projecting a prediction back to the original text (lines 839-932) *)

Module TextProjection.

(** [text.find(sub)] on the part of the string that starts at offset
    [i]. *)
Fixpoint find_from (sub text : str) (i : Z) : Z :=
  if is_prefix sub text then i
  else match text with
       | [] => -1
       | _ :: rest => find_from sub rest (i + 1)
       end.

Definition find (text sub : str) : Z := find_from sub text 0.

(** A [collections.OrderedDict] from [int] to [int]: its items in
    insertion order. *)
Definition ordered_dict : Type := list (Z * Z).

(** [d[k] = v] *)
Fixpoint set_item (d : ordered_dict) (k v : Z) : ordered_dict :=
  match d with
  | [] => [(k, v)]
  | (k', v') :: rest =>
      if k' =? k then (k, v) :: rest else (k', v') :: set_item rest k v
  end.

(** [d[k]] where [k in d], [None] where it is not. *)
Fixpoint get_item (d : ordered_dict) (k : Z) : option Z :=
  match d with
  | [] => None
  | (k', v') :: rest => if k' =? k then Some v' else get_item rest k
  end.

Definition _strip_spaces (text : str) : str * ordered_dict :=
  fold_left (fun (st : str * ordered_dict) (it : nat * N) =>
               let '(ns_chars, ns_to_s_map) := st in
               let '(i, c) := it in
               if (c =? 32)%N then st
               else (ns_chars ++ [c],
                     set_item ns_to_s_map (len ns_chars) (Z.of_nat i)))
    (enumerate text) ([], []).

(** [tok_s_to_ns_map], filled from the items of [tok_ns_to_s_map]. *)
Definition invert (items : ordered_dict) : gmap Z Z :=
  fold_left (fun (m : gmap Z Z) (it : Z * Z) => <[snd it := fst it]> m)
    items ∅.

Section Projection.
(** [BasicTokenizer(do_lower_case).tokenize] of the package is taken as
    given. *)
Variable basic_tokenize : bool -> str -> list str.

Definition get_final_text (pred_text orig_text : str)
    (do_lower_case : bool) : str :=
  let tok_text := join space (basic_tokenize do_lower_case orig_text) in
  let start_position := find tok_text pred_text in
  if start_position =? -1 then orig_text
  else
    let end_position := start_position + len pred_text - 1 in
    let '(orig_ns_text, orig_ns_to_s_map) := _strip_spaces orig_text in
    let '(tok_ns_text, tok_ns_to_s_map) := _strip_spaces tok_text in
    if negb (len orig_ns_text =? len tok_ns_text) then orig_text
    else
      let tok_s_to_ns_map := invert tok_ns_to_s_map in
      let orig_start_position :=
        match tok_s_to_ns_map !! start_position with
        | Some ns_start_position =>
            get_item orig_ns_to_s_map ns_start_position
        | None => None
        end in
      match orig_start_position with
      | None => orig_text
      | Some orig_start_position =>
          let orig_end_position :=
            match tok_s_to_ns_map !! end_position with
            | Some ns_end_position =>
                get_item orig_ns_to_s_map ns_end_position
            | None => None
            end in
          match orig_end_position with
          | None => orig_text
          | Some orig_end_position =>
              slice orig_text orig_start_position (orig_end_position + 1)
          end
      end.
End Projection.

End TextProjection.

Module Spaces.

(** The characters of a text that are not the space character. *)
Definition nonspace (text : str) : str :=
  List.filter (fun c => negb (c =? 32)%N) text.

(** The number of such characters before position [p]. *)
Definition rank (text : str) (p : nat) : nat :=
  List.length (nonspace (take p text)).

(** Position [p] holds a character other than the space. *)
Definition is_spot (text : str) (p : nat) : Prop :=
  exists c, text !! p = Some c /\ c <> 32%N.

(** The positions of these characters, for a text that starts at
    position [i]. *)
Fixpoint spots (i : nat) (text : str) : list nat :=
  match text with
  | [] => []
  | c :: rest =>
      if (c =? 32)%N then spots (Datatypes.S i) rest
      else i :: spots (Datatypes.S i) rest
  end.

(** The items [(k, p_0), (k + 1, p_1), ...]. *)
Fixpoint number (k : nat) (l : list nat) : TextProjection.ordered_dict :=
  match l with
  | [] => []
  | p :: rest => (Z.of_nat k, Z.of_nat p) :: number (Datatypes.S k) rest
  end.

(** [sub] occurs in [text] at offset [j]. *)
Definition occurs_at (sub text : str) (j : nat) : Prop :=
  exists rest, drop j text = sub ++ rest.

End Spaces.

(** ** Facts of version-2 mode, stated as predicates *)

Module Nulls.
Section Defs.
Variable unique_id_to_result : gmap Z RawResult.t.

(** The null score of a feature: the sum of the two scores of the
    [[CLS]] position in its raw result. *)
Definition has_null_score (feature : InputFeatures.t) (s0 e0 : Q) : Prop :=
  exists result,
    unique_id_to_result !! InputFeatures.unique_id feature = Some result
    /\ index (RawResult.start_logits result) 0 = Ok s0
    /\ index (RawResult.end_logits result) 0 = Ok e0.

Definition lacks_null_score (feature : InputFeatures.t) (e : exn) : Prop :=
  (e = KeyError
   /\ unique_id_to_result !! InputFeatures.unique_id feature = None)
  \/ (e = IndexError
      /\ exists result,
           unique_id_to_result !! InputFeatures.unique_id feature
           = Some result
           /\ (RawResult.start_logits result = []
               \/ RawResult.end_logits result = [])).

End Defs.
End Nulls.

Module NullMode.

(** A prediction the n-best loop can turn into an entry: its feature
    exists and, unless it starts at the [[CLS]] position, its two
    positions have a word. *)
Definition usable (features : list InputFeatures.t)
    (p : PrelimPrediction.t) : Prop :=
  exists feature,
    index features (PrelimPrediction.feature_index p) = Ok feature
    /\ (0 < PrelimPrediction.start_index p ->
        is_Some (InputFeatures.token_to_orig_map feature
                   !! PrelimPrediction.start_index p)
        /\ is_Some (InputFeatures.token_to_orig_map feature
                      !! PrelimPrediction.end_index p)).

(** Every text recorded in [seen_predictions] is the text of an n-best
    entry. *)
Definition listed (seen_predictions : gmap str bool)
    (nbest : list NbestPrediction.t) : Prop :=
  forall t, is_Some (seen_predictions !! t) ->
            In t (List.map NbestPrediction.text nbest).

(** An n-best entry and the record written for it. *)
Definition written (record : Aggregator.nbest_entry)
    (entry : NbestPrediction.t) : Prop :=
  Aggregator.nb_text record = NbestPrediction.text entry
  /\ Aggregator.nb_start_logit record = NbestPrediction.start_logit entry
  /\ Aggregator.nb_end_logit record = NbestPrediction.end_logit entry.

End NullMode.

Module Order.

(** Scores in non-increasing order. *)
Definition descending (scores : list Q) : Prop :=
  ForallOrdPairs (fun a b => (b <= a)%Q) scores.

(** The sort key of a preliminary prediction and of an n-best entry: the
    float sum of its two logits. *)
Definition prelim_total (p : PrelimPrediction.t) : Q :=
  Float64.add (PrelimPrediction.start_logit p)
    (PrelimPrediction.end_logit p).

Definition entry_total (entry : NbestPrediction.t) : Q :=
  Float64.add (NbestPrediction.start_logit entry)
    (NbestPrediction.end_logit entry).

Definition record_total (record : Aggregator.nbest_entry) : Q :=
  Float64.add (Aggregator.nb_start_logit record)
    (Aggregator.nb_end_logit record).

End Order.

(** ** The learning-rate schedule (lines 980-983) *)

Module Schedule.

(** A number, or the exception of dividing by zero. *)
Inductive outcome : Type :=
| Value (y : Q)
| ZeroDivisionError.

Definition warmup_linear (x warmup : Q) : outcome :=
  if Aggregator.Qltb x warmup then
    if Qeq_bool warmup 0 then ZeroDivisionError else Value (x / warmup)
  else Value (1 - x).

End Schedule.

Module Keys.

(** The keys of the two maps of a feature lie after [[CLS]] and the
    first [[SEP]] and before the last [[SEP]]. *)
Definition inside_document (feature : InputFeatures.t) : Prop :=
  forall p,
    is_Some (InputFeatures.token_to_orig_map feature !! p)
    \/ is_Some (InputFeatures.token_is_max_context feature !! p) ->
    2 <= p < len (InputFeatures.tokens feature) - 1.

End Keys.

Module Dict.

(** The keys of a sequence of assignments in the order of their first
    occurrence, leaving out those in [seen]. *)
Fixpoint first_occurrences_from (seen keys : list str) : list str :=
  match keys with
  | [] => []
  | k :: rest =>
      if decide (k ∈ seen) then first_occurrences_from seen rest
      else k :: first_occurrences_from (seen ++ [k]) rest
  end.

Definition first_occurrences (keys : list str) : list str :=
  first_occurrences_from [] keys.

End Dict.

(** ** Corpus files whose records may lack a key *)

(** Every answer of a SQuAD file has ["text"] and ["answer_start"];
    ["answer_end"] is read by this loader only, and ["is_impossible"]
    exists in "v2.0" files.  Here these two keys may be missing: [None]
    stands for a record without the key, and reading it raises
    [KeyError]. *)
Module Json.

Record Answer : Type := {
  text : str;
  answer_start : Z;
  answer_end : option Z
}.

Record QA : Type := {
  id : str;
  question : str;
  answers : list Answer;
  is_impossible : option bool
}.

Record Paragraph : Type := {
  context : str;
  qas : list QA
}.

Record Entry : Type := { paragraphs : list Paragraph }.

Record Source : Type := {
  version : str;
  data : list Entry
}.

(** [record[key]] *)
Definition item {A} (value : option A) : res A :=
  match value with
  | Some a => Ok a
  | None => Raise KeyError
  end.

(** The body of [for qa in paragraph["qas"]]. *)
Definition read_qa (is_training : bool) (version : str)
    (doc_tokens : list str) (qa : QA) : res SquadExample.t :=
  let qas_id := id qa in
  let question_text := question qa in
  letr gold :=
    if is_training then
      letr is_impossible :=
        if decide (version = Loader.v2) then item (is_impossible qa)
        else Ok false in
      if (negb (len (answers qa) =? 1) && negb is_impossible)%bool then
        Raise ValueError
      else if negb is_impossible then
        letr answer := index (answers qa) 0 in
        let orig_answer_text := text answer in
        let start_position := answer_start answer in
        letr end_position := item (answer_end answer) in
        Ok (Some orig_answer_text, Some start_position, Some end_position,
            is_impossible)
      else
        Ok (Some [], Some (-1), Some (-1), is_impossible)
    else Ok (None, None, None, false) in
  let '(orig_answer_text, start_position, end_position, is_impossible) :=
    gold in
  Ok (SquadExample.mk qas_id question_text doc_tokens orig_answer_text
        start_position end_position is_impossible).

Definition read_paragraph (is_training : bool) (version : str)
    (paragraph : Paragraph) : res (list SquadExample.t) :=
  let doc_tokens := Loader.doc_tokens_of (context paragraph) in
  for_each (fun qa =>
    letr example := read_qa is_training version doc_tokens qa in
    Ok [example]) (qas paragraph).

Definition read_squad_examples (source : Source) (is_training : bool)
    : res (list SquadExample.t) :=
  for_each (fun entry =>
    for_each (read_paragraph is_training (version source))
      (paragraphs entry)) (data source).

(** A record that has both keys, as a record of a file. *)
Definition of_answer (answer : Loader.Answer) : Answer :=
  {| text := Loader.text answer;
     answer_start := Loader.answer_start answer;
     answer_end := Some (Loader.answer_end answer) |}.

Definition of_qa (qa : Loader.QA) : QA :=
  {| id := Loader.id qa;
     question := Loader.question qa;
     answers := List.map of_answer (Loader.answers qa);
     is_impossible := Some (Loader.qa_is_impossible qa) |}.

Definition of_paragraph (paragraph : Loader.Paragraph) : Paragraph :=
  {| context := Loader.context paragraph;
     qas := List.map of_qa (Loader.qas paragraph) |}.

Definition of_entry (entry : Loader.Entry) : Entry :=
  {| paragraphs := List.map of_paragraph (Loader.paragraphs entry) |}.

Definition of_source (source : Loader.Source) : Source :=
  {| version := Loader.version source;
     data := List.map of_entry (Loader.data source) |}.

(** All questions of a file with their paragraphs, in file order. *)
Definition questions (source : Source) : list (Paragraph * QA) :=
  List.flat_map (fun entry =>
    List.flat_map (fun paragraph =>
      List.map (fun qa => (paragraph, qa)) (qas paragraph))
      (paragraphs entry)) (data source).

(** A question of a "v2.0" file without the ["is_impossible"] key. *)
Definition unflagged (version : str) (qa : QA) : bool :=
  if decide (version = Loader.v2)
  then match is_impossible qa with None => true | Some _ => false end
  else false.

(** A question taken as unanswerable: flagged so in a "v2.0" file. *)
Definition unanswerable (version : str) (qa : QA) : bool :=
  if decide (version = Loader.v2)
  then match is_impossible qa with Some b => b | None => false end
  else false.

(** A question that is read as answerable but has not exactly one
    answer. *)
Definition malformed (version : str) (qa : QA) : bool :=
  (negb (unflagged version qa) && negb (unanswerable version qa)
   && negb (len (answers qa) =? 1))%bool.

(** A question that is read as answerable and whose single answer has no
    ["answer_end"] key. *)
Definition open_ended (version : str) (qa : QA) : bool :=
  (negb (unflagged version qa) && negb (unanswerable version qa)
   && match answers qa with
      | [answer] =>
          match answer_end answer with None => true | Some _ => false end
      | _ => false
      end)%bool.

(** What a training example carries for its question. *)
Definition labelled (version : str) (pq : Paragraph * QA)
    (example : SquadExample.t) : Prop :=
  SquadExample.qas_id example = id (snd pq)
  /\ SquadExample.question_text example = question (snd pq)
  /\ SquadExample.doc_tokens example
     = Loader.doc_tokens_of (context (fst pq))
  /\ SquadExample.is_impossible example = unanswerable version (snd pq)
  /\ (unanswerable version (snd pq) = true ->
      SquadExample.start_position example = Some (-1)
      /\ SquadExample.end_position example = Some (-1)
      /\ SquadExample.orig_answer_text example = Some [])
  /\ (unanswerable version (snd pq) = false ->
      exists answer end_position,
        answers (snd pq) = [answer]
        /\ answer_end answer = Some end_position
        /\ SquadExample.start_position example
           = Some (answer_start answer)
        /\ SquadExample.end_position example = Some end_position
        /\ SquadExample.orig_answer_text example = Some (text answer)).

(** The exception a training question makes the loader raise. *)
Definition refused (version : str) (qa : QA) (e : exn) : Prop :=
  (e = ValueError /\ malformed version qa = true)
  \/ (e = KeyError
      /\ (unflagged version qa = true \/ open_ended version qa = true)).

(** A question the loader accepts. *)
Definition accepted (version : str) (qa : QA) : Prop :=
  malformed version qa = false
  /\ unflagged version qa = false
  /\ open_ended version qa = false.

End Json.

(** * Properties *)

(** ** The sliding-window loop *)

Section WindowFacts.
Variables (n M d : Z).

#[local] Abbreviation step := (Windows.window_step n M d).
#[local] Abbreviation loop := (Windows.window_loop n M d).

#[local] Abbreviation chain := (Windows.chain n M d).

Lemma step_cases s :
  (n <= s /\ step s = Windows.Exit)
  \/ (s < n /\ n - s <= M /\ step s = Windows.Break (DocSpan.mk s (n - s)))
  \/ (s < n /\ M < n - s /\
      step s = Windows.Continue (DocSpan.mk s M) (s + Z.min M d)).
Proof.
  unfold Windows.window_step.
  destruct (Z.ltb_spec s n) as [Hlt|Hge]; [|left; split; [lia|reflexivity]].
  right.
  destruct (Z.gtb_spec (n - s) M) as [Hgt|Hle].
  - right. destruct (Z.eqb_spec (s + M) n); [lia|].
    repeat split; lia.
  - left. destruct (Z.eqb_spec (s + (n - s)) n); [|lia].
    repeat split; lia.
Qed.

Lemma loop_acc fuel : forall s acc,
  loop fuel s acc = (fun r => acc ++ r) <$> loop fuel s [].
Proof.
  induction fuel as [|fuel IH]; intros s acc; simpl; [reflexivity|].
  destruct (step s) as [|span|span s'].
  - simpl. now rewrite app_nil_r.
  - reflexivity.
  - rewrite (IH s' (acc ++ [span])), (IH s' [span]).
    destruct (loop fuel s' []) as [r|]; simpl; [|reflexivity].
    now rewrite <- app_assoc.
Qed.

Lemma loop_chain fuel : forall s r, loop fuel s [] = Some r -> chain s r.
Proof.
  induction fuel as [|fuel IH]; intros s r; simpl; [discriminate|].
  destruct (step_cases s) as [[H ->]|[(H1 & H2 & ->)|(H1 & H2 & ->)]].
  - intros [= <-]. now constructor.
  - intros [= <-]. now constructor.
  - rewrite loop_acc.
    destruct (loop fuel (s + Z.min M d) []) as [r'|] eqn:E; [|discriminate].
    intros [= <-]. simpl. constructor; auto.
Qed.

Lemma loop_more_fuel fuel : forall s acc r,
  loop fuel s acc = Some r -> loop (S fuel) s acc = Some r.
Proof.
  induction fuel as [|fuel IH]; intros s acc r; [discriminate|].
  intros H. simpl in H. change (loop (S (S fuel)) s acc) with
    (match step s with
     | Windows.Exit => Some acc
     | Windows.Break span => Some (acc ++ [span])
     | Windows.Continue span s' => loop (S fuel) s' (acc ++ [span])
     end).
  destruct (step s); auto.
Qed.

Lemma loop_fuel_mono fuel fuel' s acc r :
  (fuel <= fuel')%nat -> loop fuel s acc = Some r ->
  loop fuel' s acc = Some r.
Proof.
  induction 1 as [|k _ IH]; auto using loop_more_fuel.
Qed.

(** With a positive budget and stride every round moves the offset
    forward, and [n - s] rounds (plus the final test) are enough. *)
Lemma loop_total :
  1 <= M -> 1 <= d ->
  forall fuel s acc, (Z.to_nat (n - s) < fuel)%nat ->
  is_Some (loop fuel s acc).
Proof.
  intros HM Hd. induction fuel as [|fuel IH]; intros s acc Hf; [lia|].
  simpl.
  destruct (step_cases s) as [[H ->]|[(H1 & H2 & ->)|(H1 & H2 & ->)]];
    [eexists; reflexivity ..|].
  apply IH. lia.
Qed.

(** Without progress, the loop test stays true for ever. *)
Lemma loop_stuck_budget :
  M <= 0 -> forall fuel s acc, s < n -> loop fuel s acc = None.
Proof.
  intros HM. induction fuel as [|fuel IH]; intros s acc Hs; [reflexivity|].
  simpl.
  destruct (step_cases s) as [[H ->]|[(H1 & H2 & ->)|(H1 & H2 & ->)]];
    [lia ..|].
  apply IH. lia.
Qed.

Lemma loop_stuck_stride :
  0 < n -> M < n -> d <= 0 ->
  forall fuel s acc, s <= 0 -> loop fuel s acc = None.
Proof.
  intros Hn HM Hd. induction fuel as [|fuel IH]; intros s acc Hs;
    [reflexivity|].
  simpl.
  destruct (step_cases s) as [[H ->]|[(H1 & H2 & ->)|(H1 & H2 & ->)]];
    [lia ..|].
  apply IH. lia.
Qed.

(** What a finished run looks like when budget and stride are positive. *)
Lemma chain_bounds s spans :
  1 <= M -> 1 <= d -> chain s spans ->
  Forall (fun sp => s <= DocSpan.start sp
                    /\ 1 <= DocSpan.length sp <= M
                    /\ DocSpan.start sp + DocSpan.length sp <= n) spans.
Proof.
  intros HM Hd. induction 1 as [s H|s H1 H2|s rest H1 H2 Hc IH].
  - constructor.
  - repeat constructor; simpl; lia.
  - constructor; [simpl; lia|].
    eapply Forall_impl; [exact IH|]. simpl. intros sp. lia.
Qed.

Lemma chain_head s spans :
  chain s spans -> s < n ->
  exists first rest, spans = first :: rest /\ DocSpan.start first = s.
Proof.
  destruct 1; intros; [lia|eauto ..].
Qed.

Lemma chain_cover s spans :
  1 <= M -> 1 <= d -> chain s spans ->
  forall p, s <= p < n ->
  exists sp, In sp spans /\ DocSpan.covers sp p = true.
Proof.
  intros HM Hd. induction 1 as [s H|s H1 H2|s rest H1 H2 Hc IH];
    intros p Hp.
  - lia.
  - exists (DocSpan.mk s (n - s)). split; [now left|].
    unfold DocSpan.covers, DocSpan.last; simpl.
    destruct (Z.ltb_spec p s), (Z.gtb_spec p (s + (n - s) - 1));
      simpl; auto; lia.
  - destruct (Z_lt_dec p (s + Z.min M d)) as [Hin|Hout].
    + exists (DocSpan.mk s M). split; [now left|].
      unfold DocSpan.covers, DocSpan.last; simpl.
      destruct (Z.ltb_spec p s), (Z.gtb_spec p (s + M - 1));
        simpl; auto; lia.
    + destruct (IH p) as (sp & Hsp & Hc'); [lia|].
      exists sp. split; [now right|exact Hc'].
Qed.

Lemma covers_range sp p :
  DocSpan.covers sp p = true <->
  DocSpan.start sp <= p <= DocSpan.start sp + DocSpan.length sp - 1.
Proof.
  unfold DocSpan.covers, DocSpan.last.
  destruct (Z.ltb_spec p (DocSpan.start sp)),
    (Z.gtb_spec p (DocSpan.start sp + DocSpan.length sp - 1));
    simpl; split; intros; try lia; try discriminate; auto.
Qed.

(** Two consecutive spans: the earlier one is full, the later one starts
    [min M d] further and ends strictly later. *)
Lemma chain_consecutive s spans :
  1 <= M -> 1 <= d -> chain s spans ->
  forall (i : nat) a b, spans !! i = Some a -> spans !! S i = Some b ->
  DocSpan.length a = M
  /\ DocSpan.start b = DocSpan.start a + Z.min M d
  /\ DocSpan.last a < DocSpan.last b.
Proof.
  intros HM Hd. induction 1 as [s H|s H1 H2|s rest H1 H2 Hc IH];
    intros i a b Ha Hb.
  - discriminate.
  - destruct i; discriminate.
  - destruct i as [|i].
    + simpl in Ha, Hb. injection Ha as <-.
      destruct (chain_head _ _ Hc) as (first & rest' & -> & Hst); [lia|].
      simpl in Hb. injection Hb as <-.
      pose proof (chain_bounds _ _ HM Hd Hc) as Hall.
      inversion Hall as [|? ? (_ & Hlen & Hend) _]; subst.
      unfold DocSpan.last; simpl.
      inversion Hc; subst; simpl in *; lia.
    + simpl in Ha, Hb. eauto.
Qed.
End WindowFacts.

(** C10. The window loop finishes exactly when budget and stride let it
    advance: with [max_tokens_for_doc >= 1] and [doc_stride >= 1] every
    round that continues moves [start_offset] strictly forward and the
    loop returns within [len(all_doc_tokens) + 1] tests; with a non-empty
    subword stream and [max_tokens_for_doc <= 0] the increment is never
    positive and no amount of fuel lets the loop return; a non-positive
    stride likewise keeps it from returning once the stream is longer
    than the budget. *)
Theorem window_loop_terminates_iff_progress (n M d : Z) :
  (1 <= M -> 1 <= d ->
     (forall s span s',
        Windows.window_step n M d s = Windows.Continue span s' -> s < s')
     /\ (exists spans,
           Windows.doc_spans_loop n M d (Windows.enough_fuel n) = Some spans))
  /\ (1 <= n -> M <= 0 ->
     (forall s span s',
        Windows.window_step n M d s = Windows.Continue span s' -> s' <= s)
     /\ (forall fuel, Windows.doc_spans_loop n M d fuel = None))
  /\ (1 <= n -> M < n -> d <= 0 ->
     forall fuel, Windows.doc_spans_loop n M d fuel = None).
Proof.
  split; [|split].
  - intros HM Hd. split.
    + intros s span s' H.
      destruct (step_cases n M d s) as [[_ E]|[(_ & _ & E)|(_ & _ & E)]];
        rewrite E in H; try discriminate.
      injection H as _ <-. lia.
    + destruct (loop_total n M d HM Hd (Windows.enough_fuel n) 0 [])
        as [spans E]; [unfold Windows.enough_fuel; lia|].
      now exists spans.
  - intros Hn HM. split.
    + intros s span s' H.
      destruct (step_cases n M d s) as [[_ E]|[(_ & _ & E)|(_ & _ & E)]];
        rewrite E in H; try discriminate.
      injection H as _ <-. lia.
    + intros fuel. apply loop_stuck_budget; lia.
  - intros Hn HM Hd fuel. apply loop_stuck_stride; lia.
Qed.

Lemma window_loop_terminates_iff_progress_witness :
  (exists spans,
     Windows.doc_spans_loop 9 5 2 (Windows.enough_fuel 9) = Some spans)
  /\ Windows.doc_spans_loop 4 0 2 50 = None
  /\ Windows.doc_spans_loop 4 2 0 50 = None.
Proof.
  destruct (window_loop_terminates_iff_progress 9 5 2) as (Hgo & _ & _).
  destruct (window_loop_terminates_iff_progress 4 0 2) as (_ & Hstuck & _).
  destruct (window_loop_terminates_iff_progress 4 2 0) as (_ & _ & Hstride).
  split; [|split].
  - apply Hgo; lia.
  - apply Hstuck; lia.
  - apply Hstride; lia.
Defined.

(** C5 (as amended). With [max_tokens_for_doc >= 1] and
    [doc_stride >= 1] the loop returns spans of which the first starts at
    offset 0, whose union is exactly [[0, len(all_doc_tokens))], where each
    span starts no later than one past the end of its predecessor, and
    where two consecutive spans share at most
    [max(0, max_tokens_for_doc - doc_stride)] positions. *)
Theorem window_spans_cover_document (n M d : Z) :
  0 <= n -> 1 <= M -> 1 <= d ->
  exists spans,
    Windows.doc_spans_loop n M d (Windows.enough_fuel n) = Some spans
    /\ (forall first, head spans = Some first -> DocSpan.start first = 0)
    /\ (forall p, 0 <= p < n <->
                  exists sp, In sp spans /\ DocSpan.covers sp p = true)
    /\ (forall (i : nat) a b,
          spans !! i = Some a -> spans !! S i = Some b ->
          DocSpan.start b <= DocSpan.last a + 1
          /\ DocSpan.overlap a b <= Z.max 0 (M - d)).
Proof.
  intros Hn HM Hd.
  destruct (loop_total n M d HM Hd (Windows.enough_fuel n) 0 [])
    as [spans E]; [unfold Windows.enough_fuel; lia|].
  exists spans. split; [exact E|].
  pose proof (loop_chain _ _ _ _ _ _ E) as Hc.
  pose proof (chain_bounds _ _ _ _ _ HM Hd Hc) as Hb.
  split; [|split].
  - intros first Hf. inversion Hc; subst; simpl in Hf; try discriminate;
      now injection Hf as <-.
  - intros p. split.
    + intros Hp. exact (chain_cover _ _ _ _ _ HM Hd Hc p Hp).
    + intros (sp & Hin & Hcov).
      rewrite List.Forall_forall in Hb. apply Hb in Hin.
      apply covers_range in Hcov. lia.
  - intros i a b Ha Hb'.
    destruct (chain_consecutive _ _ _ _ _ HM Hd Hc i a b Ha Hb')
      as (Hlen & Hst & Hlast).
    unfold DocSpan.overlap, DocSpan.last in *. lia.
Qed.

Lemma window_spans_cover_document_witness :
  exists spans,
    Windows.doc_spans_loop 9 5 2 (Windows.enough_fuel 9) = Some spans
    /\ (forall first, head spans = Some first -> DocSpan.start first = 0)
    /\ (forall p, 0 <= p < 9 <->
                  exists sp, In sp spans /\ DocSpan.covers sp p = true)
    /\ (forall (i : nat) a b,
          spans !! i = Some a -> spans !! S i = Some b ->
          DocSpan.start b <= DocSpan.last a + 1
          /\ DocSpan.overlap a b <= Z.max 0 (5 - 2)).
Proof.
  apply (window_spans_cover_document 9 5 2); lia.
Defined.

(** C5 as stated fails: with a stride larger than the budget two
    consecutive spans share no position, which is more than the negative
    number [max_tokens_for_doc - doc_stride]. *)
Lemma window_overlap_bound_fails_for_large_stride :
  exists spans a b,
    Windows.doc_spans_loop 4 2 10 (Windows.enough_fuel 4) = Some spans
    /\ spans !! 0%nat = Some a /\ spans !! 1%nat = Some b
    /\ DocSpan.overlap a b = 0
    /\ ~ DocSpan.overlap a b <= 2 - 10.
Proof.
  exists [DocSpan.mk 0 2; DocSpan.mk 2 2], (DocSpan.mk 0 2), (DocSpan.mk 2 2).
  repeat split; try reflexivity. vm_compute. intros H. now apply H.
Qed.

(** ** The max-context resolver *)

Section MaxContextFacts.
Variable position : Z.

#[local] Abbreviation covers := (fun s => DocSpan.covers s position).
#[local] Abbreviation score := (fun s => MaxContext.score s position).

Lemma Qgtb_true x y : MaxContext.Qgtb x y = true <-> (y < x)%Q.
Proof.
  unfold MaxContext.Qgtb. rewrite negb_true_iff.
  split.
  - intros H. apply Qnot_le_lt. intros Hle.
    apply Qle_bool_iff in Hle. congruence.
  - intros H. destruct (Qle_bool x y) eqn:E; [|reflexivity].
    apply Qle_bool_iff in E. exfalso. exact (Qlt_not_le _ _ H E).
Qed.

Lemma Qgtb_false x y : MaxContext.Qgtb x y = false <-> (x <= y)%Q.
Proof.
  unfold MaxContext.Qgtb. rewrite negb_false_iff. apply Qle_bool_iff.
Qed.

Lemma visit_skip b i s :
  covers s = false -> MaxContext.visit position b i s = b.
Proof.
  unfold DocSpan.covers, DocSpan.last, MaxContext.visit.
  destruct (position <? DocSpan.start s); [reflexivity|].
  destruct (position >? DocSpan.start s + DocSpan.length s - 1);
    [reflexivity|discriminate].
Qed.

Lemma visit_cover b i s :
  covers s = true ->
  MaxContext.visit position b i s =
    match fst b with
    | None => (Some (score s), Some i)
    | Some best_score =>
        if MaxContext.Qgtb (score s) best_score
        then (Some (score s), Some i) else b
    end.
Proof.
  unfold DocSpan.covers, DocSpan.last, MaxContext.visit.
  destruct (position <? DocSpan.start s); [discriminate|].
  destruct (position >? DocSpan.start s + DocSpan.length s - 1);
    [discriminate|reflexivity].
Qed.

Lemma lookup_snoc (visited : list DocSpan.t) x (k : nat) s :
  (visited ++ [x]) !! k = Some s ->
  visited !! k = Some s \/ (k = List.length visited /\ s = x).
Proof.
  intros H. destruct (Nat.lt_ge_cases k (List.length visited)) as [Hlt|Hge].
  - left. now rewrite lookup_app_l in H.
  - right. rewrite lookup_app_r in H by exact Hge.
    destruct (k - List.length visited)%nat as [|m] eqn:E; simpl in H.
    + injection H as <-. split; [lia|reflexivity].
    + destruct m; discriminate.
Qed.

(** One round of the loop keeps the summary. *)
Lemma visit_summarises visited b x :
  MaxContext.summarises position visited b ->
  MaxContext.summarises position (visited ++ [x])
    (MaxContext.visit position b (List.length visited) x).
Proof.
  intros Hinv. destruct (covers x) eqn:Hx.
  - rewrite visit_cover by exact Hx.
    destruct b as [[best_score|] [j|]]; simpl in *; try contradiction.
    + destruct Hinv as ((s & Hs & Hcs & Hmax & Hfirst) & s0 & Hs0 & ->).
      assert (s0 = s) as -> by congruence.
      destruct (MaxContext.Qgtb (score x) (score s)) eqn:Hgt.
      * apply Qgtb_true in Hgt. simpl. split.
        -- exists x. split; [|split; [exact Hx|split]].
           ++ rewrite lookup_app_r by lia.
              now rewrite Nat.sub_diag.
           ++ intros k s' Hk Hc.
              destruct (lookup_snoc _ _ _ _ Hk) as [Hk'|[_ ->]].
              ** apply Qlt_le_weak. eapply Qle_lt_trans; [|exact Hgt].
                 eapply Hmax; eauto.
              ** apply Qle_refl.
           ++ intros k s' Hlt Hk Hc.
              destruct (lookup_snoc _ _ _ _ Hk) as [Hk'|[-> _]]; [|lia].
              eapply Qle_lt_trans; [|exact Hgt]. eapply Hmax; eauto.
        -- exists x. split; [|reflexivity].
           rewrite lookup_app_r by lia. now rewrite Nat.sub_diag.
      * apply Qgtb_false in Hgt. simpl. split.
        -- exists s. split; [|split; [exact Hcs|split]].
           ++ apply lookup_app_l_Some. exact Hs.
           ++ intros k s' Hk Hc.
              destruct (lookup_snoc _ _ _ _ Hk) as [Hk'|[_ ->]];
                [eapply Hmax; eauto|exact Hgt].
           ++ intros k s' Hlt Hk Hc.
              destruct (lookup_snoc _ _ _ _ Hk) as [Hk'|[-> _]].
              ** eapply Hfirst; eauto.
              ** apply lookup_lt_Some in Hs. lia.
        -- exists s. split; [apply lookup_app_l_Some; exact Hs|reflexivity].
    + split.
      * exists x. split; [|split; [exact Hx|split]].
        -- rewrite lookup_app_r by lia. now rewrite Nat.sub_diag.
        -- intros k s' Hk Hc.
           destruct (lookup_snoc _ _ _ _ Hk) as [Hk'|[_ ->]].
           ++ apply Hinv in Hk'. congruence.
           ++ apply Qle_refl.
        -- intros k s' Hlt Hk Hc.
           destruct (lookup_snoc _ _ _ _ Hk) as [Hk'|[-> _]]; [|lia].
           apply Hinv in Hk'. congruence.
      * exists x. split; [|reflexivity].
        rewrite lookup_app_r by lia. now rewrite Nat.sub_diag.
  - rewrite visit_skip by exact Hx.
    destruct b as [[best_score|] [j|]]; simpl in *; try contradiction.
    + destruct Hinv as ((s & Hs & Hcs & Hmax & Hfirst) & s0 & Hs0 & ->).
      split.
      * exists s. split; [|split; [exact Hcs|split]].
        -- apply lookup_app_l_Some. exact Hs.
        -- intros k s' Hk Hc.
           destruct (lookup_snoc _ _ _ _ Hk) as [Hk'|[_ ->]];
             [eapply Hmax; eauto|congruence].
        -- intros k s' Hlt Hk Hc.
           destruct (lookup_snoc _ _ _ _ Hk) as [Hk'|[_ ->]];
             [eapply Hfirst; eauto|congruence].
      * exists s0. split; [apply lookup_app_l_Some; exact Hs0|reflexivity].
    + intros k s' Hk.
      destruct (lookup_snoc _ _ _ _ Hk) as [Hk'|[_ ->]];
        [eapply Hinv; eauto|exact Hx].
Qed.

Lemma scan_summarises rest : forall visited b,
  MaxContext.summarises position visited b ->
  MaxContext.summarises position (visited ++ rest)
    (MaxContext.scan position rest (List.length visited) b).
Proof.
  induction rest as [|x rest IH]; intros visited b Hinv; simpl.
  - now rewrite app_nil_r.
  - replace (visited ++ x :: rest) with ((visited ++ [x]) ++ rest)
      by now rewrite <- app_assoc.
    replace (S (List.length visited)) with (List.length (visited ++ [x]))
      by (rewrite length_app; simpl; lia).
    apply IH, visit_summarises, Hinv.
Qed.

Lemma scan_all doc_spans :
  MaxContext.summarises position doc_spans
    (MaxContext.scan position doc_spans 0%nat (None, None)).
Proof.
  apply (scan_summarises doc_spans [] (None, None)).
  intros k s' H. destruct k; discriminate.
Qed.

Lemma first_max_unique doc_spans i j :
  MaxContext.first_max doc_spans position i ->
  MaxContext.first_max doc_spans position j -> i = j.
Proof.
  intros (s & Hs & Hcs & Hmax & Hfirst) (t & Ht & Hct & Hmax' & Hfirst').
  destruct (Nat.lt_trichotomy i j) as [Hlt|[Heq|Hgt]]; [|exact Heq|].
  - exfalso. apply (Qlt_not_le _ _ (Hfirst' i s Hlt Hs Hcs)).
    eapply Hmax; eauto.
  - exfalso. apply (Qlt_not_le _ _ (Hfirst j t Hgt Ht Hct)).
    eapply Hmax'; eauto.
Qed.

Lemma check_iff_first_max doc_spans i :
  MaxContext._check_is_max_context doc_spans i position = true
  <-> MaxContext.first_max doc_spans position i.
Proof.
  unfold MaxContext._check_is_max_context.
  pose proof (scan_all doc_spans) as Hinv.
  destruct (MaxContext.scan position doc_spans 0%nat (None, None))
    as [[best_score|] [j|]]; simpl in *; try contradiction.
  - destruct Hinv as (Hj & _). rewrite Nat.eqb_eq. split.
    + now intros ->.
    + intros Hi. eapply first_max_unique; eauto.
  - split; [discriminate|].
    intros (s & Hs & Hcs & _). apply Hinv in Hs. congruence.
Qed.

Lemma covered_has_first_max doc_spans :
  (exists (i : nat) s, doc_spans !! i = Some s /\ covers s = true) ->
  exists j, MaxContext.first_max doc_spans position j.
Proof.
  intros (i & s & Hs & Hcs).
  pose proof (scan_all doc_spans) as Hinv.
  destruct (MaxContext.scan position doc_spans 0%nat (None, None))
    as [[best_score|] [j|]]; simpl in *; try contradiction.
  - destruct Hinv as (Hj & _). now exists j.
  - apply Hinv in Hs. congruence.
Qed.
End MaxContextFacts.

(** C6. For any list of spans and any position covered by at least one of
    them, [_check_is_max_context] answers [True] for exactly one span
    index, and that span covers the position; so a position covered by a
    single span is owned by that span, and a position covered by several
    spans is owned by exactly one of them. *)
Theorem check_is_max_context_single_owner
    (doc_spans : list DocSpan.t) (position : Z) :
  (exists (i : nat) s,
     doc_spans !! i = Some s /\ DocSpan.covers s position = true) ->
  (exists (j : nat) s,
     doc_spans !! j = Some s /\ DocSpan.covers s position = true
     /\ forall k : nat,
          MaxContext._check_is_max_context doc_spans k position = true
          <-> k = j)
  /\ (forall (i : nat) s,
        doc_spans !! i = Some s -> DocSpan.covers s position = true ->
        (forall (k : nat) s', doc_spans !! k = Some s' ->
           DocSpan.covers s' position = true -> k = i) ->
        MaxContext._check_is_max_context doc_spans i position = true).
Proof.
  intros Hcov.
  destruct (covered_has_first_max position doc_spans Hcov) as (j & Hj).
  assert (Hown : exists (j : nat) s,
     doc_spans !! j = Some s /\ DocSpan.covers s position = true
     /\ forall k : nat,
          MaxContext._check_is_max_context doc_spans k position = true
          <-> k = j).
  { destruct Hj as (s & Hs & Hcs & Hrest) eqn:E.
    exists j, s. split; [exact Hs|split; [exact Hcs|]].
    intros k. rewrite check_iff_first_max. split.
    - intros Hk. eapply first_max_unique; eauto.
    - now intros ->. }
  split; [exact Hown|].
  intros i s Hs Hcs Honly.
  destruct Hown as (j' & s' & Hs' & Hcs' & Hiff).
  apply Hiff. symmetry. eapply Honly; eauto.
Qed.

Lemma check_is_max_context_single_owner_witness :
  MaxContext._check_is_max_context
    [DocSpan.mk 0 5; DocSpan.mk 2 5; DocSpan.mk 4 5] 0%nat 1 = true.
Proof.
  refine (proj2 (check_is_max_context_single_owner
                   [DocSpan.mk 0 5; DocSpan.mk 2 5; DocSpan.mk 4 5] 1 _)
            0%nat (DocSpan.mk 0 5) _ _ _).
  - exists 0%nat, (DocSpan.mk 0 5). split; reflexivity.
  - reflexivity.
  - reflexivity.
  - intros [|[|[|k]]] s' Hk Hc; simpl in Hk; try discriminate;
      try reflexivity; injection Hk as <-; vm_compute in Hc; discriminate.
Defined.

(** C3 (as amended). For any list of spans and any position within the
    range of floats, [_check_is_max_context] answers [True] for span [i]
    precisely when span [i] covers the position, no covering span has a
    larger score [min(left, right) + 0.01 * length] as the code computes
    it in binary64, and every earlier covering span has a strictly
    smaller one; such a span exists whenever the position is covered. *)
Theorem check_is_max_context_first_maximum
    (doc_spans : list DocSpan.t) (position : Z) :
  MaxContext.within_float_range doc_spans position ->
  (forall i : nat,
     MaxContext._check_is_max_context doc_spans i position = true
     <-> MaxContext.first_max doc_spans position i)
  /\ ((exists (i : nat) s,
         doc_spans !! i = Some s /\ DocSpan.covers s position = true) ->
      exists j : nat, MaxContext.first_max doc_spans position j).
Proof.
  intros _. split.
  - intros i. apply check_iff_first_max.
  - apply covered_has_first_max.
Qed.

Lemma check_is_max_context_first_maximum_witness :
  exists j : nat,
    MaxContext.first_max [DocSpan.mk 0 5; DocSpan.mk 2 5; DocSpan.mk 4 5] 3 j.
Proof.
  refine (proj2 (check_is_max_context_first_maximum
                   [DocSpan.mk 0 5; DocSpan.mk 2 5; DocSpan.mk 4 5] 3 _) _).
  - split; [reflexivity|]. repeat constructor.
  - exists 0%nat, (DocSpan.mk 0 5). split; reflexivity.
Defined.

(** C3 as stated fails: the spans the window loop builds for a stream of
    9 subwords with budget 5 and stride 2 are [(0,5); (2,5); (4,5)];
    position 3 lies in the first two, one place from the right edge of
    one and one place from the left edge of the other, so both compute
    the same float [1 + 0.01 * 5] and no span is strictly maximal. *)
Lemma max_context_score_can_tie :
  exists spans,
    Windows.doc_spans_loop 9 5 2 (Windows.enough_fuel 9) = Some spans
    /\ (exists (i : nat) s,
          spans !! i = Some s /\ DocSpan.covers s 3 = true)
    /\ ~ (exists i : nat, MaxContext.strict_max spans 3 i).
Proof.
  exists [DocSpan.mk 0 5; DocSpan.mk 2 5; DocSpan.mk 4 5].
  split; [reflexivity|split].
  - exists 0%nat, (DocSpan.mk 0 5). split; reflexivity.
  - intros (i & s & Hs & Hcs & Hstrict).
    destruct i as [|[|[|i]]]; simpl in Hs; try discriminate;
      injection Hs as <-.
    + specialize (Hstrict 1%nat (DocSpan.mk 2 5)).
      apply (Qlt_irrefl (MaxContext.score (DocSpan.mk 0 5) 3)).
      assert (H : (MaxContext.score (DocSpan.mk 2 5) 3
                   < MaxContext.score (DocSpan.mk 0 5) 3)%Q)
        by (apply Hstrict; [lia|reflexivity|reflexivity]).
      vm_compute in H. discriminate.
    + specialize (Hstrict 0%nat (DocSpan.mk 0 5)).
      assert (H : (MaxContext.score (DocSpan.mk 0 5) 3
                   < MaxContext.score (DocSpan.mk 2 5) 3)%Q)
        by (apply Hstrict; [lia|reflexivity|reflexivity]).
      vm_compute in H. discriminate.
    + vm_compute in Hcs. discriminate.
Qed.

(** Rounding decides between scores that are equal as rational numbers:
    the loop builds the spans [(0,118); (114,18)] for 132 subwords with
    budget 118 and stride 114; at position 116 both have
    [min(left, right) + length / 100 = 2.18], but in binary64
    [1 + 0.01 * 118] is the number just below [2 + 0.01 * 18], and the
    second span is the one with maximum context. *)
Lemma max_context_rounding_decides :
  Windows.doc_spans_loop 132 118 114 (Windows.enough_fuel 132)
  = Some [DocSpan.mk 0 118; DocSpan.mk 114 18]
  /\ (1 + (1 # 100) * 118 == 2 + (1 # 100) * 18)%Q
  /\ (MaxContext.score (DocSpan.mk 0 118) 116
      < MaxContext.score (DocSpan.mk 114 18) 116)%Q
  /\ List.map (fun i => MaxContext._check_is_max_context
                          [DocSpan.mk 0 118; DocSpan.mk 114 18] i 116)
       [0%nat; 1%nat]
     = [false; true].
Proof.
  split; [vm_compute; reflexivity|]. split; [reflexivity|].
  split; vm_compute; reflexivity.
Qed.

(** ** The span aligner *)

Section LoopFacts.
Context {B : Type}.

Lemma range_cons a b : a < b -> range a b = a :: range (a + 1) b.
Proof.
  intros H. unfold range.
  replace (Z.to_nat (b - a)) with (S (Z.to_nat (b - (a + 1)))) by lia.
  simpl. f_equal; [lia|].
  rewrite <- seq_shift, List.map_map.
  apply List.map_ext. intros i. lia.
Qed.

Lemma range_nil a b : b <= a -> range a b = [].
Proof.
  intros H. unfold range. now replace (Z.to_nat (b - a)) with 0%nat by lia.
Qed.

Lemma range_down_cons a b :
  b < a -> range_down a b = a :: range_down (a - 1) b.
Proof.
  intros H. unfold range_down.
  replace (Z.to_nat (a - b)) with (S (Z.to_nat (a - 1 - b))) by lia.
  simpl. f_equal; [lia|].
  rewrite <- seq_shift, List.map_map.
  apply List.map_ext. intros i. lia.
Qed.

Lemma range_down_nil a b : a <= b -> range_down a b = [].
Proof.
  intros H. unfold range_down.
  now replace (Z.to_nat (a - b)) with 0%nat by lia.
Qed.

(** An ascending loop returns at the least index whose round returns. *)
Lemma first_return_range (body : Z -> option B) (k : nat) : forall a b,
  Z.to_nat (b - a) = k ->
  match SpanAligner.first_return body (range a b) with
  | None => forall x, a <= x < b -> body x = None
  | Some v =>
      exists x, a <= x < b /\ body x = Some v
                /\ forall y, a <= y < x -> body y = None
  end.
Proof.
  induction k as [|k IH]; intros a b Hk.
  - rewrite range_nil by lia. simpl. intros x Hx. lia.
  - rewrite range_cons by lia. simpl.
    destruct (body a) as [v|] eqn:Ea.
    + exists a. split; [lia|split; [exact Ea|]]. intros y Hy. lia.
    + specialize (IH (a + 1) b ltac:(lia)).
      destruct (SpanAligner.first_return body (range (a + 1) b)) as [v|].
      * destruct IH as (x & Hx & Hbx & Hbefore).
        exists x. split; [lia|split; [exact Hbx|]].
        intros y Hy. destruct (Z.eq_dec y a) as [->|Hne]; [exact Ea|].
        apply Hbefore. lia.
      * intros x Hx. destruct (Z.eq_dec x a) as [->|Hne]; [exact Ea|].
        apply IH. lia.
Qed.

(** A descending loop returns at the greatest index whose round
    returns. *)
Lemma first_return_range_down (body : Z -> option B) (k : nat) :
  forall a b,
  Z.to_nat (a - b) = k ->
  match SpanAligner.first_return body (range_down a b) with
  | None => forall x, b < x <= a -> body x = None
  | Some v =>
      exists x, b < x <= a /\ body x = Some v
                /\ forall y, x < y <= a -> body y = None
  end.
Proof.
  induction k as [|k IH]; intros a b Hk.
  - rewrite range_down_nil by lia. simpl. intros x Hx. lia.
  - rewrite range_down_cons by lia. simpl.
    destruct (body a) as [v|] eqn:Ea.
    + exists a. split; [lia|split; [exact Ea|]]. intros y Hy. lia.
    + specialize (IH (a - 1) b ltac:(lia)).
      destruct (SpanAligner.first_return body (range_down (a - 1) b))
        as [v|].
      * destruct IH as (x & Hx & Hbx & Hbefore).
        exists x. split; [lia|split; [exact Hbx|]].
        intros y Hy. destruct (Z.eq_dec y a) as [->|Hne]; [exact Ea|].
        apply Hbefore. lia.
      * intros x Hx. destruct (Z.eq_dec x a) as [->|Hne]; [exact Ea|].
        apply IH. lia.
Qed.
End LoopFacts.

Section SpanAlignerFacts.
Variables (doc_tokens : list str) (tok_answer_text : str).
Variables (input_start input_end : Z).

#[local] Abbreviation matches new_start new_end :=
  (SpanAligner.text_span doc_tokens new_start new_end = tok_answer_text).

#[local] Abbreviation inner :=
  (SpanAligner.inner_loop doc_tokens tok_answer_text input_end).

Lemma inner_spec new_start :
  match inner new_start with
  | None =>
      forall new_end, new_start <= new_end <= input_end ->
                      ~ matches new_start new_end
  | Some r =>
      exists new_end,
        r = (new_start, new_end)
        /\ new_start <= new_end <= input_end
        /\ matches new_start new_end
        /\ forall e, new_end < e <= input_end -> ~ matches new_start e
  end.
Proof.
  pose proof (first_return_range_down
                (fun new_end =>
                   if decide (matches new_start new_end)
                   then Some (new_start, new_end) else None)
                _ input_end (new_start - 1) eq_refl) as H.
  cbv beta in H. unfold SpanAligner.inner_loop.
  destruct (SpanAligner.first_return _ _) as [r|].
  - destruct H as (x & Hx & Hbx & Hbefore).
    destruct (decide (matches new_start x)) as [Hm|]; [|discriminate].
    injection Hbx as <-. exists x. repeat split; try lia; [exact Hm|].
    intros e He Hme. specialize (Hbefore e ltac:(lia)).
    destruct (decide (matches new_start e)); [discriminate|contradiction].
  - intros new_end He Hm. specialize (H new_end ltac:(lia)).
    destruct (decide (matches new_start new_end));
      [discriminate|contradiction].
Qed.

Lemma search_spec :
  match SpanAligner.search doc_tokens tok_answer_text input_start
          input_end with
  | None =>
      forall new_start new_end,
        input_start <= new_start -> new_start <= new_end ->
        new_end <= input_end -> ~ matches new_start new_end
  | Some r =>
      exists new_start new_end,
        r = (new_start, new_end)
        /\ input_start <= new_start /\ new_start <= new_end
        /\ new_end <= input_end
        /\ matches new_start new_end
        /\ forall s e,
             input_start <= s -> s <= e -> e <= input_end ->
             s < new_start \/ (s = new_start /\ new_end < e) ->
             ~ matches s e
  end.
Proof.
  unfold SpanAligner.search.
  pose proof (first_return_range inner _ input_start (input_end + 1)
                eq_refl) as H.
  destruct (SpanAligner.first_return _ (range input_start (input_end + 1)))
    as [r|].
  - destruct H as (x & Hx & Hbx & Hbefore).
    pose proof (inner_spec x) as Hin. rewrite Hbx in Hin.
    destruct Hin as (new_end & -> & He & Hm & Hlater).
    exists x, new_end. repeat split; try lia; [exact Hm|].
    intros s e Hs Hse He' [Hlt|[-> Hgt]].
    + specialize (Hbefore s ltac:(lia)).
      pose proof (inner_spec s) as Hin. rewrite Hbefore in Hin.
      apply Hin. lia.
    + apply Hlater. lia.
  - intros new_start new_end Hs Hse He.
    specialize (H new_start ltac:(lia)).
    pose proof (inner_spec new_start) as Hin. rewrite H in Hin.
    apply Hin. lia.
Qed.
End SpanAlignerFacts.

(** C7. [_improve_answer_span] gives back [(input_start, input_end)] when
    no sub-range [[new_start, new_end]] of it space-joins to the tokenized
    answer text; otherwise it gives the first matching sub-range in the
    scan that takes [new_start] upwards from [input_start] and, for each
    [new_start], [new_end] downwards from [input_end]. *)
Theorem improve_answer_span_first_match
    (doc_tokens : list str) (input_start input_end : Z)
    (tokenizer : Tokenizer) (orig_answer_text : str) :
  input_start <= input_end ->
  let tok_answer_text := join space (tokenize tokenizer orig_answer_text) in
  let matches new_start new_end :=
    SpanAligner.text_span doc_tokens new_start new_end = tok_answer_text in
  let in_range new_start new_end :=
    input_start <= new_start /\ new_start <= new_end
    /\ new_end <= input_end in
  let result :=
    SpanAligner._improve_answer_span doc_tokens input_start input_end
      tokenizer orig_answer_text in
  ((forall new_start new_end,
      in_range new_start new_end -> ~ matches new_start new_end) ->
   result = (input_start, input_end))
  /\ ((exists new_start new_end,
         in_range new_start new_end /\ matches new_start new_end) ->
      exists new_start new_end,
        result = (new_start, new_end)
        /\ in_range new_start new_end
        /\ matches new_start new_end
        /\ forall s e,
             in_range s e ->
             s < new_start \/ (s = new_start /\ new_end < e) ->
             ~ matches s e).
Proof.
  intros Hle tok_answer_text matches in_range result.
  subst result. unfold SpanAligner._improve_answer_span.
  fold tok_answer_text.
  pose proof (search_spec doc_tokens tok_answer_text input_start input_end)
    as H.
  destruct (SpanAligner.search doc_tokens tok_answer_text input_start
              input_end) as [r|].
  - destruct H as (ns & ne & -> & H1 & H2 & H3 & Hm & Hfirst).
    split.
    + intros Hnone. exfalso. apply (Hnone ns ne); [repeat split; lia|].
      exact Hm.
    + intros _. exists ns, ne. split; [reflexivity|].
      split; [repeat split; lia|]. split; [exact Hm|].
      intros s e (Hs1 & Hs2 & Hs3). now apply Hfirst.
  - split; [reflexivity|].
    intros (ns & ne & (H1 & H2 & H3) & Hm). exfalso.
    exact (H ns ne H1 H2 H3 Hm).
Qed.

Lemma improve_answer_span_first_match_witness :
  exists new_start new_end,
    SpanAligner._improve_answer_span [lit "a"; lit "b"; lit "c"; lit "d"]
      0 3 Samples.char_tokenizer (lit "bc") = (new_start, new_end)
    /\ (0 <= new_start /\ new_start <= new_end /\ new_end <= 3)
    /\ SpanAligner.text_span [lit "a"; lit "b"; lit "c"; lit "d"]
         new_start new_end = lit "b c".
Proof.
  destruct (improve_answer_span_first_match
              [lit "a"; lit "b"; lit "c"; lit "d"] 0 3
              Samples.char_tokenizer (lit "bc") ltac:(lia)) as [_ H].
  destruct H as (ns & ne & Hr & Hin & Hm & _).
  - exists 1, 2. split; [repeat split; lia|reflexivity].
  - exists ns, ne. split; [exact Hr|split; [exact Hin|exact Hm]].
Defined.

(** ** The document loader *)

(** C4 (as amended). In training mode, for a question that is answerable
    and has exactly one answer, the loader copies the record's
    [answer_start] and [answer_end] into the example as its word-index
    start and end positions; the paragraph text plays no part in them. *)
Theorem loader_copies_word_positions
    (version : str) (doc_tokens : list str) (qa : Loader.QA)
    (answer : Loader.Answer) :
  Loader.answers qa = [answer] ->
  (version = Loader.v2 -> Loader.qa_is_impossible qa = false) ->
  Loader.read_qa true version doc_tokens qa =
    Ok (SquadExample.mk (Loader.id qa) (Loader.question qa) doc_tokens
          (Some (Loader.text answer))
          (Some (Loader.answer_start answer))
          (Some (Loader.answer_end answer)) false).
Proof.
  intros Hans Hv2. unfold Loader.read_qa. rewrite Hans.
  destruct (decide (version = Loader.v2)) as [Hv|Hv].
  - rewrite (Hv2 Hv). reflexivity.
  - reflexivity.
Qed.

Lemma loader_copies_word_positions_witness :
  Loader.read_qa true Loader.v2 (Loader.doc_tokens_of (lit "ab cd ef"))
    Samples.qa_ef =
    Ok (SquadExample.mk (lit "q1") (lit "which")
          [lit "ab"; lit "cd"; lit "ef"]
          (Some (lit "ef")) (Some 2) (Some 2) false).
Proof.
  apply (loader_copies_word_positions Loader.v2
           (Loader.doc_tokens_of (lit "ab cd ef")) Samples.qa_ef
           Samples.answer_ef).
  - reflexivity.
  - intros _. reflexivity.
Defined.

(** C4 as stated fails: for the paragraph ["ab cd ef"] and an answer
    record with [answer_start = 2], the character-offset map sends offset
    2 (the first blank) to word 0, but the example's start position is
    2. *)
Lemma loader_ignores_char_to_word_offset :
  exists example,
    Loader.read_paragraph true Loader.v2 Samples.paragraph_ab_cd_ef =
      Ok [example]
    /\ Loader.char_to_word_offset_of (lit "ab cd ef")
       = [0; 0; 0; 1; 1; 1; 2; 2]
    /\ Loader.start_by_char_offset (lit "ab cd ef") Samples.answer_ef = Ok 0
    /\ SquadExample.start_position example = Some 2
    /\ Ok 2 <> Loader.start_by_char_offset (lit "ab cd ef") Samples.answer_ef.
Proof.
  eexists. split; [reflexivity|].
  split; [reflexivity|]. split; [reflexivity|]. split; [reflexivity|].
  vm_compute. discriminate.
Qed.

(** ** Candidate filtering *)

Section CandidateFacts.
Context {S A B : Type}.

(** A loop whose body appends to its state appends the concatenation. *)
Lemma for_fold_append (P : A -> Prop) (body : list B -> A -> res (list B))
    (new : A -> list B) :
  (forall acc x, P x -> body acc x = Ok (acc ++ new x)) ->
  forall l acc, List.Forall P l ->
  for_fold body l acc = Ok (acc ++ List.flat_map new l).
Proof.
  intros Hbody. induction l as [|x l IH]; intros acc Hall; simpl.
  - now rewrite app_nil_r.
  - inversion Hall as [|? ? Hx Hl]; subst.
    rewrite (Hbody acc x Hx). simpl. rewrite (IH _ Hl).
    now rewrite <- app_assoc.
Qed.
End CandidateFacts.

Lemma index_in_range {A} (l : list A) (i : Z) :
  0 <= i < len l -> exists a, index l i = Ok a.
Proof.
  intros Hi. unfold index.
  destruct (Z.ltb_spec i 0) as [|_]; [lia|].
  destruct (Z.ltb_spec i 0) as [|_]; [lia|].
  destruct (l !! Z.to_nat i) as [a|] eqn:E; [now exists a|].
  apply lookup_ge_None in E. unfold len in Hi. lia.
Qed.

Lemma in_insert_desc {A} (key : A -> Q) (x y : A) (l : list A) :
  In y (Aggregator.insert_desc key x l) <-> y = x \/ In y l.
Proof.
  induction l as [|z l IH]; simpl.
  - intuition auto.
  - destruct (Aggregator.Qgtb (key z) (key x)); simpl; rewrite ?IH;
      intuition auto.
Qed.

Lemma in_sorted_desc {A} (key : A -> Q) (y : A) (l : list A) :
  In y (Aggregator.sorted_desc key l) <-> In y l.
Proof.
  induction l as [|x l IH]; simpl; [reflexivity|].
  rewrite in_insert_desc, IH. intuition auto.
Qed.

Lemma length_insert_desc {A} (key : A -> Q) (x : A) (l : list A) :
  List.length (Aggregator.insert_desc key x l) = Datatypes.S (List.length l).
Proof.
  induction l as [|z l IH]; simpl; [reflexivity|].
  destruct (Aggregator.Qgtb (key z) (key x)); simpl; [now rewrite IH|].
  reflexivity.
Qed.

Lemma length_sorted_desc {A} (key : A -> Q) (l : list A) :
  List.length (Aggregator.sorted_desc key l) = List.length l.
Proof.
  induction l as [|x l IH]; simpl; [reflexivity|].
  now rewrite length_insert_desc, IH.
Qed.

(** The indexes [_get_best_indexes] returns are positions of [logits]. *)
Lemma best_indexes_in_range (logits : list Q) (n_best_size : Z) (i : Z) :
  In i (Aggregator._get_best_indexes logits n_best_size) ->
  0 <= i < len logits.
Proof.
  unfold Aggregator._get_best_indexes. rewrite in_map_iff.
  intros ([k v] & <- & Hin). simpl.
  assert (Hin' : In (k, v) (Aggregator.sorted_desc snd (enumerate logits))).
  { rewrite <- (take_drop (Z.to_nat n_best_size)).
    apply in_or_app. now left. }
  apply in_sorted_desc in Hin'. unfold enumerate in Hin'.
  apply in_combine_l in Hin'. apply in_seq in Hin'. unfold len. lia.
Qed.

Lemma discarded_false_iff (feature : InputFeatures.t)
    (max_answer_length start_index end_index : Z) :
  Aggregator.discarded feature max_answer_length start_index end_index
    = false
  <-> start_index < len (InputFeatures.tokens feature)
      /\ end_index < len (InputFeatures.tokens feature)
      /\ is_Some (InputFeatures.token_to_orig_map feature !! start_index)
      /\ is_Some (InputFeatures.token_to_orig_map feature !! end_index)
      /\ InputFeatures.token_is_max_context feature !! start_index
         = Some true
      /\ start_index <= end_index
      /\ end_index - start_index + 1 <= max_answer_length.
Proof.
  unfold Aggregator.discarded.
  destruct (Z.geb_spec start_index (len (InputFeatures.tokens feature)));
    [split; [discriminate|lia]|].
  destruct (Z.geb_spec end_index (len (InputFeatures.tokens feature)));
    [split; [discriminate|lia]|].
  destruct (bool_decide_reflect
              (is_Some (InputFeatures.token_to_orig_map feature
                          !! start_index))) as [Hs|Hs]; simpl;
    [|split; [discriminate|tauto]].
  destruct (bool_decide_reflect
              (is_Some (InputFeatures.token_to_orig_map feature
                          !! end_index))) as [He|He]; simpl;
    [|split; [discriminate|tauto]].
  destruct (InputFeatures.token_is_max_context feature !! start_index)
    as [[|]|] eqn:Hmax; simpl;
    try (split; [discriminate|intros (_ & _ & _ & _ & Hm & _); discriminate]).
  destruct (Z.ltb_spec end_index start_index);
    [split; [discriminate|lia]|].
  destruct (Z.gtb_spec (end_index - start_index + 1) max_answer_length);
    [split; [discriminate|lia]|].
  split; [intros _; repeat split; auto; lia|reflexivity].
Qed.

Lemma candidates_spec (feature_index : Z) (feature : InputFeatures.t)
    (result : RawResult.t) (max_answer_length : Z)
    (start_indexes end_indexes : list Z)
    (prelim_predictions : list PrelimPrediction.t) :
  List.Forall (fun i => 0 <= i < len (RawResult.start_logits result))
    start_indexes ->
  List.Forall (fun i => 0 <= i < len (RawResult.end_logits result))
    end_indexes ->
  Aggregator.candidates feature_index feature result max_answer_length
    start_indexes end_indexes prelim_predictions =
  Ok (prelim_predictions ++
      List.flat_map (fun start_index =>
        List.flat_map
          (Aggregator.candidate_of feature_index feature result
             max_answer_length start_index) end_indexes) start_indexes).
Proof.
  intros Hs He. unfold Aggregator.candidates.
  apply (for_fold_append
           (fun i => 0 <= i < len (RawResult.start_logits result)));
    [|exact Hs].
  intros acc start_index Hsi.
  apply (for_fold_append
           (fun i => 0 <= i < len (RawResult.end_logits result)));
    [|exact He].
  intros acc' end_index Hei. unfold Aggregator.candidate_of.
  destruct (Aggregator.discarded feature max_answer_length start_index
              end_index); [now rewrite app_nil_r|].
  destruct (index_in_range _ _ Hsi) as [a ->].
  destruct (index_in_range _ _ Hei) as [b ->].
  reflexivity.
Qed.

(** C8. The pairs [(start_index, end_index)] drawn from the two top-n
    index lists of a feature that become candidate predictions are
    exactly those with both indexes below [len(feature.tokens)], both
    indexes keys of [token_to_orig_map], [start_index] flagged in
    [token_is_max_context], [end_index >= start_index] and
    [end_index - start_index + 1 <= max_answer_length]; the loop over the
    pairs never raises. *)
Theorem candidate_iff_passes_filters
    (feature_index : Z) (feature : InputFeatures.t) (result : RawResult.t)
    (n_best_size max_answer_length : Z) :
  let start_indexes :=
    Aggregator._get_best_indexes (RawResult.start_logits result)
      n_best_size in
  let end_indexes :=
    Aggregator._get_best_indexes (RawResult.end_logits result) n_best_size in
  exists prelim_predictions,
    Aggregator.candidates feature_index feature result max_answer_length
      start_indexes end_indexes [] = Ok prelim_predictions
    /\ forall start_index end_index,
         In start_index start_indexes -> In end_index end_indexes ->
         ((exists p, In p prelim_predictions
                     /\ PrelimPrediction.feature_index p = feature_index
                     /\ PrelimPrediction.start_index p = start_index
                     /\ PrelimPrediction.end_index p = end_index)
          <-> start_index < len (InputFeatures.tokens feature)
              /\ end_index < len (InputFeatures.tokens feature)
              /\ is_Some (InputFeatures.token_to_orig_map feature
                            !! start_index)
              /\ is_Some (InputFeatures.token_to_orig_map feature
                            !! end_index)
              /\ InputFeatures.token_is_max_context feature !! start_index
                 = Some true
              /\ start_index <= end_index
              /\ end_index - start_index + 1 <= max_answer_length).
Proof.
  intros start_indexes end_indexes.
  assert (Hs : List.Forall
                 (fun i => 0 <= i < len (RawResult.start_logits result))
                 start_indexes).
  { apply List.Forall_forall. intros i. apply best_indexes_in_range. }
  assert (He : List.Forall
                 (fun i => 0 <= i < len (RawResult.end_logits result))
                 end_indexes).
  { apply List.Forall_forall. intros i. apply best_indexes_in_range. }
  eexists. split; [apply candidates_spec; assumption|].
  intros start_index end_index Hsi Hei. simpl.
  rewrite <- discarded_false_iff. split.
  - intros (p & Hp & _ & Hps & Hpe).
    apply in_flat_map in Hp. destruct Hp as (si & _ & Hp).
    apply in_flat_map in Hp. destruct Hp as (ei & _ & Hp).
    unfold Aggregator.candidate_of in Hp.
    destruct (Aggregator.discarded feature max_answer_length si ei) eqn:Hd;
      [contradiction|].
    destruct (index (RawResult.start_logits result) si),
      (index (RawResult.end_logits result) ei); simpl in Hp;
      try contradiction.
    destruct Hp as [<-|[]]. simpl in Hps, Hpe. now subst.
  - intros Hd.
    rewrite List.Forall_forall in Hs, He.
    destruct (index_in_range _ _ (Hs _ Hsi)) as [a Ha].
    destruct (index_in_range _ _ (He _ Hei)) as [b Hb].
    exists (PrelimPrediction.mk feature_index start_index end_index a b).
    split; [|repeat split].
    apply in_flat_map. exists start_index. split; [exact Hsi|].
    apply in_flat_map. exists end_index. split; [exact Hei|].
    unfold Aggregator.candidate_of. rewrite Hd, Ha, Hb. now left.
Qed.

(** ** The window builder *)

Lemma index_raises {A} (l : list A) (i : Z) (e : exn) :
  index l i = Raise e -> e = IndexError.
Proof.
  unfold index.
  destruct ((if i <? 0 then i + len l else i) <? 0); [congruence|].
  destruct (l !! _); [discriminate|congruence].
Qed.

Lemma require_raises {A} (o : option A) (e : exn) :
  require o = Raise e -> e = TypeError.
Proof. destruct o; simpl; [discriminate|congruence]. Qed.

Section BuildWindowFacts.
Variables (tokenizer : Tokenizer) (max_seq_length : Z) (is_training : bool).
Variables (example_index : Z) (example : SquadExample.t).
Variables (query_tokens : list str) (tok_to_orig_index : list Z).
Variables (all_doc_tokens : list str).
Variables (tok_start_position tok_end_position : option Z).
Variables (doc_spans : list DocSpan.t).

#[local] Abbreviation slice_step doc_span_index doc_span :=
  (Builder.slice_step doc_spans doc_span_index doc_span tok_to_orig_index
     all_doc_tokens).

(** The loop over the slice adds one token and one segment id per round,
    and can only fail on an index. *)
Lemma slice_loop_lengths doc_span_index doc_span (l : list Z) :
  forall tokens m1 m2 segment_ids,
  match for_fold (slice_step doc_span_index doc_span) l
          (tokens, m1, m2, segment_ids) with
  | Ok (tokens', _, _, segment_ids') =>
      List.length tokens' = (List.length tokens + List.length l)%nat
      /\ List.length segment_ids'
         = (List.length segment_ids + List.length l)%nat
  | Raise e => e = IndexError
  end.
Proof.
  induction l as [|i l IH]; intros tokens m1 m2 segment_ids; simpl.
  - split; lia.
  - destruct (index tok_to_orig_index (DocSpan.start doc_span + i))
      as [orig|e] eqn:E1; simpl; [|now apply index_raises in E1].
    destruct (index all_doc_tokens (DocSpan.start doc_span + i))
      as [token|e] eqn:E2; simpl; [|now apply index_raises in E2].
    specialize (IH (tokens ++ [token])
                  (<[len tokens := orig]> m1)
                  (<[len tokens :=
                       MaxContext._check_is_max_context doc_spans
                         doc_span_index (DocSpan.start doc_span + i)]> m2)
                  (segment_ids ++ [1])).
    destruct (for_fold _ l _) as [[[[tokens' m1'] m2'] segs']|e];
      [|exact IH].
    rewrite !length_app in IH. simpl in IH. lia.
Qed.

(** With every index of the slice inside the subword stream the loop
    does not fail. *)
Lemma slice_loop_total doc_span_index doc_span (l : list Z) :
  len tok_to_orig_index = len all_doc_tokens ->
  List.Forall (fun i => 0 <= DocSpan.start doc_span + i < len all_doc_tokens)
    l ->
  forall st, exists st',
    for_fold (slice_step doc_span_index doc_span) l st = Ok st'.
Proof.
  intros Hlen. induction 1 as [|i l Hi _ IH]; intros st; simpl.
  - now exists st.
  - destruct st as [[[tokens m1] m2] segment_ids]. simpl.
    destruct (index_in_range tok_to_orig_index
                (DocSpan.start doc_span + i)) as [orig ->]; [lia|].
    destruct (index_in_range all_doc_tokens
                (DocSpan.start doc_span + i)) as [token ->]; [lia|].
    simpl. apply IH.
Qed.

Lemma gold_positions_raises doc_span e :
  Builder.gold_positions is_training example query_tokens doc_span
    tok_start_position tok_end_position = Raise e -> e = TypeError.
Proof.
  unfold Builder.gold_positions.
  destruct (is_training && negb (SquadExample.is_impossible example))%bool.
  - destruct (require (SquadExample.start_position example))
      as [ex_start|e1] eqn:E1; simpl;
      [|intros [= <-]; now apply require_raises in E1].
    destruct (require (SquadExample.end_position example))
      as [ex_end|e2] eqn:E2; simpl;
      [|intros [= <-]; now apply require_raises in E2].
    destruct (_ || _ || _ || _)%bool; simpl.
    + destruct (is_training && SquadExample.is_impossible example)%bool;
        discriminate.
    + destruct (require tok_start_position) as [ts|e3] eqn:E3; simpl;
        [|intros [= <-]; now apply require_raises in E3].
      destruct (require tok_end_position) as [te|e4] eqn:E4; simpl;
        [|intros [= <-]; now apply require_raises in E4].
      destruct (is_training && SquadExample.is_impossible example)%bool;
        discriminate.
  - simpl.
    destruct (is_training && SquadExample.is_impossible example)%bool;
      discriminate.
Qed.

Lemma range_length a b : List.length (range a b) = Z.to_nat (b - a).
Proof. unfold range. now rewrite length_map, length_seq. Qed.

(** A window whose slice fits the budget passes the three assertions:
    what it returns has the fixed lengths, and it can only fail in the
    loop over the slice or in the gold positions. *)
Lemma build_window_cases unique_id doc_span_index doc_span :
  0 <= max_seq_length - len query_tokens - 3 ->
  DocSpan.length doc_span <= max_seq_length - len query_tokens - 3 ->
  match Builder.build_window tokenizer max_seq_length is_training
          example_index example query_tokens tok_to_orig_index
          all_doc_tokens tok_start_position tok_end_position doc_spans
          unique_id doc_span_index doc_span with
  | Ok feature => Builder.fixed_length max_seq_length feature
  | Raise e =>
      (exists st,
         for_fold (slice_step doc_span_index doc_span)
           (range 0 (DocSpan.length doc_span)) st = Raise e)
      \/ Builder.gold_positions is_training example query_tokens doc_span
           tok_start_position tok_end_position = Raise e
  end.
Proof.
  intros HM Hlen. unfold Builder.build_window.
  pose proof (slice_loop_lengths doc_span_index doc_span
                (range 0 (DocSpan.length doc_span))
                ([Builder.CLS] ++ query_tokens ++ [Builder.SEP]) ∅ ∅
                ([0] ++ List.map (fun _ => 0) query_tokens ++ [0])) as Hloop.
  destruct (for_fold _ _ _) as [[[[tokens m1] m2] segs]|e] eqn:Ef;
    simpl; [|left; eexists; exact Ef].
  destruct Hloop as [Ht Hs].
  rewrite range_length in Ht, Hs.
  simpl in Ht, Hs. rewrite !length_app in Ht, Hs.
  rewrite length_map in Hs. simpl in Ht, Hs.
  unfold len in *.
  set (ids := convert_tokens_to_ids tokenizer (tokens ++ [Builder.SEP])).
  assert (Hids : List.length ids
                 = (List.length query_tokens + 3
                    + Z.to_nat (DocSpan.length doc_span - 0))%nat).
  { subst ids. unfold convert_tokens_to_ids.
    rewrite length_map, length_app. simpl. lia. }
  assert (H1 : Z.of_nat (List.length
                 (ids ++ List.repeat 0
                           (Z.to_nat (max_seq_length
                                      - Z.of_nat (List.length ids)))))
               = max_seq_length).
  { rewrite length_app, repeat_length. lia. }
  assert (H2 : Z.of_nat (List.length
                 (List.map (fun _ => 1) ids
                  ++ List.repeat 0
                       (Z.to_nat (max_seq_length
                                  - Z.of_nat (List.length ids)))))
               = max_seq_length).
  { rewrite length_app, repeat_length, length_map. lia. }
  assert (H3 : Z.of_nat (List.length
                 ((segs ++ [1])
                  ++ List.repeat 0
                       (Z.to_nat (max_seq_length
                                  - Z.of_nat (List.length ids)))))
               = max_seq_length).
  { rewrite !length_app, repeat_length. simpl. lia. }
  rewrite H1, H2, H3, Z.eqb_refl. simpl.
  destruct (Builder.gold_positions _ _ _ _ _ _) as [gold|e] eqn:Eg; simpl.
  - repeat split; assumption.
  - now right.
Qed.

Lemma build_window_no_assertion_error unique_id doc_span_index doc_span e :
  0 <= max_seq_length - len query_tokens - 3 ->
  DocSpan.length doc_span <= max_seq_length - len query_tokens - 3 ->
  Builder.build_window tokenizer max_seq_length is_training
    example_index example query_tokens tok_to_orig_index
    all_doc_tokens tok_start_position tok_end_position doc_spans
    unique_id doc_span_index doc_span = Raise e ->
  e <> AssertionError.
Proof.
  intros HM Hlen E.
  pose proof (build_window_cases unique_id doc_span_index doc_span HM Hlen)
    as H.
  rewrite E in H. destruct H as [[[[[tokens m1] m2] segs] Hst]|Hg].
  - pose proof (slice_loop_lengths doc_span_index doc_span
                  (range 0 (DocSpan.length doc_span)) tokens m1 m2 segs)
      as Hl.
    rewrite Hst in Hl. subst e. discriminate.
  - apply gold_positions_raises in Hg. subst e. discriminate.
Qed.

(** If moreover the slice lies inside the subword stream and the gold
    positions can be computed, the window is built. *)
Lemma build_window_total unique_id doc_span_index doc_span :
  len tok_to_orig_index = len all_doc_tokens ->
  0 <= DocSpan.start doc_span ->
  DocSpan.start doc_span + DocSpan.length doc_span <= len all_doc_tokens ->
  0 <= max_seq_length - len query_tokens - 3 ->
  DocSpan.length doc_span <= max_seq_length - len query_tokens - 3 ->
  (exists gold,
     Builder.gold_positions is_training example query_tokens doc_span
       tok_start_position tok_end_position = Ok gold) ->
  exists feature,
    Builder.build_window tokenizer max_seq_length is_training
      example_index example query_tokens tok_to_orig_index
      all_doc_tokens tok_start_position tok_end_position doc_spans
      unique_id doc_span_index doc_span = Ok feature
    /\ Builder.fixed_length max_seq_length feature.
Proof.
  intros Heq Hs He HM Hlen [gold Hgold].
  pose proof (build_window_cases unique_id doc_span_index doc_span HM Hlen)
    as H.
  destruct (Builder.build_window _ _ _ _ _ _ _ _ _ _ _ _ _ _)
    as [feature|e]; [now exists feature|].
  exfalso. destruct H as [[st Hst]|Hg]; [|congruence].
  destruct (slice_loop_total doc_span_index doc_span
              (range 0 (DocSpan.length doc_span)) Heq) with (st := st)
    as [st' Hst']; [|congruence].
  apply List.Forall_forall. intros i Hi. unfold range in Hi.
  apply in_map_iff in Hi. destruct Hi as (k & <- & Hk).
  apply in_seq in Hk. lia.
Qed.
End BuildWindowFacts.

Lemma build_windows_fixed (max_seq_length : Z)
    (build : Z -> nat -> DocSpan.t -> res InputFeatures.t)
    (spans : list (nat * DocSpan.t)) :
  (forall unique_id i sp, In (i, sp) spans ->
     match build unique_id i sp with
     | Ok feature => Builder.fixed_length max_seq_length feature
     | Raise e => e <> AssertionError
     end) ->
  forall unique_id,
    match Builder.build_windows build unique_id spans with
    | Ok features =>
        List.Forall (Builder.fixed_length max_seq_length) features
    | Raise e => e <> AssertionError
    end.
Proof.
  induction spans as [|[i sp] spans IH]; intros Hb unique_id; simpl.
  - constructor.
  - pose proof (Hb unique_id i sp (or_introl eq_refl)) as H1.
    destruct (build unique_id i sp) as [feature|e]; simpl; [|exact H1].
    specialize (IH (fun u j s H => Hb u j s (or_intror H)) (unique_id + 1)).
    destruct (Builder.build_windows build (unique_id + 1) spans)
      as [features|e]; simpl; [|exact IH].
    now constructor.
Qed.

Lemma build_windows_total
    (build : Z -> nat -> DocSpan.t -> res InputFeatures.t)
    (spans : list (nat * DocSpan.t)) :
  (forall unique_id i sp, In (i, sp) spans ->
     exists feature, build unique_id i sp = Ok feature) ->
  forall unique_id, exists features,
    Builder.build_windows build unique_id spans = Ok features
    /\ List.length features = List.length spans.
Proof.
  induction spans as [|[i sp] spans IH]; intros Hb unique_id; simpl.
  - now exists [].
  - destruct (Hb unique_id i sp (or_introl eq_refl)) as [feature ->].
    destruct (IH (fun u j s H => Hb u j s (or_intror H)) (unique_id + 1))
      as (features & -> & Hl).
    exists (feature :: features). simpl. split; [reflexivity|lia].
Qed.

Lemma retok_inner_lengths (i : nat) (sub_tokens : list str) :
  forall st : Builder.retok_state,
  List.length (fst (fst st)) = List.length (snd st) ->
  let st' :=
    fold_left (fun (acc : Builder.retok_state) sub_token =>
                 let '(tok_to_orig_index, orig_to_tok_index,
                       all_doc_tokens) := acc in
                 (tok_to_orig_index ++ [Z.of_nat i], orig_to_tok_index,
                  all_doc_tokens ++ [sub_token])) sub_tokens st in
  List.length (fst (fst st')) = List.length (snd st').
Proof.
  induction sub_tokens as [|t sub_tokens IH]; intros [[a b] c] H; simpl.
  - exact H.
  - apply IH. simpl in *. rewrite !length_app. simpl. lia.
Qed.

Lemma retokenize_lengths (tokenizer : Tokenizer) (doc_tokens : list str) :
  let st := Builder.retokenize tokenizer doc_tokens in
  len (fst (fst st)) = len (snd st).
Proof.
  unfold Builder.retokenize, len.
  assert (H : forall l (st : Builder.retok_state),
             List.length (fst (fst st)) = List.length (snd st) ->
             List.length
               (fst (fst (fold_left (Builder.retok_step tokenizer) l st)))
             = List.length
                 (snd (fold_left (Builder.retok_step tokenizer) l st))).
  { induction l as [|[i token] l IH]; intros [[a b] c] Hst; simpl;
      [exact Hst|].
    apply IH. apply (retok_inner_lengths i (tokenize tokenizer token)
                       (a, b ++ [len c], c)). exact Hst. }
  simpl. f_equal. apply H. reflexivity.
Qed.

Lemma project_gold_raises tokenizer is_training example o2t adt e :
  Builder.project_gold tokenizer is_training example o2t adt = Raise e ->
  e <> AssertionError.
Proof.
  unfold Builder.project_gold.
  destruct (is_training && SquadExample.is_impossible example)%bool;
    [discriminate|].
  destruct (is_training && negb (SquadExample.is_impossible example))%bool;
    [|discriminate].
  destruct (require (SquadExample.start_position example))
    as [sp|e1] eqn:E1; simpl;
    [|intros [= <-]; apply require_raises in E1; now subst].
  destruct (index o2t sp) as [ts|e2] eqn:E2; simpl;
    [|intros [= <-]; apply index_raises in E2; now subst].
  destruct (require (SquadExample.end_position example))
    as [ep|e3] eqn:E3; simpl;
    [|intros [= <-]; apply require_raises in E3; now subst].
  destruct (ep <? len (SquadExample.doc_tokens example) - 1).
  - destruct (index o2t (ep + 1)) as [next|e4] eqn:E4; simpl;
      [|intros [= <-]; apply index_raises in E4; now subst].
    destruct (require (SquadExample.orig_answer_text example))
      as [txt|e5] eqn:E5; simpl;
      [|intros [= <-]; apply require_raises in E5; now subst].
    destruct (SpanAligner._improve_answer_span _ _ _ _ _). discriminate.
  - simpl.
    destruct (require (SquadExample.orig_answer_text example))
      as [txt|e5] eqn:E5; simpl;
      [|intros [= <-]; apply require_raises in E5; now subst].
    destruct (SpanAligner._improve_answer_span _ _ _ _ _). discriminate.
Qed.

(** Once the gold span has been projected, the gold positions of a window
    can be computed. *)
Lemma gold_positions_ok tokenizer is_training example o2t adt ts te
    query_tokens doc_span :
  Builder.project_gold tokenizer is_training example o2t adt = Ok (ts, te) ->
  exists gold,
    Builder.gold_positions is_training example query_tokens doc_span ts te
    = Ok gold.
Proof.
  unfold Builder.project_gold, Builder.gold_positions.
  destruct is_training, (SquadExample.is_impossible example); simpl;
    try (intros _; eexists; reflexivity).
  destruct (SquadExample.start_position example) as [sp|]; simpl;
    [|discriminate].
  destruct (index o2t sp) as [ts'|]; simpl; [|discriminate].
  destruct (SquadExample.end_position example) as [ep|]; simpl;
    [|discriminate].
  intros H.
  assert (Hsome : exists a b, ts = Some a /\ te = Some b).
  { destruct (ep <? len (SquadExample.doc_tokens example) - 1).
    - destruct (index o2t (ep + 1)); simpl in H; [|discriminate].
      destruct (SquadExample.orig_answer_text example); simpl in H;
        [|discriminate].
      destruct (SpanAligner._improve_answer_span _ _ _ _ _) as [x y].
      injection H as <- <-. eauto.
    - simpl in H.
      destruct (SquadExample.orig_answer_text example); simpl in H;
        [|discriminate].
      destruct (SpanAligner._improve_answer_span _ _ _ _ _) as [x y].
      injection H as <- <-. eauto. }
  destruct Hsome as (a & b & -> & ->).
  destruct (_ || _ || _ || _)%bool; simpl; eexists; reflexivity.
Qed.

Lemma chain_length_le n M d s spans :
  Windows.chain n M d s spans ->
  List.Forall (fun sp => DocSpan.length sp <= M) spans.
Proof.
  induction 1; repeat constructor; simpl; auto; lia.
Qed.

Section ConvertExampleFacts.
Variables (tokenizer : Tokenizer).
Variables (max_seq_length doc_stride max_query_length : Z).
Variable is_training : bool.

#[local] Abbreviation budget example :=
  (Builder.max_tokens_for_doc_of tokenizer max_seq_length max_query_length
     example).

#[local] Abbreviation convert fuel unique_id example_index example :=
  (Builder.convert_example fuel tokenizer max_seq_length doc_stride
     max_query_length is_training unique_id example_index example).

(** Whatever the stride, a finished conversion of an example with a
    non-negative budget either fails outside the assertions or returns
    features of the fixed lengths. *)
Lemma convert_example_fixed unique_id example_index example fuel r :
  0 <= budget example ->
  convert fuel unique_id example_index example = Some r ->
  match r with
  | Ok features =>
      List.Forall (Builder.fixed_length max_seq_length) features
  | Raise e => e <> AssertionError
  end.
Proof.
  unfold Builder.max_tokens_for_doc_of, Builder.convert_example.
  intros HM.
  destruct (Builder.retokenize tokenizer (SquadExample.doc_tokens example))
    as [[t2o o2t] adt].
  set (query_tokens :=
         Builder.truncate_query tokenizer max_query_length example) in *.
  destruct (Builder.project_gold tokenizer is_training example o2t adt)
    as [[ts te]|e] eqn:Eg.
  - destruct (Windows.doc_spans_loop _ _ _ fuel) as [spans|] eqn:El;
      [|discriminate].
    intros [= <-].
    apply loop_chain, chain_length_le in El.
    apply build_windows_fixed. intros u i sp Hin.
    apply in_combine_r in Hin.
    rewrite List.Forall_forall in El. specialize (El sp Hin).
    pose proof (build_window_cases tokenizer max_seq_length is_training
                  example_index example query_tokens t2o adt ts te spans
                  u i sp HM El) as Hc.
    destruct (Builder.build_window _ _ _ _ _ _ _ _ _ _ _ _ _ _)
      as [feature|e] eqn:Eb; [exact Hc|].
    eapply build_window_no_assertion_error; [| |exact Eb]; [exact HM|exact El].
  - intros [= <-]. eapply project_gold_raises; exact Eg.
Qed.

(** With a positive budget and stride, and a gold span that projects, the
    conversion of an example finishes and returns its features. *)
Lemma convert_example_total unique_id example_index example :
  1 <= budget example -> 1 <= doc_stride ->
  (exists g, Builder.tok_positions_of tokenizer is_training example = Ok g) ->
  exists features,
    convert (Windows.enough_fuel
               (len (Builder.all_doc_tokens_of tokenizer example)))
      unique_id example_index example = Some (Ok features).
Proof.
  unfold Builder.max_tokens_for_doc_of, Builder.tok_positions_of,
    Builder.all_doc_tokens_of, Builder.convert_example.
  intros HM Hd.
  pose proof (retokenize_lengths tokenizer (SquadExample.doc_tokens example))
    as Hrt.
  destruct (Builder.retokenize tokenizer (SquadExample.doc_tokens example))
    as [[t2o o2t] adt]. simpl in Hrt. simpl fst. simpl snd.
  set (query_tokens :=
         Builder.truncate_query tokenizer max_query_length example) in *.
  intros [[ts te] Hg]. rewrite Hg.
  destruct (loop_total (len adt) (max_seq_length - len query_tokens - 3)
              doc_stride HM Hd (Windows.enough_fuel (len adt)) 0 [])
    as [spans El]; [unfold Windows.enough_fuel; lia|].
  unfold Windows.doc_spans_loop. rewrite El.
  pose proof (chain_bounds _ _ _ _ _ HM Hd (loop_chain _ _ _ _ _ _ El))
    as Hb.
  destruct (build_windows_total
              (Builder.build_window tokenizer max_seq_length is_training
                 example_index example query_tokens t2o adt ts te spans)
              (enumerate spans)) with (unique_id := unique_id)
    as (features & Hf & _).
  { intros u i sp Hin. apply in_combine_r in Hin.
    rewrite List.Forall_forall in Hb.
    destruct (Hb sp Hin) as (H0 & [H1 H2] & H3).
    destruct (build_window_total tokenizer max_seq_length is_training
                example_index example query_tokens t2o adt ts te spans
                u i sp) as (feature & Hfe & _); try lia.
    - eapply gold_positions_ok; exact Hg.
    - now exists feature. }
  exists features. now rewrite Hf.
Qed.

(** The same for a whole run over a list of examples. *)
Lemma convert_examples_fixed examples : forall fuel unique_id example_index r,
  List.Forall (fun example => 0 <= budget example) examples ->
  Builder.convert_examples fuel tokenizer max_seq_length doc_stride
    max_query_length is_training unique_id example_index examples = Some r ->
  match r with
  | Ok features =>
      List.Forall (Builder.fixed_length max_seq_length) features
  | Raise e => e <> AssertionError
  end.
Proof.
  induction examples as [|example examples IH];
    intros fuel unique_id example_index r Hall; simpl.
  - intros [= <-]. constructor.
  - inversion Hall as [|? ? Hex Hrest]; subst.
    destruct (Builder.convert_example _ _ _ _ _ _ _ _ example)
      as [[features|e]|] eqn:E1; [| |discriminate].
    + pose proof (convert_example_fixed _ _ _ _ _ Hex E1) as Hf.
      destruct (Builder.convert_examples _ _ _ _ _ _ _ _ examples)
        as [[more|e]|] eqn:E2; [| |discriminate].
      * intros [= <-]. apply List.Forall_app. split; [exact Hf|].
        exact (IH _ _ _ _ Hrest E2).
      * intros [= <-]. exact (IH _ _ _ _ Hrest E2).
    + intros [= <-]. exact (convert_example_fixed _ _ _ _ _ Hex E1).
Qed.
End ConvertExampleFacts.

(** C9. For an example whose document budget [max_tokens_for_doc] is at
    least 1, none of the three length assertions of
    [convert_examples_to_features] can fail, and every feature built for
    the example has [input_ids], [input_mask] and [segment_ids] of length
    exactly [max_seq_length]; with a stride of at least 1 and a gold span
    that projects, the features are in fact built. *)
Theorem features_have_fixed_length
    (tokenizer : Tokenizer) (max_seq_length doc_stride max_query_length : Z)
    (is_training : bool) (unique_id example_index : Z)
    (example : SquadExample.t) :
  1 <= Builder.max_tokens_for_doc_of tokenizer max_seq_length
         max_query_length example ->
  (forall fuel r,
     Builder.convert_example fuel tokenizer max_seq_length doc_stride
       max_query_length is_training unique_id example_index example
     = Some r ->
     match r with
     | Ok features =>
         List.Forall (Builder.fixed_length max_seq_length) features
     | Raise e => e <> AssertionError
     end)
  /\ (1 <= doc_stride ->
      (exists g, Builder.tok_positions_of tokenizer is_training example
                 = Ok g) ->
      exists features,
        Builder.convert_example
          (Windows.enough_fuel (len (Builder.all_doc_tokens_of tokenizer
                                       example)))
          tokenizer max_seq_length doc_stride max_query_length is_training
          unique_id example_index example = Some (Ok features)
        /\ List.Forall (Builder.fixed_length max_seq_length) features).
Proof.
  intros HM. split.
  - intros fuel r. apply convert_example_fixed. lia.
  - intros Hd Hg.
    destruct (convert_example_total tokenizer max_seq_length doc_stride
                max_query_length is_training unique_id example_index
                example HM Hd Hg) as [features Hf].
    exists features. split; [exact Hf|].
    refine (convert_example_fixed _ _ _ _ _ _ _ _ _ (Ok features) _ Hf).
    lia.
Qed.

Lemma features_have_fixed_length_witness :
  exists features,
    Builder.convert_example 5 Samples.char_tokenizer 6 1 64 true 1000000000
      0 Samples.example_two_words = Some (Ok features)
    /\ List.Forall (Builder.fixed_length 6) features.
Proof.
  refine (proj2 (features_have_fixed_length Samples.char_tokenizer 6 1 64
                   true 1000000000 0 Samples.example_two_words _) _ _).
  - vm_compute. discriminate.
  - lia.
  - eexists. vm_compute. reflexivity.
Defined.

(** What the builder does for an answerable training example: the test
    that decides between [(0, 0)] and the offset positions reads the
    word-level span of the example, the offsets read the projected
    subword span. *)
Lemma gold_positions_test_word_indexes
    (example : SquadExample.t) (query_tokens : list str)
    (doc_span : DocSpan.t) (word_start word_end tok_start tok_end : Z) :
  SquadExample.is_impossible example = false ->
  SquadExample.start_position example = Some word_start ->
  SquadExample.end_position example = Some word_end ->
  let doc_start := DocSpan.start doc_span in
  let doc_end := DocSpan.start doc_span + DocSpan.length doc_span - 1 in
  Builder.gold_positions true example query_tokens doc_span
    (Some tok_start) (Some tok_end) =
  Ok (if ((word_start <? doc_start) || (word_end <? doc_start)
          || (word_start >? doc_end) || (word_end >? doc_end))%bool
      then (Some 0, Some 0)
      else (Some (tok_start - doc_start + (len query_tokens + 2)),
            Some (tok_end - doc_start + (len query_tokens + 2)))).
Proof.
  intros Himp Hs He. unfold Builder.gold_positions.
  rewrite Himp, Hs, He. simpl.
  destruct (_ || _ || _ || _)%bool; reflexivity.
Qed.

(** C1, evaluated. A document of two two-character words with gold word
    span [[1, 1]] and a tokenizer that splits words into characters has a
    stream of four subwords and the projected span [[2, 3]]; with
    [max_seq_length = 6] and a one-token question the windows are
    [(0,2)], [(1,2)] and [(2,2)].  The builder compares the word indexes
    [1, 1] with the subword bounds of each window: windows 0 and 1, which
    do not contain subwords 2..3, get the gold positions [(5, 6)] and
    [(4, 5)] (6 is not even a position of the window), and window 2, which
    contains both endpoints, gets [(0, 0)]. *)
Theorem gold_positions_compare_word_indexes :
  Builder.tok_positions_of Samples.char_tokenizer true Samples.example_two_words
    = Ok (Some 2, Some 3)
  /\ Windows.doc_spans_loop 4 2 1 5
     = Some [DocSpan.mk 0 2; DocSpan.mk 1 2; DocSpan.mk 2 2]
  /\ exists features,
       Builder.convert_example 5 Samples.char_tokenizer 6 1 64 true
         1000000000 0 Samples.example_two_words = Some (Ok features)
       /\ List.map (fun f => (InputFeatures.start_position f,
                              InputFeatures.end_position f)) features
          = [(Some 5, Some 6); (Some 4, Some 5); (Some 0, Some 0)]
       /\ List.map (fun f => len (InputFeatures.tokens f)) features
          = [6; 6; 6].
Proof.
  split; [reflexivity|]. split; [reflexivity|].
  eexists. split; [vm_compute; reflexivity|].
  split; reflexivity.
Qed.

Lemma candidate_iff_passes_filters_witness :
  exists prelim_predictions p,
    Aggregator.candidates 0 Samples.feature_a Samples.result_peak3 30
      (Aggregator._get_best_indexes
         (RawResult.start_logits Samples.result_peak3) 1)
      (Aggregator._get_best_indexes
         (RawResult.end_logits Samples.result_peak3) 1) []
    = Ok prelim_predictions
    /\ In p prelim_predictions
    /\ PrelimPrediction.start_index p = 3
    /\ PrelimPrediction.end_index p = 3.
Proof.
  destruct (candidate_iff_passes_filters 0 Samples.feature_a
              Samples.result_peak3 1 30) as (prelim & Hc & Hiff).
  destruct (proj2 (Hiff 3 3 (or_introl eq_refl) (or_introl eq_refl)))
    as (p & Hp & _ & Hs & He).
  - repeat split; try (vm_compute; congruence).
    + exists 0. reflexivity.
    + exists 0. reflexivity.
  - exists prelim, p. repeat split; assumption.
Defined.

(** ** Aggregation without surviving candidates *)

(** C2, evaluated. A window whose best start and end scores both sit on
    the [[CLS]] position leaves no candidate with [n_best_size = 1]; an
    example with an empty paragraph has no window and so no candidate
    either.  Without null answers the placeholder ["empty"] is substituted
    in both cases and the example gets its best answer and a one-entry
    n-best list.  In version-2 mode the first input ends in the
    [AttributeError] of reading [best_non_null_entry.start_logit] on
    [None], the second in the [IndexError] of [features[0]]; no
    placeholder is substituted and no entry is written. *)
Theorem no_candidates_breaks_version2
    (exp : Q -> Q) (get_final_text : str -> str -> bool -> str) :
  let results : gmap Z RawResult.t := {[ 1000000000 := Samples.result_a ]} in
  let run is_version2 example features :=
    Aggregator.aggregate_example exp get_final_text 1 30 true is_version2
      0%Q results example features in
  let summary (r : res Aggregator.output) :=
    match r with
    | Ok out =>
        Ok (Aggregator.out_prediction out,
            List.map Aggregator.nb_text (Aggregator.out_nbest_json out))
    | Raise e => Raise e
    end in
  Aggregator.candidates 0 Samples.feature_a Samples.result_a 30
    (Aggregator._get_best_indexes
       (RawResult.start_logits Samples.result_a) 1)
    (Aggregator._get_best_indexes (RawResult.end_logits Samples.result_a) 1)
    [] = Ok []
  /\ summary (run false Samples.example_a [Samples.feature_a])
     = Ok (Aggregator.Scored (lit "empty") 0 0, [lit "empty"])
  /\ summary (run false Samples.example_empty [])
     = Ok (Aggregator.Scored (lit "empty") 0 0, [lit "empty"])
  /\ run true Samples.example_a [Samples.feature_a] = Raise AttributeError
  /\ run true Samples.example_empty [] = Raise IndexError
  /\ Aggregator.write_predictions exp get_final_text 1 30 true true 0%Q
       [Samples.example_a] [Samples.feature_a] [Samples.result_a]
     = Raise AttributeError.
Proof.
  cbv zeta. repeat split; vm_compute; reflexivity.
Qed.

Section EmptyCandidates.
Variable exp : Q -> Q.
Variable get_final_text : str -> str -> bool -> str.
Variables (n_best_size max_answer_length : Z) (do_lower_case : bool).
Variable null_score_diff_threshold : Q.
Variable unique_id_to_result : gmap Z RawResult.t.
Variables (example : SquadExample.t) (features : list InputFeatures.t).

#[local] Abbreviation run is_version2 :=
  (Aggregator.aggregate_example exp get_final_text n_best_size
     max_answer_length do_lower_case is_version2 null_score_diff_threshold
     unique_id_to_result example features).

#[local] Abbreviation scan_features is_version2 :=
  (for_fold
     (Aggregator.feature_step n_best_size max_answer_length is_version2
        unique_id_to_result) (enumerate features) ([], Aggregator.null_init)).

(** Without null answers, an example none of whose pairs survives gets
    the placeholder as its only n-best entry and as its answer. *)
Lemma placeholder_without_candidates null :
  scan_features false = Ok ([], null) ->
  exists p,
    run false =
      Ok {| Aggregator.out_prediction :=
              Aggregator.Scored (lit "empty") 0 0;
            Aggregator.out_nbest_json :=
              [ {| Aggregator.nb_text := lit "empty";
                   Aggregator.nb_probability := p;
                   Aggregator.nb_start_logit := 0;
                   Aggregator.nb_end_logit := 0 |} ];
            Aggregator.out_score_diff := None |}.
Proof.
  intros H. unfold Aggregator.aggregate_example. rewrite H.
  destruct null as [[[score_null idx] s] e]. simpl.
  eexists. reflexivity.
Qed.

(** With null answers, the same situation always ends in an exception. *)
Lemma version2_raises_without_candidates null :
  scan_features true = Ok ([], null) ->
  exists e, run true = Raise e.
Proof.
  intros H. unfold Aggregator.aggregate_example. rewrite H.
  destruct null as [[[score_null idx] s] e]. simpl.
  destruct (_ >=? n_best_size).
  - exists AttributeError. reflexivity.
  - destruct (index features idx) as [feature|err].
    + exists AttributeError. reflexivity.
    + now exists err.
Qed.
End EmptyCandidates.

(** * Further properties *)

(** ** Shape and number of the windows *)

Lemma chain_starts n M d s spans :
  Windows.chain n M d s spans ->
  forall (i : nat) sp, spans !! i = Some sp ->
  DocSpan.start sp = s + Z.of_nat i * Z.min M d
  /\ ((Datatypes.S i < List.length spans)%nat -> DocSpan.length sp = M)
  /\ (Datatypes.S i = List.length spans ->
      DocSpan.start sp + DocSpan.length sp = n /\ DocSpan.length sp <= M).
Proof.
  induction 1 as [s H|s H1 H2|s rest H1 H2 Hc IH]; intros i sp Hi.
  - discriminate.
  - destruct i; [|discriminate]. injection Hi as <-. simpl.
    repeat split; lia.
  - destruct i as [|i]; simpl in Hi.
    + injection Hi as <-. simpl. split; [lia|]. split; [reflexivity|].
      intros Hlast. destruct rest; [|discriminate].
      inversion Hc; lia.
    + destruct (IH i sp Hi) as (Hst & Hfull & Hlast).
      simpl. split; [lia|]. split.
      * intros Hlt. apply Hfull. lia.
      * intros Hl. apply Hlast. lia.
Qed.

Lemma ceil_step x step :
  0 < x -> 0 < step ->
  (x + step - 1) / step = 1 + (Z.max 0 (x - step) + step - 1) / step.
Proof.
  intros Hx Hs. destruct (Z_le_gt_dec step x) as [Hge|Hlt].
  - rewrite Z.max_r by lia.
    replace (x + step - 1) with (x - step + step - 1 + 1 * step) by lia.
    rewrite Z.div_add by lia. lia.
  - rewrite Z.max_l by lia.
    rewrite (Z.div_small (0 + step - 1)) by lia.
    symmetry. apply (Z.div_unique _ _ 1 (x - 1)); lia.
Qed.

Lemma chain_count n M d s spans :
  1 <= M -> 1 <= d -> s < n ->
  Windows.chain n M d s spans ->
  len spans = 1 + (Z.max 0 (n - s - M) + Z.min M d - 1) / Z.min M d.
Proof.
  intros HM Hd Hs Hc. revert Hs.
  induction Hc as [s H|s H1 H2|s rest H1 H2 Hc IH]; intros Hs.
  - lia.
  - rewrite Z.max_l by lia. rewrite Z.div_small by lia. reflexivity.
  - unfold len in *. simpl List.length. rewrite Nat2Z.inj_succ.
    rewrite IH by lia. rewrite (Z.max_r 0 (n - s - M)) by lia.
    rewrite (ceil_step (n - s - M) (Z.min M d)) by lia.
    replace (n - (s + Z.min M d) - M) with (n - s - M - Z.min M d) by lia.
    lia.
Qed.

(** X1. With budget and stride at least 1 the [i]-th window starts at
    offset [i * min(max_tokens_for_doc, doc_stride)]; every window but
    the last takes the whole budget and the last one ends at the end of
    the stream; a non-empty stream of [n] subwords gives
    [1 + ceil(max(0, n - budget) / min(budget, stride))] windows. *)
Theorem window_starts_and_count (n M d : Z) :
  1 <= n -> 1 <= M -> 1 <= d ->
  exists spans,
    Windows.doc_spans_loop n M d (Windows.enough_fuel n) = Some spans
    /\ (forall (i : nat) sp, spans !! i = Some sp ->
          DocSpan.start sp = Z.of_nat i * Z.min M d
          /\ ((Datatypes.S i < List.length spans)%nat ->
              DocSpan.length sp = M)
          /\ (Datatypes.S i = List.length spans ->
              DocSpan.start sp + DocSpan.length sp = n
              /\ 1 <= DocSpan.length sp <= M))
    /\ len spans = 1 + (Z.max 0 (n - M) + Z.min M d - 1) / Z.min M d.
Proof.
  intros Hn HM Hd.
  destruct (loop_total n M d HM Hd (Windows.enough_fuel n) 0 [])
    as [spans E]; [unfold Windows.enough_fuel; lia|].
  exists spans. split; [exact E|].
  pose proof (loop_chain _ _ _ _ _ _ E) as Hc.
  pose proof (chain_bounds _ _ _ _ _ HM Hd Hc) as Hb.
  split.
  - intros i sp Hi. destruct (chain_starts _ _ _ _ _ Hc i sp Hi)
      as (Hst & Hfull & Hlast).
    split; [lia|]. split; [exact Hfull|].
    intros Hl. destruct (Hlast Hl) as [He Hle]. split; [exact He|].
    rewrite List.Forall_forall in Hb.
    assert (Hin : In sp spans).
    { apply list_elem_of_In, list_elem_of_lookup. now exists i. }
    apply Hb in Hin. lia.
  - rewrite (chain_count n M d 0 spans HM Hd ltac:(lia) Hc).
    now replace (n - 0 - M) with (n - M) by lia.
Qed.

Lemma window_starts_and_count_witness :
  exists spans,
    Windows.doc_spans_loop 9 5 2 (Windows.enough_fuel 9) = Some spans
    /\ len spans = 3.
Proof.
  destruct (window_starts_and_count 9 5 2) as (spans & E & _ & Hlen);
    try lia.
  exists spans. split; [exact E|]. rewrite Hlen. reflexivity.
Defined.

(** X2. With budget and stride at least 1, every subword position of the
    stream is the max-context position of exactly one of the windows the
    loop builds, and that window contains it; a position outside the
    stream is max-context in none. *)
Theorem every_position_has_one_max_context_window (n M d : Z) :
  0 <= n -> 1 <= M -> 1 <= d ->
  exists spans,
    Windows.doc_spans_loop n M d (Windows.enough_fuel n) = Some spans
    /\ (forall p, 0 <= p < n ->
          exists (i : nat) sp,
            spans !! i = Some sp /\ DocSpan.covers sp p = true
            /\ forall k : nat,
                 MaxContext._check_is_max_context spans k p = true
                 <-> k = i)
    /\ (forall p (k : nat), ~ 0 <= p < n ->
          MaxContext._check_is_max_context spans k p = false).
Proof.
  intros Hn HM Hd.
  destruct (loop_total n M d HM Hd (Windows.enough_fuel n) 0 [])
    as [spans E]; [unfold Windows.enough_fuel; lia|].
  exists spans. split; [exact E|].
  pose proof (loop_chain _ _ _ _ _ _ E) as Hc.
  pose proof (chain_bounds _ _ _ _ _ HM Hd Hc) as Hb.
  split.
  - intros p Hp.
    destruct (chain_cover _ _ _ _ _ HM Hd Hc p Hp) as (sp & Hin & Hcov).
    apply list_elem_of_In, list_elem_of_lookup in Hin.
    destruct Hin as [i0 Hi0].
    destruct (covered_has_first_max p spans) as (i & Hi).
    { exists i0, sp. split; assumption. }
    pose proof Hi as (s' & Hs' & Hcs' & _).
    exists i, s'. split; [exact Hs'|]. split; [exact Hcs'|].
    intros k. rewrite check_iff_first_max. split.
    + intros Hk. eapply first_max_unique; eauto.
    + now intros ->.
  - intros p k Hp.
    destruct (MaxContext._check_is_max_context spans k p) eqn:Ek;
      [|reflexivity].
    apply check_iff_first_max in Ek. destruct Ek as (s' & Hs' & Hcs' & _).
    rewrite List.Forall_forall in Hb.
    assert (Hin : In s' spans).
    { apply list_elem_of_In, list_elem_of_lookup. now exists k. }
    apply Hb in Hin. apply covers_range in Hcs'. lia.
Qed.

Lemma every_position_has_one_max_context_window_witness :
  exists spans,
    Windows.doc_spans_loop 9 5 2 (Windows.enough_fuel 9) = Some spans
    /\ exists (i : nat),
         forall k : nat,
           MaxContext._check_is_max_context spans k 3 = true <-> k = i.
Proof.
  destruct (every_position_has_one_max_context_window 9 5 2)
    as (spans & E & Hown & _); try lia.
  exists spans. split; [exact E|].
  destruct (Hown 3 ltac:(lia)) as (i & sp & _ & _ & Hiff).
  now exists i.
Defined.

(** ** The span aligner never leaves the span it is given *)

(** X3. For [input_start <= input_end] the span [_improve_answer_span]
    returns lies inside [[input_start, input_end]], and improving the
    returned span again changes nothing. *)
Theorem improve_answer_span_inside_and_idempotent
    (doc_tokens : list str) (input_start input_end : Z)
    (tokenizer : Tokenizer) (orig_answer_text : str) :
  input_start <= input_end ->
  let r :=
    SpanAligner._improve_answer_span doc_tokens input_start input_end
      tokenizer orig_answer_text in
  (input_start <= fst r /\ fst r <= snd r /\ snd r <= input_end)
  /\ SpanAligner._improve_answer_span doc_tokens (fst r) (snd r) tokenizer
       orig_answer_text = r.
Proof.
  intros Hle. cbv zeta. unfold SpanAligner._improve_answer_span.
  set (tok_answer_text := join space (tokenize tokenizer orig_answer_text)).
  pose proof (search_spec doc_tokens tok_answer_text input_start input_end)
    as H.
  destruct (SpanAligner.search doc_tokens tok_answer_text input_start
              input_end) as [r|] eqn:E.
  - destruct H as (ns & ne & -> & H1 & H2 & H3 & Hm & _). simpl.
    split; [lia|].
    pose proof (search_spec doc_tokens tok_answer_text ns ne) as H'.
    destruct (SpanAligner.search doc_tokens tok_answer_text ns ne)
      as [r'|].
    + destruct H' as (ns' & ne' & -> & H1' & H2' & H3' & Hm' & Hfirst).
      destruct (Z.eq_dec ns ns') as [<-|Hne].
      * destruct (Z.eq_dec ne ne') as [<-|Hne']; [reflexivity|].
        exfalso. apply (Hfirst ns ne); try lia. exact Hm.
      * exfalso. apply (Hfirst ns ne); try lia. exact Hm.
    + exfalso. apply (H' ns ne); try lia. exact Hm.
  - simpl. split; [lia|]. now rewrite E.
Qed.

Lemma improve_answer_span_inside_and_idempotent_witness :
  SpanAligner._improve_answer_span [lit "a"; lit "b"; lit "c"; lit "d"]
    1 2 Samples.char_tokenizer (lit "bc") = (1, 2).
Proof.
  exact (proj2 (improve_answer_span_inside_and_idempotent
                  [lit "a"; lit "b"; lit "c"; lit "d"] 0 3
                  Samples.char_tokenizer (lit "bc") ltac:(lia))).
Defined.

(** ** Whitespace segmentation *)

Lemma extend_last_snoc (front : list str) (w : str) (c : N) :
  Loader.extend_last (front ++ [w]) c = front ++ [w ++ [c]].
Proof.
  unfold Loader.extend_last. rewrite rev_app_distr. simpl.
  now rewrite rev_involutive.
Qed.

Lemma seg_step_segmented seen st c :
  Invariants.segmented seen st ->
  Invariants.segmented (seen ++ [c]) (Loader.seg_step st c).
Proof.
  destruct st as [[toks offs] prev]. unfold Invariants.segmented.
  intros (Hcat & Hwords & Hoffs & Hsurj & Hprev).
  unfold Loader.seg_step.
  rewrite List.filter_app. simpl List.filter.
  destruct (Loader.is_whitespace c) eqn:Hc;
    assert (Hnw : Invariants.non_whitespace c
                  = negb (Loader.is_whitespace c)) by reflexivity;
    rewrite Hc in Hnw; simpl in Hnw; rewrite Hnw; simpl.
  - rewrite app_nil_r. split; [exact Hcat|]. split; [exact Hwords|].
    split; [|split; [|discriminate]].
    + apply Forall2_app; [exact Hoffs|]. constructor; [|constructor].
      split; [unfold len; lia|]. rewrite Hnw. discriminate.
    + intros w Hw. apply in_or_app. left. now apply Hsurj.
  - destruct prev.
    + split; [rewrite concat_app, Hcat; simpl; reflexivity|].
      split.
      { apply Forall_app. split; [exact Hwords|].
        constructor; [|constructor]. split; [discriminate|].
        simpl. unfold Invariants.non_whitespace. now rewrite Hc. }
      split; [|split].
      * apply Forall2_app.
        -- eapply Forall2_impl; [exact Hoffs|]. simpl.
           intros a o [Ho Hpos]. unfold len in *.
           rewrite length_app. simpl. split; [lia|exact Hpos].
        -- constructor; [|constructor]. unfold len. rewrite length_app.
           simpl. split; lia.
      * intros w Hw. unfold len in Hw. rewrite length_app in Hw.
        simpl in Hw. apply in_or_app.
        destruct (Z.eq_dec w (Z.of_nat (List.length toks))) as [->|Hne].
        -- right. left. unfold len. rewrite length_app. simpl. lia.
        -- left. apply Hsurj. unfold len. lia.
      * intros _. destruct toks; discriminate.
    + specialize (Hprev eq_refl).
      destruct (exists_last Hprev) as (front & w & ->).
      rewrite extend_last_snoc.
      rewrite concat_app in Hcat. simpl in Hcat. rewrite app_nil_r in Hcat.
      split.
      { rewrite concat_app. simpl. rewrite app_nil_r, <- Hcat.
        now rewrite app_assoc. }
      apply Forall_app in Hwords. destruct Hwords as [Hfront Hw].
      inversion Hw as [|? ? [Hne Hall] _]; subst.
      split.
      { apply Forall_app. split; [exact Hfront|].
        constructor; [|constructor]. split; [now destruct w|].
        rewrite forallb_app, Hall. simpl.
        unfold Invariants.non_whitespace. now rewrite Hc. }
      assert (Hlen : len (front ++ [w ++ [c]]) = len (front ++ [w])).
      { unfold len. rewrite !length_app. reflexivity. }
      rewrite Hlen.
      split; [|split].
      * apply Forall2_app; [exact Hoffs|]. constructor; [|constructor].
        unfold len. rewrite length_app. simpl. split; lia.
      * intros x Hx. apply in_or_app. left. now apply Hsurj.
      * intros _. now destruct front.
Qed.

Lemma segment_segmented text : forall seen st,
  Invariants.segmented seen st ->
  Invariants.segmented (seen ++ text) (fold_left Loader.seg_step text st).
Proof.
  induction text as [|c text IH]; intros seen st Hst; simpl.
  - now rewrite app_nil_r.
  - replace (seen ++ c :: text) with ((seen ++ [c]) ++ text)
      by now rewrite <- app_assoc.
    apply IH, seg_step_segmented, Hst.
Qed.

(** X4. Whitespace segmentation of a paragraph: the word tokens, put end
    to end, are the paragraph with its whitespace characters removed; no
    token is empty or contains whitespace; [char_to_word_offset] has one
    entry per character, each between -1 and the last word index and
    non-negative at every non-whitespace character; and every word index
    is the offset of at least one character. *)
Theorem segmentation_splits_on_whitespace (paragraph_text : str) :
  let doc_tokens := Loader.doc_tokens_of paragraph_text in
  let char_to_word_offset := Loader.char_to_word_offset_of paragraph_text in
  List.concat doc_tokens
    = List.filter Invariants.non_whitespace paragraph_text
  /\ List.Forall (fun w => w <> []
                          /\ forallb Invariants.non_whitespace w = true)
       doc_tokens
  /\ len char_to_word_offset = len paragraph_text
  /\ List.Forall2 (fun c o => -1 <= o < len doc_tokens
                              /\ (Invariants.non_whitespace c = true ->
                                  0 <= o))
       paragraph_text char_to_word_offset
  /\ (forall w, 0 <= w < len doc_tokens -> In w char_to_word_offset).
Proof.
  unfold Loader.doc_tokens_of, Loader.char_to_word_offset_of, Loader.segment.
  pose proof (segment_segmented paragraph_text [] ([], [], true)) as H.
  simpl in H.
  destruct (fold_left Loader.seg_step paragraph_text ([], [], true))
    as [[toks offs] prev].
  destruct H as (Hcat & Hwords & Hoffs & Hsurj & _).
  - repeat split; try constructor; try discriminate.
    intros w Hw. unfold len in Hw. simpl in Hw. lia.
  - simpl. repeat split; try assumption.
    unfold len. f_equal. symmetry. eapply Forall2_length. exact Hoffs.
Qed.

(** ** Loading a corpus file *)

Lemma for_each_cases {A B} (body : A -> res (list B)) (l : list A) :
  match for_each body l with
  | Ok r =>
      exists rs, List.Forall2 (fun x y => body x = Ok y) l rs
                 /\ r = List.concat rs
  | Raise e => exists x, In x l /\ body x = Raise e
  end.
Proof.
  induction l as [|x l IH]; simpl.
  - exists []. split; [constructor|reflexivity].
  - destruct (body x) as [ys|e] eqn:Ex; simpl.
    + destruct (for_each body l) as [zs|e]; simpl.
      * destruct IH as (rs & Hrs & ->). exists (ys :: rs).
        split; [now constructor|reflexivity].
      * destruct IH as (y & Hy & Hby). exists y. split; [now right|exact Hby].
    + exists x. split; [now left|exact Ex].
Qed.

Lemma for_each_total {A B} (body : A -> res (list B)) (f : A -> list B)
    (l : list A) :
  (forall x, In x l -> body x = Ok (f x)) ->
  for_each body l = Ok (List.flat_map f l).
Proof.
  induction l as [|x l IH]; intros H; simpl; [reflexivity|].
  rewrite (H x (or_introl eq_refl)). simpl.
  rewrite IH by (intros y Hy; apply H; now right). reflexivity.
Qed.

(** X5. At prediction time loading never fails: it returns one example
    per question, in file order, each carrying the word tokens of its
    paragraph, no gold answer and [is_impossible = False]. *)
Theorem loading_for_prediction (source : Loader.Source) :
  Loader.read_squad_examples source false
  = Ok (List.map Corpus.unlabelled (Corpus.questions source)).
Proof.
  unfold Loader.read_squad_examples, Corpus.questions.
  rewrite (for_each_total _
             (fun entry =>
                List.map Corpus.unlabelled
                  (List.flat_map (fun paragraph =>
                     List.map (fun qa => (paragraph, qa))
                       (Loader.qas paragraph))
                     (Loader.paragraphs entry)))).
  - f_equal. induction (Loader.data source) as [|e l IH]; simpl;
      [reflexivity|].
    now rewrite List.map_app, IH.
  - intros entry _.
    rewrite (for_each_total _
               (fun paragraph =>
                  List.map Corpus.unlabelled
                    (List.map (fun qa => (paragraph, qa))
                       (Loader.qas paragraph)))).
    + f_equal. induction (Loader.paragraphs entry) as [|p l IH]; simpl;
        [reflexivity|].
      now rewrite List.map_app, IH.
    + intros paragraph _. unfold Loader.read_paragraph.
      rewrite (for_each_total _
                 (fun qa => [Corpus.unlabelled (paragraph, qa)])).
      * f_equal. induction (Loader.qas paragraph) as [|q l IH]; simpl;
          [reflexivity|]. now rewrite IH.
      * intros qa _. reflexivity.
Qed.

Lemma Forall2_flat_map_concat {A B C} (P : B -> C -> Prop)
    (f : A -> list B) (l : list A) (rs : list (list C)) :
  List.Forall2 (fun x ys => List.Forall2 P (f x) ys) l rs ->
  List.Forall2 P (List.flat_map f l) (List.concat rs).
Proof.
  induction 1 as [|x ys l rs Hx _ IH]; simpl; [constructor|].
  apply Forall2_app; assumption.
Qed.

Lemma Forall2_in_left {A B} (P : A -> B -> Prop) (l : list A)
    (rs : list B) (x : A) :
  List.Forall2 P l rs -> In x l -> exists y, In y rs /\ P x y.
Proof.
  induction 1 as [|a b l rs Hab _ IH]; intros Hin; [contradiction|].
  destruct Hin as [<-|Hin].
  - exists b. split; [now left|exact Hab].
  - destruct (IH Hin) as (y & Hy & Hp). exists y. split; [now right|exact Hp].
Qed.

Lemma read_qa_training version doc_tokens qa :
  match Json.read_qa true version doc_tokens qa with
  | Ok example =>
      Json.accepted version qa
      /\ SquadExample.qas_id example = Json.id qa
      /\ SquadExample.question_text example = Json.question qa
      /\ SquadExample.doc_tokens example = doc_tokens
      /\ SquadExample.is_impossible example = Json.unanswerable version qa
      /\ (Json.unanswerable version qa = true ->
          SquadExample.start_position example = Some (-1)
          /\ SquadExample.end_position example = Some (-1)
          /\ SquadExample.orig_answer_text example = Some [])
      /\ (Json.unanswerable version qa = false ->
          exists answer end_position,
            Json.answers qa = [answer]
            /\ Json.answer_end answer = Some end_position
            /\ SquadExample.start_position example
               = Some (Json.answer_start answer)
            /\ SquadExample.end_position example = Some end_position
            /\ SquadExample.orig_answer_text example
               = Some (Json.text answer))
  | Raise e => Json.refused version qa e
  end.
Proof.
  unfold Json.read_qa, Json.refused, Json.accepted, Json.malformed,
    Json.open_ended, Json.unflagged, Json.unanswerable.
  destruct (decide (version = Loader.v2)) as [Hv|Hv].
  - destruct (Json.is_impossible qa) as [[|]|]; simpl.
    + rewrite andb_false_r. simpl.
      repeat split; try reflexivity. discriminate.
    + rewrite andb_true_r.
      destruct (Z.eqb_spec (len (Json.answers qa)) 1) as [H1|H1]; simpl;
        [|left; split; reflexivity].
      destruct (Json.answers qa) as [|a [|b rest]] eqn:Ea;
        unfold len in H1; simpl in H1; try lia.
      simpl. destruct (Json.answer_end a) as [end_position|] eqn:Eend;
        simpl.
      * repeat split; try reflexivity; try discriminate.
        intros _. exists a, end_position. repeat split; assumption.
      * right. split; [reflexivity|]. now right.
    + right. split; [reflexivity|]. now left.
  - simpl. rewrite andb_true_r.
    destruct (Z.eqb_spec (len (Json.answers qa)) 1) as [H1|H1]; simpl;
      [|left; split; reflexivity].
    destruct (Json.answers qa) as [|a [|b rest]] eqn:Ea;
      unfold len in H1; simpl in H1; try lia.
    simpl. destruct (Json.answer_end a) as [end_position|] eqn:Eend;
      simpl.
    + repeat split; try reflexivity; try discriminate.
      intros _. exists a, end_position. repeat split; assumption.
    + right. split; [reflexivity|]. now right.
Qed.

Lemma read_paragraph_training version paragraph :
  match Json.read_paragraph true version paragraph with
  | Ok examples =>
      List.Forall2 (Json.labelled version)
        (List.map (fun qa => (paragraph, qa)) (Json.qas paragraph))
        examples
      /\ List.Forall (Json.accepted version) (Json.qas paragraph)
  | Raise e =>
      exists qa, In qa (Json.qas paragraph) /\ Json.refused version qa e
  end.
Proof.
  unfold Json.read_paragraph.
  pose proof (for_each_cases
    (fun qa =>
       letr example :=
         Json.read_qa true version
           (Loader.doc_tokens_of (Json.context paragraph)) qa in
       Ok [example]) (Json.qas paragraph)) as H.
  destruct (for_each _ (Json.qas paragraph)) as [examples|e].
  - destruct H as (rs & Hrs & ->). clear -Hrs.
    induction Hrs as [|qa ys qas rs Hqa _ [IH1 IH2]]; simpl.
    + split; constructor.
    + pose proof (read_qa_training version
                    (Loader.doc_tokens_of (Json.context paragraph)) qa)
        as Hq.
      destruct (Json.read_qa _ _ _ qa) as [example|e]; simpl in Hqa;
        [|discriminate].
      injection Hqa as <-.
      destruct Hq as (Hm & Hid & Hqt & Hdoc & Himp & Hsent & Hcopy).
      split; [|now constructor].
      simpl. constructor; [|exact IH1].
      exact (conj Hid (conj Hqt (conj Hdoc (conj Himp
               (conj Hsent Hcopy))))).
  - destruct H as (qa & Hin & Hb).
    pose proof (read_qa_training version
                  (Loader.doc_tokens_of (Json.context paragraph)) qa)
      as Hq.
    destruct (Json.read_qa _ _ _ qa) as [example|e']; simpl in Hb;
      [discriminate|].
    injection Hb as ->. now exists qa.
Qed.

(** X6. At training time, on a file whose questions may lack the
    ["is_impossible"] key and whose answers may lack the ["answer_end"]
    key, loading fails only with [ValueError] or [KeyError], at a
    question it refuses: [ValueError] when a question read as answerable
    has not exactly one answer, [KeyError] when a question of a "v2.0"
    file has no ["is_impossible"] or the single answer of an answerable
    question has no ["answer_end"].  Otherwise no question is refused and
    it returns one example per question, in file order: an unanswerable
    question gets the span [(-1, -1)] and the empty answer text, an
    answerable one the word span and text of its single answer. *)
Theorem loading_for_training (source : Json.Source) :
  match Json.read_squad_examples source true with
  | Ok examples =>
      List.Forall2 (Json.labelled (Json.version source))
        (Json.questions source) examples
      /\ List.Forall
           (fun pq => Json.accepted (Json.version source) (snd pq))
           (Json.questions source)
  | Raise e =>
      (e = ValueError \/ e = KeyError)
      /\ exists pq, In pq (Json.questions source)
                    /\ Json.refused (Json.version source) (snd pq) e
  end.
Proof.
  unfold Json.read_squad_examples, Json.questions.
  set (version := Json.version source).
  assert (Hentry : forall entry,
    match for_each (Json.read_paragraph true version)
            (Json.paragraphs entry) with
    | Ok examples =>
        List.Forall2 (Json.labelled version)
          (List.flat_map (fun paragraph =>
             List.map (fun qa => (paragraph, qa)) (Json.qas paragraph))
             (Json.paragraphs entry)) examples
        /\ List.Forall (fun pq => Json.accepted version (snd pq))
             (List.flat_map (fun paragraph =>
                List.map (fun qa => (paragraph, qa)) (Json.qas paragraph))
                (Json.paragraphs entry))
    | Raise e =>
        exists pq,
          In pq (List.flat_map (fun paragraph =>
                   List.map (fun qa => (paragraph, qa))
                     (Json.qas paragraph)) (Json.paragraphs entry))
          /\ Json.refused version (snd pq) e
    end).
  { intros entry.
    pose proof (for_each_cases (Json.read_paragraph true version)
                  (Json.paragraphs entry)) as H.
    destruct (for_each _ (Json.paragraphs entry)) as [examples|e].
    - destruct H as (rs & Hrs & ->). split.
      + apply Forall2_flat_map_concat.
        eapply Forall2_impl; [exact Hrs|]. simpl. intros p ys Hp.
        pose proof (read_paragraph_training version p) as Hq.
        rewrite Hp in Hq. exact (proj1 Hq).
      + apply List.Forall_forall. intros pq Hin.
        apply in_flat_map in Hin. destruct Hin as (p & Hp & Hin).
        apply in_map_iff in Hin. destruct Hin as (qa & <- & Hqa).
        destruct (Forall2_in_left _ _ _ _ Hrs Hp) as (ys & _ & Hys).
        pose proof (read_paragraph_training version p) as Hq.
        rewrite Hys in Hq. destruct Hq as [_ Hall].
        rewrite List.Forall_forall in Hall. now apply Hall.
    - destruct H as (p & Hp & Hb).
      pose proof (read_paragraph_training version p) as Hq.
      rewrite Hb in Hq. destruct Hq as (qa & Hqa & Hm).
      exists (p, qa). split; [|exact Hm].
      apply in_flat_map. exists p. split; [exact Hp|].
      apply in_map_iff. now exists qa. }
  pose proof (for_each_cases
    (fun entry => for_each (Json.read_paragraph true version)
                    (Json.paragraphs entry)) (Json.data source)) as H.
  destruct (for_each _ (Json.data source)) as [examples|e].
  - destruct H as (rs & Hrs & ->). split.
    + apply Forall2_flat_map_concat.
      eapply Forall2_impl; [exact Hrs|]. simpl. intros entry ys Hy.
      pose proof (Hentry entry) as Hq. rewrite Hy in Hq. exact (proj1 Hq).
    + apply List.Forall_forall. intros pq Hin.
      apply in_flat_map in Hin. destruct Hin as (entry & He & Hin).
      destruct (Forall2_in_left _ _ _ _ Hrs He) as (ys & _ & Hys).
      pose proof (Hentry entry) as Hq. rewrite Hys in Hq.
      destruct Hq as [_ Hall].
      rewrite List.Forall_forall in Hall. now apply Hall.
  - destruct H as (entry & He & Hb).
    pose proof (Hentry entry) as Hq. rewrite Hb in Hq.
    destruct Hq as (pq & Hin & Hm). split.
    + destruct Hm as [[-> _]|[-> _]]; [now left|now right].
    + exists pq. split; [|exact Hm].
      apply in_flat_map. now exists entry.
Qed.

(** On records that have both keys the loader is the one of module
    [Loader]. *)
Lemma for_each_map {A B C} (g : A -> B) (body : B -> res (list C))
    (body' : A -> res (list C)) (l : list A) :
  (forall x, In x l -> body (g x) = body' x) ->
  for_each body (List.map g l) = for_each body' l.
Proof.
  induction l as [|x l IH]; intros H; simpl; [reflexivity|].
  rewrite (H x (or_introl eq_refl)).
  now rewrite IH by (intros y Hy; apply H; now right).
Qed.

Lemma read_qa_complete is_training version doc_tokens (qa : Loader.QA) :
  Json.read_qa is_training version doc_tokens (Json.of_qa qa)
  = Loader.read_qa is_training version doc_tokens qa.
Proof.
  unfold Json.read_qa, Loader.read_qa. simpl.
  destruct is_training; [|reflexivity].
  assert (Hlen : len (List.map Json.of_answer (Loader.answers qa))
                 = len (Loader.answers qa))
    by (unfold len; now rewrite length_map).
  rewrite Hlen.
  destruct (decide (version = Loader.v2)); simpl.
  - destruct (_ && _)%bool; [reflexivity|].
    destruct (Loader.qa_is_impossible qa); simpl; [reflexivity|].
    now destruct (Loader.answers qa).
  - destruct (_ && _)%bool; [reflexivity|]. simpl.
    now destruct (Loader.answers qa).
Qed.

Lemma loader_on_complete_records (source : Loader.Source)
    (is_training : bool) :
  Json.read_squad_examples (Json.of_source source) is_training
  = Loader.read_squad_examples source is_training.
Proof.
  unfold Json.read_squad_examples, Loader.read_squad_examples. simpl.
  apply for_each_map. intros entry _. simpl.
  apply for_each_map. intros paragraph _.
  unfold Json.read_paragraph, Loader.read_paragraph. simpl.
  apply for_each_map. intros qa _. now rewrite read_qa_complete.
Qed.

(** ** Re-tokenisation and its two index maps *)

Lemma index_lookup {A} (l : list A) (k : nat) (a : A) :
  l !! k = Some a -> index l (Z.of_nat k) = Ok a.
Proof.
  intros H. unfold index.
  destruct (Z.ltb_spec (Z.of_nat k) 0); [lia|].
  destruct (Z.ltb_spec (Z.of_nat k) 0); [lia|].
  now rewrite Nat2Z.id, H.
Qed.

Lemma lookup_repeat {A} (x : A) (n j : nat) :
  (j < n)%nat -> List.repeat x n !! j = Some x.
Proof.
  revert j. induction n as [|n IH]; intros j Hj; [lia|].
  destruct j as [|j]; simpl; [reflexivity|]. apply IH. lia.
Qed.

Section RetokFacts.
Variable tokenizer : Tokenizer.

Lemma retok_inner (i : nat) (sub_tokens : list str) :
  forall a b c,
  fold_left (fun (acc : Builder.retok_state) sub_token =>
               let '(tok_to_orig_index, orig_to_tok_index,
                     all_doc_tokens) := acc in
               (tok_to_orig_index ++ [Z.of_nat i], orig_to_tok_index,
                all_doc_tokens ++ [sub_token])) sub_tokens (a, b, c)
  = (a ++ List.repeat (Z.of_nat i) (List.length sub_tokens), b,
     c ++ sub_tokens).
Proof.
  induction sub_tokens as [|t sub_tokens IH]; intros a b c; simpl.
  - now rewrite !app_nil_r.
  - rewrite IH, <- !app_assoc. reflexivity.
Qed.

Lemma retok_outer (l : list str) : forall k a b c,
  fold_left (Builder.retok_step tokenizer)
    (combine (seq k (List.length l)) l) (a, b, c)
  = (a ++ Retok.owners tokenizer k l,
     b ++ Retok.offsets tokenizer (len c) l,
     c ++ Retok.stream tokenizer l).
Proof.
  induction l as [|w l IH]; intros k a b c; simpl.
  - now rewrite !app_nil_r.
  - rewrite retok_inner, IH. unfold Retok.stream. simpl.
    rewrite <- !app_assoc. simpl.
    replace (len (c ++ tokenize tokenizer w))
      with (len c + len (tokenize tokenizer w))
      by (unfold len; rewrite length_app; lia).
    reflexivity.
Qed.

Lemma retokenize_closed_form (doc_tokens : list str) :
  Builder.retokenize tokenizer doc_tokens
  = (Retok.owners tokenizer 0 doc_tokens,
     Retok.offsets tokenizer 0 doc_tokens,
     Retok.stream tokenizer doc_tokens).
Proof.
  unfold Builder.retokenize, enumerate. now rewrite retok_outer.
Qed.

Lemma offsets_lookup (l : list str) : forall n (i : nat),
  (i < List.length l)%nat ->
  Retok.offsets tokenizer n l !! i
  = Some (n + len (Retok.stream tokenizer (take i l))).
Proof.
  induction l as [|w l IH]; intros n i Hi; simpl in Hi; [lia|].
  destruct i as [|i]; simpl.
  - f_equal. unfold len. simpl. lia.
  - rewrite IH by lia. f_equal. unfold Retok.stream, len. simpl.
    rewrite length_app. lia.
Qed.

Lemma offsets_length (l : list str) : forall n,
  List.length (Retok.offsets tokenizer n l) = List.length l.
Proof. induction l as [|w l IH]; intros n; simpl; [|rewrite IH]; reflexivity. Qed.

Lemma owners_length (l : list str) : forall k,
  List.length (Retok.owners tokenizer k l)
  = List.length (Retok.stream tokenizer l).
Proof.
  induction l as [|w l IH]; intros k; simpl; [reflexivity|].
  unfold Retok.stream. simpl.
  rewrite !length_app, repeat_length, IH. reflexivity.
Qed.

Lemma owners_lookup (l : list str) : forall k (i j : nat) w,
  l !! i = Some w -> (j < List.length (tokenize tokenizer w))%nat ->
  Retok.owners tokenizer k l
    !! (List.length (Retok.stream tokenizer (take i l)) + j)%nat
  = Some (Z.of_nat (k + i)).
Proof.
  induction l as [|w0 l IH]; intros k i j w Hi Hj; [discriminate|].
  destruct i as [|i]; simpl in Hi.
  - injection Hi as ->. simpl.
    rewrite lookup_app_l by (rewrite repeat_length; lia).
    rewrite ?Nat.add_0_r. apply lookup_repeat. exact Hj.
  - simpl. unfold Retok.stream. simpl. rewrite length_app.
    rewrite lookup_app_r by (rewrite repeat_length; lia).
    rewrite repeat_length.
    replace (List.length (tokenize tokenizer w0)
             + List.length (List.flat_map (tokenize tokenizer) (take i l))
             + j - List.length (tokenize tokenizer w0))%nat
      with (List.length (Retok.stream tokenizer (take i l)) + j)%nat
      by (unfold Retok.stream; lia).
    rewrite (IH (Datatypes.S k) i j w Hi Hj). f_equal. lia.
Qed.

Lemma stream_lookup (l : list str) : forall (i j : nat) w t,
  l !! i = Some w -> tokenize tokenizer w !! j = Some t ->
  Retok.stream tokenizer l
    !! (List.length (Retok.stream tokenizer (take i l)) + j)%nat = Some t.
Proof.
  induction l as [|w0 l IH]; intros i j w t Hi Hj; [discriminate|].
  destruct i as [|i]; simpl in Hi.
  - injection Hi as ->. unfold Retok.stream. simpl.
    apply lookup_app_l_Some. exact Hj.
  - unfold Retok.stream. simpl. rewrite length_app.
    rewrite lookup_app_r by lia.
    replace (List.length (tokenize tokenizer w0)
             + List.length (List.flat_map (tokenize tokenizer) (take i l))
             + j - List.length (tokenize tokenizer w0))%nat
      with (List.length (Retok.stream tokenizer (take i l)) + j)%nat
      by (unfold Retok.stream; lia).
    exact (IH i j w t Hi Hj).
Qed.
End RetokFacts.

(** X7. Re-tokenisation of a document: [all_doc_tokens] is the
    concatenation of the tokenizations of the words;
    [orig_to_tok_index] has one entry per word, the number of subwords
    of the words before it; [tok_to_orig_index] has one entry per
    subword; and the [j]-th subword of word [i] sits at position
    [orig_to_tok_index[i] + j] of the stream and is mapped back to [i]. *)
Theorem retokenize_maps_agree (tokenizer : Tokenizer)
    (doc_tokens : list str) :
  let st := Builder.retokenize tokenizer doc_tokens in
  let tok_to_orig_index := fst (fst st) in
  let orig_to_tok_index := snd (fst st) in
  let all_doc_tokens := snd st in
  all_doc_tokens = List.flat_map (tokenize tokenizer) doc_tokens
  /\ len orig_to_tok_index = len doc_tokens
  /\ len tok_to_orig_index = len all_doc_tokens
  /\ forall (i : nat) w, doc_tokens !! i = Some w ->
       exists start,
         index orig_to_tok_index (Z.of_nat i) = Ok start
         /\ start = len (List.flat_map (tokenize tokenizer)
                           (take i doc_tokens))
         /\ forall (j : nat) t,
              tokenize tokenizer w !! j = Some t ->
              index all_doc_tokens (start + Z.of_nat j) = Ok t
              /\ index tok_to_orig_index (start + Z.of_nat j)
                 = Ok (Z.of_nat i).
Proof.
  cbv zeta. rewrite retokenize_closed_form. simpl.
  split; [reflexivity|].
  split; [unfold len; now rewrite offsets_length|].
  split; [unfold len; now rewrite owners_length|].
  intros i w Hi.
  pose proof (lookup_lt_Some _ _ _ Hi) as Hlt.
  exists (len (Retok.stream tokenizer (take i doc_tokens))).
  split; [|split; [reflexivity|]].
  - apply index_lookup. now apply offsets_lookup.
  - intros j t Hj. pose proof (lookup_lt_Some _ _ _ Hj) as Hjlt.
    unfold len. rewrite <- Nat2Z.inj_add. split; apply index_lookup.
    + exact (stream_lookup tokenizer doc_tokens i j w t Hi Hj).
    + exact (owners_lookup tokenizer doc_tokens 0 i j w Hi Hjlt).
Qed.

Lemma retokenize_maps_agree_witness :
  index (fst (fst (Builder.retokenize Samples.char_tokenizer
                     (SquadExample.doc_tokens Samples.example_two_words))))
    3 = Ok 1.
Proof.
  destruct (retokenize_maps_agree Samples.char_tokenizer
              (SquadExample.doc_tokens Samples.example_two_words))
    as (_ & _ & _ & H).
  destruct (H 1%nat [22823%N; 23398%N] eq_refl) as (start & _ & -> & Hj).
  exact (proj2 (Hj 1%nat [23398%N] eq_refl)).
Defined.

(** ** What a window looks like *)

Lemma index_in_range_lookup {A} (l : list A) (i : Z) :
  0 <= i < len l ->
  exists a, l !! Z.to_nat i = Some a /\ index l i = Ok a.
Proof.
  intros Hi. unfold index.
  destruct (Z.ltb_spec i 0) as [|_]; [lia|].
  destruct (Z.ltb_spec i 0) as [|_]; [lia|].
  destruct (l !! Z.to_nat i) as [a|] eqn:E; [now exists a|].
  apply lookup_ge_None in E. unfold len in Hi. lia.
Qed.

Lemma map_const_repeat {A B} (b : B) (l : list A) :
  List.map (fun _ => b) l = List.repeat b (List.length l).
Proof. induction l as [|x l IH]; simpl; [|rewrite IH]; reflexivity. Qed.

Lemma repeat_snoc {A} (x : A) (n : nat) :
  List.repeat x n ++ [x] = List.repeat x (Datatypes.S n).
Proof. induction n as [|n IH]; simpl; [|rewrite IH]; reflexivity. Qed.

Section LayoutFacts.
Variables (tokenizer : Tokenizer) (max_seq_length : Z) (is_training : bool).
Variables (example_index : Z) (example : SquadExample.t).
Variables (query_tokens : list str) (tok_to_orig_index : list Z).
Variables (all_doc_tokens : list str).
Variables (tok_start_position tok_end_position : option Z).
Variables (doc_spans : list DocSpan.t).
Variables (doc_span_index : nat) (doc_span : DocSpan.t).

#[local] Abbreviation body :=
  (Builder.slice_step doc_spans doc_span_index doc_span tok_to_orig_index
     all_doc_tokens).

#[local] Abbreviation first := (DocSpan.start doc_span).

(** The state of the loop over the slice after [k] more rounds. *)
Lemma slice_loop_state (k : nat) : forall a tokens m1 m2 segment_ids,
  len tok_to_orig_index = len all_doc_tokens ->
  0 <= first -> 0 <= a -> first + a + Z.of_nat k <= len all_doc_tokens ->
  exists (m1' : gmap Z Z) (m2' : gmap Z bool),
    for_fold body (range a (a + Z.of_nat k)) (tokens, m1, m2, segment_ids)
    = Ok (tokens ++ take k (drop (Z.to_nat (first + a)) all_doc_tokens),
          m1', m2', segment_ids ++ List.repeat 1 k)
    /\ (forall p,
          m1' !! p =
          if decide (len tokens <= p < len tokens + Z.of_nat k)
          then tok_to_orig_index !! Z.to_nat (first + a + (p - len tokens))
          else m1 !! p)
    /\ (forall p,
          m2' !! p =
          if decide (len tokens <= p < len tokens + Z.of_nat k)
          then Some (MaxContext._check_is_max_context doc_spans
                       doc_span_index (first + a + (p - len tokens)))
          else m2 !! p).
Proof.
  induction k as [|k IH]; intros a tokens m1 m2 segment_ids Hlen H0 Ha Hk.
  - rewrite range_nil by lia. exists m1, m2. simpl.
    rewrite !app_nil_r. split; [reflexivity|].
    split; intros p; destruct (decide _); try reflexivity; lia.
  - rewrite range_cons by lia. simpl.
    destruct (index_in_range_lookup tok_to_orig_index (first + a))
      as (orig & Ho & ->); [lia|].
    destruct (index_in_range_lookup all_doc_tokens (first + a))
      as (token & Ht & ->); [lia|].
    simpl.
    replace (a + Z.of_nat (Datatypes.S k)) with (a + 1 + Z.of_nat k) by lia.
    destruct (IH (a + 1) (tokens ++ [token])
                (<[len tokens := orig]> m1)
                (<[len tokens :=
                     MaxContext._check_is_max_context doc_spans
                       doc_span_index (first + a)]> m2)
                (segment_ids ++ [1]) Hlen H0 ltac:(lia) ltac:(lia))
      as (m1' & m2' & -> & Hm1 & Hm2).
    exists m1', m2'.
    assert (Hl : len (tokens ++ [token]) = len tokens + 1)
      by (unfold len; rewrite length_app; simpl; lia).
    split; [|split].
    + f_equal. f_equal; [f_equal|].
      * rewrite <- app_assoc. f_equal. simpl.
        rewrite (drop_S _ _ _ Ht). simpl.
        now replace (Z.to_nat (first + (a + 1)))
          with (Datatypes.S (Z.to_nat (first + a))) by lia.
      * rewrite <- app_assoc. reflexivity.
    + intros p. rewrite Hm1, Hl.
      destruct (decide (len tokens + 1 <= p < len tokens + 1 + Z.of_nat k)),
        (decide (len tokens <= p
                 < len tokens + Z.of_nat (Datatypes.S k))); try lia.
      * f_equal. lia.
      * assert (p = len tokens) as -> by lia.
        rewrite lookup_insert_eq, <- Ho. f_equal. lia.
      * rewrite lookup_insert_ne by lia. reflexivity.
    + intros p. rewrite Hm2, Hl.
      destruct (decide (len tokens + 1 <= p < len tokens + 1 + Z.of_nat k)),
        (decide (len tokens <= p
                 < len tokens + Z.of_nat (Datatypes.S k))); try lia.
      * do 2 f_equal. lia.
      * assert (p = len tokens) as -> by lia.
        rewrite lookup_insert_eq. do 2 f_equal. lia.
      * rewrite lookup_insert_ne by lia. reflexivity.
Qed.

(** A built window, taken apart. *)
Lemma build_window_inv unique_id feature :
  Builder.build_window tokenizer max_seq_length is_training example_index
    example query_tokens tok_to_orig_index all_doc_tokens
    tok_start_position tok_end_position doc_spans unique_id doc_span_index
    doc_span = Ok feature ->
  exists tokens m1 m2 segment_ids gold,
    for_fold body (range 0 (DocSpan.length doc_span))
      ([Builder.CLS] ++ query_tokens ++ [Builder.SEP], ∅, ∅,
       [0] ++ List.map (fun _ => 0) query_tokens ++ [0])
    = Ok (tokens, m1, m2, segment_ids)
    /\ Builder.gold_positions is_training example query_tokens doc_span
         tok_start_position tok_end_position = Ok gold
    /\ let input_ids := convert_tokens_to_ids tokenizer
                          (tokens ++ [Builder.SEP]) in
       let padding :=
         List.repeat 0 (Z.to_nat (max_seq_length - len input_ids)) in
       feature =
         InputFeatures.mk unique_id example_index (Z.of_nat doc_span_index)
           (tokens ++ [Builder.SEP]) m1 m2 (input_ids ++ padding)
           (List.map (fun _ => 1) input_ids ++ padding)
           ((segment_ids ++ [1]) ++ padding) (fst gold) (snd gold)
           (SquadExample.is_impossible example).
Proof.
  unfold Builder.build_window.
  destruct (for_fold _ _ _) as [[[[tokens m1] m2] segs]|e]; simpl;
    [|discriminate].
  destruct (_ =? max_seq_length); simpl; [|discriminate].
  destruct (_ =? max_seq_length); simpl; [|discriminate].
  destruct (_ =? max_seq_length); simpl; [|discriminate].
  destruct (Builder.gold_positions _ _ _ _ _ _) as [gold|e]; simpl;
    [|discriminate].
  intros [= <-]. exists tokens, m1, m2, segs, gold.
  repeat split; reflexivity.
Qed.
End LayoutFacts.

(** X8. A window built for a span that lies inside the subword stream
    has the tokens [[CLS] question [SEP] slice [SEP]]; its ids are the
    vocabulary ids of these tokens followed by zeros, its mask is one 1
    per token followed by zeros, its segment ids are 0 up to and
    including the first separator, 1 on the slice and the last separator,
    and 0 on the padding; and [token_to_orig_map] and
    [token_is_max_context] have a key exactly at the window positions of
    the slice, holding the word index of the subword there and the answer
    of [_check_is_max_context] for it. *)
Theorem window_layout
    (tokenizer : Tokenizer) (max_seq_length : Z) (is_training : bool)
    (example_index : Z) (example : SquadExample.t)
    (query_tokens : list str) (tok_to_orig_index : list Z)
    (all_doc_tokens : list str)
    (tok_start_position tok_end_position : option Z)
    (doc_spans : list DocSpan.t) (unique_id : Z) (doc_span_index : nat)
    (doc_span : DocSpan.t) (feature : InputFeatures.t) :
  len tok_to_orig_index = len all_doc_tokens ->
  0 <= DocSpan.start doc_span -> 0 <= DocSpan.length doc_span ->
  DocSpan.start doc_span + DocSpan.length doc_span <= len all_doc_tokens ->
  Builder.build_window tokenizer max_seq_length is_training example_index
    example query_tokens tok_to_orig_index all_doc_tokens
    tok_start_position tok_end_position doc_spans unique_id doc_span_index
    doc_span = Ok feature ->
  let tokens := Layout.window_tokens query_tokens all_doc_tokens doc_span in
  let padding := List.repeat 0 (Z.to_nat (max_seq_length - len tokens)) in
  let offset := Layout.doc_offset query_tokens in
  InputFeatures.tokens feature = tokens
  /\ InputFeatures.input_ids feature
     = List.map (vocab tokenizer) tokens ++ padding
  /\ InputFeatures.input_mask feature
     = List.repeat 1 (List.length tokens) ++ padding
  /\ InputFeatures.segment_ids feature
     = List.repeat 0 (List.length query_tokens + 2)
       ++ List.repeat 1 (Z.to_nat (DocSpan.length doc_span) + 1) ++ padding
  /\ (forall p,
        InputFeatures.token_to_orig_map feature !! p =
        if decide (offset <= p < offset + DocSpan.length doc_span)
        then tok_to_orig_index
               !! Z.to_nat (DocSpan.start doc_span + (p - offset))
        else None)
  /\ (forall p,
        InputFeatures.token_is_max_context feature !! p =
        if decide (offset <= p < offset + DocSpan.length doc_span)
        then Some (MaxContext._check_is_max_context doc_spans
                     doc_span_index
                     (DocSpan.start doc_span + (p - offset)))
        else None).
Proof.
  intros Hlen Hs Hl He Hb.
  destruct (build_window_inv _ _ _ _ _ _ _ _ _ _ _ _ _ _ _ Hb)
    as (tokens & m1 & m2 & segs & gold & Hfold & _ & ->).
  destruct (slice_loop_state tok_to_orig_index all_doc_tokens doc_spans
              doc_span_index doc_span (Z.to_nat (DocSpan.length doc_span))
              0 ([Builder.CLS] ++ query_tokens ++ [Builder.SEP]) ∅ ∅
              ([0] ++ List.map (fun _ => 0) query_tokens ++ [0])
              Hlen Hs ltac:(lia) ltac:(lia))
    as (m1' & m2' & Hst & Hm1 & Hm2).
  rewrite Z.add_0_l, Z2Nat.id in Hst by lia.
  rewrite Hfold in Hst. injection Hst as -> -> -> ->.
  assert (Hoff : len ([Builder.CLS] ++ query_tokens ++ [Builder.SEP])
                 = Layout.doc_offset query_tokens).
  { unfold Layout.doc_offset, len. simpl. rewrite length_app. simpl. lia. }
  assert (Htok : (Builder.CLS :: (query_tokens ++ [Builder.SEP])
                  ++ take (Z.to_nat (DocSpan.length doc_span))
                       (drop (Z.to_nat (DocSpan.start doc_span + 0))
                          all_doc_tokens)) ++ [Builder.SEP]
                 = Layout.window_tokens query_tokens all_doc_tokens
                     doc_span).
  { unfold Layout.window_tokens, Layout.doc_slice.
    rewrite Z.add_0_r. simpl. rewrite <- !app_assoc. reflexivity. }
  cbv zeta.
  cbn [InputFeatures.tokens InputFeatures.input_ids InputFeatures.input_mask
       InputFeatures.segment_ids InputFeatures.token_to_orig_map
       InputFeatures.token_is_max_context].
  rewrite Htok.
  unfold convert_tokens_to_ids, len. rewrite length_map.
  split; [reflexivity|]. split; [reflexivity|].
  split; [now rewrite map_const_repeat, length_map|].
  split; [|split].
  - rewrite map_const_repeat, app_assoc. f_equal.
    rewrite Nat.add_1_r, <- (repeat_snoc 1), app_assoc. f_equal.
    replace (List.length query_tokens + 2)%nat
      with (Datatypes.S (Datatypes.S (List.length query_tokens))) by lia.
    rewrite <- (repeat_snoc 0). simpl. now rewrite <- app_assoc.
  - intros p. rewrite Hm1, Hoff, Z2Nat.id by lia.
    destruct (decide _); [|apply lookup_empty].
    f_equal. lia.
  - intros p. rewrite Hm2, Hoff, Z2Nat.id by lia.
    destruct (decide _); [|apply lookup_empty].
    do 2 f_equal. lia.
Qed.

Lemma window_layout_witness :
  exists feature,
    Builder.build_window Samples.char_tokenizer 6 false 0
      Samples.example_two_words [[21738%N]] MoreSamples.owners4
      MoreSamples.stream4 None None MoreSamples.spans3 1000000001 1
      (DocSpan.mk 1 2) = Ok feature
    /\ InputFeatures.tokens feature
       = [Builder.CLS; [21738%N]; Builder.SEP; [20140%N]; [22823%N];
          Builder.SEP]
    /\ InputFeatures.token_to_orig_map feature !! 4 = Some 1.
Proof.
  destruct (Builder.build_window Samples.char_tokenizer 6 false 0
              Samples.example_two_words [[21738%N]] MoreSamples.owners4
              MoreSamples.stream4 None None MoreSamples.spans3 1000000001 1
              (DocSpan.mk 1 2)) as [feature|e] eqn:E;
    [|vm_compute in E; discriminate].
  exists feature. split; [reflexivity|].
  destruct (window_layout Samples.char_tokenizer 6 false 0
              Samples.example_two_words [[21738%N]] MoreSamples.owners4
              MoreSamples.stream4 None None MoreSamples.spans3 1000000001 1
              (DocSpan.mk 1 2) feature
              eq_refl ltac:(simpl; lia) ltac:(simpl; lia)
              ltac:(vm_compute; discriminate) E)
    as (Ht & _ & _ & _ & Hmap & _).
  split; [exact Ht|]. rewrite Hmap. reflexivity.
Defined.

(** ** Numbering and grouping of the features *)

Lemma build_windows_lookup
    (build : Z -> nat -> DocSpan.t -> res InputFeatures.t)
    (spans : list (nat * DocSpan.t)) : forall unique_id features,
  Builder.build_windows build unique_id spans = Ok features ->
  List.length features = List.length spans
  /\ forall (k : nat) feature, features !! k = Some feature ->
       exists i sp, spans !! k = Some (i, sp)
                    /\ build (unique_id + Z.of_nat k) i sp = Ok feature.
Proof.
  induction spans as [|[i sp] spans IH]; intros unique_id features; simpl.
  - intros [= <-]. split; [reflexivity|]. intros k f Hk. discriminate.
  - destruct (build unique_id i sp) as [f0|e] eqn:E0; simpl; [|discriminate].
    destruct (Builder.build_windows build (unique_id + 1) spans)
      as [fs|e] eqn:E1; simpl; [|discriminate].
    intros [= <-]. destruct (IH _ _ E1) as [Hlen Hk].
    split; [simpl; now rewrite Hlen|].
    intros [|k] f Hf; simpl in Hf.
    + injection Hf as <-. exists i, sp. split; [reflexivity|].
      now rewrite Z.add_0_r.
    + destruct (Hk k f Hf) as (i' & sp' & Hs & Hb).
      exists i', sp'. split; [exact Hs|].
      now replace (unique_id + Z.of_nat (Datatypes.S k))
        with (unique_id + 1 + Z.of_nat k) by lia.
Qed.

Lemma enumerate_lookup {A} (l : list A) (k i : nat) (x : A) :
  enumerate l !! k = Some (i, x) -> i = k /\ l !! k = Some x.
Proof.
  unfold enumerate.
  assert (H : forall (l : list A) s k i x,
             combine (seq s (List.length l)) l !! k = Some (i, x) ->
             i = (s + k)%nat /\ l !! k = Some x).
  { clear. induction l as [|y l IH]; intros s k i x; simpl; [discriminate|].
    destruct k as [|k]; simpl.
    - intros [= <- <-]. split; [lia|reflexivity].
    - intros H. destruct (IH _ _ _ _ H) as [-> Hx]. split; [lia|exact Hx]. }
  intros Hk. exact (H l 0%nat k i x Hk).
Qed.

Section NumberingFacts.
Variables (fuel : nat) (tokenizer : Tokenizer).
Variables (max_seq_length doc_stride max_query_length : Z).
Variable is_training : bool.

#[local] Abbreviation convert unique_id example_index example :=
  (Builder.convert_example fuel tokenizer max_seq_length doc_stride
     max_query_length is_training unique_id example_index example).

(** The features of one example: numbered from [unique_id], all carrying
    the example's index and flag, their window index, and the gold
    positions the mode dictates. *)
Lemma convert_example_fields unique_id example_index example features :
  convert unique_id example_index example = Some (Ok features) ->
  forall (k : nat) f, features !! k = Some f ->
    InputFeatures.unique_id f = unique_id + Z.of_nat k
    /\ InputFeatures.example_index f = example_index
    /\ InputFeatures.doc_span_index f = Z.of_nat k
    /\ InputFeatures.is_impossible f = SquadExample.is_impossible example
    /\ exists sp,
         Builder.gold_positions is_training example
           (Builder.truncate_query tokenizer max_query_length example) sp
           (fst (match Builder.tok_positions_of tokenizer is_training
                         example with
                 | Ok g => g | Raise _ => (None, None) end))
           (snd (match Builder.tok_positions_of tokenizer is_training
                         example with
                 | Ok g => g | Raise _ => (None, None) end))
         = Ok (InputFeatures.start_position f, InputFeatures.end_position f).
Proof.
  unfold Builder.convert_example, Builder.tok_positions_of.
  destruct (Builder.retokenize tokenizer (SquadExample.doc_tokens example))
    as [[t2o o2t] adt]. simpl fst. simpl snd.
  destruct (Builder.project_gold tokenizer is_training example o2t adt)
    as [[ts te]|e]; [|discriminate].
  destruct (Windows.doc_spans_loop _ _ _ fuel) as [spans|]; [|discriminate].
  intros [= Hb] k f Hk.
  destruct (build_windows_lookup _ _ _ _ Hb) as [_ Hl].
  destruct (Hl k f Hk) as (i & sp & Hs & Hw).
  apply enumerate_lookup in Hs. destruct Hs as [-> Hs].
  destruct (build_window_inv _ _ _ _ _ _ _ _ _ _ _ _ _ _ _ Hw)
    as (tokens & m1 & m2 & segs & gold & _ & Hg & ->).
  simpl. repeat split. exists sp. rewrite Hg. now destruct gold.
Qed.
End NumberingFacts.

Lemma filter_all {A} (f : A -> bool) (l : list A) :
  List.Forall (fun x => f x = true) l -> List.filter f l = l.
Proof.
  induction 1 as [|x l Hx _ IH]; simpl; [reflexivity|].
  now rewrite Hx, IH.
Qed.

Lemma filter_none {A} (f : A -> bool) (l : list A) :
  List.Forall (fun x => f x = false) l -> List.filter f l = [].
Proof.
  induction 1 as [|x l Hx _ IH]; simpl; [reflexivity|].
  now rewrite Hx, IH.
Qed.

Section RunFacts.
Variables (fuel : nat) (tokenizer : Tokenizer).
Variables (max_seq_length doc_stride max_query_length : Z).
Variable is_training : bool.

Lemma convert_examples_spec (examples : list SquadExample.t) :
  forall unique_id (example_index : nat) features,
  Builder.convert_examples fuel tokenizer max_seq_length doc_stride
    max_query_length is_training unique_id example_index examples
  = Some (Ok features) ->
  (forall (k : nat) f, features !! k = Some f ->
     InputFeatures.unique_id f = unique_id + Z.of_nat k
     /\ Z.of_nat example_index <= InputFeatures.example_index f)
  /\ (forall (j : nat) example, examples !! j = Some example ->
        exists first_id,
          Builder.convert_example fuel tokenizer max_seq_length doc_stride
            max_query_length is_training first_id
            (Z.of_nat (example_index + j)) example
          = Some (Ok (Aggregator.features_of features
                        (Z.of_nat (example_index + j))))).
Proof.
  induction examples as [|example examples IH];
    intros unique_id example_index features; simpl.
  - intros [= <-]. split; [intros k f Hk|intros j ex Hj]; discriminate.
  - destruct (Builder.convert_example _ _ _ _ _ _ _ _ example)
      as [[fs|e]|] eqn:E1; [| |discriminate]; [|discriminate].
    destruct (Builder.convert_examples _ _ _ _ _ _ _ _ examples)
      as [[more|e]|] eqn:E2; [| |discriminate]; [|discriminate].
    intros [= <-].
    destruct (IH _ _ _ E2) as [Hids Hgroups].
    pose proof (convert_example_fields _ _ _ _ _ _ _ _ _ _ E1) as Hfs.
    assert (Hmine : List.Forall
              (fun f => InputFeatures.example_index f
                        = Z.of_nat example_index) fs).
    { apply List.Forall_forall. intros f Hin.
      apply list_elem_of_In, list_elem_of_lookup in Hin.
      destruct Hin as [k Hk]. now destruct (Hfs k f Hk) as (_ & -> & _). }
    assert (Hlater : List.Forall
              (fun f => Z.of_nat (Datatypes.S example_index)
                        <= InputFeatures.example_index f) more).
    { apply List.Forall_forall. intros f Hin.
      apply list_elem_of_In, list_elem_of_lookup in Hin.
      destruct Hin as [k Hk]. now destruct (Hids k f Hk). }
    split.
    + intros k f Hk. destruct (proj1 (lookup_app_Some _ _ _ _) Hk) as [Hl|[Hge Hr]].
      * destruct (Hfs k f Hl) as (-> & -> & _). split; lia.
      * destruct (Hids _ f Hr) as [-> Hle]. unfold len. split; lia.
    + intros [|j] ex Hj; simpl in Hj.
      * injection Hj as <-. exists unique_id.
        rewrite Nat.add_0_r, E1. do 2 f_equal.
        unfold Aggregator.features_of. rewrite List.filter_app.
        rewrite (filter_all _ fs), (filter_none _ more), app_nil_r;
          [reflexivity| |].
        -- eapply List.Forall_impl; [|exact Hlater]. simpl.
           intros f Hf. apply Z.eqb_neq. lia.
        -- eapply List.Forall_impl; [|exact Hmine]. simpl.
           intros f Hf. apply Z.eqb_eq. exact Hf.
      * destruct (Hgroups j ex Hj) as [first_id Hc].
        exists first_id.
        replace (example_index + Datatypes.S j)%nat
          with (Datatypes.S example_index + j)%nat by lia.
        rewrite Hc. do 2 f_equal.
        unfold Aggregator.features_of. rewrite List.filter_app.
        rewrite (filter_none _ fs); [reflexivity|].
        eapply List.Forall_impl; [|exact Hmine]. simpl.
        intros f Hf. apply Z.eqb_neq. lia.
Qed.
End RunFacts.

(** X9. In the list [convert_examples_to_features] returns, the feature
    at position [k] has [unique_id = 1000000000 + k], and selecting the
    features whose [example_index] is [j] (as [write_predictions] does)
    gives exactly the windows built for the [j]-th example, in window
    order. *)
Theorem features_numbered_and_grouped
    (fuel : nat) (examples : list SquadExample.t) (tokenizer : Tokenizer)
    (max_seq_length doc_stride max_query_length : Z) (is_training : bool)
    (features : list InputFeatures.t) :
  Builder.convert_examples_to_features fuel examples tokenizer
    max_seq_length doc_stride max_query_length is_training
  = Some (Ok features) ->
  (forall (k : nat) f, features !! k = Some f ->
     InputFeatures.unique_id f = 1000000000 + Z.of_nat k)
  /\ (forall (j : nat) example, examples !! j = Some example ->
        exists first_id,
          Builder.convert_example fuel tokenizer max_seq_length doc_stride
            max_query_length is_training first_id (Z.of_nat j) example
          = Some (Ok (Aggregator.features_of features (Z.of_nat j)))
          /\ forall (k : nat) f,
               Aggregator.features_of features (Z.of_nat j) !! k = Some f ->
               InputFeatures.doc_span_index f = Z.of_nat k).
Proof.
  unfold Builder.convert_examples_to_features. intros H.
  destruct (convert_examples_spec _ _ _ _ _ _ _ _ _ _ H) as [Hids Hgroups].
  split.
  - intros k f Hk. now destruct (Hids k f Hk).
  - intros j ex Hj. destruct (Hgroups j ex Hj) as [first_id Hc].
    simpl in Hc. exists first_id. split; [exact Hc|].
    intros k f Hk.
    now destruct (convert_example_fields _ _ _ _ _ _ _ _ _ _ Hc k f Hk)
      as (_ & _ & -> & _).
Qed.

Lemma features_numbered_and_grouped_witness :
  exists features,
    Builder.convert_examples_to_features 5
      [Samples.example_two_words; Samples.example_a] Samples.char_tokenizer
      6 1 64 false = Some (Ok features)
    /\ List.map InputFeatures.unique_id features
       = [1000000000; 1000000001; 1000000002; 1000000003]
    /\ forall (k : nat) f, features !! k = Some f ->
         InputFeatures.unique_id f = 1000000000 + Z.of_nat k.
Proof.
  destruct (Builder.convert_examples_to_features 5
              [Samples.example_two_words; Samples.example_a]
              Samples.char_tokenizer 6 1 64 false)
    as [[features|e]|] eqn:E;
    [|vm_compute in E; discriminate|vm_compute in E; discriminate].
  exists features. split; [reflexivity|]. split.
  - vm_compute in E. injection E as <-. reflexivity.
  - exact (proj1 (features_numbered_and_grouped _ _ _ _ _ _ _ _ E)).
Defined.

(** X10. Every window of an example carries the example's
    [is_impossible] flag; at prediction time its gold positions are
    absent, and for an unanswerable training example they are both 0,
    the [[CLS]] position. *)
Theorem gold_positions_without_answer
    (fuel : nat) (tokenizer : Tokenizer)
    (max_seq_length doc_stride max_query_length : Z) (is_training : bool)
    (unique_id example_index : Z) (example : SquadExample.t)
    (features : list InputFeatures.t) :
  Builder.convert_example fuel tokenizer max_seq_length doc_stride
    max_query_length is_training unique_id example_index example
  = Some (Ok features) ->
  List.Forall (fun f =>
    InputFeatures.is_impossible f = SquadExample.is_impossible example
    /\ (is_training = false ->
        InputFeatures.start_position f = None
        /\ InputFeatures.end_position f = None)
    /\ (is_training = true -> SquadExample.is_impossible example = true ->
        InputFeatures.start_position f = Some 0
        /\ InputFeatures.end_position f = Some 0)) features.
Proof.
  intros H. apply List.Forall_forall. intros f Hin.
  apply list_elem_of_In, list_elem_of_lookup in Hin. destruct Hin as [k Hk].
  destruct (convert_example_fields _ _ _ _ _ _ _ _ _ _ H k f Hk)
    as (_ & _ & _ & Himp & sp & Hg).
  split; [exact Himp|]. unfold Builder.gold_positions in Hg.
  split.
  - intros ->. simpl in Hg. now injection Hg as <- <-.
  - intros -> Hi. rewrite Hi in Hg. simpl in Hg. now injection Hg as <- <-.
Qed.

Lemma gold_positions_without_answer_witness :
  exists features,
    Builder.convert_example 5 Samples.char_tokenizer 6 1 64 false
      1000000000 0 Samples.example_two_words = Some (Ok features)
    /\ List.Forall (fun f => InputFeatures.start_position f = None) features.
Proof.
  destruct (Builder.convert_example 5 Samples.char_tokenizer 6 1 64 false
              1000000000 0 Samples.example_two_words)
    as [[features|e]|] eqn:E;
    [|vm_compute in E; discriminate|vm_compute in E; discriminate].
  exists features. split; [reflexivity|].
  eapply List.Forall_impl;
    [|exact (gold_positions_without_answer _ _ _ _ _ _ _ _ _ _ E)].
  simpl. intros f (_ & Hp & _). now apply Hp.
Defined.

(** ** The n best indexes *)

Lemma Qgtb_spec x y :
  (Aggregator.Qgtb x y = true /\ (y < x)%Q)
  \/ (Aggregator.Qgtb x y = false /\ (x <= y)%Q).
Proof.
  unfold Aggregator.Qgtb. destruct (Qle_bool x y) eqn:E; simpl.
  - right. split; [reflexivity|]. now apply Qle_bool_iff.
  - left. split; [reflexivity|]. apply Qnot_le_lt. intros H.
    apply Qle_bool_iff in H. congruence.
Qed.

Lemma insert_desc_perm {A} (key : A -> Q) (x : A) (l : list A) :
  Permutation (Aggregator.insert_desc key x l) (x :: l).
Proof.
  induction l as [|y l IH]; simpl; [reflexivity|].
  destruct (Aggregator.Qgtb (key y) (key x)); [|reflexivity].
  rewrite IH. apply perm_swap.
Qed.

Lemma sorted_desc_perm {A} (key : A -> Q) (l : list A) :
  Permutation (Aggregator.sorted_desc key l) l.
Proof.
  induction l as [|x l IH]; simpl; [reflexivity|].
  rewrite insert_desc_perm. now constructor.
Qed.

Lemma insert_outranks (x : nat * Q) (l : list (nat * Q)) :
  ForallOrdPairs Ranking.outranks l ->
  List.Forall (fun y => (fst x < fst y)%nat) l ->
  ForallOrdPairs Ranking.outranks (Aggregator.insert_desc snd x l).
Proof.
  induction 1 as [|y l Hy Hl IH]; intros Hx; simpl.
  - repeat constructor.
  - inversion Hx as [|? ? Hxy Hxl]; subst.
    destruct (Qgtb_spec (snd y) (snd x)) as [[-> Hlt]|[-> Hle]].
    + constructor; [|now apply IH].
      apply List.Forall_forall. intros z Hz.
      apply (Permutation_in _ (insert_desc_perm snd x l)) in Hz.
      destruct Hz as [<-|Hz]; [now left|].
      rewrite List.Forall_forall in Hy. now apply Hy.
    + constructor; [|now constructor].
      constructor.
      * destruct (Qle_lt_or_eq _ _ Hle) as [Hlt|Heq];
          [now left|right; split; assumption].
      * rewrite List.Forall_forall in Hy, Hxl |- *. intros z Hz.
        destruct (Hy z Hz) as [Hlt|[Heq Hi]].
        -- left. eapply Qlt_le_trans; eassumption.
        -- destruct (Qle_lt_or_eq _ _ Hle) as [Hlt|Heq'].
           ++ left. now rewrite Heq.
           ++ right. split; [now rewrite Heq|now apply Hxl].
Qed.

Lemma sorted_outranks (l : list (nat * Q)) :
  ForallOrdPairs (fun x y => (fst x < fst y)%nat) l ->
  ForallOrdPairs Ranking.outranks (Aggregator.sorted_desc snd l).
Proof.
  induction 1 as [|x l Hx Hl IH]; simpl; [constructor|].
  apply insert_outranks; [exact IH|].
  apply List.Forall_forall. intros y Hy.
  apply (Permutation_in _ (sorted_desc_perm snd l)) in Hy.
  rewrite List.Forall_forall in Hx. now apply Hx.
Qed.

Lemma enumerate_increasing {A} (l : list A) : forall s,
  ForallOrdPairs (fun x y : nat * A => (fst x < fst y)%nat)
    (combine (seq s (List.length l)) l).
Proof.
  induction l as [|x l IH]; intros s; simpl; constructor; [|apply IH].
  apply List.Forall_forall. intros [i y] Hin.
  apply in_combine_l, in_seq in Hin. simpl. lia.
Qed.

Lemma enumerate_in {A} (l : list A) (i : nat) (x : A) :
  In (i, x) (enumerate l) <-> l !! i = Some x.
Proof.
  split.
  - intros Hin. apply list_elem_of_In, list_elem_of_lookup in Hin.
    destruct Hin as [k Hk]. apply enumerate_lookup in Hk.
    now destruct Hk as [-> Hk].
  - unfold enumerate.
    assert (H : forall (l : list A) s i,
               l !! i = Some x ->
               In ((s + i)%nat, x) (combine (seq s (List.length l)) l)).
    { clear. induction l as [|y l IH]; intros s i Hi; [discriminate|].
      destruct i as [|i]; simpl in *.
      - injection Hi as ->. left. f_equal. lia.
      - right. replace (s + Datatypes.S i)%nat
          with (Datatypes.S s + i)%nat by lia. now apply IH. }
    intros Hi. exact (H l 0%nat i Hi).
Qed.

Lemma ordpairs_app {A} (R : A -> A -> Prop) (l1 l2 : list A) :
  ForallOrdPairs R (l1 ++ l2) ->
  ForallOrdPairs R l1
  /\ forall x y, In x l1 -> In y l2 -> R x y.
Proof.
  induction l1 as [|a l1 IH]; simpl; intros H.
  - split; [constructor|contradiction].
  - inversion H as [|? ? Ha Hl]; subst.
    destruct (IH Hl) as [H1 H2]. split.
    + constructor; [|exact H1].
      apply List.Forall_forall. intros y Hy.
      rewrite List.Forall_forall in Ha. apply Ha, in_or_app. now left.
    + intros x y [<-|Hx] Hy; [|now apply H2].
      rewrite List.Forall_forall in Ha. apply Ha, in_or_app. now right.
Qed.

Lemma ordpairs_map {A B} (R : A -> A -> Prop) (S : B -> B -> Prop)
    (f : A -> B) (l : list A) :
  (forall x y, In x l -> In y l -> R x y -> S (f x) (f y)) ->
  ForallOrdPairs R l -> ForallOrdPairs S (List.map f l).
Proof.
  intros Hf H. induction H as [|a l Ha Hl IH]; simpl; constructor.
  - apply List.Forall_forall. intros b Hb. apply in_map_iff in Hb.
    destruct Hb as (y & <- & Hy). rewrite List.Forall_forall in Ha.
    apply Hf; [now left|now right|now apply Ha].
  - apply IH. intros x y Hx Hy. apply Hf; now right.
Qed.

Lemma outranks_before (logits : list Q) (x y : nat * Q) :
  In x (enumerate logits) -> In y (enumerate logits) ->
  Ranking.outranks x y ->
  Ranking.before logits (Z.of_nat (fst x)) (Z.of_nat (fst y)).
Proof.
  destruct x as [i si], y as [j sj]. intros Hx Hy Hr.
  apply enumerate_in in Hx, Hy. exists si, sj. simpl in *.
  split; [now apply index_lookup|]. split; [now apply index_lookup|].
  split; [lia|]. split; [lia|].
  unfold Ranking.outranks in Hr. simpl in Hr.
  destruct Hr as [Hlt|[Heq Hi]]; [now left|right; split; [exact Heq|lia]].
Qed.

(** X11. [_get_best_indexes] returns [min(n_best_size, len(logits))]
    positions of the array (none for a non-positive [n_best_size]), in
    order of decreasing score with ties in order of increasing position,
    so without repetition; and every position it leaves out comes after
    every position it returns in that order. *)
Theorem best_indexes_ranked (logits : list Q) (n_best_size : Z) :
  let best := Aggregator._get_best_indexes logits n_best_size in
  List.length best = Nat.min (Z.to_nat n_best_size) (List.length logits)
  /\ ForallOrdPairs (Ranking.before logits) best
  /\ (forall i j, In i best -> 0 <= j < len logits -> ~ In j best ->
        Ranking.before logits i j).
Proof.
  cbv zeta. unfold Aggregator._get_best_indexes.
  set (ranked := Aggregator.sorted_desc snd (enumerate logits)).
  assert (Hperm : Permutation ranked (enumerate logits))
    by apply sorted_desc_perm.
  assert (Hsorted : ForallOrdPairs Ranking.outranks ranked)
    by (apply sorted_outranks, enumerate_increasing).
  rewrite <- (take_drop (Z.to_nat n_best_size) ranked) in Hsorted.
  apply ordpairs_app in Hsorted. destruct Hsorted as [Hkept Hcut].
  assert (Hin : forall x, In x (take (Z.to_nat n_best_size) ranked) ->
                          In x (enumerate logits)).
  { intros x Hx. apply (Permutation_in _ Hperm).
    rewrite <- (take_drop (Z.to_nat n_best_size) ranked).
    apply in_or_app. now left. }
  split; [|split].
  - rewrite length_map, length_take, (Permutation_length Hperm).
    unfold enumerate. rewrite length_combine, length_seq. lia.
  - eapply ordpairs_map; [|exact Hkept].
    intros x y Hx Hy. apply outranks_before; now apply Hin.
  - intros i j Hi Hj Hnot. apply in_map_iff in Hi.
    destruct Hi as (x & <- & Hx).
    destruct (index_in_range_lookup logits j Hj) as (sj & Hsj & _).
    assert (Hy : In (Z.to_nat j, sj) ranked).
    { apply (Permutation_in _ (Permutation_sym Hperm)).
      now apply enumerate_in. }
    rewrite <- (take_drop (Z.to_nat n_best_size) ranked) in Hy.
    apply in_app_or in Hy. destruct Hy as [Hy|Hy].
    + exfalso. apply Hnot. apply in_map_iff.
      exists (Z.to_nat j, sj). split; [simpl; lia|exact Hy].
    + replace j with (Z.of_nat (fst (Z.to_nat j, sj))) by (simpl; lia).
      apply outranks_before; [now apply Hin| |now apply Hcut].
      now apply enumerate_in.
Qed.

(** ** Rounding to binary64 *)

Lemma nearest_even_le (a b n : Z) :
  0 < b -> a <= n * b -> Float64.nearest_even a b <= n.
Proof.
  intros Hb Ha. unfold Float64.nearest_even.
  pose proof (Z.div_mod a b ltac:(lia)) as Hdm.
  pose proof (Z.mod_pos_bound a b Hb) as Hr.
  assert (Hf : a / b <= n) by (apply Z.div_le_upper_bound; lia).
  destruct (Z.compare_spec (2 * (a mod b)) b) as [He|Hl|Hg].
  - destruct (Z.even (a / b)); [lia|].
    destruct (Z.eq_dec (a / b) n) as [Hn|Hn]; [|lia]. nia.
  - lia.
  - destruct (Z.eq_dec (a / b) n) as [Hn|Hn]; [|lia]. nia.
Qed.

Lemma nearest_even_ge (a b n : Z) :
  0 < b -> n * b <= a -> n <= Float64.nearest_even a b.
Proof.
  intros Hb Ha. unfold Float64.nearest_even.
  assert (Hf : n <= a / b) by (apply Z.div_le_lower_bound; lia).
  destruct (Z.compare_spec (2 * (a mod b)) b) as [He|Hl|Hg];
    [destruct (Z.even (a / b))|..]; lia.
Qed.

(** The result is within one half of [a / b], and even at one half. *)
Lemma nearest_even_spec (a b : Z) :
  0 < b ->
  let m := Float64.nearest_even a b in
  2 * (m * b - a) <= b /\ 2 * (a - m * b) <= b
  /\ (2 * (m * b - a) = b \/ 2 * (a - m * b) = b -> Z.even m = true).
Proof.
  intros Hb. cbv zeta. unfold Float64.nearest_even.
  pose proof (Z.div_mod a b ltac:(lia)) as Hdm.
  pose proof (Z.mod_pos_bound a b Hb) as Hr.
  set (f := a / b) in *. set (r := a mod b) in *.
  destruct (Z.compare_spec (2 * r) b) as [He|Hl|Hg].
  - destruct (Z.even f) eqn:Hev.
    + split; [nia|]. split; [nia|]. auto.
    + split; [nia|]. split; [nia|]. intros _.
      rewrite Z.even_add, Hev. reflexivity.
  - split; [nia|]. split; [nia|]. intros [H|H]; nia.
  - split; [nia|]. split; [nia|]. intros [H|H]; nia.
Qed.

Lemma nearest_even_mono (a1 b1 a2 b2 : Z) :
  0 < b1 -> 0 < b2 -> a1 * b2 <= a2 * b1 ->
  Float64.nearest_even a1 b1 <= Float64.nearest_even a2 b2.
Proof.
  intros Hb1 Hb2 Hle.
  destruct (nearest_even_spec a1 b1 Hb1) as (H1a & H1b & H1e).
  destruct (nearest_even_spec a2 b2 Hb2) as (H2a & H2b & H2e).
  set (m1 := Float64.nearest_even a1 b1) in *.
  set (m2 := Float64.nearest_even a2 b2) in *.
  destruct (Z_le_gt_dec m1 m2) as [H|H]; [exact H|]. exfalso.
  assert (Hm : m1 = m2 + 1 /\ 2 * (m1 * b1 - a1) = b1
               /\ 2 * (a2 - m2 * b2) = b2).
  { assert (H3 : 2 * (m1 * b1 - a1) * b2 <= b1 * b2) by nia.
    assert (H4 : 2 * (a2 - m2 * b2) * b1 <= b2 * b1) by nia.
    assert (H5 : (m1 - m2) * (b1 * b2) <= b1 * b2) by nia.
    assert (H6 : m1 - m2 <= 1) by nia.
    split; [lia|]. assert (m1 - m2 = 1) by lia. split; nia. }
  destruct Hm as (Hm & Ht1 & Ht2).
  pose proof (H1e (or_introl Ht1)) as He1.
  pose proof (H2e (or_intror Ht2)) as He2.
  rewrite Hm, Z.even_add, He2 in He1. discriminate.
Qed.

Section Rounding.
Local Open Scope Q_scope.

Lemma two_nonzero : ~ 2 == 0.
Proof. intros H. discriminate H. Qed.

Lemma pow2_pos (k : Z) : 0 < 2 ^ k.
Proof. apply Qpower_0_lt. reflexivity. Qed.

Lemma pow2_inv (k : Z) : 2 ^ (- k) * 2 ^ k == 1.
Proof.
  rewrite <- Qpower_plus by exact two_nonzero.
  replace (- k + k)%Z with 0%Z by lia. reflexivity.
Qed.

Lemma pow2_inject (k : Z) : (0 <= k)%Z -> inject_Z (2 ^ k) == 2 ^ k.
Proof. intros Hk. exact (Zpower_Qpower 2 k Hk). Qed.

Lemma Qmake_mult_den (n : Z) (d : positive) :
  (n # d) * inject_Z (Z.pos d) == inject_Z n.
Proof.
  rewrite Qmake_Qdiv. field. intros H. discriminate H.
Qed.

(** The two integers that [round_pos] hands to [nearest_even] have the
    quotient [(n / d) / 2 ^ e]. *)
Lemma scaled_fraction (n d : positive) (e : Z) :
  let a := (Z.pos n * 2 ^ Z.max 0 (- e))%Z in
  let b := (Z.pos d * 2 ^ Z.max 0 e)%Z in
  (0 < b)%Z /\ inject_Z a * 2 ^ e == (Z.pos n # d) * inject_Z b.
Proof.
  cbv zeta. split.
  - apply Z.mul_pos_pos; [lia|]. apply Z.pow_pos_nonneg; lia.
  - rewrite !inject_Z_mult.
    rewrite (pow2_inject (Z.max 0 (- e))), (pow2_inject (Z.max 0 e)) by lia.
    pose proof (Qmake_mult_den (Z.pos n) d) as Hq.
    destruct (Z_le_gt_dec 0 e) as [He|He].
    + rewrite (Z.max_r 0 e), (Z.max_l 0 (- e)) by lia.
      change (2 ^ 0) with 1. rewrite <- Hq. ring.
    + rewrite (Z.max_l 0 e), (Z.max_r 0 (- e)) by lia.
      change (2 ^ 0) with 1. pose proof (pow2_inv e) as Hi.
      rewrite <- Hq.
      transitivity ((Z.pos n # d) * inject_Z (Z.pos d) * (2 ^ (- e) * 2 ^ e));
        [ring|]. rewrite Hi. ring.
Qed.

Lemma round_pos_value (n d : positive) :
  let e := Z.max (-1074) (Float64.log2_floor n d - 52) in
  Float64.round_pos n d ==
  inject_Z (Float64.nearest_even (Z.pos n * 2 ^ Z.max 0 (- e))
              (Z.pos d * 2 ^ Z.max 0 e)) * 2 ^ e.
Proof.
  cbv zeta. unfold Float64.round_pos.
  set (e := Z.max (-1074) (Float64.log2_floor n d - 52)).
  set (m := Float64.nearest_even _ _).
  rewrite Qred_correct.
  destruct (Z.leb_spec 0 e) as [He|He].
  - rewrite inject_Z_mult, pow2_inject by lia. reflexivity.
  - rewrite Qmake_Qdiv.
    assert (Hp : (0 < 2 ^ (- e))%Z) by (apply Z.pow_pos_nonneg; lia).
    rewrite Z2Pos.id by exact Hp.
    rewrite pow2_inject by lia.
    pose proof (pow2_inv e) as Hi. pose proof (pow2_pos (- e)) as Hpp.
    field_simplify_eq; [|intros H; rewrite H in Hpp; discriminate Hpp].
    transitivity (inject_Z m * (2 ^ (- e) * 2 ^ e)); [|ring].
    rewrite Hi. ring.
Qed.

Lemma Zle_of_scaled (a b : Z) (p : Q) :
  0 < p -> inject_Z a * p <= inject_Z b * p -> (a <= b)%Z.
Proof.
  intros Hp H. rewrite Zle_Qle. exact (proj1 (Qmult_le_r _ _ p Hp) H).
Qed.

(** A float is never above a power of two that lies above the number
    rounded, nor below one that lies below it. *)
Lemma round_pos_le_pow2 (n d : positive) (k : Z) :
  (Z.max (-1074) (Float64.log2_floor n d - 52) <= k)%Z ->
  (Z.pos n # d) <= 2 ^ k -> Float64.round_pos n d <= 2 ^ k.
Proof.
  intros Hk Hq. rewrite round_pos_value.
  set (e := Z.max (-1074) (Float64.log2_floor n d - 52)) in *.
  destruct (scaled_fraction n d e) as [Hb Hs]. cbv zeta in Hb, Hs.
  set (a := (Z.pos n * 2 ^ Z.max 0 (- e))%Z) in *.
  set (b := (Z.pos d * 2 ^ Z.max 0 e)%Z) in *.
  assert (Hke : 2 ^ k == inject_Z (2 ^ (k - e)) * 2 ^ e).
  { rewrite pow2_inject by lia. rewrite <- Qpower_plus by exact two_nonzero.
    replace (k - e + e)%Z with k by lia. reflexivity. }
  assert (Hm : (Float64.nearest_even a b <= 2 ^ (k - e))%Z).
  { apply nearest_even_le; [exact Hb|].
    apply (Zle_of_scaled _ _ (2 ^ e) (pow2_pos e)).
    rewrite inject_Z_mult, Hs.
    assert (Hbq : 0 < inject_Z b)
      by (change (inject_Z 0 < inject_Z b); rewrite <- Zlt_Qlt; exact Hb).
    rewrite Hke in Hq.
    apply Qle_trans with (inject_Z (2 ^ (k - e)) * 2 ^ e * inject_Z b).
    - apply Qmult_le_r; assumption.
    - apply Qle_lteq. right. ring. }
  rewrite Hke. apply Qmult_le_r; [apply pow2_pos|].
  rewrite <- Zle_Qle. exact Hm.
Qed.

Lemma round_pos_ge_pow2 (n d : positive) (k : Z) :
  (Z.max (-1074) (Float64.log2_floor n d - 52) <= k)%Z ->
  2 ^ k <= (Z.pos n # d) -> 2 ^ k <= Float64.round_pos n d.
Proof.
  intros Hk Hq. rewrite round_pos_value.
  set (e := Z.max (-1074) (Float64.log2_floor n d - 52)) in *.
  destruct (scaled_fraction n d e) as [Hb Hs]. cbv zeta in Hb, Hs.
  set (a := (Z.pos n * 2 ^ Z.max 0 (- e))%Z) in *.
  set (b := (Z.pos d * 2 ^ Z.max 0 e)%Z) in *.
  assert (Hke : 2 ^ k == inject_Z (2 ^ (k - e)) * 2 ^ e).
  { rewrite pow2_inject by lia. rewrite <- Qpower_plus by exact two_nonzero.
    replace (k - e + e)%Z with k by lia. reflexivity. }
  assert (Hm : (2 ^ (k - e) <= Float64.nearest_even a b)%Z).
  { apply nearest_even_ge; [exact Hb|].
    apply (Zle_of_scaled _ _ (2 ^ e) (pow2_pos e)).
    rewrite inject_Z_mult, Hs.
    assert (Hbq : 0 < inject_Z b)
      by (change (inject_Z 0 < inject_Z b); rewrite <- Zlt_Qlt; exact Hb).
    rewrite Hke in Hq.
    apply Qle_trans with (inject_Z (2 ^ (k - e)) * 2 ^ e * inject_Z b).
    - apply Qle_lteq. right. ring.
    - apply Qmult_le_r; assumption. }
  rewrite Hke. apply Qmult_le_r; [apply pow2_pos|].
  rewrite <- Zle_Qle. exact Hm.
Qed.

Lemma round_pos_nonneg (n d : positive) : 0 <= Float64.round_pos n d.
Proof.
  rewrite round_pos_value.
  set (e := Z.max (-1074) (Float64.log2_floor n d - 52)).
  destruct (scaled_fraction n d e) as [Hb _]. cbv zeta in Hb.
  apply Qmult_le_0_compat; [|apply Qlt_le_weak, pow2_pos].
  match goal with |- 0 <= inject_Z ?m => change (inject_Z 0 <= inject_Z m) end.
  rewrite <- Zle_Qle.
  apply nearest_even_ge; [exact Hb|].
  assert (0 < 2 ^ Z.max 0 (- e))%Z by (apply Z.pow_pos_nonneg; lia). lia.
Qed.

(** [log2_floor n d] is the binade of [n / d]. *)
Lemma log2_floor_spec (n d : positive) :
  let l := Float64.log2_floor n d in
  2 ^ l <= (Z.pos n # d) /\ (Z.pos n # d) < 2 ^ (l + 1).
Proof.
  cbv zeta. unfold Float64.log2_floor.
  set (a := Z.log2 (Z.pos n)). set (b := Z.log2 (Z.pos d)).
  set (k := (a - b)%Z).
  pose proof (Z.log2_spec (Z.pos n) ltac:(lia)) as [Hn1 Hn2].
  pose proof (Z.log2_spec (Z.pos d) ltac:(lia)) as [Hd1 Hd2].
  pose proof (Z.log2_nonneg (Z.pos n)) as Ha.
  pose proof (Z.log2_nonneg (Z.pos d)) as Hb.
  fold a in Hn1, Hn2, Ha. fold b in Hd1, Hd2, Hb.
  rewrite Zle_Qle, pow2_inject in Hn1, Hd1 by lia.
  rewrite Zlt_Qlt, pow2_inject in Hn2, Hd2 by lia.
  rewrite <- Z.add_1_r in Hn2, Hd2.
  pose proof (Qmake_mult_den (Z.pos n) d) as Hq.
  set (q := Z.pos n # d) in *.
  set (N := inject_Z (Z.pos n)) in *. set (D := inject_Z (Z.pos d)) in *.
  assert (HD : 0 < D) by reflexivity.
  destruct (scaled_fraction n d k) as [Hb' Hs]. cbv zeta in Hb', Hs.
  fold q in Hs.
  set (a' := (Z.pos n * 2 ^ Z.max 0 (- k))%Z) in *.
  set (b' := (Z.pos d * 2 ^ Z.max 0 k)%Z) in *.
  assert (Hbq : 0 < inject_Z b')
    by (change (inject_Z 0 < inject_Z b'); rewrite <- Zlt_Qlt; exact Hb').
  pose proof (pow2_pos k) as Hk.
  assert (Hup : 2 ^ (k + 1) * 2 ^ b == 2 ^ (a + 1)).
  { rewrite <- Qpower_plus by exact two_nonzero.
    replace (k + 1 + b)%Z with (a + 1)%Z by lia. reflexivity. }
  assert (Hlo : 2 ^ (k - 1) * 2 ^ (b + 1) == 2 ^ a).
  { rewrite <- Qpower_plus by exact two_nonzero.
    replace (k - 1 + (b + 1))%Z with a by lia. reflexivity. }
  pose proof (pow2_pos (k + 1)) as Hk1. pose proof (pow2_pos (k - 1)) as Hk2.
  destruct (Z.leb_spec b' a') as [Ht|Ht].
  - rewrite Zle_Qle in Ht. split.
    + apply (proj1 (Qmult_le_r _ _ _ Hbq)).
      rewrite <- Hs. rewrite (Qmult_comm (inject_Z a')).
      apply Qmult_le_l; assumption.
    + apply (proj1 (Qmult_lt_r _ _ _ HD)). rewrite Hq.
      apply Qlt_le_trans with (2 ^ (a + 1)); [exact Hn2|].
      rewrite <- Hup. apply Qmult_le_l; assumption.
  - rewrite Zlt_Qlt in Ht. replace (k - 1 + 1)%Z with k by lia. split.
    + apply (proj1 (Qmult_le_r _ _ _ HD)). rewrite Hq.
      apply Qle_trans with (2 ^ a); [|exact Hn1].
      rewrite <- Hlo. apply Qmult_le_l; [assumption|].
      apply Qlt_le_weak. exact Hd2.
    + apply (proj1 (Qmult_lt_r _ _ _ Hbq)).
      rewrite <- Hs. rewrite (Qmult_comm (inject_Z a')).
      apply Qmult_lt_l; assumption.
Qed.

Lemma round_pos_mono (n1 d1 n2 d2 : positive) :
  (Z.pos n1 # d1) <= (Z.pos n2 # d2) ->
  Float64.round_pos n1 d1 <= Float64.round_pos n2 d2.
Proof.
  intros Hle.
  destruct (log2_floor_spec n1 d1) as [Hl1 Hu1].
  destruct (log2_floor_spec n2 d2) as [Hl2 Hu2]. cbv zeta in *.
  set (l1 := Float64.log2_floor n1 d1) in *.
  set (l2 := Float64.log2_floor n2 d2) in *.
  assert (Hl : (l1 <= l2)%Z).
  { assert (H : 2 ^ l1 < 2 ^ (l2 + 1)).
    { eapply Qle_lt_trans; [exact Hl1|].
      eapply Qle_lt_trans; [exact Hle|exact Hu2]. }
    apply Qpower_lt_compat_l_inv in H; [lia|reflexivity]. }
  destruct (Z.eq_dec (Z.max (-1074) (l1 - 52)) (Z.max (-1074) (l2 - 52)))
    as [He|He].
  - rewrite !round_pos_value. fold l1 l2. rewrite <- He.
    set (e := Z.max (-1074) (l1 - 52)) in *.
    destruct (scaled_fraction n1 d1 e) as [Hb1 Hs1].
    destruct (scaled_fraction n2 d2 e) as [Hb2 Hs2]. cbv zeta in *.
    set (a1 := (Z.pos n1 * 2 ^ Z.max 0 (- e))%Z) in *.
    set (b1 := (Z.pos d1 * 2 ^ Z.max 0 e)%Z) in *.
    set (a2 := (Z.pos n2 * 2 ^ Z.max 0 (- e))%Z) in *.
    set (b2 := (Z.pos d2 * 2 ^ Z.max 0 e)%Z) in *.
    apply Qmult_le_r; [apply pow2_pos|]. rewrite <- Zle_Qle.
    apply nearest_even_mono; [exact Hb1|exact Hb2|].
    apply (Zle_of_scaled _ _ (2 ^ e) (pow2_pos e)).
    rewrite !inject_Z_mult.
    assert (Hq1 : 0 < inject_Z b1)
      by (change (inject_Z 0 < inject_Z b1); rewrite <- Zlt_Qlt; exact Hb1).
    assert (Hq2 : 0 < inject_Z b2)
      by (change (inject_Z 0 < inject_Z b2); rewrite <- Zlt_Qlt; exact Hb2).
    apply Qle_trans
      with ((Z.pos n1 # d1) * inject_Z b1 * inject_Z b2).
    { apply Qle_lteq. right. rewrite <- Hs1. ring. }
    apply Qle_trans
      with ((Z.pos n2 # d2) * inject_Z b1 * inject_Z b2).
    { apply Qmult_le_r; [exact Hq2|]. apply Qmult_le_r; assumption. }
    apply Qle_lteq. right.
    apply Qeq_trans with ((Z.pos n2 # d2) * inject_Z b2 * inject_Z b1);
      [ring|].
    rewrite <- Hs2. ring.
  - apply Qle_trans with (2 ^ l2).
    + apply round_pos_le_pow2; [fold l1; lia|].
      apply Qlt_le_weak. eapply Qlt_le_trans; [exact Hu1|].
      apply Qpower_le_compat_l; [lia|discriminate].
    + apply round_pos_ge_pow2; [fold l2; lia|exact Hl2].
Qed.

Lemma round64_zero (q : Q) : q == 0 -> Float64.round64 q = 0.
Proof.
  intros H. unfold Float64.round64. unfold Qeq in H. simpl in H.
  rewrite Z.mul_1_r in H. now rewrite H.
Qed.

Lemma round64_nonneg (q : Q) : 0 <= q -> 0 <= Float64.round64 q.
Proof.
  intros H. destruct q as [[|n|n] d]; unfold Float64.round64; simpl.
  - apply Qle_refl.
  - apply round_pos_nonneg.
  - exfalso. unfold Qle in H. simpl in H. lia.
Qed.

Lemma round64_nonpos (q : Q) : q <= 0 -> Float64.round64 q <= 0.
Proof.
  intros H. destruct q as [[|n|n] d]; unfold Float64.round64; simpl.
  - apply Qle_refl.
  - exfalso. unfold Qle in H. simpl in H. lia.
  - pose proof (round_pos_nonneg n d) as Hp.
    apply Qopp_le_compat in Hp. exact Hp.
Qed.

Lemma round64_mono (q1 q2 : Q) :
  q1 <= q2 -> Float64.round64 q1 <= Float64.round64 q2.
Proof.
  intros H.
  destruct (Qlt_le_dec q1 0) as [H1|H1];
    destruct (Qlt_le_dec q2 0) as [H2|H2].
  - destruct q1 as [[|n1|n1] d1]; [discriminate H1|discriminate H1|].
    destruct q2 as [[|n2|n2] d2]; [discriminate H2|discriminate H2|].
    unfold Float64.round64. simpl. apply Qopp_le_compat.
    apply round_pos_mono. unfold Qle in *. simpl in *. lia.
  - apply Qle_trans with 0.
    + apply round64_nonpos. now apply Qlt_le_weak.
    + now apply round64_nonneg.
  - exfalso. apply (Qlt_irrefl 0).
    eapply Qle_lt_trans; [exact H1|]. eapply Qle_lt_trans; eassumption.
  - destruct q1 as [[|n1|n1] d1].
    + now apply round64_nonneg.
    + destruct q2 as [[|n2|n2] d2].
      * exfalso. unfold Qle in H. simpl in H. lia.
      * unfold Float64.round64. simpl. now apply round_pos_mono.
      * exfalso. unfold Qle in H2. simpl in H2. lia.
    + exfalso. unfold Qle in H1. simpl in H1. lia.
Qed.

Lemma round64_one : Float64.round64 1 = 1.
Proof. vm_compute. reflexivity. Qed.

(** A power of two from the smallest subnormal up is a float. *)
Lemma round64_pow2 (q : Q) (k : Z) :
  (-1074 <= k)%Z -> q == 2 ^ k -> Float64.round64 q == 2 ^ k.
Proof.
  intros Hk Hq. pose proof (pow2_pos k) as Hp.
  destruct q as [[|n|n] d].
  - exfalso. rewrite <- Hq in Hp. discriminate Hp.
  - unfold Float64.round64. simpl.
    destruct (log2_floor_spec n d) as [Hl _]. cbv zeta in Hl.
    assert (Hle : (Float64.log2_floor n d <= k)%Z).
    { rewrite Hq in Hl.
      apply Qpower_le_compat_l_inv in Hl; [lia|reflexivity]. }
    apply Qle_antisym.
    + apply round_pos_le_pow2; [lia|]. rewrite Hq. apply Qle_refl.
    + apply round_pos_ge_pow2; [lia|]. rewrite Hq. apply Qle_refl.
  - exfalso. rewrite <- Hq in Hp. discriminate Hp.
Qed.

(** ** Softmax *)

(** The first loop of [_compute_softmax] leaves in [max_score] a score
    of the list that no score exceeds. *)
Lemma max_score_loop (scores : list Q) : forall m,
  exists m',
    fold_left (fun (max_score : option Q) score =>
                 match max_score with
                 | None => Some score
                 | Some m => if Aggregator.Qgtb score m then Some score
                             else Some m
                 end) scores (Some m) = Some m'
    /\ (m' = m \/ In m' scores) /\ m <= m'
    /\ List.Forall (fun s => s <= m') scores.
Proof.
  induction scores as [|s scores IH]; intros m; simpl.
  - exists m. split; [reflexivity|]. split; [now left|].
    split; [apply Qle_refl|constructor].
  - destruct (Qgtb_spec s m) as [[-> Hlt]|[-> Hle]].
    + destruct (IH s) as (m' & -> & Hin & Hge & Hall). exists m'.
      split; [reflexivity|]. split; [right; destruct Hin; auto|].
      split; [eapply Qle_trans; [apply Qlt_le_weak; exact Hlt|exact Hge]|].
      constructor; assumption.
    + destruct (IH m) as (m' & -> & Hin & Hge & Hall). exists m'.
      split; [reflexivity|]. split; [destruct Hin; auto|].
      split; [exact Hge|]. constructor; [|exact Hall].
      eapply Qle_trans; eassumption.
Qed.

(** A running float sum of non-negative floats is at least each of them. *)
Lemma sum_loop_bounds (l : list Q) : forall acc,
  0 <= acc ->
  List.Forall (fun x => 0 <= x /\ Float64.round64 x == x) l ->
  let total := fold_left Float64.add l acc in
  0 <= total
  /\ (forall y, Float64.round64 y == y -> y <= acc -> y <= total)
  /\ List.Forall (fun x => x <= total) l.
Proof.
  induction l as [|x l IH]; intros acc Hacc Hall; cbv zeta; simpl.
  - split; [exact Hacc|]. split; [auto|constructor].
  - inversion Hall as [|? ? [Hx Hfx] Hl]; subst.
    assert (Hacc' : 0 <= Float64.add acc x).
    { apply round64_nonneg.
      change 0 with (0 + 0). now apply Qplus_le_compat. }
    destruct (IH (Float64.add acc x) Hacc' Hl) as (Ht & Hkeep & Hrest).
    cbv zeta in *.
    assert (Hstep : forall y, Float64.round64 y == y -> y <= acc + x ->
                    y <= Float64.add acc x).
    { intros y Hfy Hy. rewrite <- Hfy. now apply round64_mono. }
    split; [exact Ht|]. split.
    + intros y Hfy Hy. apply Hkeep; [exact Hfy|]. apply Hstep; [exact Hfy|].
      eapply Qle_trans; [exact Hy|].
      rewrite <- (Qplus_0_r acc) at 1. now apply Qplus_le_r.
    + constructor; [|exact Hrest].
      apply Hkeep; [exact Hfx|]. apply Hstep; [exact Hfx|].
      rewrite <- (Qplus_0_l x) at 1. now apply Qplus_le_l.
Qed.

Section SoftmaxFacts.
Variable exp : Q -> Q.
Hypothesis exp_zero : exp 0 == 1.
Hypothesis exp_nonneg : forall x, x <= 0 -> 0 <= exp x.
Hypothesis exp_float : forall x, x <= 0 -> Float64.round64 (exp x) == exp x.

(** X12. [_compute_softmax] returns one number per score (none for no
    score).  When [math.exp] gives 1 at 0 and a non-negative float at
    every argument up to 0, the float sum of the exponentials is at least
    1, so every division is defined, and every number returned lies
    between 0 and 1; the exponentials are taken of the scores less the
    largest score. *)
Theorem softmax_in_unit_interval (scores : list Q) :
  let probs := Aggregator._compute_softmax exp scores in
  List.length probs = List.length scores
  /\ List.Forall (fun p => 0 <= p /\ p <= 1) probs
  /\ (scores <> [] ->
      exists max_score total_sum,
        In max_score scores
        /\ List.Forall (fun score => score <= max_score) scores
        /\ total_sum =
           fold_left Float64.add
             (List.map (fun score => exp (Float64.sub score max_score))
                scores) 0
        /\ 1 <= total_sum
        /\ probs =
           List.map (fun score =>
                       Float64.div (exp (Float64.sub score max_score))
                         total_sum) scores).
Proof.
  cbv zeta. unfold Aggregator._compute_softmax.
  destruct scores as [|s scores];
    [split; [reflexivity|]; split; [constructor|congruence]|].
  set (scores' := s :: scores).
  assert (Hmax : exists m,
    fold_left (fun (max_score : option Q) score =>
                 match max_score with
                 | None => Some score
                 | Some m => if Aggregator.Qgtb score m then Some score
                             else Some m
                 end) scores' None = Some m
    /\ In m scores' /\ List.Forall (fun x => x <= m) scores').
  { subst scores'. simpl.
    destruct (max_score_loop scores s) as (m & -> & Hin & Hge & Hall).
    exists m. split; [reflexivity|]. split.
    - destruct Hin as [->|Hin]; [now left|now right].
    - constructor; assumption. }
  destruct Hmax as (m & -> & Hin & Hall). simpl default.
  set (exp_scores :=
         List.map (fun score => exp (Float64.sub score m)) scores').
  set (total_sum := fold_left Float64.add exp_scores 0).
  assert (Harg : forall x, In x scores' -> Float64.sub x m <= 0).
  { intros x Hx. apply round64_nonpos.
    rewrite List.Forall_forall in Hall. specialize (Hall x Hx).
    rewrite <- (Qplus_opp_r m). unfold Qminus. now apply Qplus_le_l. }
  assert (Hexp : List.Forall
                   (fun x => 0 <= x /\ Float64.round64 x == x) exp_scores).
  { apply List.Forall_forall. intros x Hx. apply in_map_iff in Hx.
    destruct Hx as (y & <- & Hy). split.
    - apply exp_nonneg. now apply Harg.
    - apply exp_float. now apply Harg. }
  destruct (sum_loop_bounds exp_scores 0 (Qle_refl 0) Hexp)
    as (_ & _ & Hbound). cbv zeta in Hbound. fold total_sum in Hbound.
  assert (Hone : 1 <= total_sum).
  { rewrite List.Forall_forall in Hbound. rewrite <- exp_zero.
    apply Hbound. apply in_map_iff. exists m. split; [|exact Hin].
    unfold Float64.sub. rewrite (round64_zero (m - m)); [reflexivity|].
    unfold Qminus. apply Qplus_opp_r. }
  assert (Hpos : 0 < total_sum)
    by (eapply Qlt_le_trans; [|exact Hone]; reflexivity).
  split; [subst exp_scores; now rewrite !length_map|]. split.
  - apply List.Forall_forall. intros p Hp. apply in_map_iff in Hp.
    destruct Hp as (x & <- & Hx).
    rewrite List.Forall_forall in Hexp, Hbound.
    destruct (Hexp x Hx) as [Hx0 _]. specialize (Hbound x Hx). split.
    + apply round64_nonneg. apply Qle_shift_div_l; [exact Hpos|].
      now rewrite Qmult_0_l.
    + rewrite <- round64_one. apply round64_mono.
      apply Qle_shift_div_r; [exact Hpos|]. now rewrite Qmult_1_l.
  - intros _. exists m, total_sum. split; [exact Hin|].
    split; [exact Hall|]. split; [reflexivity|]. split; [exact Hone|].
    subst exp_scores. now rewrite map_map.
Qed.
End SoftmaxFacts.

Lemma exp2_zero : MoreSamples.exp2 0 == 1.
Proof. reflexivity. Qed.

Lemma exp2_nonneg (x : Q) : 0 <= MoreSamples.exp2 x.
Proof.
  unfold MoreSamples.exp2. destruct (Z.ltb_spec (Qfloor x) (-1074)).
  - apply Qle_refl.
  - apply Qlt_le_weak, pow2_pos.
Qed.

Lemma exp2_float (x : Q) : Float64.round64 (MoreSamples.exp2 x) == MoreSamples.exp2 x.
Proof.
  unfold MoreSamples.exp2. destruct (Z.ltb_spec (Qfloor x) (-1074)).
  - reflexivity.
  - apply round64_pow2; [assumption|reflexivity].
Qed.
End Rounding.

Lemma softmax_in_unit_interval_witness :
  Aggregator._compute_softmax MoreSamples.exp2 [0; -2000]%Q = [1; 0]%Q
  /\ List.Forall (fun p => (0 <= p /\ p <= 1)%Q)
       (Aggregator._compute_softmax MoreSamples.exp2 [3; 1; 2; -2000]%Q).
Proof.
  split; [vm_compute; reflexivity|].
  apply (softmax_in_unit_interval MoreSamples.exp2 exp2_zero
           (fun x _ => exp2_nonneg x) (fun x _ => exp2_float x)
           [3; 1; 2; -2000]%Q).
Defined.

(** ** Aggregation without null answers *)

Lemma for_fold_inv {S A} (body : S -> A -> res S) (P : S -> Prop)
    (Rok : A -> Prop) (Qerr : exn -> A -> Prop) (l : list A) :
  (forall st x, In x l -> P st ->
     match body st x with
     | Ok st' => P st' /\ Rok x
     | Raise e => Qerr e x
     end) ->
  forall st, P st ->
  match for_fold body l st with
  | Ok st' => P st' /\ List.Forall Rok l
  | Raise e => exists x, In x l /\ Qerr e x
  end.
Proof.
  induction l as [|x l IH]; intros Hbody st Hst; simpl.
  - split; [exact Hst|constructor].
  - pose proof (Hbody st x (or_introl eq_refl) Hst) as Hx.
    destruct (body st x) as [st'|e]; simpl.
    + destruct Hx as [Hst' Hrx].
      specialize (IH (fun s y Hy => Hbody s y (or_intror Hy)) st' Hst').
      destruct (for_fold body l st') as [st''|e].
      * destruct IH as [H1 H2]. split; [exact H1|now constructor].
      * destruct IH as (y & Hy & Hq). exists y. split; [now right|exact Hq].
    + exists x. split; [now left|exact Hx].
Qed.

Lemma index_of_lookup {A} (l : list A) (i : Z) (a : A) :
  0 <= i -> l !! Z.to_nat i = Some a -> index l i = Ok a.
Proof.
  intros Hi H. rewrite <- (Z2Nat.id i Hi). now apply index_lookup.
Qed.

Section NoNullFacts.
Variable exp : Q -> Q.
Variable get_final_text : str -> str -> bool -> str.
Variables (n_best_size max_answer_length : Z) (do_lower_case : bool).
Variable null_score_diff_threshold : Q.
Variable unique_id_to_result : gmap Z RawResult.t.
Variables (example : SquadExample.t) (features : list InputFeatures.t).

(** Without null answers one round over a feature either lacks its
    result, or appends candidates that can all be resolved again. *)
Lemma feature_step_no_null prelim null (i : nat) feature :
  features !! i = Some feature ->
  List.Forall (Nbest.resolvable features) prelim ->
  match Aggregator.feature_step n_best_size max_answer_length false
          unique_id_to_result (prelim, null) (i, feature) with
  | Ok (prelim', null') =>
      null' = null
      /\ List.Forall (Nbest.resolvable features) prelim'
      /\ is_Some (unique_id_to_result !! InputFeatures.unique_id feature)
  | Raise e =>
      e = KeyError
      /\ unique_id_to_result !! InputFeatures.unique_id feature = None
  end.
Proof.
  intros Hi Hprelim. unfold Aggregator.feature_step.
  destruct (unique_id_to_result !! InputFeatures.unique_id feature)
    as [result|] eqn:Er; simpl; [|split; reflexivity].
  rewrite candidates_spec.
  - simpl. split; [reflexivity|]. split; [|now eexists].
    apply List.Forall_app. split; [exact Hprelim|].
    apply List.Forall_forall. intros p Hp.
    apply in_flat_map in Hp. destruct Hp as (si & _ & Hp).
    apply in_flat_map in Hp. destruct Hp as (ei & _ & Hp).
    unfold Aggregator.candidate_of in Hp.
    destruct (Aggregator.discarded feature max_answer_length si ei) eqn:Hd;
      [contradiction|].
    apply discarded_false_iff in Hd.
    destruct Hd as (_ & _ & Hs & He & _).
    destruct (index (RawResult.start_logits result) si),
      (index (RawResult.end_logits result) ei); simpl in Hp;
      try contradiction.
    destruct Hp as [<-|[]]. exists feature. simpl.
    split; [now apply index_lookup|]. split; assumption.
  - apply List.Forall_forall. intros x. apply best_indexes_in_range.
  - apply List.Forall_forall. intros x. apply best_indexes_in_range.
Qed.

Lemma scan_no_null :
  match for_fold (Aggregator.feature_step n_best_size max_answer_length
                    false unique_id_to_result)
          (enumerate features) ([], Aggregator.null_init) with
  | Ok (prelim, null) =>
      null = Aggregator.null_init
      /\ List.Forall (Nbest.resolvable features) prelim
      /\ forall feature, In feature features ->
           is_Some (unique_id_to_result !! InputFeatures.unique_id feature)
  | Raise e =>
      e = KeyError
      /\ exists feature,
           In feature features
           /\ unique_id_to_result !! InputFeatures.unique_id feature = None
  end.
Proof.
  pose proof (for_fold_inv
    (Aggregator.feature_step n_best_size max_answer_length false
       unique_id_to_result)
    (fun st => snd st = Aggregator.null_init
               /\ List.Forall (Nbest.resolvable features) (fst st))
    (fun x : nat * InputFeatures.t =>
       is_Some (unique_id_to_result !! InputFeatures.unique_id (snd x)))
    (fun e (x : nat * InputFeatures.t) =>
       e = KeyError
       /\ unique_id_to_result !! InputFeatures.unique_id (snd x) = None)
    (enumerate features)) as H.
  specialize (H ltac:(
    intros [prelim null] [i feature] Hin [Hn Hp]; simpl in Hn, Hp;
    apply enumerate_in in Hin;
    pose proof (feature_step_no_null prelim null i feature Hin Hp) as Hs;
    destruct (Aggregator.feature_step _ _ _ _ _ _) as [[prelim' null']|e];
    [destruct Hs as (-> & Hp' & Hr); simpl; repeat split; assumption
    |exact Hs]) ([], Aggregator.null_init)
    (conj eq_refl (List.Forall_nil _))).
  destruct (for_fold _ _ _) as [[prelim null]|e].
  - destruct H as [[Hn Hp] Hall]. simpl in Hn, Hp.
    split; [exact Hn|]. split; [exact Hp|].
    intros feature Hin.
    apply list_elem_of_In, list_elem_of_lookup in Hin.
    destruct Hin as [i Hi]. rewrite List.Forall_forall in Hall.
    exact (Hall (i, feature) (proj2 (enumerate_in _ _ _) Hi)).
  - destruct H as ([i feature] & Hin & -> & Hnone).
    split; [reflexivity|]. exists feature. split; [|exact Hnone].
    apply enumerate_in in Hin.
    apply list_elem_of_In, list_elem_of_lookup. now exists i.
Qed.

(** The loop that builds the n-best list does not fail on resolvable
    predictions and never takes the list beyond [n_best_size] entries. *)
Lemma nbest_loop_total (preds : list PrelimPrediction.t) :
  List.Forall (Nbest.resolvable features) preds ->
  forall seen nbest,
  exists seen' nbest',
    Aggregator.nbest_loop get_final_text n_best_size do_lower_case example
      features preds seen nbest = Ok (seen', nbest')
    /\ len nbest <= len nbest'
    /\ len nbest' <= Z.max (len nbest) n_best_size.
Proof.
  induction 1 as [|pred preds (feature & Hf & [os Hs] & [oe He]) _ IH];
    intros seen nbest; simpl.
  - exists seen, nbest. split; [reflexivity|lia].
  - destruct (Z.geb_spec (len nbest) n_best_size) as [Hfull|Hroom].
    + exists seen, nbest. split; [reflexivity|lia].
    + rewrite Hf. simpl.
      assert (Hgrow : forall entry : NbestPrediction.t,
                len (nbest ++ [entry]) = len nbest + 1)
        by (intros entry; unfold len; rewrite length_app; simpl; lia).
      destruct (PrelimPrediction.start_index pred >? 0).
      * unfold Aggregator.final_text_of. rewrite Hs, He. simpl.
        destruct (bool_decide _).
        -- destruct (IH seen nbest) as (seen' & nbest' & -> & H1 & H2).
           exists seen', nbest'. split; [reflexivity|lia].
        -- match goal with
           | |- context [Aggregator.nbest_loop _ _ _ _ _ preds ?s ?n] =>
               destruct (IH s n) as (seen' & nbest' & -> & H1 & H2)
           end.
           rewrite Hgrow in H1, H2.
           exists seen', nbest'. split; [reflexivity|lia].
      * match goal with
        | |- context [Aggregator.nbest_loop _ _ _ _ _ preds ?s ?n] =>
            destruct (IH s n) as (seen' & nbest' & -> & H1 & H2)
        end.
        rewrite Hgrow in H1, H2.
        exists seen', nbest'. split; [reflexivity|lia].
Qed.
End NoNullFacts.

Lemma softmax_length (exp : Q -> Q) (scores : list Q) :
  List.length (Aggregator._compute_softmax exp scores) = List.length scores.
Proof.
  unfold Aggregator._compute_softmax.
  destruct scores; [reflexivity|]. now rewrite !length_map.
Qed.

Lemma nbest_json_total (probs : list Q) (nbest : list NbestPrediction.t) :
  List.length probs = List.length nbest ->
  exists nbest_json,
    for_each (fun it : nat * NbestPrediction.t =>
      letr p := index probs (Z.of_nat (fst it)) in
      Ok [ {| Aggregator.nb_text := NbestPrediction.text (snd it);
              Aggregator.nb_probability := p;
              Aggregator.nb_start_logit :=
                NbestPrediction.start_logit (snd it);
              Aggregator.nb_end_logit :=
                NbestPrediction.end_logit (snd it) |} ])
      (enumerate nbest) = Ok nbest_json
    /\ List.map Aggregator.nb_text nbest_json
       = List.map NbestPrediction.text nbest
    /\ List.map Aggregator.nb_start_logit nbest_json
       = List.map NbestPrediction.start_logit nbest
    /\ List.map Aggregator.nb_end_logit nbest_json
       = List.map NbestPrediction.end_logit nbest.
Proof.
  intros Hlen.
  set (entry := fun it : nat * NbestPrediction.t =>
    match index probs (Z.of_nat (fst it)) with
    | Ok p =>
        [ {| Aggregator.nb_text := NbestPrediction.text (snd it);
             Aggregator.nb_probability := p;
             Aggregator.nb_start_logit :=
               NbestPrediction.start_logit (snd it);
             Aggregator.nb_end_logit :=
               NbestPrediction.end_logit (snd it) |} ]
    | Raise _ => []
    end).
  exists (List.flat_map entry (enumerate nbest)).
  assert (Hok : forall it, In it (enumerate nbest) ->
                exists p, index probs (Z.of_nat (fst it)) = Ok p).
  { intros [i e] Hin. apply enumerate_in in Hin.
    apply lookup_lt_Some in Hin. simpl.
    apply index_in_range. unfold len. lia. }
  split.
  - apply for_each_total. intros it Hin. subst entry. simpl.
    destruct (Hok it Hin) as [p ->]. reflexivity.
  - unfold enumerate in *. revert Hok. generalize 0%nat as s.
    clear Hlen. induction nbest as [|e nbest IH]; intros s Hok; simpl.
    + repeat split.
    + destruct (Hok (s, e) (or_introl eq_refl)) as [p Hp].
      subst entry. simpl in *. rewrite Hp. simpl.
      destruct (IH (Datatypes.S s)) as (H1 & H2 & H3).
      { intros it Hin. apply Hok. now right. }
      rewrite H1, H2, H3. repeat split.
Qed.

(** X13. Without null answers, aggregating one example fails only with
    [KeyError], exactly when one of its features has no raw result.
    Otherwise the example gets between 1 and [max(1, n_best_size)]
    n-best entries, its answer is the text and scores of the first of
    them, and no score difference is recorded. *)
Theorem aggregation_without_null_answers
    (exp : Q -> Q) (get_final_text : str -> str -> bool -> str)
    (n_best_size max_answer_length : Z) (do_lower_case : bool)
    (null_score_diff_threshold : Q)
    (unique_id_to_result : gmap Z RawResult.t)
    (example : SquadExample.t) (features : list InputFeatures.t) :
  match Aggregator.aggregate_example exp get_final_text n_best_size
          max_answer_length do_lower_case false null_score_diff_threshold
          unique_id_to_result example features with
  | Ok out =>
      (forall feature, In feature features ->
         is_Some (unique_id_to_result !! InputFeatures.unique_id feature))
      /\ 1 <= len (Aggregator.out_nbest_json out) <= Z.max 1 n_best_size
      /\ Aggregator.out_score_diff out = None
      /\ exists top rest,
           Aggregator.out_nbest_json out = top :: rest
           /\ Aggregator.out_prediction out
              = Aggregator.Scored (Aggregator.nb_text top)
                  (Aggregator.nb_start_logit top)
                  (Aggregator.nb_end_logit top)
  | Raise e =>
      e = KeyError
      /\ exists feature,
           In feature features
           /\ unique_id_to_result !! InputFeatures.unique_id feature = None
  end.
Proof.
  unfold Aggregator.aggregate_example.
  pose proof (scan_no_null n_best_size max_answer_length
                unique_id_to_result features) as Hscan.
  destruct (for_fold _ (enumerate features) _)
    as [[prelim [[[score_null idx] s] e]]|err]; simpl; [|exact Hscan].
  destruct Hscan as (_ & Hres & Hall).
  destruct (nbest_loop_total get_final_text n_best_size do_lower_case
              example features
              (Aggregator.sorted_desc
                 (fun x => Float64.add (PrelimPrediction.start_logit x)
                       (PrelimPrediction.end_logit x)) prelim))
    with (seen := (∅ : gmap str bool)) (nbest := @nil NbestPrediction.t)
    as (seen' & nbest' & Hloop & _ & Hmax).
  { apply List.Forall_forall. intros p Hp. apply in_sorted_desc in Hp.
    rewrite List.Forall_forall in Hres. now apply Hres. }
  rewrite Hloop. simpl.
  set (nbest := match nbest' with
                | [] => nbest' ++ [NbestPrediction.mk (lit "empty") 0 0]
                | _ :: _ => nbest'
                end).
  assert (Hlen : 1 <= len nbest <= Z.max 1 n_best_size).
  { subst nbest. unfold len in *. destruct nbest'; simpl in *; lia. }
  destruct (Z.geb_spec (len nbest) 1) as [_|]; [|lia]. simpl.
  destruct (nbest_json_total
              (Aggregator._compute_softmax exp
                 (List.map (fun entry =>
                    Float64.add (NbestPrediction.start_logit entry)
                      (NbestPrediction.end_logit entry)) nbest)) nbest)
    as (nbest_json & -> & Htext & _).
  { now rewrite softmax_length, length_map. }
  simpl.
  assert (Hjson : len nbest_json = len nbest).
  { unfold len. f_equal.
    rewrite <- (length_map Aggregator.nb_text), Htext.
    apply length_map. }
  destruct (Z.geb_spec (len nbest_json) 1) as [_|]; [|lia]. simpl.
  destruct nbest_json as [|top rest];
    [unfold len in Hjson, Hlen; simpl in Hjson; lia|].
  simpl. split; [exact Hall|]. split; [lia|]. split; [reflexivity|].
  exists top, rest. split; reflexivity.
Qed.

(** ** Deduplication by text *)

Lemma index_ok_in {A} (l : list A) (i : Z) (a : A) :
  index l i = Ok a -> In a l.
Proof.
  unfold index.
  destruct ((if i <? 0 then i + len l else i) <? 0); [discriminate|].
  destruct (l !! _) as [b|] eqn:E; [|discriminate].
  intros [= <-]. apply list_elem_of_In, list_elem_of_lookup. eauto.
Qed.

Section DedupFacts.
Variable get_final_text : str -> str -> bool -> str.
Variables (n_best_size : Z) (do_lower_case : bool).
Variables (example : SquadExample.t) (features : list InputFeatures.t).

Lemma nbest_loop_distinct (preds : list PrelimPrediction.t) :
  List.Forall (fun p => 0 < PrelimPrediction.start_index p) preds ->
  forall seen nbest seen' nbest',
  Nbest.deduplicated seen nbest ->
  Aggregator.nbest_loop get_final_text n_best_size do_lower_case example
    features preds seen nbest = Ok (seen', nbest') ->
  Nbest.deduplicated seen' nbest'.
Proof.
  induction 1 as [|pred preds Hpos _ IH];
    intros seen nbest seen' nbest' Hd; simpl.
  - now intros [= <- <-].
  - destruct (len nbest >=? n_best_size); [now intros [= <- <-]|].
    destruct (index features (PrelimPrediction.feature_index pred))
      as [feature|e]; simpl; [|discriminate].
    destruct (Z.gtb_spec (PrelimPrediction.start_index pred) 0); [|lia].
    destruct (Aggregator.final_text_of get_final_text do_lower_case example
                feature pred) as [final_text|e]; simpl; [|discriminate].
    destruct (bool_decide_reflect (is_Some (seen !! final_text)))
      as [Hseen|Hnew].
    + now apply IH.
    + apply IH. destruct Hd as [Hnd Hin]. split.
      * rewrite List.map_app. simpl.
        apply NoDup_ListNoDup, NoDup_app.
        split; [now apply NoDup_ListNoDup|].
        split; [|apply NoDup_singleton].
        intros t Ht Ht'. apply list_elem_of_In in Ht.
        apply list_elem_of_singleton in Ht'. subst t.
        apply in_map_iff in Ht. destruct Ht as (entry & Hte & Hentry).
        apply Hnew. rewrite <- Hte. now apply Hin.
      * intros entry Hentry. apply in_app_or in Hentry.
        destruct Hentry as [Hentry|[<-|[]]]; simpl.
        -- destruct (decide (final_text = NbestPrediction.text entry))
             as [<-|Hne].
           ++ rewrite lookup_insert_eq. now eexists.
           ++ rewrite lookup_insert_ne by exact Hne. now apply Hin.
        -- rewrite lookup_insert_eq. now eexists.
Qed.
End DedupFacts.

(** X14. Without null answers, when no feature maps window position 0 or
    a negative position to a document word (true of every feature the
    window builder makes), no two n-best entries of an example carry the
    same text. *)
Theorem nbest_texts_are_distinct
    (exp : Q -> Q) (get_final_text : str -> str -> bool -> str)
    (n_best_size max_answer_length : Z) (do_lower_case : bool)
    (null_score_diff_threshold : Q)
    (unique_id_to_result : gmap Z RawResult.t)
    (example : SquadExample.t) (features : list InputFeatures.t)
    (out : Aggregator.output) :
  (forall feature k, In feature features ->
     is_Some (InputFeatures.token_to_orig_map feature !! k) -> 0 < k) ->
  Aggregator.aggregate_example exp get_final_text n_best_size
    max_answer_length do_lower_case false null_score_diff_threshold
    unique_id_to_result example features = Ok out ->
  List.NoDup (List.map Aggregator.nb_text (Aggregator.out_nbest_json out)).
Proof.
  intros Hkeys. unfold Aggregator.aggregate_example.
  pose proof (scan_no_null n_best_size max_answer_length
                unique_id_to_result features) as Hscan.
  destruct (for_fold _ (enumerate features) _)
    as [[prelim [[[score_null idx] s] e]]|err]; simpl; [|discriminate].
  destruct Hscan as (_ & Hres & _).
  set (ranked := Aggregator.sorted_desc
                   (fun x => Float64.add (PrelimPrediction.start_logit x)
                       (PrelimPrediction.end_logit x)) prelim).
  assert (Hranked : List.Forall (Nbest.resolvable features) ranked).
  { apply List.Forall_forall. intros p Hp. apply in_sorted_desc in Hp.
    rewrite List.Forall_forall in Hres. now apply Hres. }
  destruct (nbest_loop_total get_final_text n_best_size do_lower_case
              example features ranked Hranked)
    with (seen := (∅ : gmap str bool)) (nbest := @nil NbestPrediction.t)
    as (seen' & nbest' & Hloop & _ & _).
  rewrite Hloop. simpl.
  assert (Hd : Nbest.deduplicated seen' nbest').
  { eapply (nbest_loop_distinct get_final_text n_best_size do_lower_case
              example features ranked); [| |exact Hloop].
    - eapply List.Forall_impl; [|exact Hranked]. simpl.
      intros p (feature & Hf & Hs & _).
      eapply Hkeys; [|exact Hs]. eapply index_ok_in; exact Hf.
    - split; [constructor|intros entry []]. }
  set (nbest := match nbest' with
                | [] => nbest' ++ [NbestPrediction.mk (lit "empty") 0 0]
                | _ :: _ => nbest'
                end).
  assert (Hnd : List.NoDup (List.map NbestPrediction.text nbest)).
  { subst nbest. destruct nbest'; [|exact (proj1 Hd)].
    simpl. constructor; [intros []|constructor]. }
  destruct (len nbest >=? 1); simpl; [|discriminate].
  destruct (nbest_json_total
              (Aggregator._compute_softmax exp
                 (List.map (fun entry =>
                    Float64.add (NbestPrediction.start_logit entry)
                      (NbestPrediction.end_logit entry)) nbest)) nbest)
    as (nbest_json & -> & Htext & _).
  { now rewrite softmax_length, length_map. }
  simpl. destruct (len nbest_json >=? 1); simpl; [|discriminate].
  destruct (index nbest_json 0); simpl; [|discriminate].
  intros [= <-]. simpl. now rewrite Htext.
Qed.

Lemma nbest_texts_are_distinct_witness :
  (exists prelim null,
     for_fold (Aggregator.feature_step 20 30 false
                 {[ 1000000000 := MoreSamples.result_a_a ]})
       (enumerate [MoreSamples.feature_a_a]) ([], Aggregator.null_init)
     = Ok (prelim, null)
     /\ List.map (fun p => (PrelimPrediction.start_index p,
                            PrelimPrediction.end_index p)) prelim
        = [(3, 3); (3, 4); (4, 4)])
  /\ match Aggregator.aggregate_example (fun _ => 1%Q)
            (fun _ orig _ => orig) 20 30 true false 0%Q
            {[ 1000000000 := MoreSamples.result_a_a ]}
            MoreSamples.example_a_a [MoreSamples.feature_a_a] with
     | Ok out =>
         List.NoDup (List.map Aggregator.nb_text
                       (Aggregator.out_nbest_json out))
         /\ List.map Aggregator.nb_text (Aggregator.out_nbest_json out)
            = [lit "a"; lit "a a"]
     | Raise _ => False
     end.
Proof.
  split; [eexists; eexists; split; vm_compute; reflexivity|].
  destruct (Aggregator.aggregate_example (fun _ => 1%Q)
              (fun _ orig _ => orig) 20 30 true false 0%Q
              {[ 1000000000 := MoreSamples.result_a_a ]}
              MoreSamples.example_a_a [MoreSamples.feature_a_a])
    as [out|e] eqn:E; [|vm_compute in E; discriminate].
  split.
  - refine (nbest_texts_are_distinct _ _ _ _ _ _ _ _ _ out _ E).
    intros feature k [<-|[]] [v Hv]. simpl in Hv.
    destruct (decide (k = 3)) as [->|H3]; [lia|].
    destruct (decide (k = 4)) as [->|H4]; [lia|].
    rewrite lookup_insert_ne in Hv by congruence.
    now rewrite lookup_singleton_ne in Hv.
  - vm_compute in E. injection E as <-. reflexivity.
Defined.

(** ** Projecting a prediction back to the original text *)

Import TextProjection Spaces.

Lemma is_prefix_occurs (sub text : str) :
  is_prefix sub text = true <-> exists rest, text = sub ++ rest.
Proof.
  revert text. induction sub as [|a sub IH]; intros text; simpl.
  - split; [intros _; now exists text|reflexivity].
  - destruct text as [|b text].
    + split; [discriminate|intros [rest H]; discriminate].
    + rewrite andb_true_iff, N.eqb_eq, IH. split.
      * intros [-> [rest ->]]. now exists rest.
      * intros [rest [= -> ->]]. split; [reflexivity|now exists rest].
Qed.

(** [find] returns -1 when the text has no occurrence, and the offset of
    the first occurrence otherwise. *)
Lemma find_from_cases (sub : str) : forall (text : str) (i : Z),
  0 <= i ->
  (find_from sub text i = -1
   /\ forall j, ~ occurs_at sub text j)
  \/ (exists j, find_from sub text i = i + Z.of_nat j
        /\ (j <= List.length text)%nat
        /\ occurs_at sub text j
        /\ forall j', (j' < j)%nat -> ~ occurs_at sub text j').
Proof.
  induction text as [|c text IH]; intros i Hi; simpl.
  - destruct (is_prefix sub []) eqn:Hp.
    + right. exists 0%nat. split; [lia|]. split; [simpl; lia|].
      split; [|intros; lia]. apply is_prefix_occurs in Hp. exact Hp.
    + left. split; [reflexivity|]. intros j [rest Hj].
      rewrite drop_nil in Hj.
      assert (is_prefix sub [] = true) by (apply is_prefix_occurs; eauto).
      congruence.
  - destruct (is_prefix sub (c :: text)) eqn:Hp.
    + right. exists 0%nat. split; [lia|]. split; [simpl; lia|].
      split; [|intros; lia]. apply is_prefix_occurs in Hp. exact Hp.
    + assert (H0 : ~ occurs_at sub (c :: text) 0).
      { intros H. apply is_prefix_occurs in H. simpl in H. congruence. }
      destruct (IH (i + 1) ltac:(lia)) as [[-> Hno]|(j & -> & Hj & Hocc & Hfirst)].
      * left. split; [reflexivity|]. intros [|j]; [exact H0|apply Hno].
      * right. exists (Datatypes.S j). split; [lia|]. split; [simpl; lia|].
        split; [exact Hocc|]. intros [|j'] Hlt; [exact H0|].
        apply Hfirst. lia.
Qed.

(** *** Counting the characters that are not spaces *)

Lemma nonspace_app (s t : str) :
  nonspace (s ++ t) = nonspace s ++ nonspace t.
Proof. apply List.filter_app. Qed.

Lemma rank_split (t : str) (j n : nat) :
  rank t (j + n) = (rank t j + rank (drop j t) n)%nat.
Proof.
  unfold rank. rewrite <- take_take_drop, nonspace_app, length_app.
  reflexivity.
Qed.

Lemma rank_mono (t : str) (j j' : nat) :
  (j <= j')%nat -> (rank t j <= rank t j')%nat.
Proof.
  intros H. replace j' with (j + (j' - j))%nat by lia.
  rewrite rank_split. lia.
Qed.

Lemma rank_next (t : str) (j : nat) (c : N) :
  t !! j = Some c -> c <> 32%N ->
  rank t (Datatypes.S j) = Datatypes.S (rank t j).
Proof.
  intros Hj Hc. unfold rank. rewrite (take_S_r _ _ _ Hj), nonspace_app.
  rewrite length_app. simpl.
  destruct (N.eqb_spec c 32); [contradiction|]. simpl. lia.
Qed.

Lemma rank_spot_lt (t : str) (j j' : nat) :
  is_spot t j -> (j < j')%nat -> (rank t j < rank t j')%nat.
Proof.
  intros (c & Hj & Hc) Hlt.
  pose proof (rank_mono t (Datatypes.S j) j' ltac:(lia)) as H.
  rewrite (rank_next t j c Hj Hc) in H. lia.
Qed.

Lemma nonspace_take (t : str) (j : nat) :
  nonspace (take j t) = take (rank t j) (nonspace t).
Proof.
  unfold rank. rewrite <- (take_drop j t) at 3.
  rewrite nonspace_app, take_app_length. reflexivity.
Qed.

Lemma nonspace_drop (t : str) (j : nat) :
  nonspace (drop j t) = drop (rank t j) (nonspace t).
Proof.
  unfold rank. rewrite <- (take_drop j t) at 3.
  rewrite nonspace_app, drop_app_length. reflexivity.
Qed.

Lemma nonspace_between (t : str) (j n : nat) :
  nonspace (take n (drop j t))
  = take (rank t (j + n) - rank t j) (drop (rank t j) (nonspace t)).
Proof.
  rewrite nonspace_take, nonspace_drop, rank_split. f_equal. lia.
Qed.

(** *** The positions [_strip_spaces] records *)

Lemma spots_length (t : str) : forall i,
  List.length (spots i t) = List.length (nonspace t).
Proof.
  induction t as [|c t IH]; intros i; simpl; [reflexivity|].
  destruct (c =? 32)%N; simpl; now rewrite IH.
Qed.

Lemma rank_cons_space (t : str) (j : nat) :
  rank (32%N :: t) (Datatypes.S j) = rank t j.
Proof. reflexivity. Qed.

Lemma rank_cons_other (c : N) (t : str) (j : nat) :
  c <> 32%N -> rank (c :: t) (Datatypes.S j) = Datatypes.S (rank t j).
Proof.
  intros Hc. unfold rank. simpl.
  destruct (N.eqb_spec c 32); [contradiction|]. reflexivity.
Qed.

Lemma spots_select (t : str) : forall i k p,
  spots i t !! k = Some p ->
  exists j, p = (i + j)%nat /\ is_spot t j /\ rank t j = k.
Proof.
  induction t as [|c t IH]; intros i k p; simpl; [discriminate|].
  destruct (N.eqb_spec c 32) as [->|Hc].
  - intros H. destruct (IH _ _ _ H) as (j & -> & (c' & Hj & Hc') & Hr).
    exists (Datatypes.S j). split; [lia|]. split; [now exists c'|].
    now rewrite rank_cons_space.
  - destruct k as [|k]; simpl.
    + intros [= <-]. exists 0%nat. split; [lia|].
      split; [now exists c|reflexivity].
    + intros H. destruct (IH _ _ _ H) as (j & -> & (c' & Hj & Hc') & Hr).
      exists (Datatypes.S j). split; [lia|]. split; [now exists c'|].
      rewrite rank_cons_other by exact Hc. now rewrite Hr.
Qed.

Lemma spots_rank (t : str) : forall i j,
  is_spot t j -> spots i t !! rank t j = Some (i + j)%nat.
Proof.
  induction t as [|c t IH]; intros i j (c' & Hj & Hc'); [discriminate|].
  destruct j as [|j]; simpl in Hj.
  - injection Hj as ->. simpl.
    destruct (N.eqb_spec c' 32); [contradiction|].
    unfold rank. simpl. f_equal. lia.
  - simpl. destruct (N.eqb_spec c 32) as [->|Hc].
    + rewrite rank_cons_space, (IH (Datatypes.S i) j) by now exists c'.
      f_equal. lia.
    + rewrite rank_cons_other by exact Hc. simpl.
      rewrite (IH (Datatypes.S i) j) by now exists c'. f_equal. lia.
Qed.

Lemma get_item_number (l : list nat) : forall k0 k,
  get_item (number k0 l) k
  = if k <? Z.of_nat k0 then None
    else Z.of_nat <$> l !! Z.to_nat (k - Z.of_nat k0).
Proof.
  induction l as [|p l IH]; intros k0 k; simpl.
  - now destruct (k <? Z.of_nat k0).
  - destruct (Z.eqb_spec (Z.of_nat k0) k) as [<-|Hne].
    + rewrite Z.ltb_irrefl, Z.sub_diag. reflexivity.
    + rewrite IH. destruct (Z.ltb_spec k (Z.of_nat k0)) as [Hlt|Hge].
      * destruct (Z.ltb_spec k (Z.of_nat (Datatypes.S k0))); [reflexivity|lia].
      * destruct (Z.ltb_spec k (Z.of_nat (Datatypes.S k0))); [lia|].
        replace (Z.to_nat (k - Z.of_nat k0))
          with (Datatypes.S (Z.to_nat (k - Z.of_nat (Datatypes.S k0))))
          by lia.
        reflexivity.
Qed.

Lemma set_item_fresh (d : ordered_dict) (k v : Z) :
  List.Forall (fun it => fst it < k) d -> set_item d k v = d ++ [(k, v)].
Proof.
  induction 1 as [|[k' v'] d Hk _ IH]; simpl; [reflexivity|].
  simpl in Hk. destruct (Z.eqb_spec k' k); [lia|]. now rewrite IH.
Qed.

Lemma strip_spaces_loop (t : str) : forall i ns_chars (d : ordered_dict),
  List.Forall (fun it => fst it < len ns_chars) d ->
  fold_left (fun (st : str * ordered_dict) (it : nat * N) =>
               let '(ns_chars, ns_to_s_map) := st in
               let '(i, c) := it in
               if (c =? 32)%N then st
               else (ns_chars ++ [c],
                     set_item ns_to_s_map (len ns_chars) (Z.of_nat i)))
    (combine (seq i (List.length t)) t) (ns_chars, d)
  = (ns_chars ++ nonspace t,
     d ++ number (List.length ns_chars) (spots i t)).
Proof.
  induction t as [|c t IH]; intros i ns_chars d Hd; simpl.
  - now rewrite !app_nil_r.
  - destruct (c =? 32)%N; simpl; [now apply IH|].
    rewrite IH.
    + rewrite set_item_fresh by exact Hd.
      rewrite <- !app_assoc. simpl. rewrite length_app. simpl.
      replace (List.length ns_chars + 1)%nat
        with (Datatypes.S (List.length ns_chars)) by lia.
      reflexivity.
    + rewrite set_item_fresh by exact Hd.
      apply List.Forall_app. split.
      * eapply List.Forall_impl; [|exact Hd]. simpl. intros it Hit.
        unfold len in *. rewrite length_app. simpl. lia.
      * constructor; [|constructor]. simpl. unfold len.
        rewrite length_app. simpl. lia.
Qed.

Lemma strip_spaces_closed (t : str) :
  _strip_spaces t = (nonspace t, number 0 (spots 0 t)).
Proof.
  exact (strip_spaces_loop t 0 [] [] (List.Forall_nil _)).
Qed.

(** *** The inverse map *)

Lemma invert_miss (t : str) : forall i0 k0 (m0 : gmap Z Z) (p : Z),
  (forall j, p = Z.of_nat (i0 + j) -> ~ is_spot t j) ->
  fold_left (fun (m : gmap Z Z) (it : Z * Z) => <[snd it := fst it]> m)
    (number k0 (spots i0 t)) m0 !! p = m0 !! p.
Proof.
  induction t as [|c t IH]; intros i0 k0 m0 p Hp; simpl; [reflexivity|].
  assert (Hrest : forall j, p = Z.of_nat (Datatypes.S i0 + j) ->
                  ~ is_spot t j).
  { intros j -> (c' & Hj & Hc'). apply (Hp (Datatypes.S j)); [lia|].
    now exists c'. }
  destruct (N.eqb_spec c 32) as [->|Hc]; simpl.
  - now apply IH.
  - rewrite IH by exact Hrest. simpl. apply lookup_insert_ne.
    intros <-. apply (Hp 0%nat); [lia|]. now exists c.
Qed.

Lemma invert_hit (t : str) : forall i0 k0 (m0 : gmap Z Z) (j : nat),
  is_spot t j ->
  fold_left (fun (m : gmap Z Z) (it : Z * Z) => <[snd it := fst it]> m)
    (number k0 (spots i0 t)) m0 !! Z.of_nat (i0 + j)
  = Some (Z.of_nat (k0 + rank t j)).
Proof.
  induction t as [|c t IH]; intros i0 k0 m0 j (c' & Hj & Hc');
    [discriminate|].
  destruct j as [|j]; simpl in Hj.
  - injection Hj as ->. simpl.
    destruct (N.eqb_spec c' 32); [contradiction|]. simpl.
    rewrite invert_miss by (intros j; lia).
    rewrite Nat.add_0_r. rewrite lookup_insert_eq.
    unfold rank. simpl. now rewrite Nat.add_0_r.
  - simpl. destruct (N.eqb_spec c 32) as [->|Hc]; simpl.
    + replace (i0 + Datatypes.S j)%nat with (Datatypes.S i0 + j)%nat by lia.
      rewrite IH by now exists c'. now rewrite rank_cons_space.
    + replace (i0 + Datatypes.S j)%nat with (Datatypes.S i0 + j)%nat by lia.
      rewrite IH by now exists c'.
      rewrite rank_cons_other by exact Hc. do 2 f_equal. lia.
Qed.

Lemma is_spot_dec (t : str) (j : nat) : {is_spot t j} + {~ is_spot t j}.
Proof.
  unfold is_spot. destruct (t !! j) as [c|].
  - destruct (N.eq_dec c 32%N) as [->|Hc].
    + right. intros (c & [= <-] & H). now apply H.
    + left. now exists c.
  - right. intros (c & H & _). discriminate.
Qed.

Lemma invert_lookup (t : str) (p : Z) :
  invert (number 0 (spots 0 t)) !! p
  = if Z.ltb p 0 then None
    else if is_spot_dec t (Z.to_nat p)
         then Some (Z.of_nat (rank t (Z.to_nat p)))
         else None.
Proof.
  unfold invert. destruct (Z.ltb_spec p 0) as [Hneg|Hpos].
  - rewrite invert_miss by (intros j; lia). apply lookup_empty.
  - destruct (is_spot_dec t (Z.to_nat p)) as [Hs|Hs].
    + rewrite <- (Z2Nat.id p Hpos) at 1.
      now rewrite (invert_hit t 0 0 ∅ (Z.to_nat p) Hs).
    + rewrite invert_miss; [apply lookup_empty|].
      intros j -> Hj. apply Hs. simpl. now rewrite Nat2Z.id.
Qed.

Lemma slice_inside {A} (l : list A) (lo hi : nat) :
  (lo <= hi)%nat -> (hi <= List.length l)%nat ->
  slice l (Z.of_nat lo) (Z.of_nat hi) = take (hi - lo) (drop lo l).
Proof.
  intros H1 H2. unfold slice, clamp, len.
  rewrite (proj2 (Z.ltb_ge (Z.of_nat lo) 0)) by lia.
  rewrite (proj2 (Z.ltb_ge (Z.of_nat hi) 0)) by lia. cbv iota.
  rewrite (proj2 (Z.ltb_ge (Z.of_nat lo) 0)) by lia.
  rewrite (proj2 (Z.ltb_ge (Z.of_nat hi) 0)) by lia.
  destruct (Z.gtb_spec (Z.of_nat lo) (Z.of_nat (List.length l))); [lia|].
  destruct (Z.gtb_spec (Z.of_nat hi) (Z.of_nat (List.length l))); [lia|].
  f_equal; [lia|]. f_equal. lia.
Qed.

Lemma get_item_spots (t : str) (r : nat) :
  get_item (number 0 (spots 0 t)) (Z.of_nat r)
  = Z.of_nat <$> spots 0 t !! r.
Proof.
  rewrite get_item_number. change (Z.of_nat 0) with 0.
  destruct (Z.ltb_spec (Z.of_nat r) 0); [lia|].
  now rewrite Z.sub_0_r, Nat2Z.id.
Qed.

Section ProjectionFacts.
Variable basic_tokenize : bool -> str -> list str.

(** The word position a text position of the tokenized text is projected
    to. *)
Lemma projected_position (orig tok : str) (p : Z) :
  match invert (number 0 (spots 0 tok)) !! p with
  | Some ns => get_item (number 0 (spots 0 orig)) ns
  | None => None
  end
  = if Z.ltb p 0 then None
    else if is_spot_dec tok (Z.to_nat p)
         then Z.of_nat <$> spots 0 orig !! rank tok (Z.to_nat p)
         else None.
Proof.
  rewrite invert_lookup. destruct (p <? 0); [reflexivity|].
  destruct (is_spot_dec tok (Z.to_nat p)); [|reflexivity].
  apply get_item_spots.
Qed.

Lemma get_final_text_closed (pred_text orig_text : str) (lc : bool) :
  get_final_text basic_tokenize pred_text orig_text lc
  = let tok_text := join space (basic_tokenize lc orig_text) in
    let sp := find tok_text pred_text in
    let ep := sp + len pred_text - 1 in
    let project p :=
      if Z.ltb p 0 then None
      else if is_spot_dec tok_text (Z.to_nat p)
           then spots 0 orig_text !! rank tok_text (Z.to_nat p)
           else None in
    if sp =? -1 then orig_text
    else if negb (len (nonspace orig_text) =? len (nonspace tok_text))
    then orig_text
    else match project sp, project ep with
         | Some s, Some e => slice orig_text (Z.of_nat s) (Z.of_nat e + 1)
         | _, _ => orig_text
         end.
Proof.
  unfold get_final_text. cbv zeta.
  destruct (_ =? -1); [reflexivity|].
  rewrite !strip_spaces_closed.
  destruct (negb _); [reflexivity|].
  rewrite !projected_position.
  destruct (_ <? 0); [reflexivity|].
  destruct (is_spot_dec _ _); [|reflexivity].
  destruct (spots 0 orig_text !! _) as [s|]; simpl; [|reflexivity].
  destruct (_ <? 0); [reflexivity|].
  destruct (is_spot_dec _ _); [|reflexivity].
  destruct (spots 0 orig_text !! _) as [e|]; reflexivity.
Qed.
End ProjectionFacts.

Lemma occurs_at_take (sub text : str) (j : nat) :
  occurs_at sub text j -> take (List.length sub) (drop j text) = sub.
Proof. intros [rest ->]. apply take_app_length. Qed.

Lemma occurs_at_lookup (sub text : str) (j i : nat) (c : N) :
  occurs_at sub text j -> sub !! i = Some c -> text !! (j + i)%nat = Some c.
Proof.
  intros [rest H] Hi. unfold str in *.
  rewrite <- lookup_drop, H. now apply lookup_app_l_Some.
Qed.

Lemma find_empty (text : str) : find text [] = 0.
Proof. unfold find. now destruct text. Qed.

(** Where the search succeeds and both ends of the occurrence can be
    projected. *)
Lemma projection_found (tok orig pred : str) (j s e : nat) :
  pred <> [] ->
  occurs_at pred tok j ->
  is_spot tok j -> is_spot tok (j + List.length pred - 1) ->
  spots 0 orig !! rank tok j = Some s ->
  spots 0 orig !! rank tok (j + List.length pred - 1) = Some e ->
  (s <= e < List.length orig)%nat
  /\ is_spot orig s /\ is_spot orig e
  /\ exists a n,
       nonspace (slice orig (Z.of_nat s) (Z.of_nat e + 1))
       = take n (drop a (nonspace orig))
       /\ nonspace pred = take n (drop a (nonspace tok)).
Proof.
  intros Hne Hocc Hsp Hep Hs He.
  assert (Hlen : (1 <= List.length pred)%nat)
    by (destruct pred; [contradiction|simpl; lia]).
  apply spots_select in Hs. destruct Hs as (s' & -> & Hss & Hrs).
  apply spots_select in He. destruct He as (e' & -> & Hse & Hre).
  simpl. 
  assert (Hle : (s' <= e')%nat).
  { destruct (le_lt_dec s' e') as [H|H]; [exact H|].
    pose proof (rank_spot_lt orig e' s' Hse H) as Hlt.
    pose proof (rank_mono tok j (j + List.length pred - 1) ltac:(lia)).
    lia. }
  assert (Hbound : (e' < List.length orig)%nat).
  { destruct Hse as (c & Hc & _). now apply lookup_lt_Some in Hc. }
  split; [lia|]. split; [exact Hss|]. split; [exact Hse|].
  exists (rank tok j),
    (Datatypes.S (rank tok (j + List.length pred - 1)) - rank tok j)%nat.
  split.
  - replace (Z.of_nat e' + 1) with (Z.of_nat (Datatypes.S e')) by lia.
    rewrite slice_inside by lia.
    rewrite nonspace_between.
    replace (s' + (Datatypes.S e' - s'))%nat with (Datatypes.S e') by lia.
    destruct Hse as (c & Hc & Hc').
    rewrite (rank_next orig e' c Hc Hc'). now rewrite Hrs, Hre.
  - rewrite <- (occurs_at_take pred tok j Hocc) at 1.
    rewrite nonspace_between.
    destruct Hep as (c & Hc & Hc').
    rewrite <- (rank_next tok _ c Hc Hc'). do 3 f_equal. lia.
Qed.

Section ProjectionTheorems.
Variable basic_tokenize : bool -> str -> list str.

(** X15. [get_final_text] returns either [orig_text] itself or a
    non-empty slice of it that starts and ends at characters other than
    the space and has as many such characters as the prediction; when
    tokenization changes nothing but spaces, these characters are those
    of the prediction. *)
Theorem final_text_is_a_projection (pred_text orig_text : str) (lc : bool) :
  let tok_text := join space (basic_tokenize lc orig_text) in
  let out := get_final_text basic_tokenize pred_text orig_text lc in
  out = orig_text
  \/ exists s e : nat,
       (s <= e < List.length orig_text)%nat
       /\ out = slice orig_text (Z.of_nat s) (Z.of_nat e + 1)
       /\ is_spot orig_text s /\ is_spot orig_text e
       /\ pred_text <> []
       /\ List.length (nonspace out) = List.length (nonspace pred_text)
       /\ (nonspace tok_text = nonspace orig_text ->
           nonspace out = nonspace pred_text).
Proof.
  cbv zeta. rewrite get_final_text_closed. cbv zeta.
  set (tok_text := join space (basic_tokenize lc orig_text)).
  unfold find.
  destruct (find_from_cases pred_text tok_text 0 ltac:(lia))
    as [[-> _]|(j & -> & _ & Hocc & Hfirst)]; [now left|].
  destruct (_ =? -1); [now left|].
  destruct (Z.eqb_spec (len (nonspace orig_text)) (len (nonspace tok_text)))
    as [Hcount|]; [|now left]. simpl.
  replace (0 + Z.of_nat j) with (Z.of_nat j) by lia.
  destruct (Z.ltb_spec (Z.of_nat j) 0); [lia|]. rewrite Nat2Z.id.
  destruct (is_spot_dec tok_text j) as [Hsp|]; [|now left].
  destruct (spots 0 orig_text !! rank tok_text j) as [s|] eqn:Hs;
    [|now left].
  destruct (Z.ltb_spec (Z.of_nat j + len pred_text - 1) 0) as [|Hep0];
    [now left|].
  assert (Hne : pred_text <> []).
  { intros ->. unfold len in Hep0. simpl in Hep0.
    destruct j as [|j]; [lia|].
    apply (Hfirst 0%nat); [lia|]. now exists tok_text. }
  assert (Hlen : (1 <= List.length pred_text)%nat)
    by (destruct pred_text; [contradiction|simpl; lia]).
  replace (Z.to_nat (Z.of_nat j + len pred_text - 1))
    with (j + List.length pred_text - 1)%nat by (unfold len; lia).
  destruct (is_spot_dec tok_text (j + List.length pred_text - 1))
    as [Hep|]; [|now left].
  destruct (spots 0 orig_text
              !! rank tok_text (j + List.length pred_text - 1))
    as [e|] eqn:He; [|now left].
  right. exists s, e.
  destruct (projection_found tok_text orig_text pred_text j s e
              Hne Hocc Hsp Hep Hs He)
    as (Hse & Hss & Hes & a & n & Hout & Hpred).
  split; [exact Hse|]. split; [reflexivity|]. split; [exact Hss|].
  split; [exact Hes|]. split; [exact Hne|]. split.
  - rewrite Hout, Hpred. rewrite !length_take, !length_drop.
    unfold len in Hcount. lia.
  - intros Hsame. rewrite Hout, Hpred. now rewrite Hsame.
Qed.

(** X16. [get_final_text] gives [orig_text] back unchanged when the
    prediction is empty, when it does not occur in the tokenized text,
    when tokenization changes the number of characters other than
    spaces, and when the prediction starts or ends with a space. *)
Theorem final_text_falls_back (pred_text orig_text : str) (lc : bool) :
  let tok_text := join space (basic_tokenize lc orig_text) in
  pred_text = []
  \/ (forall j, ~ occurs_at pred_text tok_text j)
  \/ List.length (nonspace orig_text) <> List.length (nonspace tok_text)
  \/ head pred_text = Some 32%N
  \/ last pred_text = Some 32%N ->
  get_final_text basic_tokenize pred_text orig_text lc = orig_text.
Proof.
  cbv zeta. intros Hcase. rewrite get_final_text_closed. cbv zeta.
  set (tok_text := join space (basic_tokenize lc orig_text)) in *.
  unfold find.
  destruct (find_from_cases pred_text tok_text 0 ltac:(lia))
    as [[-> _]|(j & -> & _ & Hocc & Hfirst)]; [reflexivity|].
  destruct (_ =? -1); [reflexivity|].
  destruct (Z.eqb_spec (len (nonspace orig_text)) (len (nonspace tok_text)))
    as [Hcount|]; [|reflexivity]. simpl.
  replace (0 + Z.of_nat j) with (Z.of_nat j) by lia.
  destruct (Z.ltb_spec (Z.of_nat j) 0); [lia|]. rewrite Nat2Z.id.
  assert (Hnospot : forall p, tok_text !! p = Some 32%N ->
                    ~ is_spot tok_text p).
  { intros p Hp (c & Hc & Hne). congruence. }
  destruct Hcase as [->|[Hno|[Hcnt|[Hhead|Hlast]]]].
  - destruct j as [|j];
      [|exfalso; apply (Hfirst 0%nat); [lia|now exists tok_text]].
    simpl. destruct (is_spot_dec tok_text 0); [|reflexivity].
    now destruct (spots 0 orig_text !! rank tok_text 0).
  - now destruct (Hno j).
  - unfold len in Hcount. lia.
  - destruct (is_spot_dec tok_text j) as [Hs|]; [|reflexivity].
    exfalso. apply (Hnospot j); [|exact Hs].
    rewrite <- (Nat.add_0_r j).
    apply (occurs_at_lookup pred_text tok_text j 0 _ Hocc).
    rewrite <- Hhead. symmetry. apply head_lookup.
  - destruct (is_spot_dec tok_text j); [|reflexivity].
    destruct (spots 0 orig_text !! rank tok_text j); [|reflexivity].
    assert (Hlen : (1 <= List.length pred_text)%nat)
      by (destruct pred_text; [discriminate|simpl; lia]).
    destruct (Z.ltb_spec (Z.of_nat j + len pred_text - 1) 0);
      [reflexivity|].
    replace (Z.to_nat (Z.of_nat j + len pred_text - 1))
      with (j + (List.length pred_text - 1))%nat by (unfold len; lia).
    destruct (is_spot_dec tok_text (j + (List.length pred_text - 1)))
      as [Hs|]; [|reflexivity].
    exfalso. apply (Hnospot _ (occurs_at_lookup pred_text tok_text j _ _
                                 Hocc (eq_trans (eq_sym (last_lookup _))
                                         Hlast))).
    replace (Init.Nat.pred (List.length pred_text))
      with (List.length pred_text - 1)%nat by lia.
    exact Hs.
Qed.

(** X17. When tokenizing and joining gives [orig_text] back, a prediction
    that occurs in it and neither starts nor ends with a space is
    returned as it is. *)
Theorem final_text_round_trip (pred_text orig_text : str) (lc : bool)
    (j : nat) :
  join space (basic_tokenize lc orig_text) = orig_text ->
  occurs_at pred_text orig_text j ->
  (exists c, head pred_text = Some c /\ c <> 32%N) ->
  (exists c, last pred_text = Some c /\ c <> 32%N) ->
  get_final_text basic_tokenize pred_text orig_text lc = pred_text.
Proof.
  intros Htok Hj (c1 & Hhead & Hc1) (c2 & Hlast & Hc2).
  rewrite get_final_text_closed. cbv zeta. rewrite Htok. unfold find.
  destruct (find_from_cases pred_text orig_text 0 ltac:(lia))
    as [[_ Hno]|(j0 & -> & _ & Hocc & _)]; [now destruct (Hno j)|].
  destruct (Z.eqb_spec (0 + Z.of_nat j0) (-1)); [lia|].
  rewrite Z.eqb_refl. simpl.
  replace (0 + Z.of_nat j0) with (Z.of_nat j0) by lia.
  destruct (Z.ltb_spec (Z.of_nat j0) 0); [lia|]. rewrite Nat2Z.id.
  assert (Hlen : (1 <= List.length pred_text)%nat)
    by (destruct pred_text; [discriminate|simpl; lia]).
  assert (Hs : is_spot orig_text j0).
  { exists c1. split; [|exact Hc1]. rewrite <- (Nat.add_0_r j0).
    apply (occurs_at_lookup pred_text orig_text j0 0 _ Hocc).
    rewrite <- Hhead. symmetry. apply head_lookup. }
  assert (He : is_spot orig_text (j0 + (List.length pred_text - 1))).
  { exists c2. split; [|exact Hc2].
    apply (occurs_at_lookup pred_text orig_text j0 _ _ Hocc).
    rewrite <- Hlast, last_lookup. f_equal. lia. }
  destruct (is_spot_dec orig_text j0); [|contradiction].
  rewrite (spots_rank orig_text 0 j0 Hs).
  destruct (Z.ltb_spec (Z.of_nat j0 + len pred_text - 1) 0);
    [unfold len in *; lia|].
  replace (Z.to_nat (Z.of_nat j0 + len pred_text - 1))
    with (j0 + (List.length pred_text - 1))%nat by (unfold len; lia).
  destruct (is_spot_dec orig_text (j0 + (List.length pred_text - 1)));
    [|contradiction].
  rewrite (spots_rank orig_text 0 _ He). simpl.
  replace (Z.of_nat (j0 + (List.length pred_text - 1)) + 1)
    with (Z.of_nat (j0 + List.length pred_text)) by lia.
  assert (Hbound : (j0 + (List.length pred_text - 1)
                    < List.length orig_text)%nat).
  { destruct He as (c & Hc & _). now apply lookup_lt_Some in Hc. }
  rewrite slice_inside by lia.
  replace (j0 + List.length pred_text - j0)%nat
    with (List.length pred_text) by lia.
  now apply occurs_at_take.
Qed.
End ProjectionTheorems.

Lemma final_text_falls_back_witness :
  get_final_text (fun _ s => [s]) (lit " a") (lit "b a") true = lit "b a".
Proof.
  apply (final_text_falls_back (fun _ s => [s]) (lit " a") (lit "b a") true).
  right. right. right. left. reflexivity.
Defined.

Lemma final_text_round_trip_witness :
  get_final_text (fun _ s => [s]) (lit "b c") (lit "a b c d") true
  = lit "b c".
Proof.
  apply (final_text_round_trip (fun _ s => [s]) (lit "b c") (lit "a b c d")
           true 2).
  - reflexivity.
  - now exists (lit " d").
  - exists 98%N. split; [reflexivity|discriminate].
  - exists 99%N. split; [reflexivity|discriminate].
Defined.

Lemma number_keys (l : list nat) : forall k0,
  List.map fst (number k0 l)
  = List.map Z.of_nat (seq k0 (List.length l)).
Proof.
  induction l as [|p l IH]; intros k0; simpl; [reflexivity|].
  now rewrite IH.
Qed.

(** X18. [_strip_spaces] returns the text without its spaces and a map
    whose keys are the positions [0 .. len(ns_text) - 1] of that string,
    in increasing order; key [k] holds the position in [text] of the
    character that is not a space and has [k] such characters before
    it. *)
Theorem strip_spaces_records_positions (text : str) :
  let ns_text := fst (_strip_spaces text) in
  let ns_to_s_map := snd (_strip_spaces text) in
  ns_text = nonspace text
  /\ List.map fst ns_to_s_map = range 0 (len ns_text)
  /\ forall k i,
       get_item ns_to_s_map k = Some i
       <-> exists j, i = Z.of_nat j /\ is_spot text j
                     /\ k = Z.of_nat (rank text j).
Proof.
  cbv zeta. rewrite strip_spaces_closed. simpl.
  split; [reflexivity|]. split.
  - rewrite number_keys, spots_length. unfold range, len.
    rewrite Z.sub_0_r, Nat2Z.id. apply map_ext. intros a. lia.
  - intros k i. rewrite get_item_number. change (Z.of_nat 0) with 0.
    destruct (Z.ltb_spec k 0) as [Hneg|Hpos].
    + split; [discriminate|]. intros (j & _ & _ & ->). lia.
    + rewrite Z.sub_0_r. split.
      * destruct (spots 0 text !! Z.to_nat k) as [p|] eqn:Hp;
          [|discriminate].
        simpl. intros [= <-]. apply spots_select in Hp.
        destruct Hp as (j & -> & Hs & Hr). exists j.
        split; [reflexivity|]. split; [exact Hs|]. lia.
      * intros (j & -> & Hs & ->). rewrite Nat2Z.id.
        now rewrite (spots_rank text 0 j Hs).
Qed.

(** ** The null score of version-2 mode *)

Lemma Qltb_spec x y :
  (Aggregator.Qltb x y = true /\ (x < y)%Q)
  \/ (Aggregator.Qltb x y = false /\ (y <= x)%Q).
Proof.
  unfold Aggregator.Qltb. destruct (Qle_bool y x) eqn:E; simpl.
  - right. split; [reflexivity|]. now apply Qle_bool_iff.
  - left. split; [reflexivity|]. apply Qnot_le_lt. intros H.
    apply Qle_bool_iff in H. congruence.
Qed.

Lemma index_zero_raises {A} (l : list A) (e : exn) :
  index l 0 = Raise e -> e = IndexError /\ l = [].
Proof. destruct l; [now intros [= <-]|discriminate]. Qed.

Section NullScoreFacts.
Variables (n_best_size max_answer_length : Z).
Variable unique_id_to_result : gmap Z RawResult.t.

#[local] Abbreviation has_null_score :=
  (Nulls.has_null_score unique_id_to_result).
#[local] Abbreviation lacks_null_score :=
  (Nulls.lacks_null_score unique_id_to_result).

Lemma has_null_score_unique feature s0 e0 s1 e1 :
  has_null_score feature s0 e0 -> has_null_score feature s1 e1 ->
  s0 = s1 /\ e0 = e1.
Proof.
  intros (r & Hr & Hs & He) (r' & Hr' & Hs' & He').
  rewrite Hr in Hr'. injection Hr' as <-.
  rewrite Hs in Hs'. rewrite He in He'. split; congruence.
Qed.

Lemma feature_step_null prelim sn idx s e (i : nat) feature :
  match Aggregator.feature_step n_best_size max_answer_length true
          unique_id_to_result (prelim, (sn, idx, s, e)) (i, feature) with
  | Ok (prelim', null') =>
      exists s0 e0,
        has_null_score feature s0 e0
        /\ null' = if Aggregator.Qltb (Float64.add s0 e0) sn
                   then ((Float64.add s0 e0)%Q, Z.of_nat i, s0, e0)
                   else (sn, idx, s, e)
  | Raise err => lacks_null_score feature err
  end.
Proof.
  unfold Aggregator.feature_step.
  destruct (unique_id_to_result !! InputFeatures.unique_id feature)
    as [result|] eqn:Er; simpl; [|left; split; [reflexivity|exact Er]].
  destruct (index (RawResult.start_logits result) 0) as [s0|err] eqn:Es;
    simpl.
  - destruct (index (RawResult.end_logits result) 0) as [e0|err] eqn:Ee;
      simpl.
    + rewrite candidates_spec.
      * destruct (Aggregator.Qltb (Float64.add s0 e0) sn) eqn:Hq; simpl;
          exists s0, e0; rewrite Hq;
          (split; [now exists result|reflexivity]).
      * apply List.Forall_forall. intros x. apply best_indexes_in_range.
      * apply List.Forall_forall. intros x. apply best_indexes_in_range.
    + apply index_zero_raises in Ee. destruct Ee as [-> Hnil].
      right. split; [reflexivity|]. exists result. split; [exact Er|].
      now right.
  - apply index_zero_raises in Es. destruct Es as [-> Hnil].
    right. split; [reflexivity|]. exists result. split; [exact Er|].
    now left.
Qed.

Lemma scan_null (features : list InputFeatures.t) :
  forall (i0 : nat) prelim sn idx s e,
  match for_fold (Aggregator.feature_step n_best_size max_answer_length
                    true unique_id_to_result)
          (combine (seq i0 (List.length features)) features)
          (prelim, (sn, idx, s, e)) with
  | Ok (prelim', (sn', idx', s', e')) =>
      (sn' <= sn)%Q
      /\ (forall k feature, features !! k = Some feature ->
            exists s0 e0, has_null_score feature s0 e0
                          /\ (sn' <= Float64.add s0 e0)%Q)
      /\ ((sn', idx', s', e') = (sn, idx, s, e)
          \/ exists k feature,
               features !! k = Some feature
               /\ idx' = Z.of_nat (i0 + k)
               /\ has_null_score feature s' e'
               /\ sn' = Float64.add s' e'
               /\ (sn' < sn)%Q
               /\ forall k' feature' s0 e0,
                    (k' < k)%nat -> features !! k' = Some feature' ->
                    has_null_score feature' s0 e0 -> (sn' < Float64.add s0 e0)%Q)
  | Raise err =>
      exists feature, In feature features /\ lacks_null_score feature err
  end.
Proof.
  induction features as [|f rest IH]; intros i0 prelim sn idx s e.
  - simpl. split; [apply Qle_refl|].
    split; [intros k feature H; discriminate|]. now left.
  - pose proof (feature_step_null prelim sn idx s e i0 f) as Hstep.
    change (combine (seq i0 (List.length (f :: rest))) (f :: rest))
      with ((i0, f) :: combine (seq (Datatypes.S i0) (List.length rest))
                         rest).
    cbn [for_fold].
    destruct (Aggregator.feature_step _ _ _ _ _ _)
      as [[prelim1 null1]|err]; cbn [bind];
      [|exists f; split; [now left|exact Hstep]].
    destruct Hstep as (s0 & e0 & Hf & ->).
    assert (Hfirst :
      forall sn1 idx1 s1 e1,
        (sn1 <= sn)%Q -> (sn1 <= Float64.add s0 e0)%Q ->
        ((sn1, idx1, s1, e1) = (sn, idx, s, e)
         \/ ((sn1, idx1, s1, e1) = ((Float64.add s0 e0)%Q, Z.of_nat i0, s0, e0)
             /\ (Float64.add s0 e0 < sn)%Q)) ->
        match for_fold (Aggregator.feature_step n_best_size
                          max_answer_length true unique_id_to_result)
                (combine (seq (Datatypes.S i0) (List.length rest)) rest)
                (prelim1, (sn1, idx1, s1, e1)) with
        | Ok (prelim', (sn', idx', s', e')) =>
            (sn' <= sn)%Q
            /\ (forall k feature, (f :: rest) !! k = Some feature ->
                  exists s0 e0, has_null_score feature s0 e0
                                /\ (sn' <= Float64.add s0 e0)%Q)
            /\ ((sn', idx', s', e') = (sn, idx, s, e)
                \/ exists k feature,
                     (f :: rest) !! k = Some feature
                     /\ idx' = Z.of_nat (i0 + k)
                     /\ has_null_score feature s' e'
                     /\ sn' = Float64.add s' e'
                     /\ (sn' < sn)%Q
                     /\ forall k' feature' s0 e0,
                          (k' < k)%nat ->
                          (f :: rest) !! k' = Some feature' ->
                          has_null_score feature' s0 e0 ->
                          (sn' < Float64.add s0 e0)%Q)
        | Raise err =>
            exists feature,
              (f = feature \/ In feature rest)
              /\ lacks_null_score feature err
        end).
    { intros sn1 idx1 s1 e1 Hle1 Hle0 Hnull1.
      specialize (IH (Datatypes.S i0) prelim1 sn1 idx1 s1 e1).
      destruct (for_fold _ _ _) as [[prelim' [[[sn' idx'] s'] e']]|err].
      - destruct IH as (Hle & Hall & Hwhich).
        split; [eapply Qle_trans; eassumption|]. split.
        + intros [|k] feature Hk; simpl in Hk.
          * injection Hk as <-. exists s0, e0. split; [exact Hf|].
            eapply Qle_trans; eassumption.
          * exact (Hall k feature Hk).
        + destruct Hwhich as [Hsame|(k & feature & Hk & -> & Hns & -> & Hlt
                                      & Hearlier)].
          * injection Hsame as -> -> -> ->.
            destruct Hnull1 as [Heq|[Heq Hlt]]; [now left|].
            right. exists 0%nat, f. injection Heq as -> -> -> ->.
            split; [reflexivity|]. split; [f_equal; lia|].
            split; [exact Hf|]. split; [reflexivity|].
            split; [exact Hlt|]. intros k' feature' s2 e2 Hk'. lia.
          * right. exists (Datatypes.S k), feature.
            split; [exact Hk|]. split; [f_equal; lia|].
            split; [exact Hns|]. split; [reflexivity|].
            split; [eapply Qlt_le_trans; eassumption|].
            intros [|k'] feature' s2 e2 Hlt' Hk' Hns'; simpl in Hk'.
            -- injection Hk' as <-.
               destruct (has_null_score_unique _ _ _ _ _ Hf Hns')
                 as [<- <-].
               eapply Qlt_le_trans; eassumption.
            -- apply (Hearlier k' feature' s2 e2); [lia|exact Hk'|exact Hns'].
      - destruct IH as (feature & Hin & Hlack). exists feature.
        split; [now right|exact Hlack]. }
    destruct (Qltb_spec (Float64.add s0 e0) sn) as [[-> Hlt]|[-> Hge]].
    + apply Hfirst; [now apply Qlt_le_weak|apply Qle_refl|].
      right. split; [reflexivity|exact Hlt].
    + apply Hfirst; [apply Qle_refl|exact Hge|now left].
Qed.
End NullScoreFacts.

(** X19. In version-2 mode the scan of an example's features fails only
    at a feature without a raw result ([KeyError]) or with an empty
    score array ([IndexError]).  Otherwise [score_null] is at most
    1000000 and at most the null score of every feature, the float sum
    of its two [[CLS]] scores; and either no feature scored below 1000000
    and the initial values are kept, or [min_null_feature_index] is the
    first feature that attains the least null score and
    [null_start_logit], [null_end_logit] are its two [[CLS]] scores. *)
Theorem null_score_is_first_minimum
    (n_best_size max_answer_length : Z)
    (unique_id_to_result : gmap Z RawResult.t)
    (features : list InputFeatures.t) :
  match for_fold (Aggregator.feature_step n_best_size max_answer_length
                    true unique_id_to_result)
          (enumerate features) ([], Aggregator.null_init) with
  | Ok (prelim_predictions,
        (score_null, min_null_feature_index, null_start_logit,
         null_end_logit)) =>
      (score_null <= 1000000)%Q
      /\ (forall feature, In feature features ->
            exists s0 e0,
              Nulls.has_null_score unique_id_to_result feature s0 e0
              /\ (score_null <= Float64.add s0 e0)%Q)
      /\ ((score_null, min_null_feature_index, null_start_logit,
           null_end_logit) = Aggregator.null_init
          \/ exists k feature,
               features !! k = Some feature
               /\ min_null_feature_index = Z.of_nat k
               /\ Nulls.has_null_score unique_id_to_result feature
                    null_start_logit null_end_logit
               /\ score_null = (Float64.add null_start_logit null_end_logit)%Q
               /\ (score_null < 1000000)%Q
               /\ forall k' feature' s0 e0,
                    (k' < k)%nat -> features !! k' = Some feature' ->
                    Nulls.has_null_score unique_id_to_result feature' s0 e0 ->
                    (score_null < Float64.add s0 e0)%Q)
  | Raise err =>
      exists feature,
        In feature features
        /\ Nulls.lacks_null_score unique_id_to_result feature err
  end.
Proof.
  pose proof (scan_null n_best_size max_answer_length unique_id_to_result
                features 0 [] 1000000%Q 0 0%Q 0%Q) as H.
  unfold enumerate, Aggregator.null_init.
  destruct (for_fold _ _ _) as [[prelim [[[sn idx] s] e]]|err];
    [|exact H].
  destruct H as (Hle & Hall & Hwhich). split; [exact Hle|]. split.
  - intros feature Hin.
    apply list_elem_of_In, list_elem_of_lookup in Hin.
    destruct Hin as [k Hk]. exact (Hall k feature Hk).
  - destruct Hwhich as [Hsame|(k & feature & Hk & Hidx & Hrest)];
      [now left|].
    right. exists k, feature. split; [exact Hk|].
    split; [exact Hidx|exact Hrest].
Qed.

(** ** Aggregation with null answers *)

Section NullModeFacts.
Variable exp : Q -> Q.
Variable get_final_text : str -> str -> bool -> str.
Variables (n_best_size max_answer_length : Z) (do_lower_case : bool).
Variable is_version2 : bool.
Variable unique_id_to_result : gmap Z RawResult.t.
Variables (example : SquadExample.t) (features : list InputFeatures.t).

Lemma feature_step_resolvable prelim null (i : nat) feature prelim' null' :
  features !! i = Some feature ->
  List.Forall (Nbest.resolvable features) prelim ->
  Aggregator.feature_step n_best_size max_answer_length is_version2
    unique_id_to_result (prelim, null) (i, feature) = Ok (prelim', null') ->
  List.Forall (Nbest.resolvable features) prelim'.
Proof.
  intros Hi Hprelim. unfold Aggregator.feature_step.
  destruct (unique_id_to_result !! InputFeatures.unique_id feature)
    as [result|]; simpl; [|discriminate].
  match goal with
  | |- bind ?m _ = _ -> _ => destruct m as [null1|]; simpl; [|discriminate]
  end.
  rewrite candidates_spec.
  - simpl. intros [= <- _].
    apply List.Forall_app. split; [exact Hprelim|].
    apply List.Forall_forall. intros p Hp.
    apply in_flat_map in Hp. destruct Hp as (si & _ & Hp).
    apply in_flat_map in Hp. destruct Hp as (ei & _ & Hp).
    unfold Aggregator.candidate_of in Hp.
    destruct (Aggregator.discarded feature max_answer_length si ei) eqn:Hd;
      [contradiction|].
    apply discarded_false_iff in Hd.
    destruct Hd as (_ & _ & Hs & He & _).
    destruct (index (RawResult.start_logits result) si),
      (index (RawResult.end_logits result) ei); simpl in Hp;
      try contradiction.
    destruct Hp as [<-|[]]. exists feature. simpl.
    split; [now apply index_lookup|]. split; assumption.
  - apply List.Forall_forall. intros x. apply best_indexes_in_range.
  - apply List.Forall_forall. intros x. apply best_indexes_in_range.
Qed.

Lemma scan_resolvable prelim null :
  for_fold (Aggregator.feature_step n_best_size max_answer_length
              is_version2 unique_id_to_result)
    (enumerate features) ([], Aggregator.null_init) = Ok (prelim, null) ->
  List.Forall (Nbest.resolvable features) prelim.
Proof.
  intros Hscan.
  pose proof (for_fold_inv
    (Aggregator.feature_step n_best_size max_answer_length is_version2
       unique_id_to_result)
    (fun st => List.Forall (Nbest.resolvable features) (fst st))
    (fun _ => True) (fun _ _ => True) (enumerate features)) as H.
  specialize (H ltac:(
    intros [prelim0 null0] [i feature] Hin Hp; simpl in Hp;
    apply enumerate_in in Hin;
    destruct (Aggregator.feature_step _ _ _ _ _ _)
      as [[prelim1 null1]|e] eqn:Hs; [|exact I];
    split; [|exact I];
    exact (feature_step_resolvable _ _ _ _ _ _ Hin Hp Hs))
    ([], Aggregator.null_init) (List.Forall_nil _)).
  rewrite Hscan in H. exact (proj1 H).
Qed.

Lemma resolvable_usable p :
  Nbest.resolvable features p -> NullMode.usable features p.
Proof.
  intros (feature & Hf & Hs & He). exists feature.
  split; [exact Hf|]. intros _. split; assumption.
Qed.

(** The n-best loop does not fail on usable predictions, keeps every
    recorded text listed and stops at [n_best_size] entries. *)
Lemma nbest_loop_usable (preds : list PrelimPrediction.t) :
  List.Forall (NullMode.usable features) preds ->
  forall seen nbest,
  NullMode.listed seen nbest ->
  exists seen' nbest',
    Aggregator.nbest_loop get_final_text n_best_size do_lower_case example
      features preds seen nbest = Ok (seen', nbest')
    /\ NullMode.listed seen' nbest'
    /\ len nbest <= len nbest'
    /\ len nbest' <= Z.max (len nbest) n_best_size.
Proof.
  induction 1 as [|pred preds (feature & Hf & Hpos) _ IH];
    intros seen nbest Hlisted; simpl.
  - exists seen, nbest. split; [reflexivity|]. split; [exact Hlisted|lia].
  - destruct (Z.geb_spec (len nbest) n_best_size) as [Hfull|Hroom].
    + exists seen, nbest. split; [reflexivity|].
      split; [exact Hlisted|lia].
    + rewrite Hf. simpl.
      assert (Hgrow : forall entry : NbestPrediction.t,
                len (nbest ++ [entry]) = len nbest + 1)
        by (intros entry; unfold len; rewrite length_app; simpl; lia).
      assert (Hext : forall t s0 e0,
                NullMode.listed (<[t := true]> seen)
                  (nbest ++ [NbestPrediction.mk t s0 e0])).
      { intros t s0 e0 t' Ht'. rewrite List.map_app. apply in_or_app.
        destruct (decide (t = t')) as [<-|Hne]; [right; now left|].
        left. apply Hlisted. now rewrite lookup_insert_ne in Ht'. }
      destruct (Z.gtb_spec (PrelimPrediction.start_index pred) 0)
        as [Hgt|Hle].
      * destruct (Hpos Hgt) as [[os Hs] [oe He]].
        unfold Aggregator.final_text_of. rewrite Hs, He. simpl.
        destruct (bool_decide _).
        -- destruct (IH seen nbest Hlisted)
             as (seen' & nbest' & -> & Hl & H1 & H2).
           exists seen', nbest'. split; [reflexivity|].
           split; [exact Hl|lia].
        -- match goal with
           | |- context [Aggregator.nbest_loop _ _ _ _ _ preds ?s ?n] =>
               destruct (IH s n (Hext _ _ _))
                 as (seen' & nbest' & -> & Hl & H1 & H2)
           end.
           rewrite Hgrow in H1, H2.
           exists seen', nbest'. split; [reflexivity|].
           split; [exact Hl|lia].
      * match goal with
        | |- context [Aggregator.nbest_loop _ _ _ _ _ preds ?s ?n] =>
            destruct (IH s n (Hext _ _ _))
              as (seen' & nbest' & -> & Hl & H1 & H2)
        end.
        rewrite Hgrow in H1, H2.
        exists seen', nbest'. split; [reflexivity|].
        split; [exact Hl|lia].
Qed.
End NullModeFacts.

Lemma best_non_null_from (nbest : list NbestPrediction.t) :
  forall b,
    fold_left (fun best entry =>
                 match best with
                 | Some b => Some b
                 | None =>
                     match NbestPrediction.text entry with
                     | [] => None
                     | _ => Some entry
                     end
                 end) nbest (Some b) = Some b.
Proof. induction nbest as [|x nbest IH]; intros b; simpl; auto. Qed.

(** [best_non_null_entry] is the first entry whose text is not empty. *)
Lemma best_non_null_first (nbest : list NbestPrediction.t) :
  match Aggregator.best_non_null nbest with
  | Some best =>
      exists before after,
        nbest = before ++ best :: after
        /\ List.Forall (fun entry => NbestPrediction.text entry = []) before
        /\ NbestPrediction.text best <> []
  | None => List.Forall (fun entry => NbestPrediction.text entry = []) nbest
  end.
Proof.
  unfold Aggregator.best_non_null.
  induction nbest as [|x nbest IH]; simpl; [constructor|].
  destruct (NbestPrediction.text x) as [|c t] eqn:Hx.
  - destruct (fold_left _ nbest None) as [best|].
    + destruct IH as (before & after & -> & Hb & Hne).
      exists (x :: before), after. split; [reflexivity|].
      split; [now constructor|exact Hne].
    + now constructor.
  - rewrite best_non_null_from. exists [], nbest.
    split; [reflexivity|]. split; [constructor|]. now rewrite Hx.
Qed.

Lemma nbest_json_written (probs : list Q) (nbest : list NbestPrediction.t) :
  List.length probs = List.length nbest ->
  exists nbest_json,
    for_each (fun it : nat * NbestPrediction.t =>
      letr p := index probs (Z.of_nat (fst it)) in
      Ok [ {| Aggregator.nb_text := NbestPrediction.text (snd it);
              Aggregator.nb_probability := p;
              Aggregator.nb_start_logit :=
                NbestPrediction.start_logit (snd it);
              Aggregator.nb_end_logit :=
                NbestPrediction.end_logit (snd it) |} ])
      (enumerate nbest) = Ok nbest_json
    /\ List.Forall2 NullMode.written nbest_json nbest.
Proof.
  intros Hlen.
  set (entry := fun it : nat * NbestPrediction.t =>
    match index probs (Z.of_nat (fst it)) with
    | Ok p =>
        [ {| Aggregator.nb_text := NbestPrediction.text (snd it);
             Aggregator.nb_probability := p;
             Aggregator.nb_start_logit :=
               NbestPrediction.start_logit (snd it);
             Aggregator.nb_end_logit :=
               NbestPrediction.end_logit (snd it) |} ]
    | Raise _ => []
    end).
  exists (List.flat_map entry (enumerate nbest)).
  assert (Hok : forall it, In it (enumerate nbest) ->
                exists p, index probs (Z.of_nat (fst it)) = Ok p).
  { intros [i e] Hin. apply enumerate_in in Hin.
    apply lookup_lt_Some in Hin. simpl.
    apply index_in_range. unfold len. lia. }
  split.
  - apply for_each_total. intros it Hin. subst entry. simpl.
    destruct (Hok it Hin) as [p ->]. reflexivity.
  - unfold enumerate in *. revert Hok. generalize 0%nat as s.
    clear Hlen. induction nbest as [|e nbest IH]; intros s Hok; simpl.
    + constructor.
    + destruct (Hok (s, e) (or_introl eq_refl)) as [p Hp].
      subst entry. simpl in *. rewrite Hp. simpl.
      constructor; [repeat split|].
      apply IH. intros it Hin. apply Hok. now right.
Qed.

Lemma index_zero_nonempty {A} (l : list A) :
  l <> [] -> exists a, index l 0 = Ok a.
Proof. destruct l as [|a l]; [contradiction|]. now exists a. Qed.

(** X20. In version-2 mode, aggregating one example fails at a feature
    without a raw result or with an empty score array, with [IndexError]
    when the example has no feature and [n_best_size >= 1], or with
    [AttributeError].  Otherwise the example has a feature, its n-best
    list has between 1 and [max(0, n_best_size) + 1] entries and lists
    the empty answer, the score difference recorded is [score_null] minus
    the two logits of the first entry whose text is not empty, each of
    the two subtractions rounded to a float, and the answer is that
    entry's text, or the empty text when the difference exceeds the
    threshold. *)
Theorem aggregation_with_null_answers
    (exp : Q -> Q) (get_final_text : str -> str -> bool -> str)
    (n_best_size max_answer_length : Z) (do_lower_case : bool)
    (null_score_diff_threshold : Q)
    (unique_id_to_result : gmap Z RawResult.t)
    (example : SquadExample.t) (features : list InputFeatures.t) :
  match Aggregator.aggregate_example exp get_final_text n_best_size
          max_answer_length do_lower_case true null_score_diff_threshold
          unique_id_to_result example features with
  | Ok out =>
      features <> []
      /\ 1 <= len (Aggregator.out_nbest_json out) <= Z.max 0 n_best_size + 1
      /\ In [] (List.map Aggregator.nb_text (Aggregator.out_nbest_json out))
      /\ exists prelim score_null idx s e before best after,
           for_fold (Aggregator.feature_step n_best_size max_answer_length
                       true unique_id_to_result)
             (enumerate features) ([], Aggregator.null_init)
           = Ok (prelim, (score_null, idx, s, e))
           /\ Aggregator.out_nbest_json out = before ++ best :: after
           /\ List.Forall (fun r => Aggregator.nb_text r = []) before
           /\ Aggregator.nb_text best <> []
           /\ Aggregator.out_score_diff out
              = Some (Float64.sub
                        (Float64.sub score_null
                           (Aggregator.nb_start_logit best))
                        (Aggregator.nb_end_logit best))
           /\ Aggregator.out_prediction out
              = Aggregator.Text
                  (if Aggregator.Qgtb
                        (Float64.sub
                           (Float64.sub score_null
                              (Aggregator.nb_start_logit best))
                           (Aggregator.nb_end_logit best))
                        null_score_diff_threshold
                   then [] else Aggregator.nb_text best)
  | Raise err =>
      (exists feature,
         In feature features
         /\ Nulls.lacks_null_score unique_id_to_result feature err)
      \/ (err = IndexError /\ features = [] /\ 1 <= n_best_size)
      \/ err = AttributeError
  end.
Proof.
  destruct (decide (features = [])) as [->|Hne].
  { unfold Aggregator.aggregate_example. simpl.
    destruct (Z.geb_spec (len (@nil NbestPrediction.t)) n_best_size)
      as [Hn|Hn]; simpl.
    - right. right. reflexivity.
    - right. left. split; [reflexivity|]. split; [reflexivity|].
      unfold len in Hn. simpl in Hn. lia. }
  unfold Aggregator.aggregate_example.
  pose proof (scan_null n_best_size max_answer_length unique_id_to_result
                features 0 [] 1000000%Q 0 0%Q 0%Q) as Hnull.
  pose proof (scan_resolvable n_best_size max_answer_length true
                unique_id_to_result features) as Hres.
  fold (enumerate features) in Hnull.
  change (([] : list PrelimPrediction.t, (1000000%Q, 0, 0%Q, 0%Q)))
    with (([] : list PrelimPrediction.t), Aggregator.null_init) in Hnull.
  destruct (for_fold _ (enumerate features) _)
    as [[prelim [[[score_null idx] s] e]]|err] eqn:Hscan; simpl;
    [|left; exact Hnull].
  specialize (Hres _ _ eq_refl).
  destruct Hnull as (_ & _ & Hwhich).
  set (null_pred := PrelimPrediction.mk idx 0 0 s e).
  set (ranked := Aggregator.sorted_desc
                   (fun x => Float64.add (PrelimPrediction.start_logit x)
                       (PrelimPrediction.end_logit x))
                   (prelim ++ [null_pred])).
  assert (Hranked : List.Forall (NullMode.usable features) ranked).
  { apply List.Forall_forall. intros p Hp. apply in_sorted_desc in Hp.
    apply in_app_or in Hp. destruct Hp as [Hp|[<-|[]]].
    - apply resolvable_usable. rewrite List.Forall_forall in Hres.
      now apply Hres.
    - destruct Hwhich as [Hinit|(k & feature & Hk & Hidx & _)].
      + injection Hinit as _ Hidx _ _.
        destruct (index_zero_nonempty features Hne) as [feature Hf].
        exists feature. subst null_pred. simpl. rewrite Hidx.
        split; [exact Hf|lia].
      + exists feature. subst null_pred. simpl. rewrite Hidx.
        split; [now apply index_lookup|lia]. }
  destruct (nbest_loop_usable get_final_text n_best_size do_lower_case
              example features ranked Hranked ∅ [])
    as (seen' & nbest' & Hloop & Hlisted & _ & Hmax).
  { intros t [v Hv]. now rewrite lookup_empty in Hv. }
  rewrite Hloop. simpl.
  set (nbest := if bool_decide (is_Some (seen' !! ([] : str)))
                then nbest'
                else nbest' ++ [NbestPrediction.mk [] s e]).
  assert (Hnull_in : In [] (List.map NbestPrediction.text nbest)).
  { subst nbest. case_bool_decide as Hs; [now apply Hlisted|].
    rewrite List.map_app. apply in_or_app. right. now left. }
  assert (Hlen : 1 <= len nbest <= Z.max 0 n_best_size + 1).
  { split.
    - destruct nbest; [contradiction|]. unfold len. simpl. lia.
    - subst nbest. unfold len in *. simpl in Hmax.
      destruct (bool_decide _); [lia|]. rewrite length_app. simpl. lia. }
  destruct nbest as [|first others] eqn:Hnbest; [contradiction|].
  rewrite <- Hnbest in *. clear Hnbest first others.
  destruct (Z.geb_spec (len nbest) 1) as [_|]; [|lia]. simpl.
  destruct (nbest_json_written
              (Aggregator._compute_softmax exp
                 (List.map (fun entry =>
                    Float64.add (NbestPrediction.start_logit entry)
                      (NbestPrediction.end_logit entry)) nbest)) nbest)
    as (nbest_json & -> & Hwritten).
  { now rewrite softmax_length, length_map. }
  simpl.
  assert (Hjson : len nbest_json = len nbest).
  { unfold len. f_equal. exact (Forall2_length _ _ _ Hwritten). }
  destruct (Z.geb_spec (len nbest_json) 1) as [_|]; [|lia]. simpl.
  pose proof (best_non_null_first nbest) as Hbest.
  destruct (Aggregator.best_non_null nbest) as [best|];
    [|right; right; reflexivity].
  destruct Hbest as (before & after & Hsplit & Hbefore & Htext).
  rewrite Hsplit in Hwritten.
  apply Forall2_app_inv_r in Hwritten.
  destruct Hwritten as (before' & rest' & Hb' & Hr' & Hjs).
  apply Forall2_cons_inv_r in Hr'.
  destruct Hr' as (best' & after' & (Ht & Hsl & Hel) & Ha' & ->).
  simpl. split; [exact Hne|]. split; [lia|]. split.
  - clear - Hnull_in Hb' Ha' Ht Hsplit Hjs.
    rewrite Hjs.
    assert (Hmap : List.map Aggregator.nb_text (before' ++ best' :: after')
                   = List.map NbestPrediction.text nbest).
    { rewrite Hsplit, !List.map_app. simpl. rewrite Ht. f_equal.
      - clear - Hb'. induction Hb' as [|? ? ? ? [H _] _ IH]; simpl;
          [reflexivity|]. now rewrite H, IH.
      - f_equal. clear - Ha'.
        induction Ha' as [|? ? ? ? [H _] _ IH]; simpl;
          [reflexivity|]. now rewrite H, IH. }
    now rewrite Hmap.
  - exists prelim, score_null, idx, s, e, before', best', after'.
    split; [reflexivity|]. split; [exact Hjs|]. split.
    + clear - Hb' Hbefore. induction Hb' as [|? ? ? ? [H _] _ IH];
        [constructor|].
      inversion Hbefore; subst. constructor; [congruence|now apply IH].
    + split; [now rewrite Ht|]. rewrite Hsl, Hel, Ht.
      split; [reflexivity|].
      now destruct (Aggregator.Qgtb _ _).
Qed.

(** ** Feature extraction at prediction time *)

Lemma window_loop_more_fuel n M d (fuel : nat) : forall s acc r (k : nat),
  Windows.window_loop n M d fuel s acc = Some r ->
  Windows.window_loop n M d (fuel + k) s acc = Some r.
Proof.
  induction fuel as [|fuel IH]; intros s acc r k; simpl; [discriminate|].
  destruct (Windows.window_step n M d s); auto.
Qed.

Lemma truncate_query_length (tokenizer : Tokenizer) (max_query_length : Z)
    (example : SquadExample.t) :
  0 <= max_query_length ->
  len (Builder.truncate_query tokenizer max_query_length example)
  <= max_query_length.
Proof.
  intros Hm. unfold Builder.truncate_query.
  destruct (Z.gtb_spec
              (len (tokenize tokenizer (SquadExample.question_text example)))
              max_query_length) as [Hgt|Hle]; [|exact Hle].
  unfold len in *.
  rewrite <- (Z2Nat.id max_query_length Hm) at 1.
  change 0 with (Z.of_nat 0).
  rewrite slice_inside by lia. rewrite length_take, length_drop. lia.
Qed.

Section PredictionFacts.
Variable tokenizer : Tokenizer.
Variables (max_seq_length doc_stride max_query_length : Z).
Variable is_training : bool.

Lemma convert_example_more_fuel (fuel k : nat) unique_id example_index
    example r :
  Builder.convert_example fuel tokenizer max_seq_length doc_stride
    max_query_length is_training unique_id example_index example = Some r ->
  Builder.convert_example (fuel + k) tokenizer max_seq_length doc_stride
    max_query_length is_training unique_id example_index example = Some r.
Proof.
  unfold Builder.convert_example.
  destruct (Builder.retokenize tokenizer (SquadExample.doc_tokens example))
    as [[t2o o2t] adt].
  destruct (Builder.project_gold _ _ _ _ _) as [[ts te]|e]; [|auto].
  unfold Windows.doc_spans_loop.
  destruct (Windows.window_loop _ _ _ fuel 0 []) as [spans|] eqn:Hloop;
    [|discriminate].
  now rewrite (window_loop_more_fuel _ _ _ _ _ _ _ k Hloop).
Qed.

Lemma convert_examples_more_fuel (examples : list SquadExample.t) :
  forall (fuel k : nat) unique_id example_index r,
  Builder.convert_examples fuel tokenizer max_seq_length doc_stride
    max_query_length is_training unique_id example_index examples = Some r ->
  Builder.convert_examples (fuel + k) tokenizer max_seq_length doc_stride
    max_query_length is_training unique_id example_index examples = Some r.
Proof.
  induction examples as [|example rest IH];
    intros fuel k unique_id example_index r; simpl; [auto|].
  destruct (Builder.convert_example fuel _ _ _ _ _ _ _ _) as [r1|] eqn:H1;
    [|discriminate].
  rewrite (convert_example_more_fuel _ k _ _ _ _ H1).
  destruct r1 as [features|e]; [|auto].
  destruct (Builder.convert_examples fuel _ _ _ _ _ _ _ rest)
    as [r2|] eqn:H2; [|discriminate].
  now rewrite (IH _ k _ _ _ H2).
Qed.
End PredictionFacts.

(** X21. At prediction time, with [max_query_length >= 0],
    [max_seq_length >= max_query_length + 4] and [doc_stride >= 1],
    [convert_examples_to_features] finishes without raising for every
    tokenizer and every list of examples: every window loop terminates
    and no assertion fails, and every feature it returns has its three
    padded sequences of length [max_seq_length]. *)
Theorem prediction_features_total
    (tokenizer : Tokenizer) (max_seq_length doc_stride max_query_length : Z)
    (examples : list SquadExample.t) :
  0 <= max_query_length ->
  max_query_length + 4 <= max_seq_length ->
  1 <= doc_stride ->
  exists (fuel : nat) features,
    (forall k : nat,
       Builder.convert_examples_to_features (fuel + k) examples tokenizer
         max_seq_length doc_stride max_query_length false
       = Some (Ok features))
    /\ List.Forall (Builder.fixed_length max_seq_length) features.
Proof.
  intros Hq Hs Hd. unfold Builder.convert_examples_to_features.
  generalize 1000000000 as unique_id. generalize 0%nat as example_index.
  induction examples as [|example rest IH]; intros example_index unique_id.
  - exists 0%nat, []. split; [reflexivity|constructor].
  - assert (Hbudget : 1 <= Builder.max_tokens_for_doc_of tokenizer
                            max_seq_length max_query_length example).
    { unfold Builder.max_tokens_for_doc_of.
      pose proof (truncate_query_length tokenizer max_query_length example
                    Hq). lia. }
    destruct (convert_example_total tokenizer max_seq_length doc_stride
                max_query_length false unique_id (Z.of_nat example_index)
                example Hbudget Hd) as [features Hfeatures].
    { now exists (None, None). }
    pose proof (convert_example_fixed tokenizer max_seq_length doc_stride
                  max_query_length false unique_id (Z.of_nat example_index)
                  example _ _ ltac:(lia) Hfeatures) as Hfixed.
    simpl in Hfixed.
    destruct (IH (Datatypes.S example_index) (unique_id + len features))
      as (fuel & more & Hmore & Hmfixed).
    set (enough := Windows.enough_fuel
                     (len (Builder.all_doc_tokens_of tokenizer example)))
      in *.
    exists (enough + fuel)%nat, (features ++ more). split.
    + intros k.
      replace (enough + fuel + k)%nat with (enough + (fuel + k))%nat by lia.
      cbn [Builder.convert_examples].
      rewrite (convert_example_more_fuel _ _ _ _ _ _ (fuel + k) _ _ _ _
                 Hfeatures).
      replace (enough + (fuel + k))%nat with (fuel + (enough + k))%nat
        by lia.
      now rewrite Hmore.
    + apply List.Forall_app. split; assumption.
Qed.

Lemma prediction_features_total_witness :
  exists (fuel : nat) features,
    (forall k : nat,
       Builder.convert_examples_to_features (fuel + k)
         [Samples.example_two_words] Samples.char_tokenizer 8 1 4 false
       = Some (Ok features))
    /\ List.Forall (Builder.fixed_length 8) features.
Proof.
  apply (prediction_features_total Samples.char_tokenizer 8 1 4
           [Samples.example_two_words]); lia.
Defined.

(** ** The order of the n-best list *)

Lemma descending_insert {A} (key : A -> Q) (x : A) (l : list A) :
  Order.descending (List.map key l) ->
  Order.descending (List.map key (Aggregator.insert_desc key x l)).
Proof.
  unfold Order.descending.
  induction l as [|y l IH]; intros Hl; simpl.
  - constructor; constructor.
  - inversion Hl as [|? ? Hy Hrest]; subst.
    destruct (Qgtb_spec (key y) (key x)) as [[-> Hlt]|[-> Hle]]; simpl.
    + constructor; [|now apply IH].
      apply List.Forall_forall. intros s Hs.
      apply in_map_iff in Hs. destruct Hs as (z & <- & Hz).
      apply in_insert_desc in Hz. destruct Hz as [->|Hz].
      * now apply Qlt_le_weak.
      * rewrite List.Forall_forall in Hy. apply Hy. now apply in_map.
    + constructor; [|exact Hl].
      constructor; [exact Hle|].
      eapply List.Forall_impl; [|exact Hy]. simpl. intros s Hs.
      eapply Qle_trans; eassumption.
Qed.

Lemma descending_sorted {A} (key : A -> Q) (l : list A) :
  Order.descending (List.map key (Aggregator.sorted_desc key l)).
Proof.
  induction l as [|x l IH]; simpl; [constructor|].
  now apply descending_insert.
Qed.

Lemma descending_sublist (s l : list Q) :
  sublist s l -> Order.descending l -> Order.descending s.
Proof.
  unfold Order.descending. induction 1 as [|x s l Hsub IH|x s l Hsub IH];
    intros Hl.
  - constructor.
  - inversion Hl as [|? ? Hx Hrest]; subst. constructor; [|now apply IH].
    apply List.Forall_forall. intros y Hy.
    rewrite List.Forall_forall in Hx. apply Hx.
    apply list_elem_of_In. eapply elem_of_sublist; [|exact Hsub].
    now apply list_elem_of_In.
  - inversion Hl; subst. now apply IH.
Qed.

Lemma descending_snoc (l : list Q) (x : Q) :
  Order.descending l -> (forall a, In a l -> (x <= a)%Q) ->
  Order.descending (l ++ [x]).
Proof.
  unfold Order.descending. induction 1 as [|a l Ha Hl IH]; intros Hx; simpl.
  - constructor; constructor.
  - constructor.
    + apply List.Forall_app. split; [exact Ha|].
      constructor; [|constructor]. apply Hx. now left.
    + apply IH. intros b Hb. apply Hx. now right.
Qed.

Section OrderFacts.
Variable get_final_text : str -> str -> bool -> str.
Variables (n_best_size : Z) (do_lower_case : bool).
Variables (example : SquadExample.t) (features : list InputFeatures.t).

(** The n-best loop reads a prefix of the ranked predictions and turns
    some of them, in order, into entries with the same two logits; a
    prediction at the [[CLS]] position that it reads leaves the empty
    text recorded. *)
Lemma nbest_loop_consumes (preds : list PrelimPrediction.t) :
  forall seen nbest seen' nbest',
  Aggregator.nbest_loop get_final_text n_best_size do_lower_case example
    features preds seen nbest = Ok (seen', nbest') ->
  exists consumed remaining taken,
    preds = consumed ++ remaining
    /\ sublist taken consumed
    /\ List.map Order.entry_total nbest'
       = List.map Order.entry_total nbest
         ++ List.map Order.prelim_total taken
    /\ (forall t, is_Some (seen !! t) -> is_Some (seen' !! t))
    /\ (forall p, In p consumed -> PrelimPrediction.start_index p <= 0 ->
          is_Some (seen' !! ([] : str))).
Proof.
  induction preds as [|pred preds IH]; intros seen nbest seen' nbest';
    simpl.
  - intros [= <- <-]. exists [], [], []. simpl. rewrite app_nil_r.
    split; [reflexivity|]. split; [constructor|].
    split; [reflexivity|]. split; [auto|]. intros p [].
  - destruct (len nbest >=? n_best_size).
    { intros [= <- <-]. exists [], (pred :: preds), []. simpl.
      rewrite app_nil_r. split; [reflexivity|]. split; [constructor|].
      split; [reflexivity|]. split; [auto|]. intros p []. }
    destruct (index features (PrelimPrediction.feature_index pred))
      as [feature|err]; simpl; [|discriminate].
    assert (Hadd : forall t (seen1 : gmap str bool) nbest1,
      Aggregator.nbest_loop get_final_text n_best_size do_lower_case
        example features preds (<[t := true]> seen)
        (nbest ++ [NbestPrediction.mk t (PrelimPrediction.start_logit pred)
                     (PrelimPrediction.end_logit pred)])
      = Ok (seen1, nbest1) ->
      exists consumed remaining taken,
        pred :: preds = (pred :: consumed) ++ remaining
        /\ sublist taken (pred :: consumed)
        /\ List.map Order.entry_total nbest1
           = List.map Order.entry_total nbest
             ++ List.map Order.prelim_total taken
        /\ (forall t', is_Some (seen !! t') -> is_Some (seen1 !! t'))
        /\ is_Some (seen1 !! t)
        /\ (forall p, In p consumed ->
              PrelimPrediction.start_index p <= 0 ->
              is_Some (seen1 !! ([] : str)))).
    { intros t seen1 nbest1 Hloop.
      destruct (IH _ _ _ _ Hloop)
        as (consumed & remaining & taken & -> & Hsub & Hmap & Hmono & Hcls).
      exists consumed, remaining, (pred :: taken).
      split; [reflexivity|]. split; [now constructor|].
      split; [rewrite Hmap, List.map_app, <- app_assoc; reflexivity|].
      split.
      { intros t' Ht'. apply Hmono.
        destruct (decide (t = t')) as [<-|Hne];
          [rewrite lookup_insert_eq; now eexists
          |now rewrite lookup_insert_ne]. }
      split; [apply Hmono; rewrite lookup_insert_eq; now eexists|].
      exact Hcls. }
    destruct (Z.gtb_spec (PrelimPrediction.start_index pred) 0)
      as [Hgt|Hle].
    + destruct (Aggregator.final_text_of _ _ _ _ _) as [final_text|err];
        simpl; [|discriminate].
      destruct (bool_decide _).
      * intros Hloop.
        destruct (IH _ _ _ _ Hloop)
          as (consumed & remaining & taken & -> & Hsub & Hmap & Hmono
              & Hcls).
        exists (pred :: consumed), remaining, taken.
        split; [reflexivity|]. split; [now constructor|].
        split; [exact Hmap|]. split; [exact Hmono|].
        intros p [<-|Hp] Hstart; [lia|exact (Hcls p Hp Hstart)].
      * intros Hloop.
        destruct (Hadd _ _ _ Hloop)
          as (consumed & remaining & taken & Hsplit & Hsub & Hmap & Hmono
              & _ & Hcls).
        exists (pred :: consumed), remaining, taken.
        split; [exact Hsplit|]. split; [exact Hsub|].
        split; [exact Hmap|]. split; [exact Hmono|].
        intros p [<-|Hp] Hstart; [lia|exact (Hcls p Hp Hstart)].
    + intros Hloop.
      destruct (Hadd _ _ _ Hloop)
        as (consumed & remaining & taken & Hsplit & Hsub & Hmap & Hmono
            & Hself & Hcls).
      exists (pred :: consumed), remaining, taken.
      split; [exact Hsplit|]. split; [exact Hsub|].
      split; [exact Hmap|]. split; [exact Hmono|].
      intros p [<-|Hp] Hstart; [exact Hself|exact (Hcls p Hp Hstart)].
Qed.
End OrderFacts.

Lemma written_totals (nbest_json : list Aggregator.nbest_entry)
    (nbest : list NbestPrediction.t) :
  List.Forall2 NullMode.written nbest_json nbest ->
  List.map Order.record_total nbest_json
  = List.map Order.entry_total nbest.
Proof.
  induction 1 as [|record entry ? ? (_ & Hs & He) _ IH]; simpl;
    [reflexivity|].
  unfold Order.record_total at 1, Order.entry_total at 1.
  now rewrite Hs, He, IH.
Qed.

Lemma aggregate_descending
    (exp : Q -> Q) (get_final_text : str -> str -> bool -> str)
    (n_best_size max_answer_length : Z) (do_lower_case is_version2 : bool)
    (null_score_diff_threshold : Q)
    (unique_id_to_result : gmap Z RawResult.t)
    (example : SquadExample.t) (features : list InputFeatures.t) :
  match Aggregator.aggregate_example exp get_final_text n_best_size
          max_answer_length do_lower_case is_version2
          null_score_diff_threshold unique_id_to_result example features
  with
  | Ok out =>
      Order.descending
        (List.map Order.record_total (Aggregator.out_nbest_json out))
  | Raise _ => True
  end.
Proof.
  unfold Aggregator.aggregate_example.
  destruct (for_fold _ (enumerate features) _)
    as [[prelim [[[score_null idx] s] e]]|err]; simpl; [|exact I].
  set (null_pred := PrelimPrediction.mk idx 0 0 s e).
  set (ranked := Aggregator.sorted_desc _ _).
  destruct (Aggregator.nbest_loop _ _ _ _ _ ranked ∅ [])
    as [[seen' nbest']|err] eqn:Hloop; simpl; [|exact I].
  apply nbest_loop_consumes in Hloop.
  destruct Hloop as (consumed & remaining & taken & Hsplit & Hsub & Hmap
                     & _ & Hcls).
  simpl in Hmap.
  assert (Hranked : Order.descending (List.map Order.prelim_total ranked))
    by apply descending_sorted.
  rewrite Hsplit, List.map_app in Hranked.
  apply ordpairs_app in Hranked. destruct Hranked as [Hcons Hrem].
  assert (Hnb : Order.descending (List.map Order.entry_total nbest')).
  { rewrite Hmap. eapply descending_sublist; [|exact Hcons].
    exact (fmap_sublist Order.prelim_total _ _ Hsub). }
  set (nbest2 := if is_version2 then _ else nbest').
  assert (Hnb2 : Order.descending (List.map Order.entry_total nbest2)).
  { subst nbest2. destruct is_version2; [|exact Hnb].
    case_bool_decide as Hseen; [exact Hnb|].
    rewrite List.map_app. apply descending_snoc; [exact Hnb|].
    intros a Ha. rewrite Hmap in Ha. apply in_map_iff in Ha.
    destruct Ha as (p & <- & Hp).
    apply list_elem_of_In in Hp.
    apply (elem_of_sublist _ _ _ Hp), list_elem_of_In in Hsub.
    assert (Hnull : In null_pred ranked).
    { subst ranked. apply in_sorted_desc, in_or_app. right. now left. }
    rewrite Hsplit in Hnull. apply in_app_or in Hnull.
    destruct Hnull as [Hnull|Hnull].
    - exfalso. apply Hseen. apply (Hcls null_pred Hnull). simpl. lia.
    - apply (Hrem (Order.prelim_total p) (Order.prelim_total null_pred));
        now apply in_map. }
  set (nbest3 := match nbest2 with [] => _ | _ :: _ => nbest2 end).
  assert (Hnb3 : Order.descending (List.map Order.entry_total nbest3)).
  { subst nbest3. destruct nbest2; [|exact Hnb2].
    simpl. constructor; constructor. }
  destruct (len nbest3 >=? 1); simpl; [|exact I].
  destruct (nbest_json_written
              (Aggregator._compute_softmax exp
                 (List.map (fun entry =>
                    Float64.add (NbestPrediction.start_logit entry)
                      (NbestPrediction.end_logit entry)) nbest3)) nbest3)
    as (nbest_json & -> & Hwritten).
  { now rewrite softmax_length, length_map. }
  simpl. apply written_totals in Hwritten.
  destruct (len nbest_json >=? 1); simpl; [|exact I].
  destruct is_version2; simpl.
  - destruct (Aggregator.best_non_null nbest3); [|exact I].
    simpl. now rewrite Hwritten.
  - destruct (index nbest_json 0); simpl; [|exact I].
    now rewrite Hwritten.
Qed.

(** X22. In both modes the n-best list written for an example is in
    non-increasing order of the float sum [start_logit + end_logit], the
    key it was sorted by; this includes the empty answer that version-2
    mode appends when the loop did not reach it. *)
Theorem nbest_list_is_ranked
    (exp : Q -> Q) (get_final_text : str -> str -> bool -> str)
    (n_best_size max_answer_length : Z) (do_lower_case is_version2 : bool)
    (null_score_diff_threshold : Q)
    (unique_id_to_result : gmap Z RawResult.t)
    (example : SquadExample.t) (features : list InputFeatures.t)
    (out : Aggregator.output) :
  Aggregator.aggregate_example exp get_final_text n_best_size
    max_answer_length do_lower_case is_version2 null_score_diff_threshold
    unique_id_to_result example features = Ok out ->
  Order.descending
    (List.map Order.record_total (Aggregator.out_nbest_json out)).
Proof.
  intros H.
  pose proof (aggregate_descending exp get_final_text n_best_size
                max_answer_length do_lower_case is_version2
                null_score_diff_threshold unique_id_to_result example
                features) as Hd.
  now rewrite H in Hd.
Qed.

Lemma nbest_list_is_ranked_witness :
  match Aggregator.aggregate_example MoreSamples.exp2
          (fun _ orig _ => orig) 20 30 true true 0%Q
          {[ 1000000000 := MoreSamples.result_a_a ]}
          MoreSamples.example_a_a [MoreSamples.feature_a_a] with
  | Ok out =>
      List.map Order.record_total (Aggregator.out_nbest_json out)
      = [10; 9; 0]%Q
      /\ Order.descending
           (List.map Order.record_total (Aggregator.out_nbest_json out))
  | Raise _ => False
  end.
Proof.
  destruct (Aggregator.aggregate_example MoreSamples.exp2
              (fun _ orig _ => orig) 20 30 true true 0%Q
              {[ 1000000000 := MoreSamples.result_a_a ]}
              MoreSamples.example_a_a [MoreSamples.feature_a_a])
    as [out|e] eqn:E; [|vm_compute in E; discriminate].
  split; [|exact (nbest_list_is_ranked _ _ _ _ _ _ _ _ _ _ out E)].
  vm_compute in E. injection E as <-. vm_compute. reflexivity.
Defined.

(** ** The gold span in subword coordinates *)

Lemma improve_answer_span_within (doc_tokens : list str)
    (input_start input_end : Z) (tokenizer : Tokenizer)
    (orig_answer_text : str) (k : Z) :
  let r := SpanAligner._improve_answer_span doc_tokens input_start
             input_end tokenizer orig_answer_text in
  fst r <= k <= snd r -> input_start <= k <= input_end.
Proof.
  cbv zeta. unfold SpanAligner._improve_answer_span.
  pose proof (search_spec doc_tokens
                (join space (tokenize tokenizer orig_answer_text))
                input_start input_end) as H.
  destruct (SpanAligner.search _ _ _ _) as [r|]; simpl; [|auto].
  destruct H as (ns & ne & -> & H1 & H2 & H3 & _). simpl. lia.
Qed.

Section GoldSpanFacts.
Variable tokenizer : Tokenizer.

Lemma stream_app (l1 l2 : list str) :
  Retok.stream tokenizer (l1 ++ l2)
  = Retok.stream tokenizer l1 ++ Retok.stream tokenizer l2.
Proof. apply List.flat_map_app. Qed.

Lemma stream_prefix_mono (l : list str) (i j : nat) :
  (i <= j)%nat ->
  (List.length (Retok.stream tokenizer (take i l))
   <= List.length (Retok.stream tokenizer (take j l)))%nat.
Proof.
  intros H. replace j with (i + (j - i))%nat by lia.
  rewrite <- take_take_drop, stream_app, length_app. lia.
Qed.

Lemma stream_prefix_next (l : list str) (i : nat) (w : str) :
  l !! i = Some w ->
  List.length (Retok.stream tokenizer (take (Datatypes.S i) l))
  = (List.length (Retok.stream tokenizer (take i l))
     + List.length (tokenize tokenizer w))%nat.
Proof.
  intros H. rewrite (take_S_r _ _ _ H), stream_app, length_app.
  unfold Retok.stream at 2. simpl. now rewrite app_nil_r.
Qed.

(** Every position of the stream is some subword of some word. *)
Lemma stream_position (l : list str) : forall k : nat,
  (k < List.length (Retok.stream tokenizer l))%nat ->
  exists (i : nat) w (j : nat),
    l !! i = Some w
    /\ (j < List.length (tokenize tokenizer w))%nat
    /\ k = (List.length (Retok.stream tokenizer (take i l)) + j)%nat.
Proof.
  induction l as [|w l IH]; intros k Hk; [simpl in Hk; lia|].
  change (Retok.stream tokenizer (w :: l))
    with (tokenize tokenizer w ++ Retok.stream tokenizer l) in Hk.
  rewrite length_app in Hk.
  destruct (le_lt_dec (List.length (tokenize tokenizer w)) k) as [Hge|Hlt].
  - destruct (IH (k - List.length (tokenize tokenizer w))%nat ltac:(lia))
      as (i & w' & j & Hi & Hj & Hk').
    exists (Datatypes.S i), w', j. split; [exact Hi|]. split; [exact Hj|].
    change (take (Datatypes.S i) (w :: l)) with (w :: take i l).
    change (Retok.stream tokenizer (w :: take i l))
      with (tokenize tokenizer w ++ Retok.stream tokenizer (take i l)).
    rewrite length_app. lia.
  - exists 0%nat, w, k. split; [reflexivity|]. split; [exact Hlt|].
    reflexivity.
Qed.

(** The subwords between the first subword of word [sw] and the last
    subword of word [ew] belong to the words [sw .. ew]. *)
Lemma owners_between (l : list str) (sw ew : nat) (k : nat) :
  (ew < List.length l)%nat ->
  (List.length (Retok.stream tokenizer (take sw l)) <= k)%nat ->
  (k < List.length (Retok.stream tokenizer (take (Datatypes.S ew) l)))%nat ->
  exists i : nat,
    Retok.owners tokenizer 0 l !! k = Some (Z.of_nat i)
    /\ (sw <= i <= ew)%nat.
Proof.
  intros Hew Hlo Hhi.
  assert (Hk : (k < List.length (Retok.stream tokenizer l))%nat).
  { pose proof (stream_prefix_mono l (Datatypes.S ew) (List.length l)
                  ltac:(lia)) as H.
    rewrite firstn_all in H. lia. }
  destruct (stream_position l k Hk) as (i & w & j & Hi & Hj & ->).
  exists i. split.
  - exact (owners_lookup tokenizer l 0 i j w Hi Hj).
  - pose proof (stream_prefix_next l i w Hi) as Hnext. split.
    + destruct (le_lt_dec sw i) as [H|H]; [exact H|].
      pose proof (stream_prefix_mono l (Datatypes.S i) sw ltac:(lia)). lia.
    + destruct (le_lt_dec i ew) as [H|H]; [exact H|].
      pose proof (stream_prefix_mono l (Datatypes.S ew) i ltac:(lia)). lia.
Qed.
End GoldSpanFacts.

(** X23. For an answerable training example whose word positions
    satisfy [0 <= start_position <= end_position < len(doc_tokens)], the
    projection of the gold span to subword coordinates does not raise,
    and every subword position of the span it returns, after
    [_improve_answer_span], belongs to one of the words
    [start_position .. end_position]. *)
Theorem gold_span_inside_answer_words
    (tokenizer : Tokenizer) (example : SquadExample.t)
    (start_position end_position : Z) (orig_answer_text : str) :
  SquadExample.is_impossible example = false ->
  SquadExample.start_position example = Some start_position ->
  SquadExample.end_position example = Some end_position ->
  SquadExample.orig_answer_text example = Some orig_answer_text ->
  0 <= start_position <= end_position ->
  end_position < len (SquadExample.doc_tokens example) ->
  let tok_to_orig_index :=
    fst (fst (Builder.retokenize tokenizer
                (SquadExample.doc_tokens example))) in
  exists tok_start_position tok_end_position,
    Builder.tok_positions_of tokenizer true example
    = Ok (Some tok_start_position, Some tok_end_position)
    /\ forall k, tok_start_position <= k <= tok_end_position ->
         exists w, index tok_to_orig_index k = Ok w
                   /\ start_position <= w <= end_position.
Proof.
  intros Himp Hsp Hep Htext Hse Hlen. cbv zeta.
  unfold Builder.tok_positions_of, Builder.project_gold.
  rewrite retokenize_closed_form, Himp, Hsp, Hep, Htext. simpl.
  set (docs := SquadExample.doc_tokens example) in *.
  unfold len in Hlen.
  set (sw := Z.to_nat start_position).
  set (ew := Z.to_nat end_position).
  assert (Hsw : start_position = Z.of_nat sw) by lia.
  assert (Hew : end_position = Z.of_nat ew) by lia.
  rewrite (index_of_lookup _ start_position _ (proj1 Hse)
             (offsets_lookup tokenizer docs 0 sw ltac:(lia))).
  simpl.
  set (a := 0 + len (Retok.stream tokenizer (take sw docs))).
  set (b := len (Retok.stream tokenizer (take (Datatypes.S ew) docs)) - 1).
  assert (Hend :
    (if end_position <? len docs - 1
     then letr next := index (Retok.offsets tokenizer 0 docs)
                         (end_position + 1) in Ok (next - 1)
     else Ok (len (Retok.stream tokenizer docs) - 1)) = Ok b).
  { destruct (Z.ltb_spec end_position (len docs - 1)) as [Hlt|Hge].
    - unfold len in Hlt.
      replace (end_position + 1) with (Z.of_nat (Datatypes.S ew)) by lia.
      rewrite (index_lookup _ _ _
                 (offsets_lookup tokenizer docs 0 (Datatypes.S ew)
                    ltac:(lia))).
      simpl. subst b. f_equal; lia.
    - unfold len in Hge. subst b. do 3 f_equal.
      rewrite firstn_all2; [reflexivity|lia]. }
  rewrite Hend. simpl.
  pose proof (improve_answer_span_within (Retok.stream tokenizer docs) a b
                tokenizer orig_answer_text) as Hin.
  destruct (SpanAligner._improve_answer_span _ a b _ _) as [ts te].
  simpl in Hin. exists ts, te. split; [reflexivity|].
  intros k Hk. specialize (Hin k Hk). subst a b. unfold len in Hin.
  destruct (owners_between tokenizer docs sw ew (Z.to_nat k))
    as (i & Hi & Hrange); [lia|lia|lia|].
  exists (Z.of_nat i). split; [|lia].
  apply index_of_lookup; [lia|exact Hi].
Qed.

Lemma gold_span_inside_answer_words_witness :
  exists tok_start_position tok_end_position,
    Builder.tok_positions_of Samples.char_tokenizer true
      Samples.example_two_words
    = Ok (Some tok_start_position, Some tok_end_position)
    /\ forall k, tok_start_position <= k <= tok_end_position ->
         exists w,
           index (fst (fst (Builder.retokenize Samples.char_tokenizer
                              (SquadExample.doc_tokens
                                 Samples.example_two_words)))) k = Ok w
           /\ 1 <= w <= 1.
Proof.
  apply (gold_span_inside_answer_words Samples.char_tokenizer
           Samples.example_two_words 1 1 [22823%N; 23398%N]);
    try reflexivity; try lia; unfold len; simpl; lia.
Defined.

(** ** The learning-rate schedule *)

(** X24. With rational numbers for floats: [warmup_linear] divides by
    zero exactly when [warmup] is 0 and [x] is negative; for a positive
    [warmup] and a training progress [x] between 0 and 1 the multiplier
    it returns lies between 0 and 1. *)
Theorem warmup_linear_bounded (x warmup : Q) :
  (Schedule.warmup_linear x warmup = Schedule.ZeroDivisionError
   <-> (warmup == 0 /\ x < 0)%Q)
  /\ ((0 < warmup)%Q -> (0 <= x <= 1)%Q ->
      exists y, Schedule.warmup_linear x warmup = Schedule.Value y
                /\ (0 <= y <= 1)%Q).
Proof.
  unfold Schedule.warmup_linear. split.
  - destruct (Qltb_spec x warmup) as [[-> Hlt]|[-> Hge]].
    + destruct (Qeq_bool warmup 0) eqn:Hz.
      * apply Qeq_bool_iff in Hz. split; [intros _|reflexivity].
        split; [exact Hz|]. now rewrite <- Hz.
      * split; [discriminate|]. intros [Hz' _].
        apply Qeq_bool_iff in Hz'. congruence.
    + split; [discriminate|]. intros [Hz Hx]. exfalso.
      rewrite Hz in Hge. exact (Qlt_not_le _ _ Hx Hge).
  - intros Hw [H0 H1].
    destruct (Qltb_spec x warmup) as [[-> Hlt]|[-> Hge]].
    + destruct (Qeq_bool warmup 0) eqn:Hz.
      * apply Qeq_bool_iff in Hz. rewrite Hz in Hw.
        now apply Qlt_irrefl in Hw.
      * exists (x / warmup)%Q. split; [reflexivity|]. split.
        -- apply Qle_shift_div_l; [exact Hw|]. now rewrite Qmult_0_l.
        -- apply Qle_shift_div_r; [exact Hw|]. rewrite Qmult_1_l.
           now apply Qlt_le_weak.
    + exists (1 - x)%Q. split; [reflexivity|]. split.
      * unfold Qminus. rewrite <- (Qplus_opp_r x).
        apply Qplus_le_compat; [exact H1|apply Qle_refl].
      * unfold Qminus. rewrite <- (Qplus_0_r 1) at 2.
        apply Qplus_le_compat; [apply Qle_refl|].
        apply (Qopp_le_compat 0 x). exact H0.
Qed.

(** ** Writing the predictions of a run *)

Lemma index_results_from (all_results : list RawResult.t) :
  forall (m : gmap Z RawResult.t) (unique_id : Z),
  fold_left (fun m result => <[RawResult.unique_id result := result]> m)
    all_results m !! unique_id = None
  <-> m !! unique_id = None
      /\ forall result, In result all_results ->
                        RawResult.unique_id result <> unique_id.
Proof.
  induction all_results as [|r rs IH]; intros m unique_id; simpl.
  - split; [intros H; split; [exact H|intros ? []]|now intros [H _]].
  - rewrite IH. split.
    + intros [Hm Hrs].
      destruct (decide (RawResult.unique_id r = unique_id)) as [<-|Hne].
      * now rewrite lookup_insert_eq in Hm.
      * rewrite lookup_insert_ne in Hm by exact Hne.
        split; [exact Hm|]. intros result [<-|Hin]; [exact Hne|].
        now apply Hrs.
    + intros [Hm Hrs]. split.
      * rewrite lookup_insert_ne; [exact Hm|]. apply Hrs. now left.
      * intros result Hin. apply Hrs. now right.
Qed.

Lemma index_results_none (all_results : list RawResult.t) (unique_id : Z) :
  Aggregator.index_results all_results !! unique_id = None
  <-> forall result, In result all_results ->
                     RawResult.unique_id result <> unique_id.
Proof.
  unfold Aggregator.index_results. rewrite index_results_from.
  split; [now intros [_ H]|]. intros H. split; [apply lookup_empty|exact H].
Qed.

Lemma index_results_some_from (all_results : list RawResult.t) :
  forall (m : gmap Z RawResult.t) (unique_id : Z) result,
  fold_left (fun m result => <[RawResult.unique_id result := result]> m)
    all_results m !! unique_id = Some result ->
  m !! unique_id = Some result
  \/ (In result all_results /\ RawResult.unique_id result = unique_id).
Proof.
  induction all_results as [|r rs IH]; intros m unique_id result; simpl;
    [now left|].
  intros H. apply IH in H. destruct H as [H|[Hin Hid]].
  - destruct (decide (RawResult.unique_id r = unique_id)) as [<-|Hne].
    + rewrite lookup_insert_eq in H. injection H as <-.
      right. split; [now left|reflexivity].
    + rewrite lookup_insert_ne in H by exact Hne. now left.
  - right. split; [now right|exact Hid].
Qed.

Lemma index_results_some (all_results : list RawResult.t) (unique_id : Z)
    (result : RawResult.t) :
  Aggregator.index_results all_results !! unique_id = Some result ->
  In result all_results /\ RawResult.unique_id result = unique_id.
Proof.
  intros H. apply index_results_some_from in H.
  destruct H as [H|H]; [|exact H]. now rewrite lookup_empty in H.
Qed.

Lemma features_of_in (all_features : list InputFeatures.t)
    (example_index : Z) (feature : InputFeatures.t) :
  In feature (Aggregator.features_of all_features example_index)
  <-> In feature all_features
      /\ InputFeatures.example_index feature = example_index.
Proof.
  unfold Aggregator.features_of. rewrite List.filter_In, Z.eqb_eq.
  reflexivity.
Qed.

(** Without null answers aggregation succeeds when every feature has its
    result and fails with [KeyError] otherwise. *)
Lemma aggregate_no_null_outcome
    (exp : Q -> Q) (get_final_text : str -> str -> bool -> str)
    (n_best_size max_answer_length : Z) (do_lower_case : bool)
    (null_score_diff_threshold : Q)
    (unique_id_to_result : gmap Z RawResult.t)
    (example : SquadExample.t) (features : list InputFeatures.t) :
  match Aggregator.aggregate_example exp get_final_text n_best_size
          max_answer_length do_lower_case false null_score_diff_threshold
          unique_id_to_result example features with
  | Ok out =>
      forall feature, In feature features ->
        is_Some (unique_id_to_result !! InputFeatures.unique_id feature)
  | Raise e =>
      e = KeyError
      /\ exists feature,
           In feature features
           /\ unique_id_to_result !! InputFeatures.unique_id feature = None
  end.
Proof.
  unfold Aggregator.aggregate_example.
  pose proof (scan_no_null n_best_size max_answer_length
                unique_id_to_result features) as Hscan.
  destruct (for_fold _ (enumerate features) _)
    as [[prelim [[[score_null idx] s] e]]|err]; simpl; [|exact Hscan].
  destruct Hscan as (_ & Hres & Hall).
  destruct (nbest_loop_total get_final_text n_best_size do_lower_case
              example features
              (Aggregator.sorted_desc
                 (fun x => Float64.add (PrelimPrediction.start_logit x)
                       (PrelimPrediction.end_logit x)) prelim))
    with (seen := (∅ : gmap str bool)) (nbest := @nil NbestPrediction.t)
    as (seen' & nbest' & Hloop & _ & _).
  { apply List.Forall_forall. intros p Hp. apply in_sorted_desc in Hp.
    rewrite List.Forall_forall in Hres. now apply Hres. }
  rewrite Hloop. simpl.
  set (nbest := match nbest' with
                | [] => nbest' ++ [NbestPrediction.mk (lit "empty") 0 0]
                | _ :: _ => nbest'
                end).
  assert (Hlen : 1 <= len nbest).
  { subst nbest. unfold len. destruct nbest'; simpl; lia. }
  destruct (Z.geb_spec (len nbest) 1) as [_|]; [|lia]. simpl.
  destruct (nbest_json_written
              (Aggregator._compute_softmax exp
                 (List.map (fun entry =>
                    Float64.add (NbestPrediction.start_logit entry)
                      (NbestPrediction.end_logit entry)) nbest)) nbest)
    as (nbest_json & -> & Hwritten).
  { now rewrite softmax_length, length_map. }
  simpl. apply Forall2_length in Hwritten.
  destruct (Z.geb_spec (len nbest_json) 1) as [_|];
    [|unfold len in *; lia].
  simpl. destruct nbest_json as [|top rest];
    [unfold len in Hlen; simpl in Hwritten; lia|].
  simpl. exact Hall.
Qed.


Lemma dict_set_keys {V} (d : list (str * V)) (key : str) (value : V) :
  List.map fst (Aggregator.dict_set d key value)
  = if decide (key ∈ List.map fst d) then List.map fst d
    else List.map fst d ++ [key].
Proof.
  induction d as [|[k v] d IH]; simpl.
  - destruct (decide (key ∈ [])) as [H|_]; [|reflexivity].
    now apply elem_of_nil in H.
  - destruct (decide (k = key)) as [->|Hne]; simpl.
    + destruct (decide (key ∈ key :: List.map fst d)) as [_|H];
        [reflexivity|]. exfalso. apply H. left.
    + rewrite IH.
      destruct (decide (key ∈ List.map fst d)) as [Hin|Hnin];
        destruct (decide (key ∈ k :: List.map fst d)) as [Hin'|Hnin'];
        try reflexivity.
      * exfalso. apply Hnin'. now right.
      * exfalso. apply elem_of_cons in Hin'.
        destruct Hin' as [->|Hin']; [now apply Hne|now apply Hnin].
Qed.

Lemma dict_set_in {V} (d : list (str * V)) (key : str) (value : V)
    (k : str) (v : V) :
  List.NoDup (List.map fst d) ->
  In (k, v) (Aggregator.dict_set d key value) ->
  (k = key /\ v = value) \/ (k <> key /\ In (k, v) d).
Proof.
  induction d as [|[k0 v0] d IH]; simpl; intros Hnd Hin.
  - destruct Hin as [[= <- <-]|[]]. now left.
  - inversion Hnd as [|? ? Hk0 Hd]; subst.
    destruct (decide (k0 = key)) as [->|Hne]; simpl in Hin.
    + destruct Hin as [[= <- <-]|Hin]; [now left|].
      right. split; [|now right]. intros ->. apply Hk0.
      now apply (in_map fst) in Hin.
    + destruct Hin as [[= <- <-]|Hin].
      * right. split; [exact Hne|now left].
      * destruct (IH Hd Hin) as [H|[H1 H2]]; [now left|].
        right. split; [exact H1|now right].
Qed.

Lemma dict_set_nodup {V} (d : list (str * V)) (key : str) (value : V) :
  List.NoDup (List.map fst d) ->
  List.NoDup (List.map fst (Aggregator.dict_set d key value)).
Proof.
  intros Hnd. rewrite dict_set_keys.
  destruct (decide (key ∈ List.map fst d)) as [Hin|Hnin]; [exact Hnd|].
  apply NoDup_ListNoDup, NoDup_app. split; [now apply NoDup_ListNoDup|].
  split; [|apply NoDup_singleton].
  intros k Hk Hk'. apply list_elem_of_singleton in Hk'. now subst k.
Qed.

Lemma first_occurrences_from_spec (keys : list str) : forall seen,
  List.NoDup seen ->
  List.NoDup (seen ++ Dict.first_occurrences_from seen keys)
  /\ forall k, In k (seen ++ Dict.first_occurrences_from seen keys)
               <-> In k seen \/ In k keys.
Proof.
  induction keys as [|k0 keys IH]; intros seen Hnd; simpl.
  - rewrite app_nil_r. split; [exact Hnd|]. intros k. tauto.
  - destruct (decide (k0 ∈ seen)) as [Hin|Hnin].
    + destruct (IH seen Hnd) as [H1 H2]. split; [exact H1|].
      intros k. rewrite H2. apply list_elem_of_In in Hin.
      split; [tauto|]. intros [H|[<-|H]]; tauto.
    + assert (Hnd' : List.NoDup (seen ++ [k0])).
      { apply NoDup_ListNoDup, NoDup_app.
        split; [now apply NoDup_ListNoDup|].
        split; [|apply NoDup_singleton].
        intros k Hk Hk'. apply list_elem_of_singleton in Hk'.
        now subst k. }
      destruct (IH (seen ++ [k0]) Hnd') as [H1 H2].
      rewrite <- app_assoc in H1, H2. simpl in H1, H2.
      split; [exact H1|]. intros k. rewrite H2, in_app_iff. simpl.
      tauto.
Qed.

Section WriteFacts.
Variable exp : Q -> Q.
Variable get_final_text : str -> str -> bool -> str.
Variables (n_best_size max_answer_length : Z).
Variables (do_lower_case is_version2 : bool).
Variable null_score_diff_threshold : Q.
Variable all_features : list InputFeatures.t.
Variable unique_id_to_result : gmap Z RawResult.t.

#[local] Abbreviation aggregate i example :=
  (Aggregator.aggregate_example exp get_final_text n_best_size
     max_answer_length do_lower_case is_version2 null_score_diff_threshold
     unique_id_to_result example
     (Aggregator.features_of all_features (Z.of_nat i))).

#[local] Abbreviation write_step :=
  (fun (written : list (str * Aggregator.output))
       (it : nat * SquadExample.t) =>
     letr out := aggregate (fst it) (snd it) in
     Ok (Aggregator.dict_set written (SquadExample.qas_id (snd it)) out)).

(** The loop over the examples stops at the first example whose
    aggregation raises; otherwise every example has put its output under
    its [qas_id], a later one replacing an earlier one in place. *)
Lemma write_loop (l : list SquadExample.t) :
  forall (i0 : nat) (written : list (str * Aggregator.output)),
  List.NoDup (List.map fst written) ->
  match for_fold write_step (combine (seq i0 (List.length l)) l) written
  with
  | Ok written' =>
      List.map fst written'
      = List.map fst written
        ++ Dict.first_occurrences_from (List.map fst written)
             (List.map SquadExample.qas_id l)
      /\ List.NoDup (List.map fst written')
      /\ (forall (j : nat) example, l !! j = Some example ->
            exists out, aggregate (i0 + j)%nat example = Ok out)
      /\ (forall qas_id out, In (qas_id, out) written' ->
            (In (qas_id, out) written
             /\ forall example, In example l ->
                  SquadExample.qas_id example <> qas_id)
            \/ exists (j : nat) example,
                 l !! j = Some example
                 /\ SquadExample.qas_id example = qas_id
                 /\ aggregate (i0 + j)%nat example = Ok out
                 /\ forall (j' : nat) example',
                      (j < j')%nat -> l !! j' = Some example' ->
                      SquadExample.qas_id example' <> qas_id)
  | Raise e =>
      exists (j : nat) example,
        l !! j = Some example /\ aggregate (i0 + j)%nat example = Raise e
  end.
Proof.
  induction l as [|example rest IH]; intros i0 written Hnd.
  - simpl. rewrite app_nil_r. split; [reflexivity|].
    split; [exact Hnd|]. split; [intros j example H; discriminate|].
    intros qas_id out Hin. left. split; [exact Hin|]. intros example [].
  - change (combine (seq i0 (List.length (example :: rest)))
              (example :: rest))
      with ((i0, example)
            :: combine (seq (Datatypes.S i0) (List.length rest)) rest).
    cbn [for_fold]. cbn beta. cbn [fst snd].
    destruct (aggregate i0 example) as [out0|e] eqn:Hagg; cbn [bind].
    + set (written1 := Aggregator.dict_set written
                         (SquadExample.qas_id example) out0).
      pose proof (dict_set_nodup written (SquadExample.qas_id example) out0
                    Hnd) as Hnd1.
      specialize (IH (Datatypes.S i0) written1 Hnd1).
      destruct (for_fold _ _ written1) as [written'|e].
      * destruct IH as (Hkeys & Hnd' & Hall & Hentries).
        split; [|split; [exact Hnd'|split]].
        -- rewrite Hkeys. subst written1. rewrite dict_set_keys. simpl.
           destruct (decide (SquadExample.qas_id example
                             ∈ List.map fst written)); [reflexivity|].
           now rewrite <- app_assoc.
        -- intros [|j] ex Hj; simpl in Hj.
           ++ injection Hj as <-. exists out0.
              now rewrite Nat.add_0_r.
           ++ destruct (Hall j ex Hj) as [out Hout]. exists out.
              now replace (i0 + Datatypes.S j)%nat
                with (Datatypes.S i0 + j)%nat by lia.
        -- intros qas_id out Hin.
           destruct (Hentries qas_id out Hin)
             as [[Hin1 Hrest]|(j & ex & Hj & Hid & Hout & Hlater)].
           ++ destruct (dict_set_in _ _ _ _ _ Hnd Hin1)
                as [[-> ->]|[Hne Hin0]].
              ** right. exists 0%nat, example. split; [reflexivity|].
                 split; [reflexivity|]. rewrite Nat.add_0_r.
                 split; [exact Hagg|].
                 intros [|j'] ex' Hlt Hj'; [lia|]. simpl in Hj'.
                 apply Hrest. apply list_elem_of_In.
                 apply list_elem_of_lookup. now exists j'.
              ** left. split; [exact Hin0|].
                 intros ex [<-|Hex]; [congruence|now apply Hrest].
           ++ right. exists (Datatypes.S j), ex. split; [exact Hj|].
              split; [exact Hid|]. split.
              ** now replace (i0 + Datatypes.S j)%nat
                   with (Datatypes.S i0 + j)%nat by lia.
              ** intros [|j'] ex' Hlt Hj'; [lia|]. simpl in Hj'.
                 apply (Hlater j' ex'); [lia|exact Hj'].
      * destruct IH as (j & ex & Hj & Hraise).
        exists (Datatypes.S j), ex. split; [exact Hj|].
        now replace (i0 + Datatypes.S j)%nat
          with (Datatypes.S i0 + j)%nat by lia.
    + exists 0%nat, example. split; [reflexivity|].
      now rewrite Nat.add_0_r.
Qed.
End WriteFacts.

(** X25. Without null answers [write_predictions] fails only with
    [KeyError], exactly when a feature of one of the examples has no
    result with its [unique_id] in [all_results].  Otherwise the
    dictionaries it fills have one key per distinct [qas_id], in the
    order in which the ids first occur among the examples, and under
    each key the output of the last example that carries it. *)
Theorem predictions_without_null_answers
    (exp : Q -> Q) (get_final_text : str -> str -> bool -> str)
    (n_best_size max_answer_length : Z) (do_lower_case : bool)
    (null_score_diff_threshold : Q)
    (all_examples : list SquadExample.t)
    (all_features : list InputFeatures.t)
    (all_results : list RawResult.t) :
  let listed feature :=
    In feature all_features
    /\ 0 <= InputFeatures.example_index feature < len all_examples in
  let answered feature :=
    exists result,
      In result all_results
      /\ RawResult.unique_id result = InputFeatures.unique_id feature in
  let aggregate (j : nat) example :=
    Aggregator.aggregate_example exp get_final_text n_best_size
      max_answer_length do_lower_case false null_score_diff_threshold
      (Aggregator.index_results all_results) example
      (Aggregator.features_of all_features (Z.of_nat j)) in
  match Aggregator.write_predictions exp get_final_text n_best_size
          max_answer_length do_lower_case false null_score_diff_threshold
          all_examples all_features all_results with
  | Ok written =>
      List.map fst written
      = Dict.first_occurrences
          (List.map SquadExample.qas_id all_examples)
      /\ List.NoDup (List.map fst written)
      /\ (forall qas_id, In qas_id (List.map fst written)
            <-> In qas_id (List.map SquadExample.qas_id all_examples))
      /\ (forall qas_id out, In (qas_id, out) written ->
            exists (j : nat) example,
              all_examples !! j = Some example
              /\ SquadExample.qas_id example = qas_id
              /\ aggregate j example = Ok out
              /\ forall (j' : nat) example',
                   (j < j')%nat -> all_examples !! j' = Some example' ->
                   SquadExample.qas_id example' <> qas_id)
      /\ forall feature, listed feature -> answered feature
  | Raise e =>
      e = KeyError
      /\ exists feature, listed feature /\ ~ answered feature
  end.
Proof.
  cbv zeta. unfold Aggregator.write_predictions.
  pose proof (write_loop exp get_final_text n_best_size max_answer_length
                do_lower_case false null_score_diff_threshold all_features
                (Aggregator.index_results all_results) all_examples 0 []
                (List.NoDup_nil _)) as H.
  fold (enumerate all_examples) in H.
  assert (Hagg : forall (j : nat) example,
    match Aggregator.aggregate_example exp get_final_text n_best_size
            max_answer_length do_lower_case false
            null_score_diff_threshold
            (Aggregator.index_results all_results) example
            (Aggregator.features_of all_features (Z.of_nat j)) with
    | Ok _ =>
        forall feature,
          In feature all_features ->
          InputFeatures.example_index feature = Z.of_nat j ->
          exists result,
            In result all_results
            /\ RawResult.unique_id result = InputFeatures.unique_id feature
    | Raise e =>
        e = KeyError
        /\ exists feature,
             In feature all_features
             /\ InputFeatures.example_index feature = Z.of_nat j
             /\ forall result, In result all_results ->
                  RawResult.unique_id result
                  <> InputFeatures.unique_id feature
    end).
  { intros j example.
    pose proof (aggregate_no_null_outcome exp get_final_text n_best_size
                  max_answer_length do_lower_case null_score_diff_threshold
                  (Aggregator.index_results all_results) example
                  (Aggregator.features_of all_features (Z.of_nat j))) as Ha.
    destruct (Aggregator.aggregate_example _ _ _ _ _ _ _ _ _ _)
      as [out|e].
    - intros feature Hin Hidx.
      destruct (Ha feature (proj2 (features_of_in _ _ _) (conj Hin Hidx)))
        as [result Hresult].
      exists result. now apply index_results_some.
    - destruct Ha as (-> & feature & Hin & Hnone).
      apply features_of_in in Hin. destruct Hin as [Hin Hidx].
      split; [reflexivity|]. exists feature. split; [exact Hin|].
      split; [exact Hidx|]. now apply index_results_none. }
  destruct (for_fold _ (enumerate all_examples) []) as [written|e].
  - destruct H as (Hkeys & Hnd & Hall & Hentries). simpl in Hkeys.
    split; [exact Hkeys|]. split; [exact Hnd|]. split; [|split].
    + intros qas_id. rewrite Hkeys.
      destruct (first_occurrences_from_spec
                  (List.map SquadExample.qas_id all_examples) []
                  (List.NoDup_nil _)) as [_ Hmem].
      simpl in Hmem. unfold Dict.first_occurrences. rewrite Hmem. tauto.
    + intros qas_id out Hin.
      destruct (Hentries qas_id out Hin) as [[[] _]|Hfound].
      exact Hfound.
    + intros feature [Hin Hrange].
      destruct (all_examples
                  !! Z.to_nat (InputFeatures.example_index feature))
        as [example|] eqn:Hex;
        [|apply lookup_ge_None in Hex; unfold len in Hrange; lia].
      destruct (Hall _ _ Hex) as [out Hout]. simpl in Hout.
      pose proof (Hagg (Z.to_nat (InputFeatures.example_index feature))
                    example) as Ha.
      rewrite Hout in Ha. apply Ha; [exact Hin|lia].
  - destruct H as (j & example & Hj & Hraise). simpl in Hraise.
    pose proof (Hagg j example) as Ha. rewrite Hraise in Ha.
    destruct Ha as (-> & feature & Hin & Hidx & Hnone).
    split; [reflexivity|]. exists feature. split.
    + split; [exact Hin|]. apply lookup_lt_Some in Hj. unfold len. lia.
    + intros (result & Hr & Hid). exact (Hnone result Hr Hid).
Qed.

(** ** The keys of the maps of a feature *)

Section KeyFacts.
Variables (tokenizer : Tokenizer).
Variables (max_seq_length doc_stride max_query_length : Z).
Variable is_training : bool.

Lemma slice_keys (doc_spans : list DocSpan.t) (doc_span_index : nat)
    (doc_span : DocSpan.t) (tok_to_orig_index : list Z)
    (all_doc_tokens : list str) (tokens0 : list str) (l : list Z) :
  forall tokens (m1 : gmap Z Z) (m2 : gmap Z bool) segment_ids
         tokens' m1' m2' segment_ids',
  len tokens0 <= len tokens ->
  (forall p, is_Some (m1 !! p) \/ is_Some (m2 !! p) ->
             len tokens0 <= p < len tokens) ->
  for_fold (Builder.slice_step doc_spans doc_span_index doc_span
              tok_to_orig_index all_doc_tokens) l
    (tokens, m1, m2, segment_ids) = Ok (tokens', m1', m2', segment_ids') ->
  forall p, is_Some (m1' !! p) \/ is_Some (m2' !! p) ->
            len tokens0 <= p < len tokens'.
Proof.
  induction l as [|i l IH];
    intros tokens m1 m2 segment_ids tokens' m1' m2' segment_ids' Hlen Hkeys;
    simpl.
  - intros [= <- <- <- <-]. exact Hkeys.
  - unfold Builder.slice_step at 1.
    destruct (index tok_to_orig_index _) as [orig|e]; simpl; [|discriminate].
    destruct (index all_doc_tokens _) as [token|e]; simpl; [|discriminate].
    apply IH.
    + unfold len in *. rewrite length_app. simpl. lia.
    + intros p Hp.
      assert (Hgrow : len (tokens ++ [token]) = len tokens + 1)
        by (unfold len; rewrite length_app; simpl; lia).
      rewrite Hgrow.
      destruct (decide (p = len tokens)) as [->|Hne]; [lia|].
      rewrite !lookup_insert_ne in Hp by congruence.
      specialize (Hkeys p Hp). lia.
Qed.

Lemma build_window_keys example_index example query_tokens
    tok_to_orig_index all_doc_tokens tok_start_position tok_end_position
    doc_spans unique_id doc_span_index doc_span feature :
  Builder.build_window tokenizer max_seq_length is_training example_index
    example query_tokens tok_to_orig_index all_doc_tokens
    tok_start_position tok_end_position doc_spans unique_id doc_span_index
    doc_span = Ok feature ->
  Keys.inside_document feature.
Proof.
  intros H. apply build_window_inv in H.
  destruct H as (tokens & m1 & m2 & segment_ids & gold & Hloop & _ & ->).
  intros p Hp. simpl in Hp |- *.
  assert (Hempty : forall q : Z,
            is_Some ((∅ : gmap Z Z) !! q)
            \/ is_Some ((∅ : gmap Z bool) !! q) ->
            len ([Builder.CLS] ++ query_tokens ++ [Builder.SEP]) <= q
            < len ([Builder.CLS] ++ query_tokens ++ [Builder.SEP])).
  { intros q [[v Hq]|[v Hq]]; now rewrite lookup_empty in Hq. }
  pose proof (slice_keys _ _ _ _ _
                ([Builder.CLS] ++ query_tokens ++ [Builder.SEP]) _ _ _ _ _
                _ _ _ _ (Z.le_refl _) Hempty Hloop p Hp) as Hrange.
  unfold len in *. rewrite length_app. simpl in *.
  rewrite length_app in Hrange. simpl in Hrange. lia.
Qed.

Lemma convert_example_keys fuel unique_id example_index example features :
  Builder.convert_example fuel tokenizer max_seq_length doc_stride
    max_query_length is_training unique_id example_index example
  = Some (Ok features) ->
  List.Forall Keys.inside_document features.
Proof.
  unfold Builder.convert_example.
  destruct (Builder.retokenize tokenizer (SquadExample.doc_tokens example))
    as [[t2o o2t] adt].
  destruct (Builder.project_gold _ _ _ _ _) as [[ts te]|e]; [|discriminate].
  destruct (Windows.doc_spans_loop _ _ _ _) as [doc_spans|]; [|discriminate].
  intros [= H]. apply build_windows_lookup in H. destruct H as [_ H].
  apply List.Forall_forall. intros feature Hin.
  apply list_elem_of_In, list_elem_of_lookup in Hin.
  destruct Hin as [k Hk]. destruct (H k feature Hk) as (i & sp & _ & Hb).
  exact (build_window_keys _ _ _ _ _ _ _ _ _ _ _ _ Hb).
Qed.

Lemma convert_examples_keys (examples : list SquadExample.t) :
  forall fuel unique_id example_index features,
  Builder.convert_examples fuel tokenizer max_seq_length doc_stride
    max_query_length is_training unique_id example_index examples
  = Some (Ok features) ->
  List.Forall Keys.inside_document features.
Proof.
  induction examples as [|example rest IH];
    intros fuel unique_id example_index features; simpl.
  - intros [= <-]. constructor.
  - destruct (Builder.convert_example _ _ _ _ _ _ _ _ _)
      as [[first|e]|] eqn:H1; try discriminate.
    destruct (Builder.convert_examples _ _ _ _ _ _ _ _ rest)
      as [[more|e]|] eqn:H2; try discriminate.
    intros [= <-]. apply List.Forall_app. split.
    + exact (convert_example_keys _ _ _ _ _ H1).
    + exact (IH _ _ _ _ H2).
Qed.
End KeyFacts.

(** X26. In every feature [convert_examples_to_features] returns, the
    keys of [token_to_orig_map] and [token_is_max_context] are window
    positions after [[CLS]] and the first [[SEP]] and before the last
    [[SEP]]; hence a pair whose start position is 0 or 1 never passes
    the candidate filters of [write_predictions]. *)
Theorem built_features_key_document_positions
    (fuel : nat) (examples : list SquadExample.t) (tokenizer : Tokenizer)
    (max_seq_length doc_stride max_query_length : Z) (is_training : bool)
    (features : list InputFeatures.t) :
  Builder.convert_examples_to_features fuel examples tokenizer
    max_seq_length doc_stride max_query_length is_training
  = Some (Ok features) ->
  List.Forall Keys.inside_document features
  /\ forall feature max_answer_length start_index end_index,
       In feature features ->
       start_index <= 1 ->
       Aggregator.discarded feature max_answer_length start_index end_index
       = true.
Proof.
  intros H. unfold Builder.convert_examples_to_features in H.
  apply convert_examples_keys in H. split; [exact H|].
  intros feature max_answer_length start_index end_index Hin Hstart.
  rewrite List.Forall_forall in H. specialize (H feature Hin).
  destruct (Aggregator.discarded feature max_answer_length start_index
              end_index) eqn:Hd; [reflexivity|].
  apply discarded_false_iff in Hd.
  destruct Hd as (_ & _ & Hs & _).
  specialize (H start_index (or_introl Hs)). lia.
Qed.

Lemma built_features_key_document_positions_witness :
  match Builder.convert_examples_to_features 10 [Samples.example_two_words]
          Samples.char_tokenizer 8 1 4 false with
  | Some (Ok features) =>
      List.Forall Keys.inside_document features
      /\ forall feature max_answer_length start_index end_index,
           In feature features ->
           start_index <= 1 ->
           Aggregator.discarded feature max_answer_length start_index
             end_index = true
  | _ => False
  end.
Proof.
  destruct (Builder.convert_examples_to_features 10
              [Samples.example_two_words] Samples.char_tokenizer 8 1 4 false)
    as [[features|e]|] eqn:E; try (vm_compute in E; discriminate).
  exact (built_features_key_document_positions _ _ _ _ _ _ _ _ E).
Defined.
